(* ===== verification/_CoqProject ===== *)
-Q . S2P
Prelude.v
GoText.v
Chunk.v
Resume.v
Worker.v
Admission.v
Pool.v
PoolRun.v
PoolInv.v
PoolLive.v
PoolProps.v
Crop.v
Merge.v
Validation.v
Mux.v
SvtCmd.v
Orchestrator.v
Videos.v
Report.v
CLI.v
Library.v
TempFile.v
