(* ===== verification/Prelude.v ===== *)
(** * A verification development for reel (five82/reel)

    reel is a batch AV1 transcoder written in Go.  Its core is a parallel
    chunked-encoding engine.  The engine splits a source into frame-range
    chunks.  A bounded pool of goroutines streams decoded frames into one
    SvtAv1EncApp process per chunk.  A log file [done.txt] records the
    finished chunks so that an interrupted run can resume.  The per-chunk
    bitstreams are then concatenated, muxed with the audio, subtitles and
    chapters, and validated.

    ** How the parts interact

    The command line ([CLI]) builds a configuration and calls
    [ProcessVideos] ([Videos]), which runs [ProcessChunked]
    ([Orchestrator]) on each file.  [ProcessChunked] detects the crop
    ([Crop]), plans the chunks ([Chunk]), runs the pool [EncodeAll]
    ([Pool]) with the per-chunk encoder ([Worker]) and the resume log
    ([Resume]), extracts the audio ([Mux]) side by side, merges the chunk
    bitstreams ([Merge]), muxes the output ([Mux]) and lets the caller
    validate it ([Validation]).  The pool's admission of workers is
    [Admission].  All file effects of the merge, the mux and the
    pipeline act on one finite map from paths to contents, [Merge.FS].

    ** Files, modules and what they model

    - [Prelude] (this file): the notation [s["..."]] for strings as
      [list ascii], the [result] type and its [let?] notation, Go's
      fixed-width integers (int64, uint64, uint32, uint8) with their
      wrap-around written out, list sums, generic lemmas on [mapM] and
      maps, the hint databases [reel] / [reel_rw] and the tactics.
    - [GoText]: the parts of Go's [strconv], [strings] and [bufio] the
      code relies on, executable on [list ascii] ([Atoi], [ParseUint],
      [%d] / [%04d], [TrimSpace], [Fields], [Split], [ToLower],
      [Contains], [Join], [bufio.Scanner]), with their round-trip lemmas.
    - [Chunk] (module [Chunk]): internal/chunk/chunk.go: [Scene], [Chunk],
      [ChunkComp], [LoadScenes], [Chunkify], [IVFPath], [WorkDirName];
      the keyframe planner (not under src/) from spec 4.2.
    - [Resume]: the resume log of chunk.go: [GetResume], [AppendDone] and
      the totals.
    - [Admission]: internal/encode/permits.go ([CapWorkers] in binary64
      with [GoFloat], [CalculatePermits]), [calculateThreadsPerWorker],
      and the tiers and [Config.Validate] of the config package.
    - [Worker]: [encodeChunkStreaming] over an environment of its external
      calls; the class [ChunkEncoder] is what the pool relies on, and
      [streaming_encoder] its instance.
    - [Pool], [PoolInv], [PoolLive], [PoolRun], [PoolProps]: [EncodeAll]
      and [streamingWorker] as a step relation over the dispatcher,
      workers, channels, semaphore, error slot, collector and main
      goroutine; its invariants (by rule induction), its termination
      measure and progress, an executable scheduler sound for the
      relation, and the pool's theorems, proved against [ChunkEncoder].
    - [Crop]: internal/processing/crop.go and [parseCropFilter]: the
      cropdetect regex, the per-sample plurality over any map order and
      [DetectCrop]'s decision over any iteration order and unstable sort.
    - [Validation]: [ValidateOutputVideo] and its checks over the probes'
      outcomes.
    - [Merge]: [MergeOutput] and [MergeBatched] of
      internal/encoder/encoder.go on [Merge.FS]: the sorted
      [filepath.Glob], the batch loop, deletions, rename and [RemoveAll].
    - [Mux]: internal/chunk/audio.go: [ExtractAudio], [MuxFinal] with
      their ffmpeg argument lists, [calculateAudioBitrate] and the
      work-directory helpers.
    - [Orchestrator]: [ProcessChunked] of internal/processing/chunked.go
      over an environment of its external steps, with its deferred
      cleanup.
    - [Videos]: [ProcessVideos] of internal/processing/audio.go, the loop
      over the input files.
    - [CLI]: [parseCRF], the configuration step of [executeEncode] and
      [resolveOutputPath] of the command (src/unnamed/part_004).
    - [SvtCmd]: the SvtAv1EncApp command line of
      internal/encoder/encoder.go ([buildSvtArgs], [MakeSvtCmd],
      [SvtArgsString], [SvtParamsDisplay], [keyintFrames]) and the
      per-chunk configuration the worker passes it.
    - [Report]: the reporter interface of internal/reporter as the class
      [Reporter] (a state and an event give a new state and outputs), its
      [Event]s, and the null, composite, log, terminal and event
      reporters as instances, with [summary] of the batch.
    - [Library]: the public API of part_007 ([NewConfig], the [Option]s,
      [New], [Encode], [EncodeWithReporter], [EncodeBatch]) over
      [ProcessVideos].
    - [TempFile]: internal/util/tempfile.go over an environment of the
      OS calls: [EnsureDirectoryWritable], [CheckDiskSpace],
      [CreateTempDir], [CreateTempFile], [CreateTempFilePath],
      [generateRandomString] and [CleanupStaleTempFiles] with the
      [filepath.Walk] it runs.

    ** What the theorems show

    - Pool: every interleaving terminates and none deadlocks; the done log
      records only this run's chunks, each once with its frame count;
      without error or cancellation every chunk completes; the permits
      bound the chunks in flight; the first error is returned; progress
      reports grow.  A cancellation seen only by the dispatcher returns
      no error with chunks missing (a finding).
    - Worker: the encoder result is successful exactly when every call
      succeeds, carries its chunk's index and frames in order.
    - Resume and Chunk: the log round-trips every record; a torn line is
      skipped or, followed by an append, forges a record (a finding); the
      chunk plan tiles [0, total).
    - Crop: the decision equals the spec's for every map order; filters
      round-trip; a sample is a plurality rectangle, and ties depend on
      the map order.
    - Merge: chunks are concatenated in index order for every chunk
      count; a retry after a batched merge always fails (a finding).
    - Orchestrator and Videos: a successful run leaves the output with
      every chunk in order and all audio streams and no work directory;
      a failed run keeps the work directory, except after a mux that left
      a partial output (a finding); a cancelled pool yields an incomplete
      output reported as success (a finding); every file the batch
      reports still has its output at the end.
    - Mux, Validation, Admission, CLI: the mux maps subtitles and chapters
      from the original input; the bitrate grows with the channel count
      up to the uint32 limit; the verdict is the conjunction of the
      checks; [CapWorkers] respects its bounds and the memory budget; the
      CRF parser round-trips and the CLI's uint8 preset wraps (a finding).
    - SvtCmd: every flag of the command line appears once with its value,
      the output comes last after [-b]; the per-chunk command names the
      chunk's IVF file and frame count; the keyframe interval is ten
      seconds of frames.
    - Report: the log reporter prints at most one progress line per
      started bucket; the terminal bar restarts at every file; the batch
      summary emits [BatchComplete] only for two or more results.
    - Library: the options set exactly their fields; a successful
      [Encode] leaves its output file.
    - TempFile: [CleanupStaleTempFiles] never fails, removes exactly the
      stale [reel-] files, and an hour count whose nanoseconds overflow
      int64 wraps the age (a finding); [CreateTempFilePath] returns a
      fresh name when enough of its attempts are free.

    ** Bounds and fuel

    [GoText.format_N] recurses on [S (N.size_nat n)] digits, enough
    because a number of [k] binary digits has at most [k] decimal digits
    ([format_N_digits_enough]).  The frame loop of [encodeChunkStreaming]
    runs on [S frameCount] fuel, one more than its iterations
    ([stream_frames_fuel]).  [MergeBatched]'s loop runs on [numChunks]
    fuel, and every iteration consumes at least one chunk.  The file-name
    order [IVFName_order] is checked by evaluation on the 9999 adjacent
    pairs below 10000, where it holds; at 10000 it fails.  [DetectCrop]
    takes 141 samples, so counts stay far below any bound.  Go's [int] is
    64 bits wide (amd64/arm64).  [keyintFrames_ten_seconds] is checked
    by evaluation for frame rates up to 240/1, the rates the encoder
    meets.  [CreateTempFilePath] tries its names on a fuel equal to the
    code's attempt count; [CreateTempFilePath_terminates] shows a free
    name within that fuel is returned.

    ** Not modelled

    External processes (ffmpeg, SvtAv1EncApp, FFMS2, ffprobe, mediainfo)
    are modelled by their observable results in environment records.
    Directories are not represented in [Merge.FS]; creating one has no
    effect in the model.  The state a failed merge leaves inside the work
    directory is not carried.  The text the reporters print is modelled
    only as far as their outputs (log lines, bar operations, events);
    the terminal's colours and layout are presentation.  The logging
    package is not under src/.  The flag parser of [main]/[runEncode],
    file discovery ([FindVideoFiles]), [IsSvtAvailable] and the
    documentation parts are I/O or generated text.  Unicode white space
    in [strings.Fields] is not modelled.
*)

From Stdlib Require Export ZArith Ascii String Lia.
From stdpp Require Export base list gmap sets sorting.

Declare Scope reel_scope.
Delimit Scope reel_scope with reel.
Open Scope Z_scope.

(** ** Text literals

    Go strings are byte strings; the development works on [list ascii]. *)
Abbreviation str := (list ascii).
Notation "'s[' s ']'" := (list_ascii_of_string s%string)
  (at level 0) : reel_scope.
Open Scope reel_scope.

(** ** Results: Go's [(T, error)] pairs *)

Inductive result (A E : Type) : Type :=
  | Ok (a : A)
  | Err (e : E).
Arguments Ok {A E} a.
Arguments Err {A E} e.

Definition result_bind {A B E} (r : result A E) (k : A -> result B E)
  : result B E :=
  match r with Ok a => k a | Err e => Err e end.

Notation "'let?' x ':=' r 'in' k" := (result_bind r (fun x => k))
  (at level 10, x name, r at level 100, k at level 200) : reel_scope.

Definition is_ok {A E} (r : result A E) : bool :=
  match r with Ok _ => true | Err _ => false end.

(** ** Go fixed-width integers

    Go's [int] is 64 bits on the targets reel supports.  Arithmetic wraps
    modulo [2^64]; the wrap-around is written out with [Z.modulo]. *)

Definition int64_min : Z := - 2 ^ 63.
Definition int64_max : Z := 2 ^ 63 - 1.
Definition uint64_max : Z := 2 ^ 64 - 1.
Definition uint32_max : Z := 2 ^ 32 - 1.

Definition in_int64 (z : Z) : bool := (int64_min <=? z) && (z <=? int64_max).
Definition in_uint64 (z : Z) : bool := (0 <=? z) && (z <=? uint64_max).
Definition in_uint32 (z : Z) : bool := (0 <=? z) && (z <=? uint32_max).

(** [uint64] addition, [uint64(x)] conversion. *)
Definition wrap_u64 (z : Z) : Z := z mod 2 ^ 64.
(** [int] (int64) addition in two's complement. *)
Definition wrap_i64 (z : Z) : Z := (z + 2 ^ 63) mod 2 ^ 64 - 2 ^ 63.
(** [uint32(x)] conversion. *)
Definition wrap_u32 (z : Z) : Z := z mod 2 ^ 32.
(** [uint8(x)] conversion. *)
Definition wrap_u8 (z : Z) : Z := z mod 2 ^ 8.

Lemma in_int64_spec z : in_int64 z = true <-> int64_min <= z <= int64_max.
Proof. unfold in_int64. rewrite andb_true_iff, !Z.leb_le. tauto. Qed.

Lemma in_uint64_spec z : in_uint64 z = true <-> 0 <= z <= uint64_max.
Proof. unfold in_uint64. rewrite andb_true_iff, !Z.leb_le. tauto. Qed.

Lemma in_uint32_spec z : in_uint32 z = true <-> 0 <= z <= uint32_max.
Proof. unfold in_uint32. rewrite andb_true_iff, !Z.leb_le. tauto. Qed.

Lemma wrap_u64_id z : 0 <= z <= uint64_max -> wrap_u64 z = z.
Proof. unfold wrap_u64, uint64_max. intros. apply Z.mod_small. lia. Qed.

Lemma wrap_i64_id z : int64_min <= z <= int64_max -> wrap_i64 z = z.
Proof.
  unfold wrap_i64, int64_min, int64_max. intros.
  rewrite Z.mod_small; lia.
Qed.

Lemma wrap_u32_id z : 0 <= z <= uint32_max -> wrap_u32 z = z.
Proof. unfold wrap_u32, uint32_max. intros. apply Z.mod_small. lia. Qed.

Lemma wrap_u8_id z : 0 <= z < 256 -> wrap_u8 z = z.
Proof. unfold wrap_u8. intros. apply Z.mod_small. lia. Qed.

Lemma wrap_u64_range z : 0 <= wrap_u64 z <= uint64_max.
Proof.
  unfold wrap_u64, uint64_max.
  pose proof (Z.mod_pos_bound z (2 ^ 64)). lia.
Qed.

Lemma wrap_i64_range z : int64_min <= wrap_i64 z <= int64_max.
Proof.
  unfold wrap_i64, int64_min, int64_max.
  pose proof (Z.mod_pos_bound (z + 2 ^ 63) (2 ^ 64)). lia.
Qed.

(** ** Sums over lists *)

Definition sumZ {A} (f : A -> Z) (l : list A) : Z :=
  foldr (fun x acc => f x + acc) 0 l.

Lemma sumZ_nil {A} (f : A -> Z) : sumZ f [] = 0.
Proof. reflexivity. Qed.

Lemma sumZ_cons {A} (f : A -> Z) x l : sumZ f (x :: l) = f x + sumZ f l.
Proof. reflexivity. Qed.

Lemma sumZ_app {A} (f : A -> Z) l1 l2 :
  sumZ f (l1 ++ l2) = sumZ f l1 + sumZ f l2.
Proof. induction l1; simpl; [done | unfold sumZ in *; simpl; lia]. Qed.

Lemma sumZ_nonneg {A} (f : A -> Z) l :
  (forall x, x ∈ l -> 0 <= f x) -> 0 <= sumZ f l.
Proof.
  induction l as [|x l IH]; intros H; simpl; [lia|].
  unfold sumZ in *; simpl.
  pose proof (H x (list_elem_of_here _ _)).
  assert (0 <= foldr (fun y acc => f y + acc) 0 l)
    by (apply IH; intros; apply H; by apply list_elem_of_further).
  lia.
Qed.

Lemma sumZ_ext {A} (f g : A -> Z) l :
  (forall x, x ∈ l -> f x = g x) -> sumZ f l = sumZ g l.
Proof.
  induction l as [|x l IH]; intros H; [done|].
  rewrite !sumZ_cons, (H x (list_elem_of_here _ _)), IH; [done|].
  intros; apply H; by apply list_elem_of_further.
Qed.

(** ** Lists updated by index *)

Lemma sum_list_with_insert {A} (f : A -> nat) (l : list A) i x y :
  l !! i = Some x ->
  (sum_list_with f (<[i := y]> l) + f x = sum_list_with f l + f y)%nat.
Proof.
  intros Hi. pose proof (take_drop_middle l i x Hi) as E.
  assert (Hl : sum_list_with f l = sum_list_with f (take i l ++ x :: drop (S i) l))
    by by rewrite E.
  rewrite Hl, (insert_take_drop l i y) by (eapply lookup_lt_Some; eauto).
  rewrite !sum_list_with_app. simpl. lia.
Qed.

Lemma mjoin_map_insert {A B} (g : A -> list B) (l : list A) i x y :
  l !! i = Some x ->
  mjoin (g <$> <[i := y]> l) ++ g x ≡ₚ mjoin (g <$> l) ++ g y.
Proof.
  intros Hi. pose proof (take_drop_middle l i x Hi) as E.
  assert (Hl : mjoin (g <$> l) = mjoin (g <$> take i l ++ x :: drop (S i) l))
    by by rewrite E.
  rewrite Hl, (insert_take_drop l i y) by (eapply lookup_lt_Some; eauto).
  rewrite !fmap_app, !join_app. simpl. solve_Permutation.
Qed.

Lemma NoDup_submseteq_l {A} (l k : list A) : l ⊆+ k -> NoDup k -> NoDup l.
Proof.
  intros [k' Hk]%submseteq_Permutation Hn. rewrite Hk in Hn.
  by apply NoDup_app in Hn as [? _].
Qed.

Lemma Forall_submseteq_l {A} (P : A -> Prop) (l k : list A) :
  Forall P k -> l ⊆+ k -> Forall P l.
Proof.
  rewrite !Forall_forall. intros HP Hs x Hx. apply HP. by eapply elem_of_submseteq.
Qed.

Lemma elem_of_insert_ne {A} (l : list A) i x y : x ∈ <[i := y]> l -> x <> y -> x ∈ l.
Proof.
  intros [j Hj]%list_elem_of_lookup_1 Hne.
  apply list_lookup_insert_Some in Hj as [(_ & -> & _) | (_ & Hj)]; [done|].
  by eapply list_elem_of_lookup_2.
Qed.

Lemma sumZ_one {A} (l : list A) : sumZ (fun _ => 1) l = Z.of_nat (length l).
Proof. induction l as [|x l IH]; [done|]. rewrite sumZ_cons, IH. simpl. lia. Qed.

Lemma sumZ_Permutation {A} (f : A -> Z) l l' : l ≡ₚ l' -> sumZ f l = sumZ f l'.
Proof. induction 1; unfold sumZ in *; simpl in *; lia. Qed.

Lemma sumZ_fmap {A B} (f : B -> Z) (g : A -> B) l : sumZ f (g <$> l) = sumZ (f ∘ g) l.
Proof. induction l as [|x l IH]; [done|]. rewrite fmap_cons, !sumZ_cons, IH. done. Qed.

(** Two elements of a list with the same key, when the keys are
    distinct, are the same element. *)
Lemma NoDup_fmap_same {A B} (f : A -> B) l x y :
  NoDup (f <$> l) -> x ∈ l -> y ∈ l -> f x = f y -> x = y.
Proof.
  induction l as [|a l IH]; intros Hn Hx Hy Hf; [by inversion Hx|].
  rewrite fmap_cons in Hn. apply NoDup_cons in Hn as [Ha Hn].
  apply elem_of_cons in Hx as [->|Hx], Hy as [->|Hy]; [done| | |by apply IH].
  - destruct Ha. rewrite Hf. by apply list_elem_of_fmap_2.
  - destruct Ha. rewrite <- Hf. by apply list_elem_of_fmap_2.
Qed.

(** ** Automation shared by the components *)

(** ** Options and finite maps *)

Lemma NoDup_omap_key {K A B} (f : K * A -> option B) (l : list (K * A)) :
  NoDup l.*1 -> (forall x y b, f x = Some b -> f y = Some b -> x.1 = y.1) -> NoDup (omap f l).
Proof.
  intros Hnd Hf. induction l as [|x l IH]; [constructor|]. cbn. rewrite fmap_cons in Hnd.
  apply NoDup_cons in Hnd as [Hx Hnd]. destruct (f x) as [b|] eqn:E; [|by apply IH].
  constructor; [|by apply IH]. intros Hb. apply list_elem_of_omap in Hb as (y & Hy & Ey).
  apply Hx. rewrite (Hf x y b E Ey). by apply list_elem_of_fmap_2.
Qed.

Lemma mapM_fmap_Some_eq {A B} (f : A -> option B) (g : A -> B) l :
  Forall (fun x => f x = Some (g x)) l -> mapM f l = Some (g <$> l).
Proof. induction 1 as [|x l Hx _ IH]; [done|]. cbn. by rewrite Hx, IH. Qed.

Lemma mapM_fmap_comp {A B C} (f : B -> option C) (g : A -> B) l :
  mapM f (g <$> l) = mapM (f ∘ g) l.
Proof. induction l as [|x l IH]; [done|]. cbn. by rewrite IH. Qed.

Lemma mapM_ext_Forall {A B} (f g : A -> option B) l :
  Forall (fun x => f x = g x) l -> mapM f l = mapM g l.
Proof. induction 1 as [|x l Hx _ IH]; [done|]. cbn. by rewrite Hx, IH. Qed.

Lemma mapM_None_elem {A B} (f : A -> option B) l x : x ∈ l -> f x = None -> mapM f l = None.
Proof.
  induction l as [|y l IH]; intros Hx Hf; [inversion Hx|]. cbn.
  apply elem_of_cons in Hx as [->|Hx]; [by rewrite Hf|].
  destruct (f y); [|done]. by rewrite IH.
Qed.

Lemma mjoin_singletons {A} (l : list A) : mjoin ((fun x => [x]) <$> l) = l.
Proof. induction l as [|x l IH]; [done|]. rewrite fmap_cons. cbn. f_equal. exact IH. Qed.

Lemma lookup_foldl_delete {K A B} `{Countable K} (f : B -> K) (m : gmap K A) (l : list B) k :
  foldl (fun m i => delete (f i) m) m l !! k = if decide (k ∈ f <$> l) then None else m !! k.
Proof.
  revert m. induction l as [|i l IH]; intros m; cbn; [done|]. rewrite IH.
  destruct (decide (k = f i)) as [->|Hne].
  - rewrite lookup_delete_eq. by repeat case_decide; set_solver.
  - rewrite lookup_delete_ne by done. repeat case_decide; set_solver.
Qed.

Create HintDb reel discriminated.
Create Rewrite HintDb reel_rw.

#[export] Hint Resolve wrap_u64_id wrap_i64_id wrap_u32_id : reel.
#[export] Hint Rewrite @sumZ_nil @sumZ_cons @sumZ_app : reel_rw.

(** Unfold the Go integer bounds and hand the goal to [lia]. *)
Ltac go_lia :=
  unfold int64_min, int64_max, uint64_max, uint32_max in *; lia.

(** Turn the boolean range tests into arithmetic hypotheses. *)
Ltac go_bounds :=
  repeat match goal with
  | H : in_int64 _ = true |- _ => apply in_int64_spec in H
  | H : in_uint64 _ = true |- _ => apply in_uint64_spec in H
  | H : in_uint32 _ = true |- _ => apply in_uint32_spec in H
  | |- in_int64 _ = true => apply in_int64_spec
  | |- in_uint64 _ = true => apply in_uint64_spec
  | |- in_uint32 _ = true => apply in_uint32_spec
  end.

Ltac invc H := inversion H; subst; clear H.
