(* ===== verification/GoText.v ===== *)
(** * Go text primitives used by reel

    The Go standard library functions on byte strings that the modelled code
    calls.  The code parses and prints with them: [strconv.Atoi],
    [strconv.ParseUint(s, 10, bits)], the verbs [%d] and [%04d] of [fmt],
    [strings.TrimSpace], [strings.Fields], [strings.Split] on one
    separator byte, [strings.HasPrefix] / [TrimPrefix], and the line
    splitting of [bufio.Scanner] ([bufio.ScanLines]).  They are written
    as executable functions on [list ascii].  The round-trip lemmas at the
    end of the file are the ones the resume-log and crop-filter theorems
    rely on.  White space is the ASCII set of Go's fast path
    ([asciiSpace]: tab, LF, VT, FF, CR, space). *)

From S2P Require Import Prelude.

(** ** Character classes *)

Definition is_space (c : ascii) : bool :=
  let n := N_of_ascii c in (n =? 32)%N || ((9 <=? n)%N && (n <=? 13)%N).

Definition is_digit (c : ascii) : bool :=
  let n := N_of_ascii c in (48 <=? n)%N && (n <=? 57)%N.

Definition digit_val (c : ascii) : Z := Z.of_N (N_of_ascii c) - 48.

Definition digit_char (d : N) : ascii := ascii_of_N (48 + d).

Definition newline : ascii := "010"%char.
Definition carriage_return : ascii := "013"%char.

(** ** [strconv]: parsing decimal numbers *)

(** Horner evaluation of a run of decimal digits; [None] on a non-digit. *)
Fixpoint parse_digits (acc : Z) (s : str) : option Z :=
  match s with
  | [] => Some acc
  | c :: s' => if is_digit c then parse_digits (10 * acc + digit_val c) s'
               else None
  end.

(** [strconv.ParseUint(s, 10, bits)]: no sign, no prefix, no underscores
    (these are accepted only with base 0), at least one digit, and a value
    of at most [2^bits - 1] (otherwise [ErrRange]). *)
Definition parse_uint (bits : Z) (s : str) : option Z :=
  match s with
  | [] => None
  | _ => match parse_digits 0 s with
         | Some v => if v <=? 2 ^ bits - 1 then Some v else None
         | None => None
         end
  end.

(** [strconv.Atoi] on a 64-bit [int]: an optional sign, then
    [ParseUint(rest, 10, 64)], then the int64 range check of
    [ParseInt] (a magnitude of [2^63] is allowed only when negative). *)
Definition atoi (s : str) : option Z :=
  match s with
  | [] => None
  | c :: s' =>
      if ascii_dec c "-"%char then
        match parse_uint 64 s' with
        | Some u => if u <=? 2 ^ 63 then Some (- u) else None
        | None => None
        end
      else
        let digits := if ascii_dec c "+"%char then s' else s in
        match parse_uint 64 digits with
        | Some u => if u <? 2 ^ 63 then Some u else None
        | None => None
        end
  end.

(** ** [fmt]: printing decimal numbers *)

(** The decimal digits of [n], least significant first.  [fuel] bounds the
    number of digits; [format_N] gives one more than the number of binary
    digits, which is enough (lemma [format_N_digits_enough]). *)
Fixpoint digits_rev (fuel : nat) (n : N) : str :=
  match fuel with
  | O => []
  | S f => digit_char (n mod 10) ::
             (if (n <? 10)%N then [] else digits_rev f (n / 10))
  end.

Definition format_N (n : N) : str := rev (digits_rev (S (N.to_nat (N.size n))) n).

(** [%d] of a Go integer. *)
Definition format_Z (z : Z) : str :=
  if z <? 0 then "-"%char :: format_N (Z.to_N (- z)) else format_N (Z.to_N z).

(** [%04d]: zero padding to width 4, the sign counting in the width. *)
Definition zero_pad (w : nat) (s : str) : str := replicate (w - length s) "0"%char ++ s.

Definition format_Z_pad4 (z : Z) : str :=
  if z <? 0 then "-"%char :: zero_pad 3 (format_N (Z.to_N (- z)))
  else zero_pad 4 (format_N (Z.to_N z)).

(** ** [strings] *)

Fixpoint drop_spaces (s : str) : str :=
  match s with
  | [] => []
  | c :: s' => if is_space c then drop_spaces s' else s
  end.

(** [strings.TrimSpace]. *)
Definition trim_space (s : str) : str := rev (drop_spaces (rev (drop_spaces s))).

(** [strings.Fields]: maximal runs of non-space bytes.  [cur] is the field
    being read, reversed. *)
Fixpoint fields_go (s : str) (cur : str) : list str :=
  match s with
  | [] => match cur with [] => [] | _ => [rev cur] end
  | c :: s' =>
      if is_space c then
        match cur with [] => fields_go s' [] | _ => rev cur :: fields_go s' [] end
      else fields_go s' (c :: cur)
  end.

Definition fields (s : str) : list str := fields_go s [].

(** [strings.Split(s, sep)] for a one-byte separator: [n] separators give
    [n + 1] pieces, and [Split("", sep) = [""]]. *)
Fixpoint split_go (sep : ascii) (s : str) (cur : str) : list str :=
  match s with
  | [] => [rev cur]
  | c :: s' => if ascii_dec c sep then rev cur :: split_go sep s' []
               else split_go sep s' (c :: cur)
  end.

Definition split_on (sep : ascii) (s : str) : list str := split_go sep s [].

(** [strings.ToLower] on ASCII text (codec names are ASCII). *)
Definition lower_char (c : ascii) : ascii :=
  if (65 <=? N_of_ascii c)%N && (N_of_ascii c <=? 90)%N then ascii_of_N (N_of_ascii c + 32) else c.

Definition to_lower (s : str) : str := map lower_char s.

(** [strings.Join(elems, sep)] *)
Fixpoint join (sep : str) (l : list str) : str :=
  match l with
  | [] => []
  | [x] => x
  | x :: l' => x ++ sep ++ join sep l'
  end.

(** [strings.HasPrefix] and [strings.TrimPrefix]. *)
Fixpoint strip_prefix (p s : str) : option str :=
  match p, s with
  | [], _ => Some s
  | c :: p', d :: s' => if ascii_dec c d then strip_prefix p' s' else None
  | _ :: _, [] => None
  end.

Definition trim_prefix (p s : str) : str :=
  match strip_prefix p s with Some r => r | None => s end.

(** [strings.Contains(s, sub)]: [sub] occurs at some position of [s]. *)
Fixpoint contains (sub s : str) : bool :=
  match strip_prefix sub s with
  | Some _ => true
  | None => match s with [] => false | _ :: s' => contains sub s' end
  end.

(** ** [bufio.Scanner] with [ScanLines] *)

(** [dropCR]: one trailing carriage return is removed from each line. *)
Definition drop_cr (l : str) : str :=
  match last l with
  | Some c => if ascii_dec c carriage_return then removelast l else l
  | None => l
  end.

(** Lines end at LF; a last line without LF is returned when non-empty. *)
Fixpoint lines_go (s : str) (cur : str) : list str :=
  match s with
  | [] => match cur with [] => [] | _ => [drop_cr (rev cur)] end
  | c :: s' => if ascii_dec c newline then drop_cr (rev cur) :: lines_go s' []
               else lines_go s' (c :: cur)
  end.

Definition scan_lines (s : str) : list str := lines_go s [].

(** [bufio.MaxScanTokenSize]: the buffer grows to 64 KiB at most; a line
    (without its LF) that does not fit stops the scan with [ErrTooLong],
    which the callers report through [scanner.Err()]. *)
Definition max_token_size : Z := 65536.

Definition scan_all (s : str) : option (list str) :=
  if forallb (fun seg => Z.of_nat (length seg) <? max_token_size) (split_on newline s)
  then Some (scan_lines s) else None.

(** ** Lemmas: digits *)

Lemma digit_char_not d c :
  (d < 10)%N -> ~ (48 <= N_of_ascii c <= 57)%N -> digit_char d <> c.
Proof. intros Hd Hc <-. apply Hc. unfold digit_char. rewrite N_ascii_embedding; lia. Qed.

Lemma digit_char_spec d :
  (d < 10)%N ->
  is_digit (digit_char d) = true /\ digit_val (digit_char d) = Z.of_N d /\
  is_space (digit_char d) = false /\ digit_char d <> "-"%char /\
  digit_char d <> newline /\ digit_char d <> carriage_return.
Proof.
  intros Hd. unfold is_digit, digit_val, is_space.
  repeat split; try (apply digit_char_not; [done|]);
    try (unfold digit_char; rewrite N_ascii_embedding by lia).
  - apply andb_true_iff; split; apply N.leb_le; lia.
  - lia.
  - apply orb_false_iff; split; [apply N.eqb_neq; lia|].
    apply andb_false_iff; right; apply N.leb_gt; lia.
  - change (N_of_ascii "-"%char) with 45%N. lia.
  - change (N_of_ascii newline) with 10%N. lia.
  - change (N_of_ascii carriage_return) with 13%N. lia.
Qed.

Lemma parse_digits_app acc l1 l2 :
  parse_digits acc (l1 ++ l2) =
  match parse_digits acc l1 with Some a => parse_digits a l2 | None => None end.
Proof.
  revert acc; induction l1 as [|c l1 IH]; intros acc; [done|].
  simpl. destruct (is_digit c); [apply IH | done].
Qed.

Lemma digits_rev_chars fuel n :
  Forall (fun c => exists d, (d < 10)%N /\ c = digit_char d) (digits_rev fuel n).
Proof.
  revert n; induction fuel as [|f IH]; intros n; simpl; [constructor|].
  constructor.
  - exists (n mod 10)%N. split; [apply N.mod_lt; lia | done].
  - destruct (n <? 10)%N; [constructor | apply IH].
Qed.

Lemma parse_digits_rev fuel n :
  (n < 10 ^ N.of_nat fuel)%N ->
  parse_digits 0 (rev (digits_rev fuel n)) = Some (Z.of_N n).
Proof.
  revert n; induction fuel as [|f IH]; intros n Hn.
  - simpl in *. f_equal. lia.
  - cbn [digits_rev rev]. rewrite parse_digits_app.
    destruct (digit_char_spec (n mod 10)) as (Hdig & Hval & _); [apply N.mod_lt; lia|].
    pose proof (N.div_mod n 10 ltac:(lia)) as Hdm.
    destruct (N.ltb_spec n 10) as [Hlt|Hge].
    + simpl. rewrite Hdig, Hval. rewrite N.mod_small by done. f_equal.
    + rewrite IH.
      * simpl. rewrite Hdig, Hval. f_equal. lia.
      * apply N.Div0.div_lt_upper_bound.
        rewrite Nat2N.inj_succ, N.pow_succ_r' in Hn. lia.
Qed.

Lemma format_N_digits_enough n :
  (n < 10 ^ N.of_nat (S (N.to_nat (N.size n))))%N.
Proof.
  rewrite Nat2N.inj_succ, N2Nat.id, N.pow_succ_r'.
  pose proof (N.size_gt n).
  assert (2 ^ N.size n <= 10 ^ N.size n)%N by (apply N.pow_le_mono_l; lia).
  pose proof (N.pow_nonzero 10 (N.size n) ltac:(lia)). lia.
Qed.

Lemma parse_format_N n : parse_digits 0 (format_N n) = Some (Z.of_N n).
Proof. apply parse_digits_rev, format_N_digits_enough. Qed.

Lemma format_N_chars n :
  Forall (fun c => exists d, (d < 10)%N /\ c = digit_char d) (format_N n).
Proof. apply Forall_rev, digits_rev_chars. Qed.

Lemma format_N_nonempty n : format_N n <> [].
Proof. unfold format_N. simpl. intros H. by apply app_nil in H as [_ ?]. Qed.

(** Every byte of a formatted number satisfies what the digits satisfy. *)
Lemma format_N_forall (P : ascii -> Prop) n :
  (forall d, (d < 10)%N -> P (digit_char d)) -> Forall P (format_N n).
Proof.
  intros HP. eapply Forall_impl; [apply format_N_chars|].
  intros c (d & Hd & ->). by apply HP.
Qed.

Lemma parse_uint_format_N bits n :
  Z.of_N n <= 2 ^ bits - 1 -> parse_uint bits (format_N n) = Some (Z.of_N n).
Proof.
  intros Hb. unfold parse_uint.
  destruct (format_N n) as [|c s] eqn:E; [by destruct (format_N_nonempty n)|].
  rewrite <- E, parse_format_N. by rewrite (proj2 (Z.leb_le _ _) Hb).
Qed.

(** [strconv.Atoi] inverts [%d] on the whole int64 range. *)
Lemma atoi_format_Z z : in_int64 z = true -> atoi (format_Z z) = Some z.
Proof.
  intros Hz. go_bounds. unfold format_Z.
  destruct (Z.ltb_spec z 0) as [Hneg|Hpos].
  - simpl. rewrite parse_uint_format_N by go_lia.
    rewrite Z2N.id by lia. rewrite (proj2 (Z.leb_le _ _)) by go_lia. f_equal; lia.
  - assert (Hall : Forall (fun c => c <> "-"%char /\ c <> "+"%char) (format_N (Z.to_N z))).
    { apply format_N_forall. intros d Hd.
      destruct (digit_char_spec d Hd) as (Hdig & _ & _ & Hm & _).
      split; [done|]. intros Heq. rewrite Heq in Hdig. discriminate. }
    destruct (format_N (Z.to_N z)) as [|c s] eqn:E;
      [by destruct (format_N_nonempty (Z.to_N z))|].
    inversion Hall as [|? ? [Hm Hp] _]. simpl.
    destruct (ascii_dec c "-"%char); [done|].
    destruct (ascii_dec c "+"%char); [done|].
    rewrite <- E, parse_uint_format_N by go_lia. rewrite Z2N.id by lia.
    by rewrite (proj2 (Z.ltb_lt _ _)) by go_lia.
Qed.

(** ** Lemmas: fields, trimming and lines *)

Definition no_space (w : str) : Prop := Forall (fun c => is_space c = false) w.

Lemma format_N_no_space n : no_space (format_N n).
Proof. apply format_N_forall. intros d Hd. apply (digit_char_spec d Hd). Qed.

Lemma format_Z_no_space z : no_space (format_Z z).
Proof.
  unfold format_Z. destruct (z <? 0); [|apply format_N_no_space].
  constructor; [reflexivity | apply format_N_no_space].
Qed.

Lemma format_Z_nonempty z : format_Z z <> [].
Proof.
  unfold format_Z. destruct (z <? 0); [done | apply format_N_nonempty].
Qed.

Lemma fields_go_word w rest cur :
  no_space w -> fields_go (w ++ rest) cur = fields_go rest (rev w ++ cur).
Proof.
  intros Hw. revert cur; induction Hw as [|c w Hc Hw IH]; intros cur; [done|].
  simpl. rewrite Hc, IH. by rewrite <- app_assoc.
Qed.

Lemma fields_go_sep rest cur :
  cur <> [] -> fields_go (" "%char :: rest) cur = rev cur :: fields_go rest [].
Proof. intros H. simpl. by destruct cur. Qed.

Lemma rev_neq_nil {A} (l : list A) : l <> [] -> rev l <> [].
Proof. intros H E. apply H. by rewrite <- (rev_involutive l), E. Qed.

Lemma fields_go_last w : no_space w -> w <> [] -> fields_go w [] = [w].
Proof.
  intros Hw Hne. rewrite <- (app_nil_r w), fields_go_word, !app_nil_r by done.
  simpl. destruct (rev w) eqn:E; [by destruct (rev_neq_nil w Hne)|].
  by rewrite <- E, rev_involutive.
Qed.

(** [strings.Fields] splits three space-separated words back apart. *)
Lemma fields_three w1 w2 w3 :
  no_space w1 -> no_space w2 -> no_space w3 ->
  w1 <> [] -> w2 <> [] -> w3 <> [] ->
  fields (w1 ++ " "%char :: w2 ++ " "%char :: w3) = [w1; w2; w3].
Proof.
  intros H1 H2 H3 N1 N2 N3. unfold fields.
  rewrite fields_go_word, app_nil_r, fields_go_sep, rev_involutive
    by (done || by apply rev_neq_nil).
  rewrite fields_go_word, app_nil_r, fields_go_sep, rev_involutive
    by (done || by apply rev_neq_nil).
  by rewrite fields_go_last.
Qed.

Lemma drop_spaces_no_space w :
  no_space w -> drop_spaces w = w.
Proof. intros Hw. destruct Hw as [|c w Hc _]; simpl; [done|]. by rewrite Hc. Qed.

Lemma no_space_app w1 w2 : no_space w1 -> no_space w2 -> no_space (w1 ++ w2).
Proof. apply Forall_app_2. Qed.

Lemma no_space_rev w : no_space w -> no_space (rev w).
Proof. apply Forall_rev. Qed.

(** [strings.TrimSpace] leaves a line without white space unchanged. *)
Lemma trim_space_no_space w : no_space w -> trim_space w = w.
Proof.
  intros Hw. unfold trim_space.
  rewrite (drop_spaces_no_space w), (drop_spaces_no_space (rev w))
    by (done || by apply no_space_rev).
  apply rev_involutive.
Qed.

Definition no_newline (l : str) : Prop := Forall (fun c => c <> newline) l.

Lemma lines_go_line l rest cur :
  no_newline l ->
  lines_go (l ++ newline :: rest) cur = drop_cr (rev cur ++ l) :: lines_go rest [].
Proof.
  intros Hl. revert cur; induction Hl as [|c l Hc _ IH]; intros cur.
  - simpl. rewrite app_nil_r. by destruct (ascii_dec newline newline).
  - simpl. destruct (ascii_dec c newline); [done|].
    rewrite IH. simpl. by rewrite <- app_assoc.
Qed.

Lemma drop_cr_no_cr l :
  Forall (fun c => c <> carriage_return) l -> drop_cr l = l.
Proof.
  intros Hl. unfold drop_cr. destruct (last l) as [c|] eqn:E; [|done].
  destruct (ascii_dec c carriage_return) as [->|]; [|done].
  apply last_Some_elem_of in E. exfalso.
  by apply (proj1 (Forall_forall _ _) Hl) in E.
Qed.

(** [bufio.Scanner] gives back the lines of a text made of LF-terminated
    lines that hold neither LF nor CR. *)
Lemma scan_lines_concat (ls : list str) :
  Forall (fun l => Forall (fun c => c <> newline /\ c <> carriage_return) l) ls ->
  scan_lines (concat (map (fun l => l ++ [newline]) ls)) = ls.
Proof.
  unfold scan_lines. induction 1 as [|l ls Hl _ IH]; [done|].
  simpl. rewrite <- app_assoc. simpl.
  rewrite lines_go_line, IH.
  - f_equal. apply drop_cr_no_cr. eapply Forall_impl; [exact Hl|]. naive_solver.
  - eapply Forall_impl; [exact Hl|]. naive_solver.
Qed.

Lemma format_Z_nonneg z : 0 <= z -> format_Z z = format_N (Z.to_N z).
Proof. intros H. unfold format_Z. by rewrite (proj2 (Z.ltb_ge _ _)) by lia. Qed.

(** [strconv.ParseUint] reads back [%d] of a value in range. *)
Lemma strip_prefix_app p s : strip_prefix p (p ++ s) = Some s.
Proof.
  induction p as [|c p IH]; simpl; [by destruct s|].
  by destruct (ascii_dec c c).
Qed.

Lemma trim_prefix_app p s : trim_prefix p (p ++ s) = s.
Proof. unfold trim_prefix. by rewrite strip_prefix_app. Qed.

Lemma parse_digits_zeros k s : parse_digits 0 (replicate k "0"%char ++ s) = parse_digits 0 s.
Proof. induction k as [|k IH]; [done|]. exact IH. Qed.

Lemma parse_format_pad4 z : 0 <= z -> parse_digits 0 (format_Z_pad4 z) = Some z.
Proof.
  intros Hz. unfold format_Z_pad4, zero_pad. destruct (z <? 0) eqn:E; [lia|].
  rewrite parse_digits_zeros, parse_format_N. f_equal. lia.
Qed.

Lemma format_Z_pad4_forall (P : ascii -> Prop) z :
  P "0"%char -> P "-"%char -> (forall d, (d < 10)%N -> P (digit_char d)) -> Forall P (format_Z_pad4 z).
Proof.
  intros H0 Hm Hd. unfold format_Z_pad4, zero_pad.
  destruct (z <? 0); [constructor; [done|]|];
    (apply Forall_app; split; [apply Forall_replicate, H0 | by apply format_N_forall]).
Qed.

Lemma format_Z_pad4_inj a b : 0 <= a -> 0 <= b -> format_Z_pad4 a = format_Z_pad4 b -> a = b.
Proof.
  intros Ha Hb E. apply (f_equal (parse_digits 0)) in E.
  rewrite !parse_format_pad4 in E by done. congruence.
Qed.

Lemma parse_uint_format_Z bits z :
  0 <= z <= 2 ^ bits - 1 -> parse_uint bits (format_Z z) = Some z.
Proof.
  intros Hz. rewrite format_Z_nonneg by lia.
  rewrite parse_uint_format_N by (rewrite Z2N.id; lia). by rewrite Z2N.id by lia.
Qed.

Lemma format_Z_forall (P : ascii -> Prop) z :
  P "-"%char -> (forall d, (d < 10)%N -> P (digit_char d)) -> Forall P (format_Z z).
Proof.
  intros Hm Hd. unfold format_Z.
  destruct (z <? 0); [constructor; [done|]|]; by apply format_N_forall.
Qed.

(** A [%d] line holds neither LF nor CR. *)
Lemma format_Z_line_chars z :
  Forall (fun c => c <> newline /\ c <> carriage_return) (format_Z z).
Proof.
  apply format_Z_forall; [done|]. intros d Hd.
  destruct (digit_char_spec d Hd) as (_ & _ & _ & _ & ? & ?). done.
Qed.

Lemma split_go_line sep l rest cur :
  Forall (fun c => c <> sep) l ->
  split_go sep (l ++ sep :: rest) cur = (rev cur ++ l) :: split_go sep rest [].
Proof.
  intros Hl. revert cur; induction Hl as [|c l Hc _ IH]; intros cur.
  - simpl. rewrite app_nil_r. by destruct (ascii_dec sep sep).
  - simpl. destruct (ascii_dec c sep); [done|]. rewrite IH. simpl. by rewrite <- app_assoc.
Qed.

Lemma split_go_last sep l cur :
  Forall (fun c => c <> sep) l -> split_go sep l cur = [rev cur ++ l].
Proof.
  intros Hl. revert cur; induction Hl as [|c l Hc _ IH]; intros cur.
  - simpl. by rewrite app_nil_r.
  - simpl. destruct (ascii_dec c sep); [done|]. rewrite IH. simpl. by rewrite <- app_assoc.
Qed.

(** A [%d] text holds no character outside ['-'] and the digits. *)
Lemma format_Z_avoids c z :
  c <> "-"%char -> ~ (48 <= N_of_ascii c <= 57)%N -> Forall (fun x => x <> c) (format_Z z).
Proof. intros Hm Hc. apply format_Z_forall; [done|]. intros d Hd. by apply digit_char_not. Qed.

Lemma parse_uint_format_Z_big bits z :
  2 ^ bits - 1 < z -> parse_uint bits (format_Z z) = None.
Proof.
  intros Hz. assert (H0 : 0 <= 2 ^ bits) by (destruct (Z.le_gt_cases 0 bits); [lia|]; rewrite Z.pow_neg_r; lia).
  unfold parse_uint. rewrite format_Z_nonneg by lia.
  destruct (format_N _) eqn:E; [by destruct (format_N_nonempty (Z.to_N z))|].
  rewrite <- E, parse_format_N, Z2N.id by lia. destruct (Z.leb_spec z (2 ^ bits - 1)); [lia | done].
Qed.

(** The scanner accepts a text of LF-terminated lines shorter than the
    token limit and returns them. *)
Lemma scan_all_concat (ls : list str) :
  Forall (fun l => Forall (fun c => c <> newline /\ c <> carriage_return) l /\
                   Z.of_nat (length l) < max_token_size) ls ->
  scan_all (concat (map (fun l => l ++ [newline]) ls)) = Some ls.
Proof.
  intros Hls. unfold scan_all.
  assert (Hs : split_on newline (concat (map (fun l => l ++ [newline]) ls)) = ls ++ [[]]).
  { unfold split_on. induction Hls as [|l ls [Hl _] _ IH]; [done|].
    simpl. rewrite <- app_assoc. simpl. rewrite split_go_line, IH; [done|].
    eapply Forall_impl; [exact Hl | naive_solver]. }
  rewrite Hs, forallb_app. simpl. rewrite andb_true_r.
  rewrite (proj2 (forallb_forall _ _)).
  - f_equal. apply scan_lines_concat. eapply Forall_impl; [exact Hls | naive_solver].
  - intros l Hl%list_elem_of_In. apply Z.ltb_lt.
    eapply (proj1 (Forall_forall _ _)) in Hls as [_ ?]; [done | exact Hl].
Qed.

Lemma length_digits_rev fuel n : (length (digits_rev fuel n) <= fuel)%nat.
Proof.
  revert n; induction fuel as [|f IH]; intros n; simpl; [lia|].
  destruct (n <? 10)%N; simpl; [lia|]. specialize (IH (n / 10)%N). lia.
Qed.

(** A [%d] of an int64 or uint64 value has at most 66 bytes. *)
Lemma length_format_Z z : - 2 ^ 64 < z < 2 ^ 64 -> (length (format_Z z) <= 66)%nat.
Proof.
  intros Hz.
  assert (Hn : forall n : N, (n < 2 ^ 64)%N -> (length (format_N n) <= 65)%nat).
  { intros n Hlt. unfold format_N. rewrite length_rev.
    etransitivity; [apply length_digits_rev|].
    destruct (N.eq_dec n 0%N) as [->|Hne]; [simpl; lia|].
    rewrite N.size_log2 by done.
    assert (N.log2 n < 64)%N by (apply N.log2_lt_pow2; lia). lia. }
  unfold format_Z. destruct (Z.ltb_spec z 0).
  - simpl. specialize (Hn (Z.to_N (- z)) ltac:(lia)). lia.
  - apply Nat.le_trans with 65%nat; [apply Hn; lia | lia].
Qed.

Lemma drop_spaces_head c r : is_space c = false -> drop_spaces (c :: r) = c :: r.
Proof. intros H. simpl. by rewrite H. Qed.

(** [strings.TrimSpace] keeps a text whose first and last bytes are not
    white space. *)
Lemma trim_space_edges w1 m w3 :
  no_space w1 -> no_space w3 -> w1 <> [] -> w3 <> [] ->
  trim_space (w1 ++ m ++ w3) = w1 ++ m ++ w3.
Proof.
  intros H1 H3 N1 N3. unfold trim_space.
  destruct w1 as [|c w1]; [done|]. inversion H1 as [|? ? Hc _]; subst.
  rewrite <- app_comm_cons, drop_spaces_head by done.
  rewrite app_comm_cons, !rev_app_distr, <- app_assoc.
  pose proof (no_space_rev _ H3) as H3r.
  destruct (rev w3) as [|d r] eqn:E; [by destruct (rev_neq_nil w3 N3)|].
  inversion H3r as [|? ? Hd _]; subst.
  rewrite <- app_comm_cons, drop_spaces_head by done.
  rewrite app_comm_cons, <- E, app_assoc, <- !rev_app_distr. apply rev_involutive.
Qed.

(** Horner evaluation never decreases on digits. *)
Lemma parse_digits_mono acc s v :
  0 <= acc -> parse_digits acc s = Some v -> acc <= v.
Proof.
  revert acc; induction s as [|c s IH]; intros acc Ha H; simpl in H; [by injection H; lia|].
  destruct (is_digit c) eqn:Ed; [|done].
  assert (0 <= digit_val c).
  { unfold is_digit, digit_val in *. apply andb_true_iff in Ed as [E1 _].
    apply N.leb_le in E1. lia. }
  apply IH in H; lia.
Qed.

(** What [ParseUint] and [Atoi] return fits their Go result types. *)
Lemma parse_uint_range bits s v : parse_uint bits s = Some v -> 0 <= v <= 2 ^ bits - 1.
Proof.
  unfold parse_uint. destruct s as [|c s]; [done|].
  destruct (parse_digits 0 _) as [z|] eqn:E; [|done].
  destruct (Z.leb_spec z (2 ^ bits - 1)); [|done]. intros [= <-].
  apply parse_digits_mono in E; lia.
Qed.

Lemma atoi_range s v : atoi s = Some v -> in_int64 v = true.
Proof.
  unfold atoi.
  destruct s as [|c s']; [done|]. intros H. apply in_int64_spec. unfold int64_min, int64_max.
  destruct (ascii_dec c "-"%char).
  - destruct (parse_uint 64 s') as [u|] eqn:E; [|done]. apply parse_uint_range in E.
    destruct (Z.leb_spec u (2 ^ 63)); [|done]. injection H as <-. lia.
  - destruct (parse_uint 64 _) as [u|] eqn:E; [|done]. apply parse_uint_range in E.
    destruct (Z.ltb_spec u (2 ^ 63)); [|done]. injection H as <-. lia.
Qed.

(** A prefix of a run of digits parses to at most the value of the run. *)
Lemma parse_digits_prefix s k v w :
  parse_digits 0 s = Some v -> parse_digits 0 (take k s) = Some w -> 0 <= w <= v.
Proof.
  intros Hs Hk. rewrite <- (take_drop k s), parse_digits_app, Hk in Hs.
  split; [eapply parse_digits_mono; [|exact Hk]; lia|].
  eapply parse_digits_mono; [|exact Hs]. eapply parse_digits_mono; [|exact Hk]; lia.
Qed.

Lemma fields_go_drop_spaces s : fields_go (drop_spaces s) [] = fields_go s [].
Proof.
  induction s as [|c s IH]; [done|]. simpl.
  destruct (is_space c) eqn:E; [done|]. simpl. by rewrite E.
Qed.

Lemma fields_go_trailing s sp cur :
  Forall (fun c => is_space c = true) sp -> fields_go (s ++ sp) cur = fields_go s cur.
Proof.
  intros Hsp. revert cur; induction s as [|c s IH]; intros cur; simpl.
  - destruct Hsp as [|x sp Hx Hsp]; [done|]. simpl. rewrite Hx.
    assert (Hnil : fields_go sp [] = []).
    { induction Hsp as [|y sp' Hy _ IH']; [done|]. simpl. by rewrite Hy. }
    by destruct cur; rewrite Hnil.
  - destruct (is_space c); [destruct cur|]; by rewrite IH.
Qed.

Lemma drop_spaces_split r :
  exists sp, Forall (fun c => is_space c = true) sp /\ r = sp ++ drop_spaces r.
Proof.
  induction r as [|c r (sp & Hsp & Hr)]; [by exists []|]. simpl.
  destruct (is_space c) eqn:E; [exists (c :: sp); split; [by constructor | simpl; by f_equal]|].
  by exists [].
Qed.

(** [strings.Fields] does not see the white space [strings.TrimSpace]
    removes. *)
Lemma fields_trim_space s : fields (trim_space s) = fields s.
Proof.
  unfold fields, trim_space.
  transitivity (fields_go (drop_spaces s) []); [|apply fields_go_drop_spaces].
  set (d := drop_spaces s).
  destruct (drop_spaces_split (rev d)) as (sp & Hsp & E).
  assert (Hd : d = rev (drop_spaces (rev d)) ++ rev sp)
    by (rewrite <- rev_app_distr, <- E; by rewrite rev_involutive).
  symmetry. rewrite Hd at 1. apply fields_go_trailing. by apply Forall_rev.
Qed.

Lemma lines_go_tail p cur :
  no_newline p ->
  lines_go p cur = match rev cur ++ p with [] => [] | r => [drop_cr r] end.
Proof.
  revert cur; induction p as [|c p IH]; intros cur Hp.
  - simpl. rewrite app_nil_r. by destruct cur; [|destruct (rev (_ :: _)) eqn:E;
      [by apply rev_neq_nil in E|]].
  - inversion Hp as [|? ? Hc Hp']; subst. simpl.
    destruct (ascii_dec c newline); [done|]. rewrite IH by done.
    simpl. by rewrite <- app_assoc.
Qed.

Lemma split_go_tail sep p cur :
  Forall (fun c => c <> sep) p -> split_go sep p cur = [rev cur ++ p].
Proof.
  revert cur; induction p as [|c p IH]; intros cur Hp; simpl.
  - by rewrite app_nil_r.
  - inversion Hp; subst. destruct (ascii_dec c sep); [done|].
    rewrite IH by done. simpl. by rewrite <- app_assoc.
Qed.

Lemma lines_go_concat (ls : list str) tail :
  Forall no_newline ls ->
  lines_go (concat (map (fun l => l ++ [newline]) ls) ++ tail) [] =
  map drop_cr ls ++ lines_go tail [].
Proof.
  induction 1 as [|l ls Hl _ IH]; [done|]. simpl.
  rewrite <- !app_assoc. simpl. by rewrite lines_go_line, IH.
Qed.

Lemma split_go_concat sep (ls : list str) tail :
  Forall (Forall (fun c => c <> sep)) ls ->
  split_go sep (concat (map (fun l => l ++ [sep]) ls) ++ tail) [] =
  ls ++ split_go sep tail [].
Proof.
  induction 1 as [|l ls Hl _ IH]; [done|]. simpl.
  rewrite <- !app_assoc. simpl. by rewrite split_go_line, IH.
Qed.

(** A text of complete lines followed by a partial last line, as a crash
    during an append leaves it: the scanner returns the complete lines
    and then the partial one, if it is not empty. *)
Lemma scan_all_partial (ls : list str) p :
  Forall (fun l => Forall (fun c => c <> newline /\ c <> carriage_return) l /\
                   Z.of_nat (length l) < max_token_size) ls ->
  Forall (fun c => c <> newline /\ c <> carriage_return) p ->
  Z.of_nat (length p) < max_token_size ->
  scan_all (concat (map (fun l => l ++ [newline]) ls) ++ p) =
  Some (ls ++ match p with [] => [] | _ => [p] end).
Proof.
  intros Hls Hp Hlen. unfold scan_all, split_on, scan_lines.
  assert (Hnl : Forall no_newline ls)
    by (eapply Forall_impl; [exact Hls|]; intros l [Hl _]; eapply Forall_impl; [exact Hl|naive_solver]).
  assert (Hpn : no_newline p) by (eapply Forall_impl; [exact Hp|naive_solver]).
  rewrite split_go_concat, split_go_tail by done. simpl.
  rewrite forallb_app. simpl. rewrite (proj2 (Z.ltb_lt _ _) Hlen). simpl.
  rewrite (proj2 (forallb_forall _ _)).
  - rewrite lines_go_concat, lines_go_tail by done. simpl.
    rewrite (map_ext_in drop_cr id), map_id.
    + f_equal. f_equal. destruct p; [done|]. f_equal. apply drop_cr_no_cr.
      eapply Forall_impl; [exact Hp|naive_solver].
    + intros l Hl%list_elem_of_In. eapply (proj1 (Forall_forall _ _)) in Hls as [Hl' _];
        [|exact Hl]. apply drop_cr_no_cr. eapply Forall_impl; [exact Hl'|naive_solver].
  - intros l Hl%list_elem_of_In. apply Z.ltb_lt.
    eapply (proj1 (Forall_forall _ _)) in Hls as [_ ?]; [done | exact Hl].
Qed.

Lemma fields_word_or_nil w : no_space w -> fields w = [] \/ fields w = [w].
Proof. intros Hw. destruct w; [by left|]. right. by apply fields_go_last. Qed.

Lemma fields_cons_word w rest :
  no_space w -> w <> [] -> fields (w ++ " "%char :: rest) = w :: fields rest.
Proof.
  intros Hw Hne. unfold fields.
  rewrite fields_go_word, app_nil_r, fields_go_sep, rev_involutive;
    [done | by apply rev_neq_nil | done].
Qed.

(** [strings.Fields] undoes [strings.Join(_, " ")] on non-empty words
    without white space. *)
Lemma fields_join (ws : list str) :
  Forall (fun w => no_space w /\ w <> []) ws -> fields (join s[" "] ws) = ws.
Proof.
  induction 1 as [|w [|w' ws'] [Hw Hne] Hws IH]; [done|..].
  - by apply fields_go_last.
  - change (join s[" "] (w :: w' :: ws')) with (w ++ " "%char :: join s[" "] (w' :: ws')).
    by rewrite fields_cons_word, IH.
Qed.

(** ** Runs of digits *)

Lemma digit_val_range c : is_digit c = true -> 0 <= digit_val c <= 9.
Proof.
  unfold is_digit, digit_val. intros [E1 E2]%andb_true_iff.
  apply N.leb_le in E1, E2. lia.
Qed.

(** Horner evaluation from an accumulator shifts it by the run's length. *)
Lemma parse_digits_acc acc l :
  parse_digits acc l = (fun v => acc * 10 ^ Z.of_nat (length l) + v) <$> parse_digits 0 l.
Proof.
  revert acc; induction l as [|c l IH]; intros acc; cbn [parse_digits length].
  - cbn. f_equal. lia.
  - destruct (is_digit c); [|done]. rewrite (IH (10 * acc + _)), (IH (10 * 0 + _)).
    destruct (parse_digits 0 l); cbn; [|done]. f_equal. rewrite Nat2Z.inj_succ, Z.pow_succ_r; lia.
Qed.

Lemma parse_digits_bound l v : parse_digits 0 l = Some v -> 0 <= v < 10 ^ Z.of_nat (length l).
Proof.
  revert v; induction l as [|c l IH]; intros v; cbn [parse_digits length].
  - intros [= <-]. cbn. lia.
  - destruct (is_digit c) eqn:Ed; [|done]. rewrite parse_digits_acc.
    destruct (parse_digits 0 l) as [u|]; [|done]. intros [= <-].
    pose proof (digit_val_range c Ed). specialize (IH u eq_refl).
    rewrite Nat2Z.inj_succ, Z.pow_succ_r by lia. nia.
Qed.

(** The first [k] digits of a run parse to the run's value shifted right
    by the remaining digits. *)
Lemma parse_digits_take l v k :
  parse_digits 0 l = Some v ->
  parse_digits 0 (take k l) = Some (v / 10 ^ Z.of_nat (length l - k)).
Proof.
  intros Hl. rewrite <- (take_drop k l), parse_digits_app in Hl.
  destruct (parse_digits 0 (take k l)) as [w|] eqn:Ew; [|done].
  rewrite parse_digits_acc in Hl. destruct (parse_digits 0 (drop k l)) as [u|] eqn:Eu; [|done].
  injection Hl as <-. apply parse_digits_bound in Eu. rewrite length_drop in *.
  f_equal. apply (Z.div_unique_pos _ _ _ u); [lia | ring].
Qed.

Lemma format_N_digits n : Forall (fun c => is_digit c = true) (format_N n).
Proof. apply format_N_forall. intros d Hd. apply (digit_char_spec d Hd). Qed.

Lemma is_digit_sign c : is_digit c = true -> c <> "-"%char /\ c <> "+"%char.
Proof. intros Hc. split; intros ->; discriminate. Qed.

(** [strconv.Atoi] of an unsigned run of digits: its value when below
    [2^63]. *)
Lemma atoi_digits w v :
  w <> [] -> Forall (fun c => is_digit c = true) w -> parse_digits 0 w = Some v ->
  atoi w = if v <? 2 ^ 63 then Some v else None.
Proof.
  intros Hne Hd Hv. destruct w as [|c w']; [done|].
  inversion Hd as [|? ? Hc _]; subst. destruct (is_digit_sign c Hc) as [Hm Hp].
  unfold atoi. destruct (ascii_dec c "-"%char); [done|]. destruct (ascii_dec c "+"%char); [done|].
  unfold parse_uint. rewrite Hv. destruct (Z.leb_spec v (2 ^ 64 - 1)).
  - done.
  - destruct (Z.ltb_spec v (2 ^ 63)); [lia | done].
Qed.
