(* ===== verification/Chunk.v ===== *)
(** * Chunks: [internal/chunk/chunk.go]

    The scene and chunk types.  [LoadScenes] turns a scene file (one frame
    number per line) into scenes, and [Chunkify] numbers the scenes as
    chunks.  [IVFPath] names a chunk's bitstream and [WorkDirName] names
    the work directory.  The fixed-length planner of package [keyframe]
    writes the scene file; its source is not under src/, so it is modelled
    from spec section 4.2.  The theorems show that the pipeline's chunks
    tile [0, total) in index order. *)

From S2P Require Import Prelude GoText.

Module Chunk.

(** ** Data *)

(** [type Scene struct { StartFrame, EndFrame int }] *)
Record Scene := mkScene { StartFrame : Z; EndFrame : Z }.

(** [type Chunk struct { Idx, Start, End int }] *)
Record Chunk := mkChunk { Idx : Z; Start : Z; End : Z }.

(** [func (c Chunk) Frames() int]: an int subtraction. *)
Definition Frames (c : Chunk) : Z := wrap_i64 (End c - Start c).

(** [type ChunkComp struct { Idx int; Frames int; Size uint64 }] *)
Record ChunkComp := mkChunkComp { CIdx : Z; CFrames : Z; CSize : Z }.

#[export] Instance Chunk_eq_dec : EqDecision Chunk.
Proof. solve_decision. Defined.
#[export] Instance ChunkComp_eq_dec : EqDecision ChunkComp.
Proof. solve_decision. Defined.
#[export] Instance Scene_eq_dec : EqDecision Scene.
Proof. solve_decision. Defined.

(** ** [LoadScenes] *)

(** Errors of [LoadScenes]: the line that [strconv.Atoi] rejected, or
    the scanner's [ErrTooLong]. *)
Inductive LoadErr := InvalidFrameNumber (line : str) | ScenesTooLong.

(** The scanner loop: trimmed empty lines are skipped, any other line must
    be an [Atoi] number or the whole load fails. *)
Fixpoint parse_frame_nums (ls : list str) : result (list Z) LoadErr :=
  match ls with
  | [] => Ok []
  | l :: ls' =>
      let t := trim_space l in
      match t with
      | [] => parse_frame_nums ls'
      | _ => match atoi t with
             | Some n => let? rest := parse_frame_nums ls' in Ok (n :: rest)
             | None => Err (InvalidFrameNumber t)
             end
      end
  end.

(** [sort.Ints], then "ensure we start at frame 0". *)
Definition start_at_zero (nums : list Z) : list Z :=
  match nums with
  | [] => [0]
  | n :: _ => if Z.eqb n 0 then nums else 0 :: nums
  end.

(** The conversion loop: scene [i] runs from [nums[i]] to [nums[i+1]] (or
    [totalFrames] for the last), and only non-empty scenes are kept. *)
Fixpoint build_scenes (nums : list Z) (totalFrames : Z) : list Scene :=
  match nums with
  | [] => []
  | start :: rest =>
      let end_ := match rest with [] => totalFrames | n :: _ => n end in
      (if start <? end_ then [mkScene start end_] else []) ++
      build_scenes rest totalFrames
  end.

(** [func LoadScenes(path string, totalFrames int) ([]Scene, error)], on
    the file's contents. *)
Definition LoadScenes (contents : str) (totalFrames : Z) : result (list Scene) LoadErr :=
  let? lines := match scan_all contents with
                | Some ls => Ok ls
                | None => Err ScenesTooLong
                end in
  let? nums := parse_frame_nums lines in
  Ok (build_scenes (start_at_zero (merge_sort Z.le nums)) totalFrames).

(** ** [Chunkify]: scene [i] becomes chunk [i] ([for i, scene := range]). *)
Fixpoint chunkify_from (i : nat) (scenes : list Scene) : list Chunk :=
  match scenes with
  | [] => []
  | sc :: ss => mkChunk (Z.of_nat i) (StartFrame sc) (EndFrame sc) :: chunkify_from (S i) ss
  end.

Definition Chunkify (scenes : list Scene) : list Chunk := chunkify_from 0 scenes.

(** ** File names *)

(** Paths are lists of clean components; [filepath.Join] appends them. *)
Abbreviation path := (list str).

(** [fmt.Sprintf("%04d.ivf", chunkIdx)] *)
Definition IVFName (chunkIdx : Z) : str := format_Z_pad4 chunkIdx ++ s[".ivf"].

(** [func IVFPath(workDir string, chunkIdx int) string] *)
Definition IVFPath (workDir : path) (chunkIdx : Z) : path :=
  workDir ++ [s["encode"]; IVFName chunkIdx].

Definition slash : ascii := "/"%char.

(** [filepath.Base]: the last element after trailing slashes are removed;
    [Base("") = "."] and a path of slashes gives ["/"]. *)
Fixpoint drop_slashes (r : str) : str :=
  match r with
  | c :: r' => if ascii_dec c slash then drop_slashes r' else r
  | [] => []
  end.

Fixpoint last_elem_rev (r : str) : str :=
  match r with
  | c :: r' => if ascii_dec c slash then [] else c :: last_elem_rev r'
  | [] => []
  end.

Definition base (p : str) : str :=
  match p with
  | [] => s["."]
  | _ => match drop_slashes (rev p) with
         | [] => s["/"]
         | r => rev (last_elem_rev r)
         end
  end.

(** [filepath.Ext]: the suffix from the last dot, scanning back to the
    last separator. *)
Fixpoint ext_rev (r : str) (acc : str) : str :=
  match r with
  | [] => []
  | c :: r' => if ascii_dec c slash then []
               else if ascii_dec c "."%char then c :: acc
               else ext_rev r' (c :: acc)
  end.

Definition ext (p : str) : str := ext_rev (rev p) [].

(** [func WorkDirName(inputPath string) string]:
    [name := base[:len(base)-len(ext)]] and [".reel-" + name]. *)
Definition WorkDirName (inputPath : str) : str :=
  let b := base inputPath in
  s[".reel-"] ++ take (length b - length (ext b)) b.

(** ** The fixed-length planner (package [keyframe], spec 4.2)

    Chunk [i] starts at [i * fpc]; chunks are emitted while they start
    before [total].  The planner writes the start frames, one per line, for
    [LoadScenes] to read back.  [fuel] bounds the loop; [total] iterations
    are enough since [fpc >= 1]. *)
Fixpoint boundaries_from (fuel : nat) (i fpc total : Z) : list Z :=
  match fuel with
  | O => []
  | S f => if i * fpc <? total then i * fpc :: boundaries_from f (i + 1) fpc total
           else []
  end.

Definition fixed_boundaries (total fpc : Z) : list Z :=
  boundaries_from (Z.to_nat total) 0 fpc total.

Definition scene_file (nums : list Z) : str :=
  concat (map (fun n => format_Z n ++ [newline]) nums).

(** The chunks the spec asks for: [(i, i*fpc, min((i+1)*fpc, total))]. *)
Fixpoint plan_from (fuel : nat) (i fpc total : Z) : list Chunk :=
  match fuel with
  | O => []
  | S f => if i * fpc <? total
           then mkChunk i (i * fpc) (Z.min ((i + 1) * fpc) total) :: plan_from f (i + 1) fpc total
           else []
  end.

Definition spec_chunks (total fpc : Z) : list Chunk := plan_from (Z.to_nat total) 0 fpc total.

(** ** Partitions *)

(** [tiles cs lo hi]: the chunks are non-empty, contiguous, start at [lo]
    and end at [hi]. *)
Fixpoint tiles (cs : list Chunk) (lo hi : Z) : Prop :=
  match cs with
  | [] => lo = hi
  | c :: cs' => Start c = lo /\ Start c < End c /\ tiles cs' (End c) hi
  end.

(** Chunk [i] of the list has index [i]. *)
Definition indexed (cs : list Chunk) : Prop :=
  forall i c, cs !! i = Some c -> Idx c = Z.of_nat i.

Fixpoint scene_tiles (ss : list Scene) (lo hi : Z) : Prop :=
  match ss with
  | [] => lo = hi
  | s :: ss' => StartFrame s = lo /\ StartFrame s < EndFrame s /\ scene_tiles ss' (EndFrame s) hi
  end.

(** ** Lemmas *)

Lemma build_scenes_tiles total s rest :
  Sorted Z.le (s :: rest) -> Forall (fun n => n <= total) (s :: rest) ->
  scene_tiles (build_scenes (s :: rest) total) s total.
Proof.
  revert s; induction rest as [|n rest IH]; intros s Hs Hb.
  - inversion Hb; subst. simpl. destruct (Z.ltb_spec s total); simpl; [|lia].
    repeat split; lia.
  - inversion Hs as [|? ? Hs' Hhd]; subst. inversion Hhd; subst.
    inversion Hb as [|? ? _ Hb']; subst.
    cbn [build_scenes]. destruct (Z.ltb_spec s n); simpl.
    + repeat split; [lia|]. by apply IH.
    + replace s with n by lia. by apply IH.
Qed.

Lemma start_at_zero_spec (l : list Z) total :
  0 <= total -> Sorted Z.le l -> Forall (fun n => 0 <= n <= total) l ->
  exists rest, start_at_zero l = 0 :: rest /\ Sorted Z.le (0 :: rest) /\
               Forall (fun n => n <= total) (0 :: rest).
Proof.
  intros Ht Hs Hb. destruct l as [|n l].
  - exists []. repeat constructor. lia.
  - assert (Hb' : Forall (fun n => n <= total) (n :: l))
      by (eapply Forall_impl; [exact Hb|]; simpl; lia).
    inversion Hb as [|? ? Hn _]; subst. simpl.
    destruct (Z.eqb_spec n 0) as [->|Hne].
    + by exists l.
    + exists (n :: l). repeat split; [constructor; [done|constructor; lia] | by constructor; [lia|]].
Qed.

Lemma chunkify_tiles ss lo hi i :
  scene_tiles ss lo hi -> tiles (chunkify_from i ss) lo hi.
Proof.
  revert lo i; induction ss as [|sc ss IH]; intros lo i; simpl; [done|].
  intros (? & ? & ?). repeat split; auto.
Qed.

Lemma chunkify_from_lookup ss i j c :
  chunkify_from i ss !! j = Some c -> Idx c = Z.of_nat (i + j).
Proof.
  revert i j; induction ss as [|sc ss IH]; intros i j; [done|].
  destruct j as [|j]; simpl.
  - intros [= <-]. simpl. f_equal. lia.
  - intros H. rewrite (IH _ _ H). f_equal. lia.
Qed.

Lemma Chunkify_indexed ss : indexed (Chunkify ss).
Proof. intros j c H. apply (chunkify_from_lookup _ _ _ _ H). Qed.

Lemma merge_sort_sorted_id (l : list Z) :
  StronglySorted Z.le l -> merge_sort Z.le l = l.
Proof.
  intros Hs. apply (StronglySorted_unique Z.le);
    [apply StronglySorted_merge_sort; apply _ | done | apply merge_sort_Permutation].
Qed.

Lemma scan_scene_file (nums : list Z) :
  Forall (fun n => in_int64 n = true) nums ->
  scan_all (scene_file nums) = Some (map format_Z nums).
Proof.
  intros Hn. unfold scene_file.
  rewrite <- (map_map format_Z (fun l => l ++ [newline])), scan_all_concat; [done|].
  apply Forall_map. eapply Forall_impl; [exact Hn|]. intros z Hz. simpl in Hz. go_bounds.
  split; [apply format_Z_line_chars|].
  pose proof (length_format_Z z ltac:(go_lia)). unfold max_token_size. lia.
Qed.

Lemma parse_frame_nums_format (nums : list Z) :
  Forall (fun n => in_int64 n = true) nums ->
  parse_frame_nums (map format_Z nums) = Ok nums.
Proof.
  induction 1 as [|n nums Hn _ IH]; [done|]. simpl.
  rewrite trim_space_no_space by apply format_Z_no_space.
  destruct (format_Z n) as [|c w] eqn:E; [by destruct (format_Z_nonempty n)|].
  rewrite <- E, atoi_format_Z by done. by rewrite IH.
Qed.

Lemma boundaries_from_stop f i fpc total :
  total <= i * fpc -> boundaries_from f i fpc total = [].
Proof. intros H. destruct f; simpl; [done|]. by rewrite (proj2 (Z.ltb_ge _ _)) by lia. Qed.

Lemma plan_from_stop f i fpc total :
  total <= i * fpc -> plan_from f i fpc total = [].
Proof. intros H. destruct f; simpl; [done|]. by rewrite (proj2 (Z.ltb_ge _ _)) by lia. Qed.

Lemma boundaries_ge f i fpc total :
  0 <= fpc -> Forall (fun x => i * fpc <= x) (boundaries_from f i fpc total).
Proof.
  intros Hf. revert i; induction f as [|f IH]; intros i; simpl; [constructor|].
  destruct (i * fpc <? total); constructor; [lia|].
  eapply Forall_impl; [apply IH|]. simpl. nia.
Qed.

Lemma boundaries_sorted f i fpc total :
  0 <= fpc -> StronglySorted Z.le (boundaries_from f i fpc total).
Proof.
  intros Hf. revert i; induction f as [|f IH]; intros i; simpl; [constructor|].
  destruct (i * fpc <? total); constructor; [apply IH|].
  eapply Forall_impl; [apply (boundaries_ge f (i + 1))|]; [done|]. simpl. nia.
Qed.

Lemma build_scenes_cons2 x y rest total :
  build_scenes (x :: y :: rest) total =
  (if x <? y then [mkScene x y] else []) ++ build_scenes (y :: rest) total.
Proof. reflexivity. Qed.

(** Reading the planner's boundaries back gives the chunks of the spec,
    once [Chunkify] has attached the indices. *)
Lemma build_plan f i fpc total :
  0 < fpc -> 0 <= i -> i * fpc < total -> total <= (i + Z.of_nat f) * fpc ->
  chunkify_from (Z.to_nat i) (build_scenes (boundaries_from f i fpc total) total) =
  plan_from f i fpc total.
Proof.
  intros Hf. revert i; induction f as [|f IH]; intros i Hi Hlt Hle; [simpl in *; nia|].
  cbn [boundaries_from plan_from]. rewrite (proj2 (Z.ltb_lt _ _) Hlt).
  destruct (Z.ltb_spec ((i + 1) * fpc) total) as [Hlt'|Hge'].
  - destruct f as [|f']; [simpl in Hle; nia|].
    cbn [boundaries_from]. rewrite (proj2 (Z.ltb_lt _ _) Hlt'), build_scenes_cons2.
    rewrite (proj2 (Z.ltb_lt (i * fpc) ((i + 1) * fpc))) by nia.
    cbn [app chunkify_from]. f_equal.
    + rewrite Z2Nat.id, Z.min_l by lia. done.
    + replace (S (Z.to_nat i)) with (Z.to_nat (i + 1)) by lia.
      rewrite <- IH by nia. cbn [boundaries_from].
      by rewrite (proj2 (Z.ltb_lt _ _) Hlt').
  - rewrite boundaries_from_stop, plan_from_stop by lia. simpl.
    rewrite (proj2 (Z.ltb_lt _ _) Hlt). simpl.
    rewrite Z2Nat.id, Z.min_r by lia. done.
Qed.

Lemma boundaries_lt f i fpc total :
  Forall (fun x => x < total) (boundaries_from f i fpc total).
Proof.
  revert i; induction f as [|f IH]; intros i; simpl; [constructor|].
  destruct (Z.ltb_spec (i * fpc) total); constructor; [lia | apply IH].
Qed.

Lemma plan_tiles f i fpc total :
  0 < fpc -> i * fpc < total -> total <= (i + Z.of_nat f) * fpc ->
  tiles (plan_from f i fpc total) (i * fpc) total /\
  Forall (fun c => End c - Start c <= fpc) (plan_from f i fpc total).
Proof.
  intros Hf. revert i; induction f as [|f IH]; intros i Hlt Hle; [simpl in *; nia|].
  simpl. rewrite (proj2 (Z.ltb_lt _ _) Hlt).
  destruct (Z.ltb_spec ((i + 1) * fpc) total) as [Hlt'|Hge'].
  - destruct (IH (i + 1)) as [Ht Hs]; [done | nia |].
    rewrite Z.min_l by lia. cbn [tiles Start End].
    split; [split; [done | split; [nia | exact Ht]] | constructor; [simpl; nia | exact Hs]].
  - rewrite plan_from_stop by lia. rewrite Z.min_r by lia. cbn [tiles Start End].
    split; [split; [done | split; [simpl; lia | done]] | constructor; [simpl; nia | constructor]].
Qed.

(** ** Work-directory names *)

Lemma drop_slashes_keep c r : c <> slash -> drop_slashes (c :: r) = c :: r.
Proof. intros H. simpl. by destruct (ascii_dec c slash). Qed.

Lemma last_elem_rev_app w r :
  Forall (fun c => c <> slash) w -> last_elem_rev (w ++ slash :: r) = w.
Proof.
  induction 1 as [|c w Hc _ IH]; simpl.
  - by destruct (ascii_dec slash slash).
  - destruct (ascii_dec c slash); [done|]. by rewrite IH.
Qed.

Lemma ext_rev_app w r acc :
  Forall (fun c => c <> slash /\ c <> "."%char) w ->
  ext_rev (w ++ r) acc = ext_rev r (rev w ++ acc).
Proof.
  intros Hw. revert acc; induction Hw as [|c w [Hs Hd] _ IH]; intros acc; [done|].
  simpl. destruct (ascii_dec c slash); [done|]. destruct (ascii_dec c "."%char); [done|].
  rewrite IH. by rewrite <- app_assoc.
Qed.

(** ** Theorems *)

(** C11: [LoadScenes] followed by [Chunkify] produces chunks that tile
    [0, totalFrames) in index order (no gap, no overlap, no empty chunk,
    chunk [i] has index [i]), whenever every frame number of the scene
    file lies in [0, totalFrames]. *)
Theorem LoadScenes_Chunkify_partition contents total lines nums :
  0 <= total ->
  scan_all contents = Some lines -> parse_frame_nums lines = Ok nums ->
  Forall (fun n => 0 <= n <= total) nums ->
  exists ss, LoadScenes contents total = Ok ss /\
             tiles (Chunkify ss) 0 total /\ indexed (Chunkify ss).
Proof.
  intros Ht Hsc Hp Hb. unfold LoadScenes. rewrite Hsc. cbn [result_bind]. rewrite Hp.
  cbn [result_bind].
  eexists; split; [done|]. split; [|apply Chunkify_indexed].
  apply chunkify_tiles.
  destruct (start_at_zero_spec (merge_sort Z.le nums) total) as (rest & -> & Hs & Hle);
    [done | apply Sorted_merge_sort; apply _ | by rewrite merge_sort_Permutation |].
  by apply build_scenes_tiles.
Qed.

Lemma LoadScenes_Chunkify_partition_witness :
  0 <= 1000 /\
  scan_all (scene_file [0; 300; 600]) = Some [s["0"]; s["300"]; s["600"]] /\
  parse_frame_nums [s["0"]; s["300"]; s["600"]] = Ok [0; 300; 600] /\
  Forall (fun n => 0 <= n <= 1000) [0; 300; 600] /\
  exists ss, LoadScenes (scene_file [0; 300; 600]) 1000 = Ok ss /\
             tiles (Chunkify ss) 0 1000 /\ indexed (Chunkify ss).
Proof.
  split; [lia|]. do 2 (split; [vm_compute; reflexivity|]).
  split; [repeat constructor; lia|].
  apply (LoadScenes_Chunkify_partition _ _ [s["0"]; s["300"]; s["600"]] [0; 300; 600]);
    [lia | vm_compute; reflexivity | vm_compute; reflexivity | repeat constructor; lia].
Defined.

(** The spec's chunk list is a non-empty partition of [0, total) in
    which every chunk holds at most [frames_per_chunk] frames. *)
Lemma spec_chunks_partition total fpc :
  0 < fpc -> 0 < total ->
  spec_chunks total fpc <> [] /\ tiles (spec_chunks total fpc) 0 total /\
  Forall (fun c => End c - Start c <= fpc) (spec_chunks total fpc).
Proof.
  intros Hf Ht. unfold spec_chunks.
  destruct (plan_tiles (Z.to_nat total) 0 fpc total) as [Htl Hsz]; [lia | lia | nia |].
  split; [|done]. destruct (Z.to_nat total) eqn:E; [lia|].
  simpl. by rewrite (proj2 (Z.ltb_lt _ _)) by lia.
Qed.

Lemma fixed_plan_chunks total fpc :
  0 < fpc -> 0 < total <= int64_max ->
  LoadScenes (scene_file (fixed_boundaries total fpc)) total =
    Ok (build_scenes (fixed_boundaries total fpc) total) /\
  Chunkify (build_scenes (fixed_boundaries total fpc) total) = spec_chunks total fpc.
Proof.
  intros Hf Ht. unfold LoadScenes, fixed_boundaries.
  assert (Hr : Forall (fun n => in_int64 n = true) (boundaries_from (Z.to_nat total) 0 fpc total)).
  { eapply Forall_impl;
      [apply Forall_and; split; [apply (boundaries_ge _ 0) | apply boundaries_lt]; lia|].
    intros x [??]. go_bounds. go_lia. }
  rewrite scan_scene_file by done. cbn [result_bind].
  rewrite parse_frame_nums_format by done. cbn [result_bind].
  rewrite merge_sort_sorted_id by (apply boundaries_sorted; lia).
  assert (Hz : start_at_zero (boundaries_from (Z.to_nat total) 0 fpc total) =
               boundaries_from (Z.to_nat total) 0 fpc total).
  { destruct (Z.to_nat total) as [|f] eqn:E; [lia|].
    cbn [boundaries_from]. rewrite (proj2 (Z.ltb_lt _ _)) by lia. done. }
  rewrite Hz. split; [done|]. unfold Chunkify, spec_chunks.
  apply (build_plan _ 0); [lia | lia | lia | nia].
Qed.

(** C10: the fixed-length planner of the spec, written to the scene file
    and read back by [LoadScenes] and numbered by [Chunkify], yields
    exactly the chunks [(i, i*fpc, min((i+1)*fpc, total))] of spec 4.2:
    a non-empty partition of [0, total) with at most [fpc] frames per
    chunk. *)
Theorem fixed_plan_LoadScenes total fpc :
  0 < fpc -> 0 < total <= int64_max ->
  exists ss, LoadScenes (scene_file (fixed_boundaries total fpc)) total = Ok ss /\
             Chunkify ss = spec_chunks total fpc /\
             Chunkify ss <> [] /\ tiles (Chunkify ss) 0 total /\
             Forall (fun c => End c - Start c <= fpc) (Chunkify ss).
Proof.
  intros Hf Ht. destruct (fixed_plan_chunks total fpc Hf Ht) as [HL HC].
  eexists; split; [exact HL|]. rewrite HC. split; [done|].
  apply spec_chunks_partition; lia.
Qed.

Lemma fixed_plan_LoadScenes_witness :
  0 < 100 /\ 0 < 250 <= int64_max /\
  exists ss, LoadScenes (scene_file (fixed_boundaries 250 100)) 250 = Ok ss /\
             Chunkify ss = spec_chunks 250 100 /\
             Chunkify ss <> [] /\ tiles (Chunkify ss) 0 250 /\
             Forall (fun c => End c - Start c <= 100) (Chunkify ss).
Proof.
  split; [lia | split; [unfold int64_max; lia | apply fixed_plan_LoadScenes; unfold int64_max; lia]].
Defined.

Lemma base_eq p :
  p <> [] -> drop_slashes (rev p) <> [] ->
  base p = rev (last_elem_rev (drop_slashes (rev p))).
Proof. intros Hp Hd. unfold base. destruct p; [done|]. by destruct (drop_slashes _). Qed.

Lemma base_spec dir w :
  w <> [] -> Forall (fun c => c <> slash) w -> base (dir ++ slash :: w) = w.
Proof.
  intros Hne Hw.
  assert (Hr : rev (dir ++ slash :: w) = rev w ++ slash :: rev dir)
    by (rewrite rev_app_distr; simpl; by rewrite <- app_assoc).
  pose proof (Forall_rev Hw) as Hrw.
  assert (Hd : drop_slashes (rev w ++ slash :: rev dir) = rev w ++ slash :: rev dir).
  { destruct (rev w) as [|c rw] eqn:Er; [by destruct (rev_neq_nil w Hne)|].
    inversion Hrw as [|? ? Hc]. by apply drop_slashes_keep. }
  rewrite base_eq, Hr, Hd.
  - by rewrite last_elem_rev_app, rev_involutive.
  - by destruct dir.
  - rewrite Hr, Hd. by destruct (rev w).
Qed.

Lemma ext_spec name e :
  Forall (fun c => c <> slash /\ c <> "."%char) e -> ext (name ++ "."%char :: e) = "."%char :: e.
Proof.
  intros He. unfold ext. rewrite rev_app_distr. cbn [rev]. rewrite <- app_assoc.
  rewrite ext_rev_app by (by apply Forall_rev). simpl.
  rewrite rev_involutive, app_nil_r.
  by destruct (ascii_dec "."%char slash), (ascii_dec "."%char "."%char).
Qed.

(** [WorkDirName] keeps only the input's base name without its
    extension: the directory and the extension are dropped, so inputs
    that differ only there share one work directory. *)
Theorem WorkDirName_spec dir name e :
  Forall (fun c => c <> slash) name ->
  Forall (fun c => c <> slash /\ c <> "."%char) e ->
  WorkDirName (dir ++ slash :: name ++ "."%char :: e) = s[".reel-"] ++ name.
Proof.
  intros Hn He. unfold WorkDirName.
  rewrite base_spec.
  - rewrite ext_spec by done. f_equal. rewrite length_app. simpl.
    replace (length name + S (length e) - S (length e))%nat with (length name) by lia.
    apply take_app_length.
  - by destruct name.
  - apply Forall_app_2; [done|]. constructor; [done|].
    eapply Forall_impl; [exact He | naive_solver].
Qed.

Lemma WorkDirName_spec_witness :
  Forall (fun c => c <> slash) s["Movie"] /\
  Forall (fun c => c <> slash /\ c <> "."%char) s["mkv"] /\
  WorkDirName (s["/films"] ++ slash :: s["Movie"] ++ "."%char :: s["mkv"]) =
    s[".reel-"] ++ s["Movie"].
Proof.
  assert (H1 : Forall (fun c => c <> slash) s["Movie"]) by (repeat constructor; discriminate).
  assert (H2 : Forall (fun c => c <> slash /\ c <> "."%char) s["mkv"])
    by (repeat constructor; discriminate).
  split; [exact H1 | split; [exact H2 | apply WorkDirName_spec; [exact H1 | exact H2]]].
Defined.

End Chunk.
