(* ===== verification/Resume.v ===== *)
(** * The resume log [done.txt]: [internal/chunk/chunk.go]

    [AppendDone] appends one line [%d %d %d\n] per finished chunk.
    [GetResume] reads the log back.  It skips empty and malformed lines and
    fails as a whole only on the scanner's [ErrTooLong].  [DoneSet],
    [TotalEncodedSize] and [TotalEncodedFrames] summarise the parsed
    records.  The file is a value of type [option str] ([None]: the file
    does not exist).  A crash during an append leaves a prefix of the line
    on disk ([AppendTorn]). *)

From S2P Require Import Prelude GoText Chunk.
Import Chunk.

Module Resume.

(** [type ResumeInf struct { ChunksDone []ChunkComp }] *)
Record ResumeInf := mkResumeInf { ChunksDone : list ChunkComp }.

(** The contents of [<workDir>/done.txt]; [None] when it does not exist. *)
Abbreviation DoneFile := (option str).

(** [GetResume]'s errors that the model keeps: [scanner.Err()].  Open
    errors other than "not exist" are I/O failures and are not modelled. *)
Inductive ResumeErr := ResumeTooLong.

(** One iteration of the scanner loop of [GetResume]. *)
Definition parse_done_line (line : str) : option ChunkComp :=
  match trim_space line with
  | [] => None
  | t => match fields t with
         | [p0; p1; p2] =>
             match atoi p0, atoi p1, parse_uint 64 p2 with
             | Some idx, Some frames, Some size => Some (mkChunkComp idx frames size)
             | _, _, _ => None
             end
         | _ => None
         end
  end.

(** The scanner loop: a malformed line is skipped with [continue]. *)
Fixpoint parse_done_lines (lines : list str) : list ChunkComp :=
  match lines with
  | [] => []
  | l :: ls => match parse_done_line l with
               | Some c => c :: parse_done_lines ls
               | None => parse_done_lines ls
               end
  end.

(** [func GetResume(workDir string) (ptr ResumeInf, error)] *)
Definition GetResume (f : DoneFile) : result ResumeInf ResumeErr :=
  match f with
  | None => Ok (mkResumeInf [])
  | Some contents =>
      match scan_all contents with
      | Some lines => Ok (mkResumeInf (parse_done_lines lines))
      | None => Err ResumeTooLong
      end
  end.

(** [fmt.Fprintf(file, "%d %d %d\n", chunk.Idx, chunk.Frames, chunk.Size)] *)
Definition record_body (c : ChunkComp) : str :=
  format_Z (CIdx c) ++ " "%char :: format_Z (CFrames c) ++ " "%char :: format_Z (CSize c).

Definition record_line (c : ChunkComp) : str := record_body c ++ [newline].

(** [func AppendDone(chunk ChunkComp, workDir string) error]:
    [O_APPEND|O_CREATE|O_WRONLY], one write. *)
Definition AppendDone (c : ChunkComp) (f : DoneFile) : DoneFile :=
  Some (default [] f ++ record_line c).

(** A crash in the middle of the write: only the first [k] bytes reach
    the file. *)
Definition AppendTorn (c : ChunkComp) (k : nat) (f : DoneFile) : DoneFile :=
  Some (default [] f ++ take k (record_line c)).

(** [func (r *ResumeInf) DoneSet() map[int]bool] *)
Definition DoneSet (r : ResumeInf) : gset Z :=
  list_to_set (map CIdx (ChunksDone r)).

(** [func (r *ResumeInf) TotalEncodedSize() uint64]: a [uint64] sum. *)
Definition TotalEncodedSize (r : ResumeInf) : Z :=
  fold_left (fun acc c => wrap_u64 (acc + CSize c)) (ChunksDone r) 0.

(** [func (r *ResumeInf) TotalEncodedFrames() int]: an [int] sum. *)
Definition TotalEncodedFrames (r : ResumeInf) : Z :=
  fold_left (fun acc c => wrap_i64 (acc + CFrames c)) (ChunksDone r) 0.

(** The records a writer can produce: the fields as Go stores them. *)
Definition valid_comp (c : ChunkComp) : bool :=
  in_int64 (CIdx c) && in_int64 (CFrames c) && in_uint64 (CSize c).

(** The log after appending [cs] in order to [f]. *)
Definition append_all (cs : list ChunkComp) (f : DoneFile) : DoneFile :=
  fold_left (fun acc c => AppendDone c acc) cs f.

(** ** Lemmas *)

Lemma parse_record_body c :
  valid_comp c = true -> parse_done_line (record_body c) = Some c.
Proof.
  intros Hv. unfold valid_comp in Hv. apply andb_true_iff in Hv as [Hv Hs].
  apply andb_true_iff in Hv as [Hi Hf].
  unfold parse_done_line.
  assert (Hb : record_body c =
    format_Z (CIdx c) ++ (" "%char :: format_Z (CFrames c) ++ [" "%char]) ++ format_Z (CSize c))
    by (unfold record_body; simpl; by rewrite <- app_assoc).
  rewrite Hb, trim_space_edges by (apply format_Z_no_space || apply format_Z_nonempty).
  rewrite <- Hb.
  destruct (record_body c) as [|ch t] eqn:E;
    [by destruct (format_Z (CIdx c)) eqn:?; [destruct (format_Z_nonempty (CIdx c))|]|].
  rewrite <- E. unfold record_body.
  rewrite fields_three by (apply format_Z_no_space || apply format_Z_nonempty).
  go_bounds. rewrite !atoi_format_Z by (go_bounds; done).
  rewrite format_Z_nonneg, parse_uint_format_N, Z2N.id by (rewrite ?Z2N.id; go_lia).
  by destruct c.
Qed.

Lemma length_record_body c :
  valid_comp c = true -> (length (record_body c) <= 200)%nat.
Proof.
  intros Hv. unfold valid_comp in Hv. rewrite !andb_true_iff in Hv.
  destruct Hv as [[Hi Hf] Hs]. go_bounds. unfold record_body.
  rewrite !length_app. cbn [length]. rewrite !length_app. cbn [length].
  pose proof (length_format_Z (CIdx c) ltac:(go_lia)).
  pose proof (length_format_Z (CFrames c) ltac:(go_lia)).
  pose proof (length_format_Z (CSize c) ltac:(go_lia)). lia.
Qed.

Lemma record_body_line_chars c :
  Forall (fun ch => ch <> newline /\ ch <> carriage_return) (record_body c).
Proof.
  unfold record_body.
  repeat (apply Forall_app_2 || apply Forall_cons_2); try apply format_Z_line_chars; done.
Qed.

Lemma record_body_chars c :
  valid_comp c = true ->
  Forall (fun ch => ch <> newline /\ ch <> carriage_return) (record_body c) /\
  Z.of_nat (length (record_body c)) < max_token_size.
Proof.
  intros Hv. split; [apply record_body_line_chars|].
  pose proof (length_record_body c Hv). unfold max_token_size. lia.
Qed.

Lemma append_all_some cs s :
  append_all cs (Some s) = Some (s ++ concat (map record_line cs)).
Proof.
  revert s; induction cs as [|c cs IH]; intros s; simpl; [by rewrite app_nil_r|].
  unfold append_all in *. cbn [fold_left].
  change (AppendDone c (Some s)) with (Some (s ++ record_line c)).
  rewrite IH. by rewrite <- app_assoc.
Qed.

Lemma parse_done_lines_app l1 l2 :
  parse_done_lines (l1 ++ l2) = parse_done_lines l1 ++ parse_done_lines l2.
Proof. induction l1 as [|l l1 IH]; simpl; [done|]. by destruct (parse_done_line l); rewrite IH. Qed.

Lemma parse_done_lines_bodies cs :
  Forall (fun c => valid_comp c = true) cs -> parse_done_lines (map record_body cs) = cs.
Proof.
  induction 1 as [|c cs Hc _ IH]; [done|]. simpl. by rewrite parse_record_body, IH.
Qed.

Lemma GetResume_lines cs :
  Forall (fun c => valid_comp c = true) cs ->
  GetResume (Some (concat (map record_line cs))) = Ok (mkResumeInf cs).
Proof.
  intros Hv. unfold GetResume, record_line.
  rewrite <- (map_map record_body (fun l => l ++ [newline])), scan_all_concat.
  - cbv beta iota. do 2 f_equal. by apply parse_done_lines_bodies.
  - apply Forall_map. eapply Forall_impl; [exact Hv|]. intros c Hc.
    by apply record_body_chars.
Qed.

(** Reading back a log after appending valid records to a fresh log or
    to a log of valid records. *)
Lemma GetResume_append_all prev cs f :
  (f = None /\ prev = [] \/ f = Some (concat (map record_line prev))) ->
  Forall (fun c => valid_comp c = true) (prev ++ cs) ->
  GetResume (append_all cs f) = Ok (mkResumeInf (prev ++ cs)).
Proof.
  intros [[-> ->] | ->] Hv; [destruct cs as [|c cs]; [done|]|].
  - unfold append_all. cbn [fold_left].
    change (AppendDone c None) with (Some (record_line c)).
    fold (append_all cs (Some (record_line c))).
    rewrite append_all_some. change (record_line c ++ concat (map record_line cs))
      with (concat (map record_line (c :: cs))). by apply GetResume_lines.
  - rewrite append_all_some, <- concat_app, <- map_app. by apply GetResume_lines.
Qed.

Lemma fold_wrap_u64 {A} (f : A -> Z) l a :
  0 <= a <= uint64_max ->
  fold_left (fun acc x => wrap_u64 (acc + f x)) l a = wrap_u64 (a + sumZ f l).
Proof.
  revert a; induction l as [|x l IH]; intros a Ha; simpl.
  - rewrite Z.add_0_r. symmetry. by apply wrap_u64_id.
  - rewrite IH by apply wrap_u64_range. unfold wrap_u64, sumZ. simpl.
    rewrite Zplus_mod_idemp_l. f_equal. lia.
Qed.

Lemma parse_done_line_fields l :
  parse_done_line l =
  match fields l with
  | [p0; p1; p2] =>
      match atoi p0, atoi p1, parse_uint 64 p2 with
      | Some idx, Some frames, Some size => Some (mkChunkComp idx frames size)
      | _, _, _ => None
      end
  | _ => None
  end.
Proof.
  unfold parse_done_line. rewrite <- fields_trim_space.
  by destruct (trim_space l).
Qed.

(** A line of three fields whose last two are a record's frame count and
    size parses to a record exactly when [strconv.Atoi] accepts its first
    field. *)
Lemma parse_line_three w f sz :
  no_space w -> w <> [] -> in_int64 f = true -> in_uint64 sz = true ->
  parse_done_line (w ++ " "%char :: format_Z f ++ " "%char :: format_Z sz) =
    (fun i => mkChunkComp i f sz) <$> atoi w.
Proof.
  intros Hw Hne Hf Hs. rewrite parse_done_line_fields.
  rewrite fields_three by (done || apply format_Z_no_space || apply format_Z_nonempty).
  rewrite atoi_format_Z by done. go_bounds.
  rewrite format_Z_nonneg, parse_uint_format_N, Z2N.id by (rewrite ?Z2N.id; go_lia).
  by destruct (atoi w).
Qed.

(** A torn record line parses to nothing, or to the record's own index and
    frame count with a size that is a decimal prefix of the real one. *)
Lemma parse_torn_body c k :
  valid_comp c = true ->
  parse_done_line (take k (record_body c)) = None \/
  exists sz, parse_done_line (take k (record_body c)) =
             Some (mkChunkComp (CIdx c) (CFrames c) sz) /\ 0 <= sz <= CSize c.
Proof.
  intros Hv. unfold valid_comp in Hv. rewrite !andb_true_iff in Hv.
  destruct Hv as [[Hi Hf] Hs]. go_bounds.
  rewrite parse_done_line_fields. unfold record_body.
  pose proof (format_Z_no_space (CIdx c)) as N1.
  pose proof (format_Z_no_space (CFrames c)) as N2.
  pose proof (format_Z_no_space (CSize c)) as N3.
  destruct (decide (k <= length (format_Z (CIdx c)))%nat).
  { rewrite take_app_le by done. left.
    by destruct (fields_word_or_nil (take k (format_Z (CIdx c)))) as [-> | ->];
      [apply Forall_take | |]. }
  rewrite take_app, (take_ge (format_Z (CIdx c))) by lia.
  destruct (k - length (format_Z (CIdx c)))%nat as [|m] eqn:Em; [lia|]. cbn [take].
  rewrite fields_cons_word by (done || apply format_Z_nonempty).
  destruct (decide (m <= length (format_Z (CFrames c)))%nat).
  { rewrite take_app_le by done. left.
    by destruct (fields_word_or_nil (take m (format_Z (CFrames c)))) as [-> | ->];
      [apply Forall_take | |]. }
  rewrite take_app, (take_ge (format_Z (CFrames c))) by lia.
  destruct (m - length (format_Z (CFrames c)))%nat as [|j] eqn:Ej; [lia|]. cbn [take].
  rewrite fields_cons_word by (done || apply format_Z_nonempty).
  rewrite !atoi_format_Z by (go_bounds; done).
  destruct (take j (format_Z (CSize c))) as [|d p] eqn:Ep; [by left|].
  unfold fields. rewrite (fields_go_last (d :: p)); [| rewrite <- Ep; by apply Forall_take | done].
  rewrite <- Ep. unfold parse_uint. rewrite Ep. rewrite <- Ep.
  rewrite format_Z_nonneg in * by lia.
  pose proof (parse_format_N (Z.to_N (CSize c))) as Hfull.
  pose proof Hfull as Hsplit. rewrite <- (take_drop j (format_N _)), parse_digits_app in Hsplit.
  destruct (parse_digits 0 (take j (format_N (Z.to_N (CSize c))))) as [v|] eqn:Ev; [|done].
  destruct (parse_digits_prefix _ _ _ _ Hfull Ev) as [Hv0 Hv1]. rewrite Z2N.id in Hv1 by lia.
  right. exists v. rewrite (proj2 (Z.leb_le _ _)) by go_lia. split; [done | lia].
Qed.

Lemma fold_wrap_i64 {A} (f : A -> Z) l a :
  int64_min <= a <= int64_max ->
  fold_left (fun acc x => wrap_i64 (acc + f x)) l a = wrap_i64 (a + sumZ f l).
Proof.
  revert a; induction l as [|x l IH]; intros a Ha; simpl.
  - rewrite Z.add_0_r. symmetry. by apply wrap_i64_id.
  - rewrite IH.
    + unfold wrap_i64, sumZ. simpl. set (t := foldr _ 0 l). f_equal.
      replace ((a + f x + 2 ^ 63) mod 2 ^ 64 - 2 ^ 63 + t + 2 ^ 63)
        with ((a + f x + 2 ^ 63) mod 2 ^ 64 + t) by lia.
      rewrite Zplus_mod_idemp_l. f_equal. lia.
    + unfold wrap_i64, int64_min, int64_max.
      pose proof (Z.mod_pos_bound (a + f x + 2 ^ 63) (2 ^ 64)). lia.
Qed.

(** ** Theorems *)

(** C9: reading back the log gives exactly the records appended, in
    order, for every record whose fields are Go [int]/[uint64] values:
    from a fresh log, and after a log written by an earlier run. *)
Theorem GetResume_AppendDone_roundtrip prev cs :
  Forall (fun c => valid_comp c = true) prev ->
  Forall (fun c => valid_comp c = true) cs ->
  GetResume (append_all cs None) = Ok (mkResumeInf cs) /\
  GetResume (append_all cs (Some (concat (map record_line prev)))) =
    Ok (mkResumeInf (prev ++ cs)).
Proof.
  intros Hp Hc. split.
  - by apply (GetResume_append_all []); [left|].
  - apply GetResume_append_all; [by right | by apply Forall_app].
Qed.

Lemma GetResume_AppendDone_roundtrip_witness :
  Forall (fun c => valid_comp c = true) [mkChunkComp 0 480 1000] /\
  Forall (fun c => valid_comp c = true) [mkChunkComp 2 480 2000; mkChunkComp 1 100 77] /\
  GetResume (append_all [mkChunkComp 2 480 2000; mkChunkComp 1 100 77] None) =
    Ok (mkResumeInf [mkChunkComp 2 480 2000; mkChunkComp 1 100 77]) /\
  GetResume (append_all [mkChunkComp 2 480 2000; mkChunkComp 1 100 77]
               (Some (concat (map record_line [mkChunkComp 0 480 1000])))) =
    Ok (mkResumeInf ([mkChunkComp 0 480 1000] ++ [mkChunkComp 2 480 2000; mkChunkComp 1 100 77])).
Proof.
  do 2 (split; [repeat constructor; vm_compute; reflexivity|]).
  apply GetResume_AppendDone_roundtrip; repeat constructor; vm_compute; reflexivity.
Defined.

(** A crash in the middle of an [AppendDone] loses no earlier record,
    and the torn line adds at most one record: the chunk being written,
    with its own index and frame count and a size that is at most the
    real one. *)
Theorem GetResume_torn_append prev c k :
  Forall (fun c => valid_comp c = true) prev -> valid_comp c = true ->
  exists extra,
    GetResume (AppendTorn c k (Some (concat (map record_line prev)))) =
      Ok (mkResumeInf (prev ++ extra)) /\
    (extra = [] \/ exists sz, extra = [mkChunkComp (CIdx c) (CFrames c) sz] /\
                               0 <= sz <= CSize c).
Proof.
  intros Hp Hc. unfold AppendTorn.
  change (default [] (Some ?x)) with x.
  destruct (decide (length (record_line c) <= k)%nat) as [Hge|Hlt].
  - rewrite take_ge by done. exists [c]. split.
    + replace (concat (map record_line prev) ++ record_line c)
        with (concat (map record_line (prev ++ [c])))
        by (by rewrite map_app, concat_app; simpl; rewrite app_nil_r).
      apply GetResume_lines. by apply Forall_app; split; [|constructor].
    + right. exists (CSize c). destruct c; simpl. split; [done|].
      unfold valid_comp in Hc; simpl in Hc. rewrite !andb_true_iff in Hc.
      destruct Hc as [_ Hs]. go_bounds. lia.
  - unfold record_line in *. rewrite length_app in Hlt. simpl in Hlt.
    rewrite take_app_le by lia.
    destruct (record_body_chars c Hc) as [Hch Hlen].
    unfold GetResume. rewrite <- (map_map record_body (fun l => l ++ [newline])).
    rewrite scan_all_partial.
    + cbv beta iota. rewrite parse_done_lines_app, parse_done_lines_bodies by done.
      destruct (take k (record_body c)) as [|d p] eqn:Ek.
      * exists []. split; [done | by left].
      * change (match d :: p with [] => [] | _ => [d :: p] end) with [d :: p].
        cbn [parse_done_lines]. rewrite <- Ek.
        destruct (parse_torn_body c k Hc) as [-> | (sz & -> & Hsz)].
        -- exists []. split; [done | by left].
        -- exists [mkChunkComp (CIdx c) (CFrames c) sz]. split; [done|]. right; eauto.
    + apply Forall_map. eapply Forall_impl; [exact Hp|]. intros c' Hc'.
      by apply record_body_chars.
    + by apply Forall_take.
    + rewrite length_take. lia.
Qed.

Lemma GetResume_torn_append_witness :
  Forall (fun c => valid_comp c = true) [mkChunkComp 0 480 1000] /\
  valid_comp (mkChunkComp 1 480 123456) = true /\
  exists extra,
    GetResume (AppendTorn (mkChunkComp 1 480 123456) 9
                 (Some (concat (map record_line [mkChunkComp 0 480 1000])))) =
      Ok (mkResumeInf ([mkChunkComp 0 480 1000] ++ extra)) /\
    (extra = [] \/ exists sz, extra = [mkChunkComp (CIdx (mkChunkComp 1 480 123456))
                                                    (CFrames (mkChunkComp 1 480 123456)) sz] /\
                               0 <= sz <= CSize (mkChunkComp 1 480 123456)).
Proof.
  split; [repeat constructor; vm_compute; reflexivity|].
  split; [vm_compute; reflexivity|].
  apply GetResume_torn_append; [repeat constructor | ]; vm_compute; reflexivity.
Defined.

(** C28: a last line torn before the space that ends its index field
    (within or right after its digits), followed by the next
    run's append, merges with the appended line into one well-formed
    record.  The log loses both real records and instead claims the
    chunk whose decimal index is the torn digits followed by the new
    index (with the new record's frames and size), or nothing when that
    number overflows int64.  The earlier records are kept. *)
Theorem torn_then_append_phantom_chunk prev c d k :
  Forall (fun c => valid_comp c = true) prev -> valid_comp c = true -> valid_comp d = true ->
  0 <= CIdx c -> 0 <= CIdx d -> (k <= length (format_Z (CIdx c)))%nat ->
  let phantom := CIdx c / 10 ^ Z.of_nat (length (format_Z (CIdx c)) - k)
                   * 10 ^ Z.of_nat (length (format_Z (CIdx d))) + CIdx d in
  GetResume (AppendDone d (AppendTorn c k (Some (concat (map record_line prev))))) =
    Ok (mkResumeInf (prev ++ if phantom <? 2 ^ 63
                             then [mkChunkComp phantom (CFrames d) (CSize d)] else [])).
Proof.
  intros Hp Hc Hd Hc0 Hd0 Hk phantom.
  set (t := take k (format_Z (CIdx c))).
  assert (Ht : take k (record_line c) = t).
  { unfold record_line, record_body, t. rewrite <- app_assoc. by rewrite take_app_le by lia. }
  unfold AppendDone, AppendTorn. do 2 change (default [] (Some ?x)) with x. rewrite Ht.
  assert (Hfile : (concat (map record_line prev) ++ t) ++ record_line d =
                  concat (map (fun l => l ++ [newline]) (map record_body prev ++ [t ++ record_body d]))).
  { rewrite map_app, concat_app, map_map. cbn. unfold record_line. by rewrite !app_assoc, app_nil_r. }
  unfold GetResume. rewrite Hfile, scan_all_concat.
  2:{ apply Forall_app. split.
      - apply Forall_map. eapply Forall_impl; [exact Hp|]. intros c' Hc'. by apply record_body_chars.
      - constructor; [|constructor]. split.
        + apply Forall_app. split; [apply Forall_take, format_Z_line_chars | apply record_body_line_chars].
        + pose proof (length_record_body d Hd). unfold t. rewrite length_app, length_take.
          assert (in_int64 (CIdx c) = true) as Hi by (by apply andb_true_iff in Hc as [[? ?]%andb_true_iff ?]).
          go_bounds. pose proof (length_format_Z (CIdx c) ltac:(go_lia)).
          pose proof (Nat.le_min_r k (length (format_Z (CIdx c)))).
          unfold max_token_size. lia. }
  cbv beta iota. rewrite parse_done_lines_app, parse_done_lines_bodies by done.
  cbn [parse_done_lines]. unfold valid_comp in Hd. rewrite !andb_true_iff in Hd. destruct Hd as [[Hdi Hdf] Hds].
  replace (t ++ record_body d) with ((t ++ format_Z (CIdx d)) ++ " "%char :: format_Z (CFrames d)
    ++ " "%char :: format_Z (CSize d)) by (unfold record_body; by rewrite <- app_assoc).
  unfold t. rewrite !format_Z_nonneg by done.
  rewrite parse_line_three, (atoi_digits _ phantom); cycle 1.
  - intros [_ Hn]%app_eq_nil. by apply (format_N_nonempty (Z.to_N (CIdx d))).
  - apply Forall_app. split; [apply Forall_take|]; apply format_N_digits.
  - rewrite parse_digits_app, (parse_digits_take _ (CIdx c)), parse_digits_acc, parse_format_N
      by (by rewrite parse_format_N, Z2N.id).
    cbn. f_equal. unfold phantom. rewrite !format_Z_nonneg, Z2N.id by done. done.
  - apply Forall_app. split; [apply Forall_take|]; apply format_N_no_space.
  - intros [_ Hn]%app_eq_nil. by apply (format_N_nonempty (Z.to_N (CIdx d))).
  - done.
  - done.
  - by destruct (phantom <? 2 ^ 63); cbn; rewrite ?app_nil_r.
Qed.

Lemma torn_then_append_phantom_chunk_witness :
  GetResume (AppendDone (mkChunkComp 3 480 999)
               (AppendTorn (mkChunkComp 1 480 100) 1 (Some (concat (map record_line [mkChunkComp 0 480 1000]))))) =
  Ok (mkResumeInf [mkChunkComp 0 480 1000; mkChunkComp 13 480 999]).
Proof.
  exact (torn_then_append_phantom_chunk [mkChunkComp 0 480 1000] (mkChunkComp 1 480 100)
           (mkChunkComp 3 480 999) 1 ltac:(repeat constructor) eq_refl eq_refl
           ltac:(cbn; lia) ltac:(cbn; lia) ltac:(vm_compute; lia)).
Defined.

Lemma parse_done_line_valid l c : parse_done_line l = Some c -> valid_comp c = true.
Proof.
  unfold parse_done_line. destruct (trim_space l); [done|].
  destruct (fields _) as [|p0 [|p1 [|p2 [|]]]]; try done.
  destruct (atoi p0) eqn:E0, (atoi p1) eqn:E1, (parse_uint 64 p2) eqn:E2; try done.
  intros [= <-]. unfold valid_comp. cbn [CIdx CFrames CSize].
  rewrite (atoi_range _ _ E0), (atoi_range _ _ E1). cbn.
  apply in_uint64_spec. apply parse_uint_range in E2. unfold uint64_max. lia.
Qed.

(** Every record [GetResume] returns fits the Go types of
    [ChunkComp]'s fields, whatever [done.txt] holds: [Idx] and [Frames]
    are [int] (int64) values and [Size] a [uint64]. *)
Theorem GetResume_records_typed f r :
  GetResume f = Ok r -> Forall (fun c => valid_comp c = true) (ChunksDone r).
Proof.
  unfold GetResume. destruct f as [contents|]; [|intros [= <-]; constructor].
  destruct (scan_all contents) as [lines|]; [|done]. intros [= <-]. cbn [ChunksDone].
  induction lines as [|l ls IH]; cbn; [constructor|].
  destruct (parse_done_line l) eqn:E; [constructor; [by eapply parse_done_line_valid | done]|done].
Qed.

Lemma GetResume_records_typed_witness :
  GetResume (Some s["0 24 100"]) = Ok (mkResumeInf [mkChunkComp 0 24 100]) /\
  Forall (fun c => valid_comp c = true) [mkChunkComp 0 24 100].
Proof.
  assert (E : GetResume (Some s["0 24 100"]) = Ok (mkResumeInf [mkChunkComp 0 24 100]))
    by (vm_compute; reflexivity).
  split; [exact E|]. exact (GetResume_records_typed _ _ E).
Defined.

(** [TotalEncodedSize] and [TotalEncodedFrames] are the sums of the
    sizes and frame counts, wrapped to [uint64] and to [int] (int64). *)
Theorem TotalEncoded_sums r :
  TotalEncodedSize r = wrap_u64 (sumZ CSize (ChunksDone r)) /\
  TotalEncodedFrames r = wrap_i64 (sumZ CFrames (ChunksDone r)).
Proof.
  unfold TotalEncodedSize, TotalEncodedFrames.
  rewrite fold_wrap_u64, fold_wrap_i64 by go_lia. done.
Qed.

End Resume.
