(* ===== verification/Worker.v ===== *)
(** * The per-worker streaming encoder: [encodeChunkStreaming]
    ([unnamed/part_002], package encode)

    One call encodes one chunk.  It opens the encoder's stdin, starts
    SvtAv1EncApp, then streams the chunk's frames one at a time: it checks
    for cancellation, decodes frame [Start + i] and writes it to the pipe.
    It then closes the pipe, waits for the encoder and stats the output
    file.  The external effects (the pipe, the process, the decoder, the
    context and the file system) are the fields of an environment
    [EncEnv]; the model returns the [worker.EncodeResult] and the list of
    frame numbers written to the encoder, in order.

    The interface [ChunkEncoder] states what the worker pool relies on
    from this function; [streaming_encoder] is its instance. *)

From S2P Require Import Prelude Chunk.
Import Chunk.

Module Worker.

(** ** Data *)

(** The errors a chunk's encode can end with (the [fmt.Errorf] wrappers
    of [encodeChunkStreaming] and [streamingWorker]). *)
Inductive EncErr :=
  | ErrStdinPipe            (** failed to create stdin pipe *)
  | ErrStart                (** failed to start encoder *)
  | ErrCanceled             (** [ctx.Err()] *)
  | ErrExtract (frameIdx : Z) (** failed to extract frame %d *)
  | ErrWrite                (** failed to write frame data *)
  | ErrEncoder              (** encoder failed ([cmd.Wait]) *)
  | ErrStat                 (** failed to stat output *)
  | ErrVidSrc.              (** failed to create video source for worker *)

#[export] Instance EncErr_eq_dec : EqDecision EncErr.
Proof. solve_decision. Defined.

(** [type EncodeResult struct { ChunkIdx int; Frames int; Size uint64;
    Error error }] of package worker (not under src/; its fields are the
    ones [encodeChunkStreaming] fills in). *)
Record EncodeResult := mkEncodeResult {
  ChunkIdx : Z; RFrames : Z; RSize : Z; RError : option EncErr }.

#[export] Instance EncodeResult_eq_dec : EqDecision EncodeResult.
Proof. solve_decision. Defined.

(** The outcomes of the external calls, as one call of
    [encodeChunkStreaming] observes them. *)
Record EncEnv := mkEncEnv {
  stdin_ok : bool;          (** [cmd.StdinPipe()] succeeds *)
  start_ok : bool;          (** [cmd.Start()] succeeds *)
  canceled : nat -> bool;   (** [ctx.Err() != nil] at the check of iteration [i] *)
  extract_ok : Z -> bool;   (** [ffms.ExtractFrame] of a frame number succeeds *)
  write_ok : nat -> bool;   (** [stdin.Write] of iteration [i] succeeds *)
  wait_ok : bool;           (** [cmd.Wait()] after the pipe is closed succeeds *)
  stat_size : option Z      (** [os.Stat(outputPath).Size()], or a stat error *)
}.

(** How the frame loop ends. *)
Inductive LoopOut := LoopDone | LoopCanceled | LoopExtractErr (frameIdx : Z) | LoopWriteErr.

(** ** [encodeChunkStreaming] *)

(** [for i := 0; i < frameCount; i++ { ... }].  Each iteration checks the
    context, decodes frame [ch.Start + i] and writes it; a write error
    [break]s out of the loop.  The result pairs the exit with the frames
    written.  The loop runs on a fuel argument; [encodeChunkStreaming]
    passes [S (Z.to_nat frameCount)], which [stream_frames_fuel] shows is
    enough. *)
Fixpoint stream_frames (env : EncEnv) (ch : Chunk) (frameCount : Z) (fuel : nat) (i : Z)
  : LoopOut * list Z :=
  match fuel with
  | O => (LoopDone, [])
  | S fuel' =>
      if i <? frameCount then
        if canceled env (Z.to_nat i) then (LoopCanceled, [])
        else
          let frameIdx := Start ch + i in
          if negb (extract_ok env frameIdx) then (LoopExtractErr frameIdx, [])
          else if negb (write_ok env (Z.to_nat i)) then (LoopWriteErr, [])
          else let '(o, w) := stream_frames env ch frameCount fuel' (i + 1) in
               (o, frameIdx :: w)
      else (LoopDone, [])
  end.

(** A failed result: [worker.EncodeResult{ChunkIdx: ch.Idx, Error: e}]. *)
Definition fail (ch : Chunk) (e : EncErr) : EncodeResult := mkEncodeResult (Idx ch) 0 0 (Some e).

(** [func encodeChunkStreaming(ctx, src, ch, ...) worker.EncodeResult].
    The [stdin.Close()] and [cmd.Wait()] calls on the error paths do not
    change the result. *)
Definition encodeChunkStreaming (env : EncEnv) (ch : Chunk) : EncodeResult * list Z :=
  let frameCount := Frames ch in
  if negb (stdin_ok env) then (fail ch ErrStdinPipe, [])
  else if negb (start_ok env) then (fail ch ErrStart, [])
  else
    let '(out, written) := stream_frames env ch frameCount (S (Z.to_nat frameCount)) 0 in
    match out with
    | LoopCanceled => (fail ch ErrCanceled, written)
    | LoopExtractErr f => (fail ch (ErrExtract f), written)
    | LoopWriteErr => (fail ch ErrWrite, written)
    | LoopDone =>
        if negb (wait_ok env) then (fail ch ErrEncoder, written)
        else match stat_size env with
             | None => (fail ch ErrStat, written)
             | Some sz => (mkEncodeResult (Idx ch) frameCount (wrap_u64 sz) None, written)
             end
    end.

(** The frames of a chunk from [i] on, as the loop numbers them. *)
Definition frames_from (ch : Chunk) (i : Z) (n : nat) : list Z :=
  map (fun k => Start ch + i + Z.of_nat k) (seq 0 n).

(** Iteration [i] of the frame loop gets through: not cancelled, frame
    [Start + i] decoded, and written. *)
Definition iter_ok (env : EncEnv) (ch : Chunk) (i : Z) : bool :=
  negb (canceled env (Z.to_nat i)) && extract_ok env (Start ch + i) && write_ok env (Z.to_nat i).

(** ** The frame loop *)

Section FrameLoop.
Context (env : EncEnv) (ch : Chunk) (fc : Z).

Lemma frames_from_S i n :
  frames_from ch i (S n) = (Start ch + i) :: frames_from ch (i + 1) n.
Proof.
  unfold frames_from. cbn [seq map]. f_equal; [lia|].
  rewrite <- seq_shift, map_map. apply map_ext. lia.
Qed.

Lemma frames_from_0 i : frames_from ch i 0 = [].
Proof. done. Qed.

Lemma to_nat_step i : i < fc -> Z.to_nat (fc - i) = S (Z.to_nat (fc - (i + 1))).
Proof. lia. Qed.

(** The loop ends by its own test before the fuel runs out: any fuel
    beyond [fc - i] gives the same result. *)
Lemma stream_frames_fuel f1 f2 i :
  (Z.to_nat (fc - i) < f1)%nat -> (Z.to_nat (fc - i) < f2)%nat ->
  stream_frames env ch fc f1 i = stream_frames env ch fc f2 i.
Proof.
  revert f2 i. induction f1 as [|f1 IH]; intros [|f2] i H1 H2; [lia..|].
  cbn [stream_frames]. destruct (Z.ltb_spec i fc); [|done].
  rewrite (IH f2 (i + 1)) by lia. done.
Qed.

(** The written frames are always the first frames of the chunk from [i]
    on, in order; a decode failure names the frame after them. *)
Lemma stream_frames_prefix fuel i :
  let '(o, w) := stream_frames env ch fc fuel i in
  w `prefix_of` frames_from ch i (Z.to_nat (fc - i)) /\
  (forall f, o = LoopExtractErr f -> f = Start ch + i + Z.of_nat (length w)).
Proof.
  revert i. induction fuel as [|fuel IH]; intros i; cbn [stream_frames].
  { split; [apply prefix_nil | done]. }
  destruct (Z.ltb_spec i fc) as [Hlt|Hge]; [|split; [apply prefix_nil | done]].
  destruct (canceled env _); [split; [apply prefix_nil | done]|].
  destruct (extract_ok env _); cbn [negb];
    [|split; [apply prefix_nil | intros f [= <-]; simpl; lia]].
  destruct (write_ok env _); cbn [negb]; [|split; [apply prefix_nil | done]].
  specialize (IH (i + 1)). destruct (stream_frames env ch fc fuel (i + 1)) as [o w].
  destruct IH as [Hp Hf]. rewrite to_nat_step, frames_from_S by done.
  split; [by apply prefix_cons|].
  intros f ->. rewrite (Hf f eq_refl). simpl. lia.
Qed.

(** With enough fuel the loop completes exactly when every iteration gets
    through, and then it has written every frame of the chunk from [i]. *)
Lemma stream_frames_done fuel i w :
  (Z.to_nat (fc - i) < fuel)%nat ->
  stream_frames env ch fc fuel i = (LoopDone, w) <->
  (forall k, i <= k < fc -> iter_ok env ch k = true) /\
  w = frames_from ch i (Z.to_nat (fc - i)).
Proof.
  revert i w. induction fuel as [|fuel IH]; intros i w Hf; [lia|]. cbn [stream_frames].
  destruct (Z.ltb_spec i fc) as [Hlt|Hge].
  - rewrite to_nat_step, frames_from_S by done.
    unfold iter_ok at 1.
    destruct (canceled env _) eqn:Ec; cbn [negb andb];
      [split; [done | intros [Hk _]; specialize (Hk i); unfold iter_ok in Hk;
                      rewrite Ec in Hk; simpl in Hk; discriminate Hk; lia]|].
    split.
    + destruct (extract_ok env _) eqn:Ee; cbn [negb]; [|done].
      destruct (write_ok env _) eqn:Ew; cbn [negb]; [|done].
      destruct (stream_frames env ch fc fuel (i + 1)) as [o w'] eqn:Es.
      intros [= -> <-]. destruct (proj1 (IH (i + 1) w' ltac:(lia)) Es) as [Hk ->].
      split; [|done]. intros k Hk'. destruct (decide (k = i)) as [->|];
        [unfold iter_ok; by rewrite Ec, Ee, Ew | apply Hk; lia].
    + intros [Hk ->]. pose proof (Hk i ltac:(lia)) as Hi. unfold iter_ok in Hi.
      rewrite Ec in Hi. simpl in Hi. apply andb_true_iff in Hi as [-> ->]. cbn [negb].
      rewrite (proj2 (IH (i + 1) _ ltac:(lia)) (conj (fun k (Hk' : i + 1 <= k < fc) => Hk k ltac:(lia)) eq_refl)).
      done.
  - replace (Z.to_nat (fc - i)) with 0%nat by lia. rewrite frames_from_0.
    split; [intros [= <-]; split; [lia | done] | by intros [_ ->]].
Qed.

End FrameLoop.

(** Every external call of [encodeChunkStreaming] up to [cmd.Wait]
    succeeds. *)
Definition calls_ok (env : EncEnv) (ch : Chunk) : Prop :=
  stdin_ok env = true /\ start_ok env = true /\
  (forall k, 0 <= k < Frames ch -> iter_ok env ch k = true) /\ wait_ok env = true.

Lemma stream_frames_top env ch :
  stream_frames env ch (Frames ch) (S (Z.to_nat (Frames ch))) 0 =
    (LoopDone, frames_from ch 0 (Z.to_nat (Frames ch))) <->
  forall k, 0 <= k < Frames ch -> iter_ok env ch k = true.
Proof.
  rewrite stream_frames_done by lia. rewrite Z.sub_0_r. naive_solver.
Qed.

Lemma stream_frames_top_done env ch o w :
  stream_frames env ch (Frames ch) (S (Z.to_nat (Frames ch))) 0 = (o, w) ->
  o = LoopDone <-> forall k, 0 <= k < Frames ch -> iter_ok env ch k = true.
Proof.
  intros Hs. rewrite <- stream_frames_top. split.
  - intros ->. rewrite Hs. f_equal.
    apply (stream_frames_done env ch (Frames ch) (S (Z.to_nat (Frames ch))) 0 w) in Hs
      as [_ ->]; [by rewrite Z.sub_0_r | lia].
  - by rewrite Hs; intros [= -> _].
Qed.

(** ** Theorems *)

(** C7: [encodeChunkStreaming] succeeds exactly when the pipe, the
    start, every frame's cancellation check, decode and write, the wait
    and the stat all succeed.  Then it reports the chunk's index and frame
    count with the file size as a [uint64], and the encoder has received
    exactly the chunk's frames [Start, End) in order. *)
Theorem encodeChunkStreaming_ok env ch :
  (RError (fst (encodeChunkStreaming env ch)) = None <->
     calls_ok env ch /\ is_Some (stat_size env)) /\
  (forall sz, calls_ok env ch -> stat_size env = Some sz ->
     encodeChunkStreaming env ch =
       (mkEncodeResult (Idx ch) (Frames ch) (wrap_u64 sz) None,
        frames_from ch 0 (Z.to_nat (Frames ch)))).
Proof.
  unfold encodeChunkStreaming, calls_ok.
  destruct (stdin_ok env), (start_ok env); cbn [negb];
    try (split; [split; [done | intros (? & ? & _); naive_solver] | naive_solver]).
  destruct (stream_frames _ _ _ _ _) as [o w] eqn:Es.
  pose proof (stream_frames_top_done env ch o w Es) as Ho.
  split.
  - destruct o; [|split; [done | intros ((_ & _ & Hk & _) & _); by pose proof (proj2 Ho Hk)]..].
    destruct (wait_ok env), (stat_size env); cbn [negb fst RError];
      split; try done; naive_solver.
  - intros sz (_ & _ & Hk & Hw) Hsz.
    rewrite (proj2 (stream_frames_top env ch) Hk) in Es. injection Es as <- <-.
    by rewrite Hw, Hsz.
Qed.

(** C8: whatever the external calls do, [encodeChunkStreaming] reports
    the chunk's own index; the encoder has received the first frames of
    the chunk, in order and never a frame outside it; a failed result
    carries no frames and no size; and a decode failure names the frame
    right after the ones written. *)
Theorem encodeChunkStreaming_safe env ch :
  let '(r, w) := encodeChunkStreaming env ch in
  ChunkIdx r = Idx ch /\ w `prefix_of` frames_from ch 0 (Z.to_nat (Frames ch)) /\
  (RError r <> None -> RFrames r = 0 /\ RSize r = 0) /\
  (forall f, RError r = Some (ErrExtract f) -> f = Start ch + Z.of_nat (length w)).
Proof.
  unfold encodeChunkStreaming.
  destruct (stdin_ok env), (start_ok env); cbn [negb];
    try (split_and!; [done | apply prefix_nil | done | done]).
  pose proof (stream_frames_prefix env ch (Frames ch) (S (Z.to_nat (Frames ch))) 0) as Hp.
  destruct (stream_frames _ _ _ _ _) as [o w]. rewrite Z.sub_0_r in Hp.
  destruct Hp as [Hp Hf].
  destruct o; [destruct (wait_ok env); [destruct (stat_size env)|]|..]; cbn [negb];
    split_and!; try done; intros f [= <-]; rewrite (Hf _ eq_refl); lia.
Qed.

Lemma encodeChunkStreaming_safe_witness :
  let ch := mkChunk 2 100 103 in
  let env := mkEncEnv true true (fun i => bool_decide (2 <= i)%nat) (fun _ => true)
                      (fun _ => true) true (Some 5000) in
  let '(r, w) := encodeChunkStreaming env ch in
  ChunkIdx r = Idx ch /\ w `prefix_of` frames_from ch 0 (Z.to_nat (Frames ch)) /\
  (RError r <> None -> RFrames r = 0 /\ RSize r = 0) /\
  (forall f, RError r = Some (ErrExtract f) -> f = Start ch + Z.of_nat (length w)).
Proof. intros ch env. apply encodeChunkStreaming_safe. Defined.

Lemma encodeChunkStreaming_ok_witness :
  let ch := mkChunk 7 960 1440 in
  let env := mkEncEnv true true (fun _ => false) (fun _ => true) (fun _ => true) true (Some 81920) in
  calls_ok env ch /\ stat_size env = Some 81920 /\
  encodeChunkStreaming env ch =
    (mkEncodeResult (Idx ch) (Frames ch) (wrap_u64 81920) None,
     frames_from ch 0 (Z.to_nat (Frames ch))).
Proof.
  intros ch env.
  assert (Hc : calls_ok env ch) by (split_and!; try reflexivity; intros k _; reflexivity).
  split; [exact Hc | split; [reflexivity | apply (proj2 (encodeChunkStreaming_ok env ch)); done]].
Defined.

(** ** The interface the worker pool uses *)

(** What the pool needs from a chunk encoder: a relation between a chunk
    and the results its encode may report, in which every result carries
    the chunk's index, and a successful one the chunk's frame count and a
    [uint64] size. *)
Class ChunkEncoder := {
  encode_outcome : Chunk -> EncodeResult -> Prop;
  encode_outcome_idx ch r : encode_outcome ch r -> ChunkIdx r = Idx ch;
  encode_outcome_ok ch r :
    encode_outcome ch r -> RError r = None -> RFrames r = Frames ch /\ 0 <= RSize r <= uint64_max;
  encode_outcome_total ch : exists r, encode_outcome ch r
}.

Lemma encodeChunkStreaming_fields env ch :
  ChunkIdx (fst (encodeChunkStreaming env ch)) = Idx ch /\
  (RError (fst (encodeChunkStreaming env ch)) = None ->
   RFrames (fst (encodeChunkStreaming env ch)) = Frames ch /\
   0 <= RSize (fst (encodeChunkStreaming env ch)) <= uint64_max).
Proof.
  unfold encodeChunkStreaming. repeat case_match; simplify_eq/=; try done.
  split; [done|]. intros _. split; [done | apply wrap_u64_range].
Qed.

(** [encodeChunkStreaming], whatever its environment, is such an
    encoder. *)
#[export] Program Instance streaming_encoder : ChunkEncoder := {
  encode_outcome ch r := exists env, fst (encodeChunkStreaming env ch) = r }.
Next Obligation. intros ch r [env <-]. apply encodeChunkStreaming_fields. Qed.
Next Obligation. intros ch r [env <-]. apply encodeChunkStreaming_fields. Qed.
Next Obligation.
  intros ch. exists (fst (encodeChunkStreaming (mkEncEnv false false (fun _ => false)
    (fun _ => true) (fun _ => true) true None) ch)). by eexists.
Qed.

End Worker.
