(* ===== verification/Admission.v ===== *)
(** * Worker admission: [internal/encode/permits.go], [calculateThreadsPerWorker]
      of the encode package, and the resolution tiers of the config package

    [CapWorkers] caps the requested worker count by the memory a worker of
    the frame's resolution class needs.  It uses [float64] arithmetic,
    which is modelled bit-exactly with the Standard Library's [SpecFloat]:
    binary64 is [prec = 53], [emax = 1024], with round-to-nearest-even.
    [CalculatePermits] sizes the semaphore, and [calculateThreadsPerWorker]
    sizes SvtAv1EncApp's [--lp].  The host readings
    [util.AvailableMemoryBytes], [util.PhysicalCores] and
    [util.LogicalCores] are not under src/; they are arguments here. *)

From Stdlib Require Import SpecFloat.
From S2P Require Import Prelude.

Module GoFloat.

(** [float64(z)] for an integer [z]: round to nearest even. *)
Definition of_Z (z : Z) : spec_float := binary_normalize 53 1024 z 0 false.

Definition mul : spec_float -> spec_float -> spec_float := SFmul 53 1024.
Definition div : spec_float -> spec_float -> spec_float := SFdiv 53 1024.
Definition sub : spec_float -> spec_float -> spec_float := SFsub 53 1024.

(** [math.Abs] and [<=] (false when either side is NaN). *)
Definition abs : spec_float -> spec_float := SFabs.
Definition leb : spec_float -> spec_float -> bool := SFleb.

(** The Go constant [0.7] as a [float64]: the binary64 value nearest to
    7/10, which is the correctly rounded quotient. *)
Definition lit_0_7 : spec_float := div (of_Z 7) (of_Z 10).

(** [uint64(f)] / [int(f)] on a finite in-range value: truncation toward
    zero.  Go leaves out-of-range conversions implementation-defined; the
    model returns the truncated value, and 0 for infinities and NaN. *)
Definition trunc (f : spec_float) : Z :=
  match f with
  | S754_finite s m e =>
      let v := if 0 <=? e then Z.pos m * 2 ^ e else Z.pos m / 2 ^ (- e) in
      if s then - v else v
  | _ => 0
  end.

End GoFloat.

Module Admission.

(** ** [permits.go] *)

Definition MemPerWorker4K : Z := Z.shiftl 5 30.
Definition MemPerWorker1080p : Z := Z.shiftl 2 30.
Definition MemPerWorkerSD : Z := Z.shiftl 512 20.

(** [func memoryPerWorker(width, height uint32) uint64] *)
Definition memoryPerWorker (width height : Z) : Z :=
  if (3840 <=? width) || (2160 <=? height) then MemPerWorker4K
  else if (1920 <=? width) || (1080 <=? height) then MemPerWorker1080p
  else MemPerWorkerSD.

(** [usable := uint64(float64(available) * MemoryFraction)] *)
Definition usable (available : Z) : Z :=
  GoFloat.trunc (GoFloat.mul (GoFloat.of_Z available) GoFloat.lit_0_7).

(** [func CapWorkers(requested int, width, height uint32) (int, bool)].
    [available] is the reading of [util.AvailableMemoryBytes()]; 0 means
    it could not be determined. *)
Definition CapWorkers (available requested width height : Z) : Z * bool :=
  let memPerWorker := memoryPerWorker width height in
  let maxByMemory :=
    if 0 <? available then Z.max (usable available / memPerWorker) 1 else requested in
  if maxByMemory <? requested then (maxByMemory, true) else (requested, false).

(** [func CalculatePermits(workers, buffer int) int] *)
Definition CalculatePermits (workers buffer : Z) : Z := Z.max (workers + buffer) 1.

(** ** [calculateThreadsPerWorker] (encode package) *)

Definition maxThreadsForWidth (width : Z) : Z :=
  if 3840 <=? width then 16 else if 1920 <=? width then 10 else 6.

(** [func calculateThreadsPerWorker(workers int, width uint32) int];
    [physical] and [logical] are [util.PhysicalCores()] and
    [util.LogicalCores()].  Go's [/] on ints truncates: [Z.quot]. *)
Definition calculateThreadsPerWorker (physical logical workers width : Z) : Z :=
  if workers <=? 0 then 1
  else
    let hasSMT := physical <? logical in
    let maxThreads := maxThreadsForWidth width in
    let t := Z.quot physical workers in
    let t := if hasSMT && (t <? maxThreads) then t + 1 else t in
    Z.max 1 (Z.min t maxThreads).

(** The spec's formula (4.3): [clamp(physical / W + [logical > physical], 1, T_max)]. *)
Definition spec_threads (physical logical workers width : Z) : Z :=
  Z.max 1 (Z.min (Z.quot physical workers + (if physical <? logical then 1 else 0))
                 (maxThreadsForWidth width)).

(** ** Resolution tiers of the config package *)

(** The fields of [config.Config] that [Validate] and the tiers read.  The
    chunk durations are [float64] in Go.  The CLI and the library options
    never set them, so they keep their integral defaults (20, 30, 45 s) and
    are modelled as whole seconds. *)
Record Config := mkConfig {
  SVTAV1Preset : Z; CRFSD : Z; CRFHD : Z; CRFUHD : Z;
  Workers : Z; ChunkBuffer : Z;
  ChunkDurationSD : Z; ChunkDurationHD : Z; ChunkDurationUHD : Z }.

Definition HDWidthThreshold : Z := 1920.
Definition UHDWidthThreshold : Z := 3840.

(** [func NewConfig(...)] with [AutoParallelConfig()]: 24 workers, buffer 4. *)
Definition DefaultConfig : Config :=
  mkConfig 6 25 27 29 24 4 20 30 45.

(** [func (c *Config) CRFForWidth(width uint32) uint8] *)
Definition CRFForWidth (c : Config) (width : Z) : Z :=
  if UHDWidthThreshold <=? width then CRFUHD c
  else if HDWidthThreshold <=? width then CRFHD c else CRFSD c.

(** [func (c *Config) ChunkDurationForWidth(width uint32) float64] *)
Definition ChunkDurationForWidth (c : Config) (width : Z) : Z :=
  if UHDWidthThreshold <=? width then ChunkDurationUHD c
  else if HDWidthThreshold <=? width then ChunkDurationHD c else ChunkDurationSD c.

(** [func (c *Config) Validate() error]: the first failing check. *)
Inductive ConfigErr :=
  | BadPreset | BadCRFSD | BadCRFHD | BadCRFUHD | BadWorkers | BadChunkBuffer
  | BadChunkDuration (which : nat).

Definition duration_ok (d : Z) : bool := negb ((d <? 1) || (120 <? d)).

Definition Validate (c : Config) : option ConfigErr :=
  if 13 <? SVTAV1Preset c then Some BadPreset
  else if 63 <? CRFSD c then Some BadCRFSD
  else if 63 <? CRFHD c then Some BadCRFHD
  else if 63 <? CRFUHD c then Some BadCRFUHD
  else if Workers c <? 1 then Some BadWorkers
  else if ChunkBuffer c <? 0 then Some BadChunkBuffer
  else if negb (duration_ok (ChunkDurationSD c)) then Some (BadChunkDuration 0)
  else if negb (duration_ok (ChunkDurationHD c)) then Some (BadChunkDuration 1)
  else if negb (duration_ok (ChunkDurationUHD c)) then Some (BadChunkDuration 2)
  else None.

(** ** Lemmas *)

Lemma memoryPerWorker_pos width height : 0 < memoryPerWorker width height.
Proof.
  unfold memoryPerWorker, MemPerWorker4K, MemPerWorker1080p, MemPerWorkerSD.
  by repeat case_match.
Qed.

Lemma maxThreadsForWidth_range width : 6 <= maxThreadsForWidth width <= 16.
Proof. unfold maxThreadsForWidth. repeat case_match; lia. Qed.

Lemma CapWorkers_pos available requested width height :
  1 <= requested -> 1 <= fst (CapWorkers available requested width height).
Proof.
  intros Hr. unfold CapWorkers.
  destruct (0 <? available); [set (m := Z.max _ 1); destruct (m <? requested); simpl; lia|].
  rewrite Z.ltb_irrefl. simpl. lia.
Qed.

(** ** Theorems *)

(** For a request of at least one worker, [CapWorkers] returns
    between 1 and the requested number of workers, and reports [wasCapped]
    exactly when it returns fewer than requested. *)
Theorem CapWorkers_bounds available requested width height :
  1 <= requested ->
  1 <= fst (CapWorkers available requested width height) <= requested /\
  (snd (CapWorkers available requested width height) = true <->
   fst (CapWorkers available requested width height) < requested).
Proof.
  intros Hr. unfold CapWorkers.
  destruct (0 <? available);
    [set (m := Z.max _ 1); destruct (Z.ltb_spec m requested); simpl; subst m|
     rewrite Z.ltb_irrefl; simpl].
  - split; [lia | split; [done | lia]].
  - split; [lia | split; [done | lia]].
  - split; [lia | split; [done | lia]].
Qed.

Lemma CapWorkers_bounds_witness :
  1 <= 8 /\
  1 <= fst (CapWorkers (12 * 2 ^ 30) 8 3840 2160) <= 8 /\
  (snd (CapWorkers (12 * 2 ^ 30) 8 3840 2160) = true <->
   fst (CapWorkers (12 * 2 ^ 30) 8 3840 2160) < 8).
Proof. split; [lia | apply CapWorkers_bounds; lia]. Defined.

(** C30: when the available memory is known, the admitted workers fit in
    the usable memory [uint64(float64(available) * 0.7)], except for the
    floor of one worker that [CapWorkers] always grants. *)
Theorem CapWorkers_memory_budget available requested width height :
  0 < available -> 1 <= requested ->
  fst (CapWorkers available requested width height) = 1 \/
  fst (CapWorkers available requested width height) * memoryPerWorker width height
    <= usable available.
Proof.
  intros Ha Hr. pose proof (memoryPerWorker_pos width height) as Hm.
  unfold CapWorkers. rewrite (proj2 (Z.ltb_lt _ _) Ha).
  set (mem := memoryPerWorker width height) in *.
  pose proof (Z.mul_div_le (usable available) mem Hm) as Hd.
  destruct (Z.leb_spec (usable available / mem) 1) as [Hle|Hgt].
  - rewrite Z.max_r by done. left.
    destruct (Z.ltb_spec 1 requested); simpl; lia.
  - rewrite Z.max_l by lia. right.
    destruct (Z.ltb_spec (usable available / mem) requested); simpl; nia.
Qed.

Lemma CapWorkers_memory_budget_witness :
  0 < 12 * 2 ^ 30 /\ 1 <= 8 /\
  (fst (CapWorkers (12 * 2 ^ 30) 8 3840 2160) = 1 \/
   fst (CapWorkers (12 * 2 ^ 30) 8 3840 2160) * memoryPerWorker 3840 2160
     <= usable (12 * 2 ^ 30)).
Proof. split; [lia | split; [lia | apply CapWorkers_memory_budget; lia]]. Defined.

(** C31: [calculateThreadsPerWorker] computes the clamp formula of the
    spec, [clamp(physical / W + [SMT], 1, T_max(width))], and stays within
    [1, T_max(width)]. *)
Theorem calculateThreadsPerWorker_spec physical logical workers width :
  0 < workers ->
  calculateThreadsPerWorker physical logical workers width =
    spec_threads physical logical workers width /\
  1 <= calculateThreadsPerWorker physical logical workers width <= maxThreadsForWidth width.
Proof.
  intros Hw. pose proof (maxThreadsForWidth_range width).
  unfold calculateThreadsPerWorker, spec_threads.
  rewrite (proj2 (Z.leb_gt _ _) Hw).
  set (t := Z.quot physical workers). set (mt := maxThreadsForWidth width).
  destruct (physical <? logical); simpl;
    [destruct (Z.ltb_spec t mt); simpl|]; lia.
Qed.

Lemma calculateThreadsPerWorker_spec_witness :
  0 < 3 /\
  calculateThreadsPerWorker 16 32 3 1920 = spec_threads 16 32 3 1920 /\
  1 <= calculateThreadsPerWorker 16 32 3 1920 <= maxThreadsForWidth 1920.
Proof. split; [lia | apply calculateThreadsPerWorker_spec; lia]. Defined.

End Admission.
