(* ===== verification/Pool.v ===== *)
(** * The worker pool: [EncodeAll] and [streamingWorker]
    ([unnamed/part_002], package encode)

    [EncodeAll] first loads the resume log, filters out the finished
    chunks, caps the workers, and sizes the semaphore and the channels
    ([EncodeAll_setup]).  It then runs four kinds of goroutines that share
    a context, an atomic error slot, a semaphore, the chunk channel and
    the result channel:
    - the dispatcher, which sends the remaining chunks in order;
    - [actualWorkers] copies of [streamingWorker], each receiving chunks
      and encoding them through the [ChunkEncoder] interface;
    - the result collector, which updates the progress, appends to
      [done.txt] and calls the progress callback;
    - the main goroutine, which waits for the workers, closes the result
      channel and waits for the collector.
    The interleaving is the step relation [step]: one constructor per
    atomic action of one goroutine, in the order the code performs them,
    plus the context's cancellation, which may happen at any time.  The
    semaphore of package worker (not under src/) is a counter of free
    permits. *)

From S2P Require Import Prelude GoText Chunk Resume Worker Admission.
Import Chunk Resume Worker Admission.

Module Pool.

(** ** State *)

(** [worker.Progress]: the fields [EncodeAll] sets. *)
Record Progress := mkProgress {
  ChunksTotal : Z; ChunksComplete : Z; FramesTotal : Z; FramesComplete : Z; BytesComplete : Z }.

(** The dispatcher goroutine: at the top of its loop over [rest]; waiting
    for a permit for [ch]; holding a permit and sending [ch]; returned
    (its [defer close(chunkChan)] has run). *)
Inductive DState :=
  | DTop (rest : list Chunk)
  | DAcq (ch : Chunk) (rest : list Chunk)
  | DHold (ch : Chunk) (rest : list Chunk)
  | DExit.

(** A [streamingWorker] goroutine: before [ffms.ThrVidSrc]; draining the
    channel after that failed; waiting in [for ch := range chunkChan];
    holding the chunk [ch]; returned. *)
Inductive WState := WInit | WDrain | WIdle | WGot (ch : Chunk) | WExit.

(** The goroutine running [EncodeAll] itself: in [workerWg.Wait()], in
    [collectorWg.Wait()] after [close(resultChan)], returned. *)
Inductive MState := MWait | MCollect | MDone.

#[export] Instance DState_eq_dec : EqDecision DState.
Proof. solve_decision. Defined.
#[export] Instance WState_eq_dec : EqDecision WState.
Proof. solve_decision. Defined.
#[export] Instance MState_eq_dec : EqDecision MState.
Proof. solve_decision. Defined.

Record PState := mkPState {
  ctx_done : bool;                 (** [ctx.Done()] is closed *)
  encodeErr : option EncErr;       (** the [atomic.Pointer[error]] *)
  sem : nat;                       (** free permits of [sem] *)
  chunkChan : list Chunk;          (** buffered chunks, oldest first *)
  disp : DState;
  workers : list WState;
  resultChan : list EncodeResult;  (** buffered results, oldest first *)
  resultClosed : bool;
  collecting : bool;               (** the collector goroutine is running *)
  progress : Progress;
  doneFile : DoneFile;             (** [<workDir>/done.txt] *)
  reported : list Progress;        (** the [progressCb] calls, in order *)
  main : MState }.

(** The sizes fixed when the goroutines start. *)
Record PoolCfg := mkPoolCfg {
  permits : nat;        (** [CalculatePermits(actualWorkers, cfg.ChunkBuffer)] *)
  resCap : nat;         (** [len(remainingChunks)], the result channel's capacity *)
  hasCb : bool }.       (** [progressCb != nil] *)

Definition set_ctx s := mkPState true (encodeErr s) (sem s) (chunkChan s) (disp s) (workers s)
  (resultChan s) (resultClosed s) (collecting s) (progress s) (doneFile s) (reported s) (main s).
Definition set_err e s := mkPState (ctx_done s) e (sem s) (chunkChan s) (disp s) (workers s)
  (resultChan s) (resultClosed s) (collecting s) (progress s) (doneFile s) (reported s) (main s).
Definition set_sem n s := mkPState (ctx_done s) (encodeErr s) n (chunkChan s) (disp s) (workers s)
  (resultChan s) (resultClosed s) (collecting s) (progress s) (doneFile s) (reported s) (main s).
Definition set_chunkChan q s := mkPState (ctx_done s) (encodeErr s) (sem s) q (disp s) (workers s)
  (resultChan s) (resultClosed s) (collecting s) (progress s) (doneFile s) (reported s) (main s).
Definition set_disp d s := mkPState (ctx_done s) (encodeErr s) (sem s) (chunkChan s) d (workers s)
  (resultChan s) (resultClosed s) (collecting s) (progress s) (doneFile s) (reported s) (main s).
Definition set_worker i w s := mkPState (ctx_done s) (encodeErr s) (sem s) (chunkChan s) (disp s)
  (<[i := w]> (workers s)) (resultChan s) (resultClosed s) (collecting s) (progress s)
  (doneFile s) (reported s) (main s).
Definition set_resultChan q s := mkPState (ctx_done s) (encodeErr s) (sem s) (chunkChan s) (disp s)
  (workers s) q (resultClosed s) (collecting s) (progress s) (doneFile s) (reported s) (main s).
Definition close_results s := mkPState (ctx_done s) (encodeErr s) (sem s) (chunkChan s) (disp s)
  (workers s) (resultChan s) true (collecting s) (progress s) (doneFile s) (reported s) (main s).
Definition stop_collector s := mkPState (ctx_done s) (encodeErr s) (sem s) (chunkChan s) (disp s)
  (workers s) (resultChan s) (resultClosed s) false (progress s) (doneFile s) (reported s) (main s).
Definition set_collected p f rp s := mkPState (ctx_done s) (encodeErr s) (sem s) (chunkChan s)
  (disp s) (workers s) (resultChan s) (resultClosed s) (collecting s) p f rp (main s).
Definition set_main m s := mkPState (ctx_done s) (encodeErr s) (sem s) (chunkChan s) (disp s)
  (workers s) (resultChan s) (resultClosed s) (collecting s) (progress s) (doneFile s)
  (reported s) m.

(** ** Operations *)

(** [setError]: [encodeErr.CompareAndSwap(nil, &err)]. *)
Definition setError (e : EncErr) (s : PState) : PState :=
  match encodeErr s with
  | None => set_err (Some e) s
  | Some _ => s
  end.

(** [sem.Release()]. *)
Definition release (s : PState) : PState := set_sem (S (sem s)) s.

(** The collector's update under [progressMu]:
    [ChunksComplete++; FramesComplete += result.Frames;
     BytesComplete += result.Size]. *)
Definition collect_progress (r : EncodeResult) (p : Progress) : Progress :=
  mkProgress (ChunksTotal p) (wrap_i64 (ChunksComplete p + 1)) (FramesTotal p)
             (wrap_i64 (FramesComplete p + RFrames r)) (wrap_u64 (BytesComplete p + RSize r)).

(** The record [AppendDone] writes for a result. *)
Definition result_comp (r : EncodeResult) : ChunkComp :=
  mkChunkComp (ChunkIdx r) (RFrames r) (RSize r).

(** The cancelled result a worker sends when it sees [ctx.Done()]. *)
Definition canceled_result (ch : Chunk) : EncodeResult :=
  mkEncodeResult (Idx ch) 0 0 (Some ErrCanceled).

Section Step.
Context `{ChunkEncoder} (cfg : PoolCfg).

(** One atomic action of one goroutine. *)
Inductive step : PState -> PState -> Prop :=
  (** the context is cancelled *)
  | s_cancel s : ctx_done s = false -> step s (set_ctx s)
  (** dispatcher: the [range] loop ends *)
  | d_finish s : disp s = DTop [] -> step s (set_disp DExit s)
  (** dispatcher: [case <-ctx.Done(): return] *)
  | d_cancel_top s ch rest : disp s = DTop (ch :: rest) -> ctx_done s = true ->
      step s (set_disp DExit s)
  (** dispatcher: [if getError() != nil { return }] *)
  | d_err_top s ch rest e : disp s = DTop (ch :: rest) -> ctx_done s = false ->
      encodeErr s = Some e -> step s (set_disp DExit s)
  (** dispatcher: both checks pass *)
  | d_check s ch rest : disp s = DTop (ch :: rest) -> ctx_done s = false ->
      encodeErr s = None -> step s (set_disp (DAcq ch rest) s)
  (** dispatcher: [case <-sem.Chan()] *)
  | d_acquire s ch rest n : disp s = DAcq ch rest -> sem s = S n ->
      step s (set_disp (DHold ch rest) (set_sem n s))
  (** dispatcher: [case <-ctx.Done(): return] while waiting for a permit *)
  | d_acq_cancel s ch rest : disp s = DAcq ch rest -> ctx_done s = true ->
      step s (set_disp DExit s)
  (** dispatcher: [case chunkChan <- ch] *)
  | d_send s ch rest : disp s = DHold ch rest -> (length (chunkChan s) < permits cfg)%nat ->
      step s (set_disp (DTop rest) (set_chunkChan (chunkChan s ++ [ch]) s))
  (** dispatcher: [case <-ctx.Done(): sem.Release(); return] *)
  | d_send_cancel s ch rest : disp s = DHold ch rest -> ctx_done s = true ->
      step s (set_disp DExit (release s))
  (** worker: [ffms.ThrVidSrc] succeeds *)
  | w_init_ok s i : workers s !! i = Some WInit -> step s (set_worker i WIdle s)
  (** worker: [ffms.ThrVidSrc] fails: [setError], then drain *)
  | w_init_fail s i : workers s !! i = Some WInit ->
      step s (set_worker i WDrain (setError ErrVidSrc s))
  (** worker: [for range chunkChan { sem.Release() }] *)
  | w_drain_recv s i ch q : workers s !! i = Some WDrain -> chunkChan s = ch :: q ->
      step s (release (set_chunkChan q s))
  (** worker: the drain loop ends on the closed channel *)
  | w_drain_exit s i : workers s !! i = Some WDrain -> chunkChan s = [] -> disp s = DExit ->
      step s (set_worker i WExit s)
  (** worker: [for ch := range chunkChan] receives *)
  | w_recv s i ch q : workers s !! i = Some WIdle -> chunkChan s = ch :: q ->
      step s (set_worker i (WGot ch) (set_chunkChan q s))
  (** worker: the loop ends on the closed channel *)
  | w_exit s i : workers s !! i = Some WIdle -> chunkChan s = [] -> disp s = DExit ->
      step s (set_worker i WExit s)
  (** worker: [case <-ctx.Done()]: release, send a cancelled result *)
  | w_cancel s i ch : workers s !! i = Some (WGot ch) -> ctx_done s = true ->
      (length (resultChan s) < resCap cfg)%nat ->
      step s (set_worker i WIdle (set_resultChan (resultChan s ++ [canceled_result ch]) (release s)))
  (** worker: [if getError() != nil { sem.Release(); continue }] *)
  | w_skip s i ch e : workers s !! i = Some (WGot ch) -> ctx_done s = false ->
      encodeErr s = Some e -> step s (set_worker i WIdle (release s))
  (** worker: [encodeChunkStreaming], [sem.Release()], [resultChan <- result] *)
  | w_encode s i ch r : workers s !! i = Some (WGot ch) -> ctx_done s = false ->
      encodeErr s = None -> encode_outcome ch r ->
      (length (resultChan s) < resCap cfg)%nat ->
      step s (set_worker i WIdle (set_resultChan (resultChan s ++ [r]) (release s)))
  (** collector: a failed result: [setError(result.Error); continue] *)
  | c_recv_err s r q e : collecting s = true -> resultChan s = r :: q -> RError r = Some e ->
      step s (setError e (set_resultChan q s))
  (** collector: a successful result.  [appended] says whether
      [AppendDone]'s write happened; its error is ignored. *)
  | c_recv_ok s r q (appended : bool) : collecting s = true -> resultChan s = r :: q ->
      RError r = None ->
      let p := collect_progress r (progress s) in
      step s (set_collected p
                (if appended then AppendDone (result_comp r) (doneFile s) else doneFile s)
                (reported s ++ (if hasCb cfg then [p] else []))
                (set_resultChan q s))
  (** collector: the [range] over the closed, empty result channel ends *)
  | c_exit s : collecting s = true -> resultChan s = [] -> resultClosed s = true ->
      step s (stop_collector s)
  (** main: [workerWg.Wait()] returns; [close(resultChan)] *)
  | m_close s : main s = MWait -> Forall (eq WExit) (workers s) ->
      step s (set_main MCollect (close_results s))
  (** main: [collectorWg.Wait()] returns *)
  | m_done s : main s = MCollect -> collecting s = false -> step s (set_main MDone s).

End Step.

(** ** [EncodeAll] up to the start of the goroutines *)

(** What [EncodeAll] reads from outside the pool: the chunks, the
    resume log, the configuration, the host and the decoder. *)
Record EncodeAllIn := mkEncodeAllIn {
  in_chunks : list Chunk;
  in_doneFile : DoneFile;
  in_encodeDirOk : bool;           (** [chunk.EnsureEncodeDir] succeeds *)
  in_cfgWorkers : Z; in_cfgChunkBuffer : Z; in_cfgLogicalProcessors : Z;
  in_available : Z; in_physical : Z; in_logical : Z;   (** [util] readings *)
  in_width : Z; in_height : Z;                         (** [inf.Width], [inf.Height] *)
  in_decodeStrat : option (option (Z * Z));  (** [GetDecodeStrat]: an error, or the crop size *)
  in_hasCb : bool;
  in_ctx : bool }.                 (** the context is already cancelled *)

Inductive PoolErr :=
  | ErrEncodeDir | ErrLoadResume (e : ResumeErr) | ErrDecodeStrat | ErrEncode (e : EncErr).

(** The pool about to start. *)
Record PoolStart := mkPoolStart {
  ps_remaining : list Chunk;
  ps_actualWorkers : Z;
  ps_threads : Z;          (** [cfg.LogicalProcessors] after the default *)
  ps_cfg : PoolCfg;
  ps_state : PState }.

(** [for _, ch := range chunks { totalFrames += ch.Frames(); ... }] *)
Definition total_frames (chunks : list Chunk) : Z :=
  fold_left (fun acc ch => wrap_i64 (acc + Frames ch)) chunks 0.

(** [if !doneSet[ch.Idx] { remainingChunks = append(...) }] *)
Definition remaining_chunks (done : gset Z) (chunks : list Chunk) : list Chunk :=
  filter (fun ch => Idx ch ∉ done) chunks.

(** The first part of [EncodeAll]: [Ok (inl w)] is the early
    [return cfg.Workers, nil]; [Ok (inr p)] starts the goroutines. *)
Definition EncodeAll_setup (inp : EncodeAllIn) : result (Z + PoolStart) PoolErr :=
  if negb (in_encodeDirOk inp) then Err ErrEncodeDir else
  match GetResume (in_doneFile inp) with
  | Err e => Err (ErrLoadResume e)
  | Ok resume =>
      let remaining := remaining_chunks (DoneSet resume) (in_chunks inp) in
      let totalFrames := total_frames (in_chunks inp) in
      match remaining with
      | [] => Ok (inl (in_cfgWorkers inp))
      | _ =>
          match in_decodeStrat inp with
          | None => Err ErrDecodeStrat
          | Some crop =>
              let '(width, height) :=
                match crop with Some wh => wh | None => (in_width inp, in_height inp) end in
              let actualWorkers := fst (CapWorkers (in_available inp) (in_cfgWorkers inp) width height) in
              let threads :=
                if in_cfgLogicalProcessors inp =? 0
                then calculateThreadsPerWorker (in_physical inp) (in_logical inp) actualWorkers width
                else in_cfgLogicalProcessors inp in
              let permits := CalculatePermits actualWorkers (in_cfgChunkBuffer inp) in
              let prog := mkProgress (Z.of_nat (length (in_chunks inp)))
                            (Z.of_nat (length (in_chunks inp)) - Z.of_nat (length remaining))
                            totalFrames (TotalEncodedFrames resume) (TotalEncodedSize resume) in
              Ok (inr (mkPoolStart remaining actualWorkers threads
                        (mkPoolCfg (Z.to_nat permits) (length remaining) (in_hasCb inp))
                        (mkPState (in_ctx inp) None (Z.to_nat permits) [] (DTop remaining)
                                  (replicate (Z.to_nat actualWorkers) WInit) [] false true
                                  prog (in_doneFile inp) [] MWait)))
          end
      end
  end.

(** [return actualWorkers, getError()] once the collector is done. *)
Definition pool_return (actualWorkers : Z) (s : PState) : Z * option PoolErr :=
  (actualWorkers, ErrEncode <$> encodeErr s).

(** The values [EncodeAll] may return, over all interleavings. *)
Inductive EncodeAll_returns `{ChunkEncoder} (inp : EncodeAllIn) : Z * option PoolErr -> Prop :=
  | ret_setup_err e : EncodeAll_setup inp = Err e -> EncodeAll_returns inp (0, Some e)
  | ret_all_done w : EncodeAll_setup inp = Ok (inl w) -> EncodeAll_returns inp (w, None)
  | ret_pool p s : EncodeAll_setup inp = Ok (inr p) ->
      rtc (step (ps_cfg p)) (ps_state p) s -> main s = MDone ->
      EncodeAll_returns inp (pool_return (ps_actualWorkers p) s).

End Pool.
