(* ===== verification/PoolRun.v ===== *)
(** * An executable scheduler for the worker pool

    [exec] performs the next action of the goroutine a [Choice] names, as
    the code does it, with [encodeChunkStreaming] under a given
    environment as the worker's encoder.  [run] applies a schedule.
    [run_sound] shows that every schedule [run] accepts is an execution
    of [Pool.step], so concrete interleavings can be evaluated with
    [vm_compute] and used as witnesses. *)

From S2P Require Import Prelude GoText Chunk Resume Worker Admission Pool.
Import Chunk Resume Worker Admission Pool.

Module PoolRun.

(** Which goroutine moves next. *)
Inductive Choice :=
  | CCancel                       (** the context is cancelled *)
  | CDisp                         (** the dispatcher *)
  | CWorker (i : nat) (env : EncEnv)  (** worker [i], encoding under [env] *)
  | CInitFail (i : nat)           (** worker [i]: [ffms.ThrVidSrc] fails *)
  | CCollect (appended : bool)    (** the collector; whether [AppendDone] writes *)
  | CMain.                        (** the goroutine running [EncodeAll] *)

Section Exec.
Context (cfg : PoolCfg).

Definition exec_disp (s : PState) : option PState :=
  match disp s with
  | DTop [] => Some (set_disp DExit s)
  | DTop (ch :: rest) =>
      if ctx_done s then Some (set_disp DExit s)
      else match encodeErr s with
           | Some _ => Some (set_disp DExit s)
           | None => Some (set_disp (DAcq ch rest) s)
           end
  | DAcq ch rest =>
      match sem s with
      | S n => Some (set_disp (DHold ch rest) (set_sem n s))
      | O => if ctx_done s then Some (set_disp DExit s) else None
      end
  | DHold ch rest =>
      if (length (chunkChan s) <? permits cfg)%nat
      then Some (set_disp (DTop rest) (set_chunkChan (chunkChan s ++ [ch]) s))
      else if ctx_done s then Some (set_disp DExit (release s)) else None
  | DExit => None
  end.

Definition exec_worker (i : nat) (env : EncEnv) (s : PState) : option PState :=
  match workers s !! i with
  | Some WInit => Some (set_worker i WIdle s)
  | Some WDrain =>
      match chunkChan s with
      | _ :: q => Some (release (set_chunkChan q s))
      | [] => if bool_decide (disp s = DExit) then Some (set_worker i WExit s) else None
      end
  | Some WIdle =>
      match chunkChan s with
      | ch :: q => Some (set_worker i (WGot ch) (set_chunkChan q s))
      | [] => if bool_decide (disp s = DExit) then Some (set_worker i WExit s) else None
      end
  | Some (WGot ch) =>
      if ctx_done s then
        if (length (resultChan s) <? resCap cfg)%nat
        then Some (set_worker i WIdle
                     (set_resultChan (resultChan s ++ [canceled_result ch]) (release s)))
        else None
      else match encodeErr s with
           | Some _ => Some (set_worker i WIdle (release s))
           | None =>
               if (length (resultChan s) <? resCap cfg)%nat
               then Some (set_worker i WIdle
                            (set_resultChan (resultChan s ++ [fst (encodeChunkStreaming env ch)])
                                            (release s)))
               else None
           end
  | _ => None
  end.

Definition exec_collect (appended : bool) (s : PState) : option PState :=
  if collecting s then
    match resultChan s with
    | r :: q =>
        match RError r with
        | Some e => Some (setError e (set_resultChan q s))
        | None =>
            let p := collect_progress r (progress s) in
            Some (set_collected p
                    (if appended then AppendDone (result_comp r) (doneFile s) else doneFile s)
                    (reported s ++ (if hasCb cfg then [p] else []))
                    (set_resultChan q s))
        end
    | [] => if resultClosed s then Some (stop_collector s) else None
    end
  else None.

Definition exec_main (s : PState) : option PState :=
  match main s with
  | MWait =>
      if forallb (fun w => bool_decide (WExit = w)) (workers s)
      then Some (set_main MCollect (close_results s)) else None
  | MCollect => if collecting s then None else Some (set_main MDone s)
  | MDone => None
  end.

Definition exec (c : Choice) (s : PState) : option PState :=
  match c with
  | CCancel => if ctx_done s then None else Some (set_ctx s)
  | CDisp => exec_disp s
  | CWorker i env => exec_worker i env s
  | CInitFail i =>
      match workers s !! i with
      | Some WInit => Some (set_worker i WDrain (setError ErrVidSrc s))
      | _ => None
      end
  | CCollect appended => exec_collect appended s
  | CMain => exec_main s
  end.

Fixpoint run (cs : list Choice) (s : PState) : option PState :=
  match cs with
  | [] => Some s
  | c :: cs' => match exec c s with Some s' => run cs' s' | None => None end
  end.

End Exec.

(** ** Soundness *)

Lemma forallb_exit ws :
  forallb (fun w => bool_decide (WExit = w)) ws = true -> Forall (eq WExit) ws.
Proof.
  rewrite forallb_forall. intros Hf. apply Forall_forall. intros w Hw.
  apply (bool_decide_eq_true_1 (WExit = w)), Hf. by apply list_elem_of_In.
Qed.

Lemma exec_sound cfg c s s' : exec cfg c s = Some s' -> step cfg s s'.
Proof.
  destruct c as [| | | |appended|]; cbn [exec];
    [..| unfold exec_collect; intros Hx; destruct (collecting s) eqn:Hc; [|done];
         destruct (resultChan s) as [|r q] eqn:Hq;
         [destruct (resultClosed s) eqn:Hcl; [|done]; injection Hx as <-; by apply c_exit|];
         destruct (RError r) eqn:He; injection Hx as <-;
         [by eapply c_recv_err | by apply (c_recv_ok _ _ r q appended)] |];
    unfold exec_disp, exec_worker, exec_main; intros Hx; repeat case_match; simplify_eq;
    repeat match goal with
    | H : (_ <? _)%nat = true |- _ => apply Nat.ltb_lt in H
    | H : bool_decide _ = true |- _ => apply bool_decide_eq_true_1 in H
    | H : forallb _ _ = true |- _ => apply forallb_exit in H
    end;
    try by econstructor; eauto.
  eapply w_encode; eauto. by eexists.
Qed.

Lemma run_sound cfg cs s s' : run cfg cs s = Some s' -> rtc (step cfg) s s'.
Proof.
  revert s. induction cs as [|c cs IH]; intros s Hr; simpl in Hr; [by injection Hr as <-|].
  destruct (exec cfg c s) as [s1|] eqn:Ex; [|done].
  eapply rtc_l; [by eapply exec_sound | by apply IH].
Qed.

End PoolRun.
