(* ===== verification/PoolInv.v ===== *)
(** * Invariants of the worker pool

    The invariants of [Pool.step] that hold in every state reachable from
    the state [EncodeAll_setup] starts: the semaphore's permits are
    conserved; the error slot, once set, never changes; the goroutines'
    shutdown order; and the flow of chunks from the dispatcher to the
    done log, in which no chunk is encoded or recorded twice.  Each
    invariant is proved by induction on the reflexive-transitive closure
    of [step]. *)

From S2P Require Import Prelude GoText Chunk Resume Worker Admission Pool.
Import Chunk Resume Worker Admission Pool.

Module PoolInv.

(** ** Views of the state *)

Definition got_of (w : WState) : list Chunk :=
  match w with WGot ch => [ch] | _ => [] end.

(** The chunks the workers hold. *)
Definition got_chunks (ws : list WState) : list Chunk := mjoin (got_of <$> ws).

(** 1 when the dispatcher holds a permit it has not yet passed on. *)
Definition holds (d : DState) : nat :=
  match d with DHold _ _ => 1 | _ => 0 end%nat.

(** The chunks the dispatcher has not yet sent. *)
Definition disp_chunks (d : DState) : list Chunk :=
  match d with
  | DTop rest => rest
  | DAcq ch rest | DHold ch rest => ch :: rest
  | DExit => []
  end.

Lemma setError_eq e s : setError e s = set_err (Some (default e (encodeErr s))) s.
Proof. destruct s. unfold setError, set_err. simpl. by case_match. Qed.

Ltac pool_simpl :=
  rewrite ?setError_eq in *;
  unfold release in *;
  unfold set_ctx, set_err, set_sem, set_chunkChan, set_disp, set_worker, set_resultChan,
    close_results, stop_collector, set_collected, set_main in *;
  cbn [ctx_done encodeErr sem chunkChan disp workers resultChan resultClosed collecting
       progress doneFile reported main] in *.

Lemma got_chunks_insert ws i w w' :
  ws !! i = Some w ->
  got_chunks (<[i := w']> ws) ++ got_of w ≡ₚ got_chunks ws ++ got_of w'.
Proof. apply mjoin_map_insert. Qed.

Lemma length_got_insert ws i w w' :
  ws !! i = Some w ->
  (length (got_chunks (<[i := w']> ws)) + length (got_of w) =
   length (got_chunks ws) + length (got_of w'))%nat.
Proof.
  intros Hi. rewrite <- !length_app. apply Permutation_length.
  by apply got_chunks_insert.
Qed.

(** ** Permits *)

Section Permits.
Context `{ChunkEncoder} (cfg : PoolCfg).

(** Every permit is free, held by the dispatcher, or carried by a chunk
    in the channel or in a worker's hands. *)
Definition permits_inv (s : PState) : Prop :=
  (sem s + holds (disp s) + length (chunkChan s) + length (got_chunks (workers s)))%nat
    = permits cfg.

Lemma permits_inv_step s s' : step cfg s s' -> permits_inv s -> permits_inv s'.
Proof.
  unfold permits_inv. intros Hs Hi.
  destruct Hs; pool_simpl;
    repeat match goal with
    | Hd : disp _ = _ |- _ => rewrite Hd in *
    | Hq : chunkChan _ = _ |- _ => rewrite Hq in *
    | Hw : workers _ !! ?i = Some ?w |- context [<[?i := ?w']> _] =>
        pose proof (length_got_insert _ _ _ w' Hw); clear Hw
    end; cbn [holds length got_of] in *; rewrite ?length_app in *; cbn [length] in *; lia.
Qed.

End Permits.

(** ** The error slot and the draining workers *)

Section Latch.
Context `{ChunkEncoder} (cfg : PoolCfg).

Lemma step_err_latch s s' e :
  step cfg s s' -> encodeErr s = Some e -> encodeErr s' = Some e.
Proof. intros Hs He. destruct Hs; pool_simpl; by rewrite ?He. Qed.

Lemma step_err_some s s' : step cfg s s' -> is_Some (encodeErr s) -> is_Some (encodeErr s').
Proof. intros Hs [e He]. exists e. by eapply step_err_latch. Qed.

Lemma step_ctx_mono s s' : step cfg s s' -> ctx_done s = true -> ctx_done s' = true.
Proof. intros Hs Hc. destruct Hs; pool_simpl; by rewrite ?Hc. Qed.

(** A worker drains the channel only after it has latched an error. *)
Definition drain_inv (s : PState) : Prop :=
  Forall (fun w => w = WDrain -> is_Some (encodeErr s)) (workers s).

Lemma drain_inv_step s s' : step cfg s s' -> drain_inv s -> drain_inv s'.
Proof.
  intros Hs Hd. pose proof (step_err_some s s' Hs) as Hl. unfold drain_inv in *.
  destruct Hs; pool_simpl;
    try (apply Forall_insert; [eapply Forall_impl; [exact Hd|]; naive_solver | try done]);
    try (eapply Forall_impl; [exact Hd|]; naive_solver).
Qed.

End Latch.

(** ** The flow of chunks *)

(** The progress snapshots the collector passes to [progressCb] after
    collecting [coll], starting from [p]. *)
Fixpoint snapshots (p : Progress) (coll : list EncodeResult) : list Progress :=
  match coll with
  | [] => []
  | r :: rs => let p' := collect_progress r p in p' :: snapshots p' rs
  end.

Definition progress_after (p : Progress) (coll : list EncodeResult) : Progress :=
  fold_left (fun p r => collect_progress r p) coll p.

Lemma snapshots_app p c1 c2 :
  snapshots p (c1 ++ c2) = snapshots p c1 ++ snapshots (progress_after p c1) c2.
Proof. revert p. induction c1 as [|r c1 IH]; intros p; [done|]. simpl. by rewrite IH. Qed.

Lemma append_all_snoc cs c f : append_all (cs ++ [c]) f = AppendDone c (append_all cs f).
Proof. unfold append_all. by rewrite fold_left_app. Qed.

Lemma progress_after_snoc p coll r :
  progress_after p (coll ++ [r]) = collect_progress r (progress_after p coll).
Proof. unfold progress_after. by rewrite fold_left_app. Qed.

(** The chunks between the dispatcher and the result channel. *)
Definition inflight (s : PState) : list Chunk :=
  got_chunks (workers s) ++ chunkChan s ++ disp_chunks (disp s).

Lemma inflight_worker s i w w' :
  workers s !! i = Some w ->
  inflight (set_worker i w' s) ++ got_of w ≡ₚ inflight s ++ got_of w'.
Proof.
  intros Hw. unfold inflight, set_worker. cbn [workers chunkChan disp].
  pose proof (got_chunks_insert _ _ _ w' Hw) as Hg.
  transitivity ((got_chunks (<[i:=w']> (workers s)) ++ got_of w) ++
                (chunkChan s ++ disp_chunks (disp s))); [solve_Permutation|].
  rewrite Hg. solve_Permutation.
Qed.

Lemma inflight_release_got s i ch :
  workers s !! i = Some (WGot ch) ->
  inflight (set_worker i WIdle s) ++ [ch] ≡ₚ inflight s.
Proof. intros Hw. rewrite (inflight_worker s i _ WIdle Hw). by rewrite app_nil_r. Qed.

Section Flow.
Context `{ChunkEncoder} (cfg : PoolCfg) (remaining : list Chunk) (f0 : DoneFile) (p0 : Progress).

(** A result belongs to a chunk of the run, and a successful one reports
    that chunk's frames and a [uint64] size. *)
Definition result_for (r : EncodeResult) : Prop :=
  exists ch, ch ∈ remaining /\ ChunkIdx r = Idx ch /\
    (RError r = None -> RFrames r = Frames ch /\ 0 <= RSize r <= uint64_max).

(** The chunk indices the run still accounts for: collected successes,
    queued results and the chunks in flight. *)
Definition tracked (coll : list EncodeResult) (s : PState) : list Z :=
  (ChunkIdx <$> coll ++ resultChan s) ++ (Idx <$> inflight s).

(** [coll] are the successful results the collector has taken, in
    order, and [recs] the records whose [AppendDone] wrote. *)
Record flow_at (coll : list EncodeResult) (recs : list ChunkComp) (s : PState) : Prop := {
  fl_ok : Forall (fun r => RError r = None) coll;
  fl_recs : recs `sublist_of` (result_comp <$> coll);
  fl_file : doneFile s = append_all recs f0;
  fl_progress : progress s = progress_after p0 coll;
  fl_reported : reported s = if hasCb cfg then snapshots p0 coll else [];
  fl_results : Forall result_for (coll ++ resultChan s);
  fl_inflight : Forall (fun ch => ch ∈ remaining) (inflight s);
  fl_sub : tracked coll s ⊆+ Idx <$> remaining;
  fl_exact : ctx_done s = false -> encodeErr s = None -> tracked coll s ≡ₚ Idx <$> remaining }.

Definition flow_inv (s : PState) : Prop := exists coll recs, flow_at coll recs s.

(** A step that only moves chunks in flight. *)
Lemma flow_perm coll recs s s' :
  flow_at coll recs s ->
  doneFile s' = doneFile s -> progress s' = progress s -> reported s' = reported s ->
  resultChan s' = resultChan s -> inflight s' ≡ₚ inflight s ->
  (ctx_done s' = false -> ctx_done s = false) -> (encodeErr s' = None -> encodeErr s = None) ->
  flow_at coll recs s'.
Proof.
  intros [] Hf Hp Hr Hq Hi Hc He.
  assert (Ht : tracked coll s' ≡ₚ tracked coll s) by (unfold tracked; by rewrite Hq, Hi).
  constructor; try congruence.
  - eapply Forall_submseteq_l; [exact fl_inflight0 | by apply Permutation_submseteq].
  - by rewrite Ht.
  - intros. rewrite Ht. auto.
Qed.

(** A step that drops chunks in flight, on a cancelled context or a
    latched error. *)
Lemma flow_drop coll recs s s' :
  flow_at coll recs s ->
  doneFile s' = doneFile s -> progress s' = progress s -> reported s' = reported s ->
  resultChan s' = resultChan s -> inflight s' ⊆+ inflight s ->
  ctx_done s' = true \/ is_Some (encodeErr s') ->
  flow_at coll recs s'.
Proof.
  intros [] Hf Hp Hr Hq Hi Hce.
  constructor; try congruence.
  - by eapply Forall_submseteq_l.
  - etrans; [|exact fl_sub0]. unfold tracked. rewrite Hq.
    apply submseteq_skips_l. by apply fmap_submseteq.
  - intros Hc He. rewrite Hc, He in Hce. by destruct Hce as [? | []].
Qed.

(** A worker turns the chunk [ch] it holds into the result [r]. *)
Lemma flow_push coll recs s s' ch r :
  flow_at coll recs s ->
  doneFile s' = doneFile s -> progress s' = progress s -> reported s' = reported s ->
  resultChan s' = resultChan s ++ [r] -> inflight s' ++ [ch] ≡ₚ inflight s ->
  ChunkIdx r = Idx ch ->
  (RError r = None -> RFrames r = Frames ch /\ 0 <= RSize r <= uint64_max) ->
  (ctx_done s' = false -> ctx_done s = false) -> (encodeErr s' = None -> encodeErr s = None) ->
  flow_at coll recs s'.
Proof.
  intros [] Hf Hp Hr Hq Hi Hidx Hok Hc He.
  assert (Hch : ch ∈ remaining).
  { pose proof fl_inflight0 as Hin. rewrite Forall_forall in Hin.
    apply Hin. rewrite <- Hi. set_solver. }
  assert (Ht : tracked coll s' ≡ₚ tracked coll s).
  { unfold tracked. rewrite Hq, <- Hi, !fmap_app. simpl. rewrite Hidx. solve_Permutation. }
  split; try congruence.
  - rewrite Hq, app_assoc. apply Forall_app. split; [done|]. repeat constructor. by exists ch.
  - eapply Forall_submseteq_l; [exact fl_inflight0|]. rewrite <- Hi.
    by apply submseteq_inserts_r.
  - by rewrite Ht.
  - intros. rewrite Ht. auto.
Qed.

(** The collector takes a failed result and latches its error. *)
Lemma flow_collect_err coll recs s r q e :
  flow_at coll recs s -> resultChan s = r :: q -> RError r = Some e ->
  flow_at coll recs (setError e (set_resultChan q s)).
Proof.
  intros [] Hq Hr. rewrite setError_eq.
  constructor; pool_simpl; try done.
  - rewrite Hq in fl_results0. eapply Forall_submseteq_l; [exact fl_results0|].
    by apply submseteq_skips_l, submseteq_cons.
  - etrans; [|exact fl_sub0]. unfold tracked. rewrite Hq.
    by apply submseteq_skips_r, fmap_submseteq, submseteq_skips_l, submseteq_cons.
Qed.

(** The collector takes a successful result. *)
Lemma flow_collect_ok coll recs s r q (appended : bool) :
  flow_at coll recs s -> resultChan s = r :: q -> RError r = None ->
  let p := collect_progress r (progress s) in
  let s' := set_collected p
              (if appended then AppendDone (result_comp r) (doneFile s) else doneFile s)
              (reported s ++ (if hasCb cfg then [p] else [])) (set_resultChan q s) in
  flow_at (coll ++ [r]) (if appended then recs ++ [result_comp r] else recs) s'.
Proof.
  intros [] Hq Hr p s'. subst p s'.
  assert (Hc : coll ++ resultChan s = (coll ++ [r]) ++ q) by (rewrite Hq, <- app_assoc; done).
  assert (Ht : tracked (coll ++ [r]) (set_resultChan q s) = tracked coll s)
    by (unfold tracked; by rewrite Hc).
  constructor; pool_simpl.
  - apply Forall_app; auto.
  - rewrite fmap_app. destruct appended; [by apply sublist_app | by apply sublist_inserts_r].
  - destruct appended; [by rewrite append_all_snoc, fl_file0 | done].
  - by rewrite progress_after_snoc, fl_progress0.
  - rewrite snapshots_app, fl_reported0, fl_progress0.
    by destruct (hasCb cfg).
  - by rewrite <- Hc.
  - done.
  - unfold tracked in *. cbn [resultChan set_resultChan] in *. by rewrite <- Hc.
  - unfold tracked in *. cbn [resultChan set_resultChan] in *. rewrite <- Hc. done.
Qed.

(** Unfold [inflight] over the setters and the known fields. *)
Ltac inflight_simpl :=
  unfold inflight in *; pool_simpl;
  repeat match goal with
  | Hd : disp _ = _ |- _ => rewrite Hd in *; clear Hd
  | Hq : chunkChan _ = _ |- _ => rewrite Hq in *; clear Hq
  end; cbn [disp_chunks got_of] in *.

(** The chunks of a worker's update, as a permutation. *)
Ltac worker_perm :=
  match goal with
  | Hw : workers ?s !! ?i = Some ?w |- context [<[?i := ?w']> _] =>
      let Hg := fresh "Hg" in
      pose proof (got_chunks_insert _ _ _ w' Hw) as Hg; cbn [got_of] in Hg;
      rewrite ?app_nil_r in Hg
  end.

Lemma flow_inv_step s s' : step cfg s s' -> drain_inv s -> flow_inv s -> flow_inv s'.
Proof.
  intros Hs Hd (coll & recs & Hf).
  pose proof (step_ctx_mono cfg s s' Hs) as Hcm. pose proof (step_err_some cfg s s' Hs) as Hem.
  assert (Hc : ctx_done s' = false -> ctx_done s = false)
    by (destruct (ctx_done s); [intros; rewrite Hcm in *; done | done]).
  assert (He : encodeErr s' = None -> encodeErr s = None)
    by (destruct (encodeErr s); [intros Hn; rewrite Hn in Hem; by destruct Hem | done]).
  destruct Hs; try (by eexists _, _; apply flow_collect_ok); exists coll, recs;
    try (eapply flow_perm; [exact Hf | done | done | done | done | | done | done];
         inflight_simpl; try done; try worker_perm; by rewrite ?Hg; solve_Permutation);
    try (eapply flow_drop; [exact Hf | done | done | done | done | |];
         [inflight_simpl; try worker_perm; rewrite ?Hg; solve_submseteq
         | pool_simpl; rewrite ?H1; by (left + right; eexists)]);
    try by eapply flow_collect_err.
  - eapply flow_perm; [exact Hf | by pool_simpl.. | | exact Hc | exact He].
    inflight_simpl. worker_perm. by rewrite Hg.
  - eapply flow_drop; [exact Hf | done | done | done | done | |].
    + inflight_simpl. by apply submseteq_skips_l, submseteq_skips_r, submseteq_cons.
    + right. pool_simpl. unfold drain_inv in Hd. rewrite Forall_lookup in Hd. by apply (Hd i WDrain).
  - eapply (flow_push _ _ _ _ ch); [exact Hf | done | done | done | done | | done | done | done | done].
    apply (inflight_release_got (set_resultChan _ (release s))). done.
  - eapply flow_drop; [exact Hf | done | done | done | done | | by right; pool_simpl; rewrite H2].
    change (inflight s) with (inflight (release s)).
    rewrite <- (inflight_release_got (release s) i ch) by done. by apply submseteq_inserts_r.
  - eapply (flow_push _ _ _ _ ch); [exact Hf | done | done | done | done | | | | done | done].
    + apply (inflight_release_got (set_resultChan _ (release s))). done.
    + by eapply encode_outcome_idx.
    + by eapply encode_outcome_ok.
Qed.

End Flow.

(** ** The shutdown order *)

Section Shape.
Context `{ChunkEncoder} (cfg : PoolCfg).

(** [close(resultChan)] comes after every worker has returned; a worker
    returns only on a closed, empty chunk channel; the collector stops
    only on a closed, empty result channel; [EncodeAll] returns only after
    the collector. *)
Record shape_inv (s : PState) : Prop := {
  sh_closed : main s <> MWait -> resultClosed s = true;
  sh_workers : resultClosed s = true -> Forall (eq WExit) (workers s);
  sh_exit : WExit ∈ workers s -> disp s = DExit /\ chunkChan s = [];
  sh_collector : collecting s = false -> resultChan s = [] /\ resultClosed s = true;
  sh_done : main s = MDone -> collecting s = false }.

Lemma Forall_eq_lookup (ws : list WState) i w :
  Forall (eq WExit) ws -> ws !! i = Some w -> w = WExit.
Proof. rewrite Forall_lookup. intros Hf Hi. symmetry. by apply (Hf i). Qed.

Lemma shape_inv_step s s' : step cfg s s' -> shape_inv s -> shape_inv s'.
Proof.
  intros Hs []. destruct Hs; pool_simpl;
    (* a worker that moves is not [WExit], so the result channel is open *)
    try match goal with
    | Hw : workers _ !! _ = Some ?w |- _ =>
        assert (Hopen : resultClosed s = false)
          by (destruct (resultClosed s) eqn:Er; [|done];
              by pose proof (Forall_eq_lookup _ _ _ (sh_workers0 eq_refl) Hw))
    end;
    constructor; pool_simpl; try congruence; try done;
    try (intros Hx; first [apply elem_of_insert_ne in Hx; [|done] | idtac];
         destruct (sh_exit0 Hx); split; congruence);
    try (intros Hc; destruct (sh_collector0 Hc); split; congruence);
    try (intros; apply sh_closed0; congruence).
Qed.

End Shape.

(** ** All invariants together *)

Section All.
Context `{ChunkEncoder} (cfg : PoolCfg) (remaining : list Chunk) (f0 : DoneFile) (p0 : Progress).

Record pool_inv (s : PState) : Prop := {
  pi_permits : permits_inv cfg s;
  pi_drain : drain_inv s;
  pi_flow : flow_inv cfg remaining f0 p0 s;
  pi_shape : shape_inv s }.

Lemma pool_inv_step s s' : step cfg s s' -> pool_inv s -> pool_inv s'.
Proof.
  intros Hs []. constructor.
  - by eapply permits_inv_step.
  - by eapply drain_inv_step.
  - by eapply flow_inv_step.
  - by eapply shape_inv_step.
Qed.

Lemma pool_inv_rtc s s' : rtc (step cfg) s s' -> pool_inv s -> pool_inv s'.
Proof. induction 1; eauto using pool_inv_step. Qed.

(** The state in which [EncodeAll] starts its goroutines. *)
Lemma pool_inv_init ctx n :
  pool_inv (mkPState ctx None (permits cfg) [] (DTop remaining) (replicate n WInit) [] false true
                     p0 f0 [] MWait).
Proof.
  assert (Hg : got_chunks (replicate n WInit) = []).
  { unfold got_chunks. rewrite fmap_replicate. simpl. by induction n. }
  constructor.
  - unfold permits_inv. pool_simpl. rewrite Hg. simpl. lia.
  - apply Forall_replicate. done.
  - exists [], []. constructor; pool_simpl; try done.
    + by destruct (hasCb cfg).
    + unfold inflight. pool_simpl. rewrite Hg. simpl. apply Forall_forall. done.
    + unfold tracked, inflight. pool_simpl. by rewrite Hg.
    + unfold tracked, inflight. pool_simpl. by rewrite Hg.
  - constructor; pool_simpl; try done.
    intros Hx. apply elem_of_replicate in Hx as [Hx _]. done.
Qed.

End All.

End PoolInv.
