(* ===== verification/PoolLive.v ===== *)
(** * Termination and progress of the worker pool

    Every step of [Pool.step] decreases a weight of the state, so every
    interleaving is finite ([step_measure]).  In every state reachable
    from [EncodeAll]'s start in which [EncodeAll] has not returned, some
    goroutine other than the context can move ([can_step]): the pool
    never deadlocks, whatever the scheduler does and even if the context
    is never cancelled. *)

From S2P Require Import Prelude GoText Chunk Resume Worker Admission Pool PoolInv.
Import Chunk Resume Worker Admission Pool PoolInv.

Module PoolLive.

(** ** The weight of a state *)

Definition w_weight (w : WState) : nat :=
  match w with WInit => 2 | WDrain => 1 | WIdle => 1 | WGot _ => 3 | WExit => 0 end.

Definition d_weight (d : DState) : nat :=
  match d with
  | DTop rest => 1 + 6 * length rest
  | DAcq _ rest => 6 + 6 * length rest
  | DHold _ rest => 5 + 6 * length rest
  | DExit => 0
  end.

Definition m_weight (m : MState) : nat :=
  match m with MWait => 2 | MCollect => 1 | MDone => 0 end.

Definition measure (s : PState) : nat :=
  (if ctx_done s then 0 else 1) + d_weight (disp s) + 3 * length (chunkChan s) +
  sum_list_with w_weight (workers s) + length (resultChan s) +
  (if collecting s then 1 else 0) + m_weight (main s).

(** A step without the context's cancellation. *)
Definition istep `{ChunkEncoder} (cfg : PoolCfg) (s s' : PState) : Prop :=
  step cfg s s' /\ ctx_done s' = ctx_done s.

Section Live.
Context `{ChunkEncoder} (cfg : PoolCfg).

Lemma step_measure s s' : step cfg s s' -> (measure s' < measure s)%nat.
Proof.
  unfold measure. intros Hs.
  destruct Hs; pool_simpl;
    repeat match goal with
    | Hd : disp _ = _ |- _ => rewrite Hd in *; clear Hd
    | Hq : chunkChan _ = _ |- _ => rewrite Hq in *; clear Hq
    | Hq : resultChan _ = _ |- _ => rewrite Hq in *; clear Hq
    | Hc : ctx_done _ = _ |- _ => rewrite Hc in *; clear Hc
    | Hc : collecting _ = _ |- _ => rewrite Hc in *; clear Hc
    | Hm : main _ = _ |- _ => rewrite Hm in *; clear Hm
    | Hw : workers _ !! ?i = Some ?w |- context [<[?i := ?w']> _] =>
        pose proof (sum_list_with_insert w_weight _ _ w w' Hw); clear Hw
    end; cbn [d_weight w_weight m_weight length] in *; rewrite ?length_app in *;
    cbn [length] in *; lia.
Qed.

Lemma step_wf : well_founded (fun s' s => step cfg s s').
Proof. apply (Wf_nat.well_founded_lt_compat _ measure). intros. by apply step_measure. Qed.

End Live.

(** ** Progress *)

Lemma got_chunks_elem ws i ch : ws !! i = Some (WGot ch) -> ch ∈ got_chunks ws.
Proof.
  intros Hw. apply list_elem_of_join. exists [ch]. split; [by left|].
  apply list_elem_of_fmap. exists (WGot ch). split; [done|]. by eapply list_elem_of_lookup_2.
Qed.

Lemma got_chunks_lookup ws ch : ch ∈ got_chunks ws -> exists i, ws !! i = Some (WGot ch).
Proof.
  intros (l & Hc & Hl)%list_elem_of_join. apply list_elem_of_fmap in Hl as (w & -> & Hw).
  destruct w; simpl in Hc; try by inversion Hc.
  apply list_elem_of_singleton in Hc as ->. by apply list_elem_of_lookup_1.
Qed.

Section Progress.
Context `{ChunkEncoder} (cfg : PoolCfg) (remaining : list Chunk) (f0 : DoneFile) (p0 : Progress).
Hypothesis Hcap : resCap cfg = length remaining.
Hypothesis Hperm : (1 <= permits cfg)%nat.

(** A worker holding a chunk never blocks on the result channel: its
    capacity is the number of chunks of the run. *)
Lemma result_room s i ch :
  pool_inv cfg remaining f0 p0 s -> workers s !! i = Some (WGot ch) ->
  (length (resultChan s) < resCap cfg)%nat.
Proof.
  intros [_ _ (coll & recs & Hf) _] Hw. rewrite Hcap.
  pose proof (submseteq_length _ _ (fl_sub _ _ _ _ _ _ _ Hf)) as Hl.
  unfold tracked, inflight in *. rewrite !length_app, !length_fmap, !length_app in *.
  pose proof (got_chunks_elem _ _ _ Hw) as Hg.
  destruct (got_chunks (workers s)); [by inversion Hg | simpl in *; lia].
Qed.

Lemma got_step s i ch :
  pool_inv cfg remaining f0 p0 s -> workers s !! i = Some (WGot ch) ->
  exists s', istep cfg s s'.
Proof.
  intros Hi Hw. pose proof (result_room s i ch Hi Hw) as Hr.
  destruct (ctx_done s) eqn:Ec; [eexists; split; [by eapply w_cancel | done]|].
  destruct (encodeErr s) as [e|] eqn:Ee; [eexists; split; [by eapply w_skip | done]|].
  destruct (encode_outcome_total ch) as [r Hr'].
  eexists; split; [by eapply w_encode | done].
Qed.

Lemma disp_step s :
  pool_inv cfg remaining f0 p0 s -> chunkChan s = [] -> disp s <> DExit ->
  exists s', istep cfg s s'.
Proof.
  intros Hi Hq Hd. pose proof (pi_permits _ _ _ _ _ Hi) as Hp. unfold permits_inv in Hp.
  destruct (disp s) as [[|ch rest]|ch rest|ch rest|] eqn:Ed; [| | | |done].
  - eexists; split; [by apply d_finish | done].
  - destruct (ctx_done s) eqn:Ec; [eexists; split; [by eapply d_cancel_top | done]|].
    destruct (encodeErr s) eqn:Ee;
      [eexists; split; [by eapply d_err_top | done] | eexists; split; [by eapply d_check | done]].
  - destruct (sem s) as [|n] eqn:Es; [|eexists; split; [by eapply d_acquire | done]].
    destruct (ctx_done s) eqn:Ec; [eexists; split; [by eapply d_acq_cancel | done]|].
    rewrite Hq in Hp. cbn [holds length] in Hp.
    destruct (got_chunks (workers s)) as [|ch' g] eqn:Eg; [simpl in Hp; lia|].
    destruct (got_chunks_lookup (workers s) ch') as [i Hw]; [rewrite Eg; by left|].
    by eapply got_step.
  - eexists; split; [eapply d_send; [done | rewrite Hq; simpl; lia] | done].
Qed.

(** The pool never deadlocks: until [EncodeAll] returns, some goroutine
    can move without the context being cancelled. *)
Lemma can_step s :
  pool_inv cfg remaining f0 p0 s -> main s <> MDone -> exists s', istep cfg s s'.
Proof.
  intros Hi Hm. pose proof Hi as [Hp Hd Hf Hsh].
  destruct (main s) eqn:Em; [|clear Hm|done].
  - destruct (Forall_Exists_dec (eq WExit) (fun w => WExit <> w) (fun w => decide (WExit = w))
                (workers s)) as [Hall|Hex];
      [eexists; split; [by apply m_close | done]|].
    apply Exists_exists in Hex as (w & Hw & Hne). apply list_elem_of_lookup_1 in Hw as [i Hw].
    destruct w; [eexists; split; [by eapply w_init_ok | done]| | |by eapply got_step|done];
      (destruct (chunkChan s) as [|ch q] eqn:Eq;
       [destruct (decide (disp s = DExit)); [|by apply disp_step]|]).
    + eexists; split; [by eapply w_drain_exit | done].
    + eexists; split; [by eapply w_drain_recv | done].
    + eexists; split; [by eapply w_exit | done].
    + eexists; split; [by eapply w_recv | done].
  - destruct (collecting s) eqn:Ec; [|eexists; split; [by apply m_done | done]].
    destruct (resultChan s) as [|r q] eqn:Er.
    + eexists; split; [apply c_exit; [done | done | apply (sh_closed _ Hsh); congruence] | done].
    + destruct (RError r) eqn:Ee.
      * eexists; split; [by eapply c_recv_err | by rewrite setError_eq].
      * eexists; split; [by eapply (c_recv_ok _ _ _ _ true) | done].
Qed.

End Progress.

End PoolLive.
