(* ===== verification/PoolProps.v ===== *)
(** * What [EncodeAll] guarantees

    The theorems about the whole pool, over every interleaving of its
    goroutines: it terminates and never deadlocks; the done log records
    only chunks of this run, each once, with its own frame count; without
    error or cancellation every remaining chunk is collected; at most
    [permits] chunks are in flight; the first error is the one returned;
    the progress reports grow.  For every input started with the context
    already cancelled, an interleaving in which only the dispatcher sees
    the cancellation makes [EncodeAll] return no error with chunks left
    unencoded. *)

From S2P Require Import Prelude GoText Chunk Resume Worker Admission Pool PoolRun PoolInv PoolLive.
Import Chunk Resume Worker Admission Pool PoolRun PoolInv PoolLive.

Module PoolProps.

(** ** The runs of [EncodeAll]

    A call of [EncodeAll] first runs [EncodeAll_setup].  When the setup
    starts the goroutines ([inr p]), their interleaved steps take the
    pool from [ps_state p]; [EncodeAll_reaches inp p s] says that [s] is
    a state of such a run. *)
Definition EncodeAll_reaches `{ChunkEncoder} (inp : EncodeAllIn) (p : PoolStart) (s : PState) : Prop :=
  EncodeAll_setup inp = Ok (inr p) /\ rtc (step (ps_cfg p)) (ps_state p) s.

(** ** The start of the pool *)

Lemma CalculatePermits_pos w b : 1 <= CalculatePermits w b.
Proof. unfold CalculatePermits. lia. Qed.

(** The goroutines start only when chunks remain. *)
Lemma setup_remaining inp p : EncodeAll_setup inp = Ok (inr p) -> ps_remaining p <> [].
Proof.
  unfold EncodeAll_setup. destruct (in_encodeDirOk inp); [|done].
  destruct (GetResume _) as [resume|]; [|done]. cbn [negb result_bind].
  destruct (remaining_chunks _ _) as [|ch rest] eqn:Erem; [done|].
  destruct (in_decodeStrat inp) as [crop|]; [|done].
  destruct (match crop with Some wh => wh | None => _ end). by intros [= <-].
Qed.

(** What [EncodeAll_setup] hands to the goroutines. *)
Lemma setup_start `{ChunkEncoder} inp p :
  EncodeAll_setup inp = Ok (inr p) ->
  (1 <= permits (ps_cfg p))%nat /\ resCap (ps_cfg p) = length (ps_remaining p) /\
  hasCb (ps_cfg p) = in_hasCb inp /\
  permits (ps_cfg p) = Z.to_nat (CalculatePermits (ps_actualWorkers p) (in_cfgChunkBuffer inp)) /\
  (exists width height,
     ps_actualWorkers p = fst (CapWorkers (in_available inp) (in_cfgWorkers inp) width height)) /\
  exists resume,
    GetResume (in_doneFile inp) = Ok resume /\
    ps_remaining p = remaining_chunks (DoneSet resume) (in_chunks inp) /\
    ChunksTotal (progress (ps_state p)) = Z.of_nat (length (in_chunks inp)) /\
    ChunksComplete (progress (ps_state p)) =
      Z.of_nat (length (in_chunks inp)) - Z.of_nat (length (ps_remaining p)) /\
    FramesComplete (progress (ps_state p)) = TotalEncodedFrames resume /\
    BytesComplete (progress (ps_state p)) = TotalEncodedSize resume /\
    ps_state p = mkPState (in_ctx inp) None (permits (ps_cfg p)) [] (DTop (ps_remaining p))
                   (replicate (Z.to_nat (ps_actualWorkers p)) WInit) [] false true
                   (progress (ps_state p)) (in_doneFile inp) [] MWait.
Proof.
  unfold EncodeAll_setup. intros Hs.
  destruct (in_encodeDirOk inp); [|done]. destruct (GetResume _) as [resume|] eqn:Er; [|done].
  cbn [negb result_bind] in Hs.
  destruct (remaining_chunks _ _) as [|ch rest] eqn:Erem; [done|].
  destruct (in_decodeStrat inp) as [crop|]; [|done].
  destruct (match crop with Some wh => wh | None => _ end) as [width height].
  injection Hs as <-. cbn.
  pose proof (CalculatePermits_pos
    (fst (CapWorkers (in_available inp) (in_cfgWorkers inp) width height))
    (in_cfgChunkBuffer inp)).
  split; [lia|]. split; [done|]. split; [done|]. split; [done|]. split; [by eexists _, _|].
  exists resume. by rewrite <- Erem.
Qed.

Lemma setup_inv `{ChunkEncoder} inp p :
  EncodeAll_setup inp = Ok (inr p) ->
  pool_inv (ps_cfg p) (ps_remaining p) (in_doneFile inp) (progress (ps_state p)) (ps_state p).
Proof.
  intros Hs. destruct (setup_start inp p Hs) as (_ & _ & _ & _ & _ & resume & _ & _ & _ & _ & _ & _ & ->).
  apply pool_inv_init.
Qed.

(** From every state satisfying the invariants, [EncodeAll] can return
    without the context being cancelled. *)
Lemma normalize `{ChunkEncoder} cfg remaining f0 p0 s :
  resCap cfg = length remaining -> (1 <= permits cfg)%nat ->
  pool_inv cfg remaining f0 p0 s ->
  exists s', rtc (istep cfg) s s' /\ main s' = MDone.
Proof.
  intros Hcap Hperm. induction s as [s IH] using (well_founded_induction (step_wf cfg)).
  intros Hi. destruct (decide (main s = MDone)) as [Hm|Hm]; [by exists s|].
  destruct (can_step cfg remaining f0 p0 Hcap Hperm s Hi Hm) as [s' [Hs' Hc]].
  destruct (IH s' Hs') as (s'' & Hr & Hd); [by eapply pool_inv_step|].
  exists s''. split; [|done]. by eapply rtc_l.
Qed.

Lemma istep_rtc_step `{ChunkEncoder} cfg s s' : rtc (istep cfg) s s' -> rtc (step cfg) s s'.
Proof. induction 1 as [|x y z [Hs _] _ IH]; [done|]. by eapply rtc_l. Qed.

(** The records the collector appended belong to chunks of the run. *)
Lemma recs_sound `{ChunkEncoder} cfg remaining f0 p0 coll recs s :
  flow_at cfg remaining f0 p0 coll recs s ->
  Forall (fun c => exists ch, ch ∈ remaining /\ CIdx c = Idx ch /\ CFrames c = Frames ch /\
                              0 <= CSize c <= uint64_max) recs.
Proof.
  intros Hf. eapply Forall_submseteq_l; [|apply sublist_submseteq, (fl_recs _ _ _ _ _ _ _ Hf)].
  apply Forall_fmap. pose proof (fl_results _ _ _ _ _ _ _ Hf) as Hr.
  apply Forall_app in Hr as [Hr _]. pose proof (fl_ok _ _ _ _ _ _ _ Hf) as Hok.
  rewrite Forall_forall in Hr, Hok |- *. intros r Hin.
  destruct (Hr r Hin) as (ch & Hch & Hidx & Hfr). destruct (Hfr (Hok r Hin)) as [Hfr' Hsz].
  exists ch. cbn [CIdx CFrames CSize result_comp]. split_and!; try done; lia.
Qed.

Lemma recs_nodup `{ChunkEncoder} cfg remaining f0 p0 coll recs s :
  flow_at cfg remaining f0 p0 coll recs s -> NoDup (Idx <$> remaining) -> NoDup (CIdx <$> recs).
Proof.
  intros Hf Hn. eapply NoDup_submseteq_l; [|exact Hn].
  etrans; [|exact (fl_sub _ _ _ _ _ _ _ Hf)]. unfold tracked.
  etrans; [apply sublist_submseteq, fmap_sublist, (fl_recs _ _ _ _ _ _ _ Hf)|].
  rewrite <- list_fmap_compose. change (CIdx ∘ result_comp) with ChunkIdx.
  rewrite fmap_app, <- app_assoc. by apply submseteq_inserts_r.
Qed.

Lemma remaining_sub inp p resume :
  ps_remaining p = remaining_chunks (DoneSet resume) (in_chunks inp) ->
  ps_remaining p `sublist_of` in_chunks inp.
Proof. intros ->. apply sublist_filter. Qed.

Lemma step_workers_length `{ChunkEncoder} cfg s s' :
  step cfg s s' -> length (workers s') = length (workers s).
Proof. intros Hs. destruct Hs; pool_simpl; by rewrite ?length_insert. Qed.

Lemma rtc_workers_length `{ChunkEncoder} cfg s s' :
  rtc (step cfg) s s' -> length (workers s') = length (workers s).
Proof. induction 1 as [|x y z Hs _ IH]; [done|]. rewrite IH. by eapply step_workers_length. Qed.

Lemma got_chunks_exit ws : Forall (eq WExit) ws -> got_chunks ws = [].
Proof.
  induction 1 as [|w ws <- _ IH]; [done|].
  unfold got_chunks in *. rewrite fmap_cons. cbn [mjoin list_join got_of app]. exact IH.
Qed.

(** When [EncodeAll] has returned, nothing is left in flight. *)
Lemma final_empty `{ChunkEncoder} cfg remaining f0 p0 s :
  pool_inv cfg remaining f0 p0 s -> main s = MDone -> workers s <> [] ->
  inflight s = [] /\ resultChan s = [].
Proof.
  intros [_ _ _ Hsh] Hm Hw.
  destruct (sh_collector _ Hsh (sh_done _ Hsh Hm)) as [Hq Hc].
  pose proof (sh_workers _ Hsh Hc) as Hall.
  destruct (workers s) as [|w ws] eqn:Ews; [done|].
  assert (Hx : WExit ∈ workers s) by (rewrite Ews; inversion Hall; subst; by left).
  destruct (sh_exit _ Hsh Hx) as [Hd Hq'].
  split; [|done]. unfold inflight. rewrite Hd, Hq', Ews.
  by rewrite got_chunks_exit.
Qed.

Lemma progress_after_fields p coll :
  ChunksTotal (progress_after p coll) = ChunksTotal p /\
  FramesTotal (progress_after p coll) = FramesTotal p /\
  ChunksComplete (progress_after p coll) =
    fold_left (fun acc r => wrap_i64 (acc + 1)) coll (ChunksComplete p) /\
  FramesComplete (progress_after p coll) =
    fold_left (fun acc r => wrap_i64 (acc + RFrames r)) coll (FramesComplete p).
Proof.
  unfold progress_after. revert p. induction coll as [|r coll IH]; intros p; [done|].
  specialize (IH (collect_progress r p)). cbn [fold_left]. exact IH.
Qed.

(** Results and chunks matched by distinct indices have the same total
    frame count. *)
Lemma sum_frames_match (coll : list EncodeResult) (rem : list Chunk) :
  Forall (fun r => exists ch, ch ∈ rem /\ ChunkIdx r = Idx ch /\ RFrames r = Frames ch) coll ->
  ChunkIdx <$> coll ≡ₚ Idx <$> rem -> NoDup (Idx <$> rem) ->
  sumZ RFrames coll = sumZ Frames rem.
Proof.
  intros Hm Hp Hn.
  set (F := fun i => match list_find (fun ch => Idx ch = i) rem with
                     | Some (_, ch) => Frames ch | None => 0 end).
  assert (HF : forall ch, ch ∈ rem -> F (Idx ch) = Frames ch).
  { intros ch Hch. subst F. cbn beta.
    destruct (list_find _ rem) as [[k ch']|] eqn:Ef.
    - apply list_find_Some in Ef as (Hk & Hi & _). f_equal.
      apply (NoDup_fmap_same Idx rem); [done | by eapply list_elem_of_lookup_2 | done | done].
    - apply list_find_None in Ef. rewrite Forall_forall in Ef. by destruct (Ef ch Hch). }
  transitivity (sumZ (F ∘ ChunkIdx) coll).
  { apply sumZ_ext. intros r Hr. rewrite Forall_forall in Hm.
    destruct (Hm r Hr) as (ch & Hch & Hi & Hf). unfold compose. by rewrite Hi, HF. }
  rewrite <- sumZ_fmap, (sumZ_Permutation _ _ _ Hp), sumZ_fmap.
  apply sumZ_ext. intros ch Hch. by apply HF.
Qed.

(** The snapshots count up by one from the starting value. *)
Lemma snapshots_spec p coll :
  0 <= ChunksComplete p -> ChunksComplete p + Z.of_nat (length coll) <= int64_max ->
  Forall (fun q => ChunksComplete p < ChunksComplete q <= ChunksComplete p + Z.of_nat (length coll) /\
                   ChunksTotal q = ChunksTotal p) (snapshots p coll) /\
  StronglySorted (fun a b => ChunksComplete a < ChunksComplete b) (snapshots p coll).
Proof.
  revert p. induction coll as [|r coll IH]; intros p H0 Hmax; [split; constructor|].
  cbn [snapshots length] in *. set (p' := collect_progress r p).
  assert (Hc : ChunksComplete p' = ChunksComplete p + 1)
    by (subst p'; cbn; apply wrap_i64_id; go_lia).
  destruct (IH p') as [Hf Hs]; [lia | lia|].
  split; constructor; [split; [rewrite Hc; lia | reflexivity] | |done|].
  - eapply Forall_impl; [exact Hf|]. intros q [Hq Ht].
    split; [rewrite Hc in Hq; lia | rewrite Ht; reflexivity].
  - eapply Forall_impl; [exact Hf|]. intros q [Hq _]. lia.
Qed.

(** A small run: two chunks of 100 frames, no done log, two workers,
    a buffer of one, memory unknown. *)
Definition demo_in : EncodeAllIn :=
  mkEncodeAllIn [mkChunk 0 0 100; mkChunk 1 100 200] None true 2 1 0 0 8 16 1920 1080
                (Some None) true false.

Definition demo_start : PoolStart :=
  match EncodeAll_setup demo_in with
  | Ok (inr p) => p
  | _ => mkPoolStart [] 0 0 (mkPoolCfg 1 0 false)
           (mkPState false None 0 [] DExit [] [] true false (mkProgress 0 0 0 0 0) None [] MDone)
  end.

Lemma demo_setup : EncodeAll_setup demo_in = Ok (inr demo_start).
Proof. vm_compute. reflexivity. Qed.

(** Every external call succeeds; the output file has 5000 bytes. *)
Definition env_ok : EncEnv :=
  mkEncEnv true true (fun _ => false) (fun _ => true) (fun _ => true) true (Some 5000).

(** A schedule of the demo run without error or cancellation: both
    workers start, the dispatcher sends both chunks and returns, each
    worker encodes one chunk and returns, the collector takes both
    results, [EncodeAll] closes the result channel and returns. *)
Definition demo_sched : list Choice :=
  [CWorker 0 env_ok; CWorker 1 env_ok; CDisp; CDisp; CDisp; CDisp; CDisp; CDisp; CDisp;
   CWorker 0 env_ok; CWorker 1 env_ok; CWorker 0 env_ok; CWorker 1 env_ok;
   CWorker 0 env_ok; CWorker 1 env_ok; CCollect true; CCollect true; CMain; CCollect true; CMain].

Definition demo_final : PState :=
  default (ps_state demo_start) (run (ps_cfg demo_start) demo_sched (ps_state demo_start)).

Lemma demo_run : rtc (step (ps_cfg demo_start)) (ps_state demo_start) demo_final.
Proof. apply (run_sound _ demo_sched). vm_compute. reflexivity. Qed.

(** ** A cancellation that only the dispatcher observes

    When the context is already cancelled as the goroutines start, the
    dispatcher returns at its first look, closing an empty chunk
    channel; every worker then starts and returns at once, the collector
    sees a closed, empty result channel, and [EncodeAll] returns. *)

Section Cancelled.
Context `{ChunkEncoder} (cfg : PoolCfg).

Lemma worker_exit_step c e sm ws rs rc col pr df rp m i :
  ws !! i = Some WInit ->
  rtc (step cfg) (mkPState c e sm [] DExit ws rs rc col pr df rp m)
                 (mkPState c e sm [] DExit (<[i := WExit]> ws) rs rc col pr df rp m).
Proof.
  intros Hi. eapply rtc_l; [by apply w_init_ok|].
  eapply rtc_l; [apply (w_exit _ _ i); [|done|done]|].
  - cbn. apply list_lookup_insert_eq. eapply lookup_lt_Some. exact Hi.
  - unfold set_worker. cbn. rewrite list_insert_insert_eq. apply rtc_refl.
Qed.

Lemma insert_exit_replicate n k :
  (k < n)%nat ->
  <[k := WExit]> (replicate k WExit ++ replicate (n - k) WInit) =
    replicate (S k) WExit ++ replicate (n - S k) WInit.
Proof.
  intros Hk. replace (n - k)%nat with (S (n - S k)) by lia.
  rewrite insert_app_r_alt, length_replicate, Nat.sub_diag by (rewrite length_replicate; lia).
  by rewrite (replicate_S_end k), <- app_assoc.
Qed.

Lemma workers_exit c e sm rs rc col pr df rp m n k :
  (k <= n)%nat ->
  rtc (step cfg) (mkPState c e sm [] DExit (replicate n WInit) rs rc col pr df rp m)
    (mkPState c e sm [] DExit (replicate k WExit ++ replicate (n - k) WInit) rs rc col pr df rp m).
Proof.
  induction k as [|k IH]; intros Hk; [by rewrite Nat.sub_0_r|].
  etrans; [apply IH; lia|]. rewrite <- insert_exit_replicate by lia.
  apply worker_exit_step. rewrite lookup_app_r, length_replicate, Nat.sub_diag by
    (rewrite length_replicate; lia).
  apply lookup_replicate_2. lia.
Qed.

End Cancelled.

(** ** Theorems *)

(** C4: every interleaving of the pool's goroutines is finite: no
    schedule makes the dispatcher, the workers, the collector and
    [EncodeAll] run forever: from every state of a run, every sequence
    of steps is finite. *)
Theorem EncodeAll_terminates `{ChunkEncoder} inp p s :
  EncodeAll_reaches inp p s -> Acc (fun s' s => step (ps_cfg p) s s') s.
Proof. intros _. apply step_wf. Qed.

Lemma EncodeAll_terminates_witness :
  EncodeAll_reaches demo_in demo_start (ps_state demo_start) /\
  Acc (fun s' s => step (ps_cfg demo_start) s s') (ps_state demo_start).
Proof.
  assert (Hr : EncodeAll_reaches demo_in demo_start (ps_state demo_start))
    by (split; [exact demo_setup | apply rtc_refl]).
  split; [exact Hr | exact (EncodeAll_terminates demo_in demo_start _ Hr)].
Defined.

(** C3: from every state the pool reaches after [EncodeAll] starts its
    goroutines, there is a schedule without cancellation in which
    [EncodeAll] returns: the pool never deadlocks. *)
Theorem EncodeAll_always_returns `{ChunkEncoder} inp p s :
  EncodeAll_reaches inp p s ->
  exists s', rtc (istep (ps_cfg p)) s s' /\ main s' = MDone.
Proof.
  intros [Hs Hr]. destruct (setup_start inp p Hs) as (Hperm & Hcap & _).
  eapply normalize; [exact Hcap | exact Hperm |].
  eapply pool_inv_rtc; [exact Hr | by apply setup_inv].
Qed.

Lemma EncodeAll_always_returns_witness :
  EncodeAll_setup demo_in = Ok (inr demo_start) /\
  exists s', rtc (istep (ps_cfg demo_start)) (ps_state demo_start) s' /\ main s' = MDone.
Proof.
  split; [exact demo_setup|].
  apply (EncodeAll_always_returns demo_in demo_start). split; [exact demo_setup | apply rtc_refl].
Defined.

(** C1: at every point of the run, the done log reads back as the
    previous run's records followed by records of this run's chunks,
    each chunk at most once, never one the previous run had finished,
    and each with that chunk's frame count. *)
Theorem EncodeAll_done_log `{ChunkEncoder} inp p s prev :
  EncodeAll_reaches inp p s ->
  (in_doneFile inp = None /\ prev = [] \/ in_doneFile inp = Some (concat (map record_line prev))) ->
  Forall (fun c => valid_comp c = true) prev ->
  NoDup (Idx <$> in_chunks inp) -> Forall (fun ch => in_int64 (Idx ch) = true) (in_chunks inp) ->
  exists recs, GetResume (doneFile s) = Ok (mkResumeInf (prev ++ recs)) /\
    NoDup (CIdx <$> recs) /\
    Forall (fun c => CIdx c ∉ CIdx <$> prev /\
                     exists ch, ch ∈ in_chunks inp /\ CIdx c = Idx ch /\ CFrames c = Frames ch) recs.
Proof.
  intros [Hs Hr] Hf0 Hprev Hnd Hidx.
  destruct (setup_start inp p Hs) as (_ & _ & _ & _ & _ & resume & Hres & Hrem & _).
  assert (Hresume : resume = mkResumeInf prev).
  { pose proof (GetResume_append_all prev [] (in_doneFile inp) Hf0
                  ltac:(by rewrite app_nil_r)) as Hg.
    change (append_all [] ?f) with f in Hg. rewrite Hg, app_nil_r in Hres.
    by injection Hres as <-. }
  pose proof (remaining_sub inp p resume Hrem) as Hsub.
  destruct (pi_flow _ _ _ _ _ (pool_inv_rtc _ _ _ _ _ _ Hr (setup_inv inp p Hs)))
    as (coll & recs & Hf).
  pose proof (recs_sound _ _ _ _ _ _ _ Hf) as Hsound.
  exists recs. split_and!.
  - rewrite (fl_file _ _ _ _ _ _ _ Hf). apply GetResume_append_all; [done|].
    apply Forall_app. split; [done|]. eapply Forall_impl; [exact Hsound|].
    intros c (ch & Hch & Hi & Hfr & Hsz). unfold valid_comp. rewrite Hi, Hfr.
    rewrite Forall_forall in Hidx. rewrite (Hidx ch) by (eapply elem_of_sublist; eauto).
    pose proof (wrap_i64_range (End ch - Start ch)) as Hw. unfold Frames.
    by rewrite (proj2 (in_int64_spec _) Hw), (proj2 (in_uint64_spec _) Hsz).
  - eapply recs_nodup; [exact Hf|]. eapply sublist_NoDup; [exact Hnd|]. by apply fmap_sublist.
  - eapply Forall_impl; [exact Hsound|]. intros c (ch & Hch & Hi & Hfr & _). split.
    + rewrite Hi. rewrite Hrem in Hch. apply list_elem_of_filter in Hch as [Hnot _].
      rewrite Hresume in Hnot. unfold DoneSet in Hnot. cbn [ChunksDone] in Hnot.
      intros Hin. apply Hnot. by apply elem_of_list_to_set.
    + exists ch. split_and!; [by eapply elem_of_sublist | done | done].
Qed.


Lemma EncodeAll_done_log_witness :
  exists recs, GetResume (doneFile (ps_state demo_start)) = Ok (mkResumeInf ([] ++ recs)) /\
    NoDup (CIdx <$> recs) /\
    Forall (fun c => CIdx c ∉ CIdx <$> [] /\
                     exists ch, ch ∈ in_chunks demo_in /\ CIdx c = Idx ch /\ CFrames c = Frames ch) recs.
Proof.
  apply (EncodeAll_done_log demo_in demo_start (ps_state demo_start) []);
    [split; [exact demo_setup | apply rtc_refl] | by left | constructor
    | apply (bool_decide_unpack _); vm_compute; exact I
    | apply (bool_decide_unpack _); vm_compute; exact I].
Defined.

(** C5: at every point of the run, every permit of the semaphore is
    either free, held by the dispatcher, or carried by a chunk in the
    channel or in a worker's hands: at most [CalculatePermits(W, buffer)]
    chunks are in flight, and the chunk channel never overflows. *)
Theorem EncodeAll_permits `{ChunkEncoder} inp p s :
  EncodeAll_reaches inp p s ->
  permits (ps_cfg p) = Z.to_nat (CalculatePermits (ps_actualWorkers p) (in_cfgChunkBuffer inp)) /\
  (sem s + holds (disp s) + length (chunkChan s) + length (got_chunks (workers s)) =
     permits (ps_cfg p))%nat.
Proof.
  intros [Hs Hr]. destruct (setup_start inp p Hs) as (_ & _ & _ & Hp & _).
  split; [done|]. apply (pi_permits _ _ _ _ _ (pool_inv_rtc _ _ _ _ _ _ Hr (setup_inv inp p Hs))).
Qed.

Lemma EncodeAll_permits_witness :
  permits (ps_cfg demo_start) =
    Z.to_nat (CalculatePermits (ps_actualWorkers demo_start) (in_cfgChunkBuffer demo_in)) /\
  (sem (ps_state demo_start) + holds (disp (ps_state demo_start)) +
   length (chunkChan (ps_state demo_start)) + length (got_chunks (workers (ps_state demo_start))) =
     permits (ps_cfg demo_start))%nat.
Proof. apply EncodeAll_permits. split; [exact demo_setup | apply rtc_refl]. Defined.

(** C6: the error slot keeps the first error stored in it: once a
    worker, the collector or a failed video source has latched an error,
    no later step changes it, and [EncodeAll] returns that error. *)
Theorem EncodeAll_first_error `{ChunkEncoder} inp p s s' e w :
  EncodeAll_reaches inp p s -> rtc (step (ps_cfg p)) s s' -> encodeErr s = Some e ->
  encodeErr s' = Some e /\ pool_return w s' = (w, Some (ErrEncode e)).
Proof.
  intros _ Hr He. assert (He' : encodeErr s' = Some e).
  { induction Hr as [|x y z Hs _ IH]; [done|]. apply IH. by eapply step_err_latch. }
  split; [done|]. unfold pool_return. by rewrite He'.
Qed.

Lemma EncodeAll_first_error_witness :
  let s := default (ps_state demo_start) (run (ps_cfg demo_start) [CInitFail 0] (ps_state demo_start)) in
  EncodeAll_reaches demo_in demo_start s /\ encodeErr s = Some ErrVidSrc /\
  pool_return 2 s = (2, Some (ErrEncode ErrVidSrc)).
Proof.
  intros s. assert (Hr : EncodeAll_reaches demo_in demo_start s).
  { split; [exact demo_setup|]. apply (run_sound _ [CInitFail 0]). vm_compute. reflexivity. }
  assert (He : encodeErr s = Some ErrVidSrc) by (vm_compute; reflexivity).
  split_and!; [exact Hr | exact He |].
  exact (proj2 (EncodeAll_first_error demo_in demo_start s s ErrVidSrc 2 Hr (rtc_refl _ _) He)).
Defined.

Lemma TotalEncodedFrames_range r : int64_min <= TotalEncodedFrames r <= int64_max.
Proof.
  unfold TotalEncodedFrames. rewrite fold_wrap_i64 by go_lia. apply wrap_i64_range.
Qed.

(** C2: when [EncodeAll] returns without a latched error and without a
    cancellation, every chunk that was not already done has been encoded
    and collected: it returns no error, [ChunksComplete] reaches
    [ChunksTotal], and [FramesComplete] is the resumed frame count plus
    the frames of all remaining chunks. *)
Theorem EncodeAll_complete `{ChunkEncoder} inp p s :
  EncodeAll_reaches inp p s -> main s = MDone ->
  encodeErr s = None -> ctx_done s = false -> 1 <= in_cfgWorkers inp ->
  Z.of_nat (length (in_chunks inp)) <= int64_max -> NoDup (Idx <$> in_chunks inp) ->
  pool_return (ps_actualWorkers p) s = (ps_actualWorkers p, None) /\
  ChunksComplete (progress s) = ChunksTotal (progress s) /\
  FramesComplete (progress s) =
    wrap_i64 (FramesComplete (progress (ps_state p)) + sumZ Frames (ps_remaining p)).
Proof.
  intros [Hs Hr] Hm He Hc Hw Hlen Hnd.
  destruct (setup_start inp p Hs)
    as (_ & _ & _ & _ & (wd & ht & Haw) & resume & _ & Hrem & Htot & Hcc & Hfc & _ & Hst).
  pose proof (pool_inv_rtc _ _ _ _ _ _ Hr (setup_inv inp p Hs)) as Hi.
  destruct (pi_flow _ _ _ _ _ Hi) as (coll & recs & Hf).
  assert (Hws : workers s <> []).
  { intros Hn. pose proof (rtc_workers_length _ _ _ Hr) as Hl. rewrite Hn, Hst in Hl.
    simpl in Hl. rewrite length_replicate in Hl.
    pose proof (CapWorkers_pos (in_available inp) (in_cfgWorkers inp) wd ht Hw). lia. }
  destruct (final_empty _ _ _ _ _ Hi Hm Hws) as [Hin Hq].
  pose proof (fl_exact _ _ _ _ _ _ _ Hf Hc He) as Hx. unfold tracked in Hx.
  rewrite Hin, Hq, !app_nil_r in Hx.
  pose proof (Permutation_length Hx) as Hlc. rewrite !length_fmap in Hlc.
  pose proof (sublist_length _ _ (remaining_sub inp p resume Hrem)) as Hsl.
  destruct (progress_after_fields (progress (ps_state p)) coll) as (Ht & _ & Hcc' & Hfc').
  rewrite (fl_progress _ _ _ _ _ _ _ Hf), Ht, Hcc', Hfc'.
  rewrite (fold_wrap_i64 (fun _ => 1)), fold_wrap_i64, sumZ_one, Hcc, Htot;
    [| rewrite Hfc; apply TotalEncodedFrames_range | rewrite Hcc; go_lia].
  split_and!; [unfold pool_return; by rewrite He | rewrite wrap_i64_id; go_lia |].
  do 2 f_equal. apply sum_frames_match; [| done |].
  - pose proof (fl_results _ _ _ _ _ _ _ Hf) as Hres. apply Forall_app in Hres as [Hres _].
    pose proof (fl_ok _ _ _ _ _ _ _ Hf) as Hok. rewrite Forall_forall in Hres, Hok |- *.
    intros r Hr'. destruct (Hres r Hr') as (ch & Hch & Hi' & Hfr). exists ch.
    split_and!; [done | done | by apply Hfr, Hok].
  - eapply sublist_NoDup; [exact Hnd|]. by apply fmap_sublist, (remaining_sub inp p resume).
Qed.

Lemma EncodeAll_complete_witness :
  pool_return (ps_actualWorkers demo_start) demo_final = (ps_actualWorkers demo_start, None) /\
  ChunksComplete (progress demo_final) = ChunksTotal (progress demo_final) /\
  FramesComplete (progress demo_final) =
    wrap_i64 (FramesComplete (progress (ps_state demo_start)) + sumZ Frames (ps_remaining demo_start)).
Proof.
  apply (EncodeAll_complete demo_in); [split; [exact demo_setup | exact demo_run] | vm_compute; reflexivity
    | vm_compute; reflexivity | vm_compute; reflexivity | vm_compute; discriminate
    | vm_compute; discriminate | apply (bool_decide_unpack _); vm_compute; exact I].
Defined.

(** The progress callback sees [ChunksComplete] strictly increase
    from one report to the next, never beyond [ChunksTotal], the number
    of chunks. *)
Theorem EncodeAll_progress_reports `{ChunkEncoder} inp p s :
  EncodeAll_reaches inp p s ->
  Z.of_nat (length (in_chunks inp)) <= int64_max ->
  StronglySorted (fun a b => ChunksComplete a < ChunksComplete b) (reported s) /\
  Forall (fun q => ChunksComplete q <= ChunksTotal q /\
                   ChunksTotal q = Z.of_nat (length (in_chunks inp))) (reported s).
Proof.
  intros [Hs Hr] Hlen.
  destruct (setup_start inp p Hs)
    as (_ & Hcap & _ & _ & _ & resume & _ & Hrem & Htot & Hcc & _ & _ & _).
  pose proof (pool_inv_rtc _ _ _ _ _ _ Hr (setup_inv inp p Hs)) as Hi.
  destruct (pi_flow _ _ _ _ _ Hi) as (coll & recs & Hf).
  pose proof (submseteq_length _ _ (fl_sub _ _ _ _ _ _ _ Hf)) as Hl.
  unfold tracked in Hl. rewrite !length_app, !length_fmap, !length_app in Hl.
  pose proof (sublist_length _ _ (remaining_sub inp p resume Hrem)) as Hsl.
  rewrite (fl_reported _ _ _ _ _ _ _ Hf). destruct (hasCb (ps_cfg p)); [|split; constructor].
  destruct (snapshots_spec (progress (ps_state p)) coll) as [Hb Hss]; [rewrite Hcc; lia | rewrite Hcc; go_lia|].
  split; [done|]. eapply Forall_impl; [exact Hb|]. intros q [Hq Ht]. rewrite Ht, Htot. lia.
Qed.

Lemma EncodeAll_progress_reports_witness :
  StronglySorted (fun a b => ChunksComplete a < ChunksComplete b) (reported demo_final) /\
  Forall (fun q => ChunksComplete q <= ChunksTotal q /\
                   ChunksTotal q = Z.of_nat (length (in_chunks demo_in))) (reported demo_final).
Proof.
  apply (EncodeAll_progress_reports demo_in demo_start);
    [split; [exact demo_setup | exact demo_run] | vm_compute; discriminate].
Defined.

(** One chunk, one worker, the context already cancelled when the
    dispatcher first looks at it. *)
Definition cancel_in : EncodeAllIn :=
  mkEncodeAllIn [mkChunk 0 0 100] None true 1 4 0 0 8 16 1920 1080 (Some None) false true.

Definition cancel_start : PoolStart :=
  match EncodeAll_setup cancel_in with Ok (inr p) => p | _ => demo_start end.

(** C29: whenever the context is already cancelled when [EncodeAll]
    starts its goroutines, some interleaving makes [EncodeAll] return
    no error although chunks remain unencoded: the dispatcher sees
    [ctx.Done()] and returns, every worker returns on the closed, empty
    channel, no error is latched, [ChunksComplete] stays below
    [ChunksTotal] and nothing is appended to the done log. *)
Theorem EncodeAll_cancel_returns_nil `{ChunkEncoder} inp p :
  EncodeAll_setup inp = Ok (inr p) -> in_ctx inp = true ->
  exists s, EncodeAll_reaches inp p s /\ main s = MDone /\ ctx_done s = true /\
    pool_return (ps_actualWorkers p) s = (ps_actualWorkers p, None) /\
    ChunksComplete (progress s) < ChunksTotal (progress s) /\ doneFile s = in_doneFile inp.
Proof.
  intros Hs Hctx. pose proof (setup_remaining inp p Hs) as Hne.
  destruct (setup_start inp p Hs) as (_ & _ & _ & _ & _ & resume & _ & _ & Htot & Hcc & _ & _ & Hst).
  set (n := Z.to_nat (ps_actualWorkers p)).
  exists (mkPState true None (permits (ps_cfg p)) [] DExit (replicate n WExit) [] true false
            (progress (ps_state p)) (in_doneFile inp) [] MDone).
  split_and!; try done; [split; [exact Hs|] | cbn; rewrite Htot, Hcc; destruct (ps_remaining p); [done|]; cbn; lia].
  rewrite Hst, Hctx. destruct (ps_remaining p) as [|ch rest]; [done|].
  eapply rtc_l; [by eapply (d_cancel_top _ _ ch rest)|]. cbn.
  etrans; [apply (workers_exit _ _ _ _ _ _ _ _ _ _ _ n n); lia|].
  rewrite Nat.sub_diag, app_nil_r.
  eapply rtc_l; [apply m_close; [done | apply Forall_replicate; done]|]. cbn.
  eapply rtc_l; [by apply c_exit|]. cbn.
  eapply rtc_l; [by apply m_done|]. apply rtc_refl.
Qed.

Lemma EncodeAll_cancel_returns_nil_witness :
  EncodeAll_setup cancel_in = Ok (inr cancel_start) /\ in_ctx cancel_in = true /\
  exists s, EncodeAll_reaches cancel_in cancel_start s /\ main s = MDone /\ ctx_done s = true /\
    pool_return (ps_actualWorkers cancel_start) s = (ps_actualWorkers cancel_start, None) /\
    ChunksComplete (progress s) < ChunksTotal (progress s) /\ doneFile s = in_doneFile cancel_in.
Proof.
  assert (Hs : EncodeAll_setup cancel_in = Ok (inr cancel_start)) by (vm_compute; reflexivity).
  split_and!; [exact Hs | reflexivity |].
  exact (EncodeAll_cancel_returns_nil cancel_in cancel_start Hs eq_refl).
Defined.

End PoolProps.
