(* ===== verification/Crop.v ===== *)
(** * Crop detection: [internal/processing/crop.go], and [parseCropFilter]
    of [internal/processing/chunked.go]

    [DetectCrop] runs [sampleCropAtPosition] at 141 positions.  Each
    sample parses ffmpeg's cropdetect lines with the regular expression
    [crop=(\d+:\d+:\d+:\d+)], counts the valid rectangles in a Go map and
    keeps the most frequent one.  [DetectCrop] counts the samples'
    rectangles in another map and decides from the most common one and its
    share of the samples.

    A Go map's iteration order is unspecified and [sort.Slice] is not
    stable.  The model therefore takes the entries in some iteration order
    ([sample_pick], [DetectCrop_with]); the relations [sample_outcome] and
    [DetectCrop_outcome] admit every order.  The share test
    [float64(count)/float64(total) > 0.8] is computed in binary64 with
    [GoFloat]. *)

From Stdlib Require Import SpecFloat.
From S2P Require Import Prelude GoText Admission.
Import Admission.

Module Crop.

(** ** Data *)

(** [type CropResult struct { CropFilter string; Required, MultipleRatios
    bool; Message string }] *)
Record CropResult := mkCropResult {
  CropFilter : str; Required : bool; MultipleRatios : bool; Message : str }.

#[export] Instance CropResult_eq_dec : EqDecision CropResult.
Proof. solve_decision. Defined.

(** A [map[string]int] as its entries; the keys are distinct. *)
Abbreviation counts := (list (str * Z)).

Definition colon : ascii := ":".

(** ** The regular expression [crop=(\d+:\d+:\d+:\d+)] *)

(** [\d+], greedy. *)
Fixpoint take_digits (s : str) : str * str :=
  match s with
  | c :: s' => if is_digit c then let '(d, r) := take_digits s' in (c :: d, r) else ([], s)
  | [] => ([], [])
  end.

Definition match_num (s : str) : option (str * str) :=
  match take_digits s with
  | ([], _) => None
  | (d, r) => Some (d, r)
  end.

Definition expect_colon (s : str) : option str :=
  match s with
  | c :: r => if ascii_dec c colon then Some r else None
  | [] => None
  end.

(** The submatch [\d+:\d+:\d+:\d+] at the start of [s]. *)
Definition match_quad (s : str) : option str :=
  '(a, r) ← match_num s; r ← expect_colon r;
  '(b, r) ← match_num r; r ← expect_colon r;
  '(c, r) ← match_num r; r ← expect_colon r;
  '(d, _) ← match_num r;
  Some (a ++ colon :: b ++ colon :: c ++ colon :: d).

(** [cropRegex.FindStringSubmatch(line)[1]]: the leftmost match. *)
Fixpoint find_crop (line : str) : option str :=
  match line with
  | [] => None
  | _ :: t =>
      match strip_prefix s["crop="] line with
      | Some r => match match_quad r with Some m => Some m | None => find_crop t end
      | None => find_crop t
      end
  end.

(** ** [isValidCropFormat], [isEffectiveCrop], [GetOutputDimensions] *)

(** [func isValidCropFormat(crop string) bool] *)
Definition isValidCropFormat (crop : str) : bool :=
  let parts := split_on colon crop in
  (length parts =? 4)%nat && forallb (fun p => bool_decide (is_Some (parse_uint 32 p))) parts.

(** [func isEffectiveCrop(crop string, sourceWidth, sourceHeight uint32) bool] *)
Definition isEffectiveCrop (crop : str) (sourceWidth sourceHeight : Z) : bool :=
  match split_on colon crop with
  | p0 :: p1 :: _ =>
      match parse_uint 32 p0, parse_uint 32 p1 with
      | Some w, Some h => negb (w =? sourceWidth) || negb (h =? sourceHeight)
      | _, _ => true
      end
  | _ => true
  end.

(** [func GetOutputDimensions(originalWidth, originalHeight uint32,
    cropFilter string) (uint32, uint32)] *)
Definition GetOutputDimensions (originalWidth originalHeight : Z) (cropFilter : str) : Z * Z :=
  match cropFilter with
  | [] => (originalWidth, originalHeight)
  | _ =>
      match split_on colon (trim_prefix s["crop="] cropFilter) with
      | p0 :: p1 :: _ =>
          match parse_uint 32 p0, parse_uint 32 p1 with
          | Some w, Some h => (w, h)
          | _, _ => (originalWidth, originalHeight)
          end
      | _ => (originalWidth, originalHeight)
      end
  end.

(** [func parseCropFilter(filter string, srcWidth, srcHeight uint32)
    (cropH, cropV uint32)]: [fmt.Sscanf(filter, "crop=%d:%d:%d:%d", ...)]
    on filters of the form [DetectCrop] builds.  [Sscanf] also skips
    spaces before a number and accepts a sign; such filters are not
    produced and not modelled. *)
Definition parseCropFilter (filter : str) : Z * Z :=
  match strip_prefix s["crop="] filter with
  | Some r =>
      match match_quad r with
      | Some q =>
          match split_on colon q with
          | [w; h; x; y] =>
              match parse_uint 32 w, parse_uint 32 h, parse_uint 32 x, parse_uint 32 y with
              | Some _, Some _, Some x', Some y' => (x', y')
              | _, _, _, _ => (0, 0)
              end
          | _ => (0, 0)
          end
      | None => (0, 0)
      end
  | None => (0, 0)
  end.

(** ** [sampleCropAtPosition] *)

(** [cropCounts[crop]++] *)
Fixpoint incr (k : str) (m : counts) : counts :=
  match m with
  | [] => [(k, 1)]
  | (k', n) :: m' => if decide (k = k') then (k', n + 1) :: m' else (k', n) :: incr k m'
  end.

(** The scanner loop over ffmpeg's stderr lines. *)
Definition sample_counts (lines : list str) : counts :=
  fold_left (fun m line =>
               match find_crop line with
               | Some v => if isValidCropFormat v then incr v m else m
               | None => m
               end) lines [].

(** [for crop, count := range cropCounts { if count > bestCount ... }],
    for the entries in iteration order [it]. *)
Definition pick_step (b : str * Z) (e : str * Z) : str * Z :=
  let '(bestCrop, bestCount) := b in let '(crop, count) := e in
  if bestCount <? count then (crop, count) else (bestCrop, bestCount).

Definition sample_pick (it : counts) : str := fst (fold_left pick_step it ([], 0)).

(** [sampleCropAtPosition]: [""] when the pipe or the start fails or no
    line matches; otherwise the pick over some iteration order. *)
Inductive sample_outcome (pipe_ok start_ok : bool) (lines : list str) : str -> Prop :=
  | so_pipe : pipe_ok = false -> sample_outcome pipe_ok start_ok lines []
  | so_start : pipe_ok = true -> start_ok = false -> sample_outcome pipe_ok start_ok lines []
  | so_none : pipe_ok = true -> start_ok = true -> sample_counts lines = [] ->
      sample_outcome pipe_ok start_ok lines []
  | so_pick it : pipe_ok = true -> start_ok = true -> sample_counts lines <> [] ->
      it ≡ₚ sample_counts lines -> sample_outcome pipe_ok start_ok lines (sample_pick it).

(** ** [DetectCrop] *)

(** [threshold := 16], or 100 for HDR. *)
Definition threshold (isHDR : bool) : Z := if isHDR then 100 else 16.

(** [for i := 30; i <= 170; i++ { samplePoints = append(samplePoints,
    float64(i)/200.0) }] *)
Definition samplePoints : list spec_float :=
  map (fun i => GoFloat.div (GoFloat.of_Z (Z.of_nat i)) (GoFloat.of_Z 200)) (seq 30 141).

(** The Go constant [0.8]. *)
Definition lit_0_8 : spec_float := GoFloat.div (GoFloat.of_Z 8) (GoFloat.of_Z 10).

(** [ratio > 0.8] with [ratio := float64(count) / float64(total)]. *)
Definition dominant (count total : Z) : bool :=
  SFltb lit_0_8 (GoFloat.div (GoFloat.of_Z count) (GoFloat.of_Z total)).

(** The samples' rectangles counted in [cropCounts]; an empty result
    ([""]) is not counted. *)
Definition crop_counts (samples : list str) : counts :=
  fold_left (fun m c => match c with [] => m | _ => incr c m end) samples [].

Definition sampleMsg : str := s["Analyzed "] ++ format_Z 141 ++ s[" samples"].

Definition no_crop : CropResult := mkCropResult [] false false sampleMsg.

Definition crop_to (crop : str) (width height : Z) : CropResult :=
  if isEffectiveCrop crop width height
  then mkCropResult (s["crop="] ++ crop) true false s["Black bars detected"]
  else no_crop.

(** [DetectCrop] after [wg.Wait()], with the map's entries sorted by
    [sort.Slice] into [sorted]. *)
Definition DetectCrop_with (disableCrop : bool) (width height : Z) (sorted : counts) : CropResult :=
  if disableCrop then mkCropResult [] false false s["Skipped"] else
  match sorted with
  | [] => no_crop
  | [(crop, _)] => crop_to crop width height
  | (crop, n) :: _ =>
      if dominant n (sumZ snd sorted) then crop_to crop width height
      else mkCropResult [] false true s["Multiple aspect ratios detected"]
  end.

(** [sort.Slice(sorted, func(i, j) bool { return sorted[i].count >
    sorted[j].count })]: some order of the entries by non-increasing count. *)
Definition sorted_desc (sorted : counts) : Prop :=
  StronglySorted (fun a b => snd b <= snd a) sorted.

(** [DetectCrop] over every iteration order and every outcome of the
    unstable sort. *)
Inductive DetectCrop_outcome (disableCrop : bool) (width height : Z) (samples : list str)
  : CropResult -> Prop :=
  | dc_out sorted : sorted ≡ₚ crop_counts samples -> sorted_desc sorted ->
      DetectCrop_outcome disableCrop width height samples (DetectCrop_with disableCrop width height sorted).

(** The decision of spec section 4.4 on the multiset [cc] of the
    samples' rectangles, with the share compared exactly. *)
Definition spec_detect (width height : Z) (cc : counts) : CropResult :=
  match cc with
  | [] => no_crop
  | [(crop, _)] => crop_to crop width height
  | _ =>
      match List.find (fun e => 4 * sumZ snd cc <? 5 * snd e) cc with
      | Some (crop, _) => crop_to crop width height
      | None => mkCropResult [] false true s["Multiple aspect ratios detected"]
      end
  end.

(** ** The share test *)

(** Checked by evaluation for every total up to 141 and every count. *)
Lemma dominant_table :
  forallb (fun t => forallb (fun n => Bool.eqb (dominant (Z.of_nat n) (Z.of_nat t))
                                               (4 * Z.of_nat t <? 5 * Z.of_nat n))
                            (seq 0 (S t)))
          (seq 1 141) = true.
Proof. vm_compute. reflexivity. Qed.

(** ** Counting *)

(** A well-formed count map: distinct keys, positive counts. *)
Definition counts_wf (m : counts) : Prop := NoDup (fst <$> m) /\ Forall (fun e => 1 <= snd e) m.

Lemma incr_keys k m k' : k' ∈ fst <$> incr k m <-> k' = k \/ k' ∈ fst <$> m.
Proof.
  induction m as [|[k0 n] m IH]; cbn [incr]; [set_solver|].
  destruct (decide (k = k0)) as [->|Hne]; rewrite !fmap_cons; cbn [fst]; set_solver.
Qed.

Lemma incr_wf k m : counts_wf m -> counts_wf (incr k m).
Proof.
  induction m as [|[k0 n] m IH]; intros [Hn Hf]; cbn [incr].
  { split; repeat constructor; [set_solver | simpl; lia]. }
  rewrite fmap_cons in Hn. apply NoDup_cons in Hn as [Hk0 Hn].
  inversion Hf as [|? ? Hn0 Hf']; subst.
  destruct (decide (k = k0)) as [->|Hne].
  - split; [rewrite fmap_cons; by constructor | constructor; [simpl in *; lia | done]].
  - destruct (IH (conj Hn Hf')) as [Hn' Hf''].
    split; [rewrite fmap_cons; constructor; [rewrite incr_keys; set_solver | done] | by constructor].
Qed.

Lemma incr_sum k m : sumZ snd (incr k m) = sumZ snd m + 1.
Proof.
  induction m as [|[k0 n] m IH]; cbn [incr]; [done|].
  destruct (decide (k = k0)); rewrite !sumZ_cons; cbn [snd]; [lia | rewrite IH; lia].
Qed.

Lemma crop_counts_go samples m :
  counts_wf m ->
  counts_wf (fold_left (fun m c => match c with [] => m | _ => incr c m end) samples m) /\
  sumZ snd (fold_left (fun m c => match c with [] => m | _ => incr c m end) samples m)
    <= sumZ snd m + Z.of_nat (length samples).
Proof.
  revert m. induction samples as [|c samples IH]; intros m Hm; cbn [fold_left length]; [split; [done | lia]|].
  destruct c as [|a c].
  - destruct (IH m Hm) as [Hw Hs]. split; [done | lia].
  - destruct (IH (incr (a :: c) m) (incr_wf _ _ Hm)) as [Hw Hs]. rewrite incr_sum in Hs.
    split; [done | lia].
Qed.

Lemma crop_counts_wf samples :
  counts_wf (crop_counts samples) /\ sumZ snd (crop_counts samples) <= Z.of_nat (length samples).
Proof.
  destruct (crop_counts_go samples []) as [Hw Hs]; [split; constructor|].
  split; [done | unfold crop_counts; rewrite sumZ_nil in Hs; lia].
Qed.

(** The binary64 share test agrees with the exact one for every sample
    total the sampler can produce. *)
Lemma dominant_exact n t : 0 < t <= 141 -> 0 <= n <= t -> dominant n t = (4 * t <? 5 * n).
Proof.
  intros Ht Hn.
  pose proof (proj1 (forallb_forall _ _) dominant_table (Z.to_nat t) ltac:(apply in_seq; lia)) as Hd.
  pose proof (proj1 (forallb_forall _ _) Hd (Z.to_nat n) ltac:(apply in_seq; lia)) as Hd'.
  cbn beta in Hd'. rewrite !Z2Nat.id in Hd' by lia. apply Bool.eqb_prop, Hd'.
Qed.

Lemma sorted_head_max c n rest e : sorted_desc ((c, n) :: rest) -> e ∈ rest -> snd e <= n.
Proof.
  intros Hs He. apply StronglySorted_inv in Hs as [_ Hf].
  rewrite Forall_forall in Hf. by apply (Hf e).
Qed.

(** Two distinct entries of a map with non-negative counts. *)
Lemma two_entries_sum (m : counts) x y :
  NoDup m -> x ∈ m -> y ∈ m -> x <> y -> Forall (fun e => 0 <= snd e) m ->
  snd x + snd y <= sumZ snd m.
Proof.
  intros Hn Hx Hy Hxy Hf.
  apply elem_of_Permutation in Hx as [m1 Hm1].
  assert (Hy1 : y ∈ m1) by (rewrite Hm1 in Hy; apply elem_of_cons in Hy as [->|]; done).
  apply elem_of_Permutation in Hy1 as [m2 Hm2].
  rewrite (sumZ_Permutation _ _ _ Hm1), sumZ_cons, (sumZ_Permutation _ _ _ Hm2), sumZ_cons.
  assert (0 <= sumZ snd m2).
  { apply sumZ_nonneg. intros e He. rewrite Forall_forall in Hf. apply Hf.
    rewrite Hm1, Hm2. by do 2 apply elem_of_cons; right; right. }
  lia.
Qed.

Lemma counts_entries_nodup (m : counts) : counts_wf m -> NoDup m.
Proof. intros [Hn _]. by apply (NoDup_fmap_1 fst). Qed.

Lemma counts_wf_perm (m m' : counts) : m ≡ₚ m' -> counts_wf m' -> counts_wf m.
Proof.
  intros Hp [Hn Hf]. split; [by rewrite Hp | by rewrite Hp].
Qed.

Lemma head_le_sum (c : str) n (rest : counts) : Forall (fun e => 1 <= snd e) ((c, n) :: rest) ->
  n <= sumZ snd ((c, n) :: rest) /\ 0 < sumZ snd ((c, n) :: rest).
Proof.
  intros Hf. inversion Hf as [|? ? Hn Hr]; subst. rewrite sumZ_cons. cbn [snd] in *.
  assert (0 <= sumZ snd rest)
    by (apply sumZ_nonneg; intros e He; rewrite Forall_forall in Hr; specialize (Hr e He); lia).
  lia.
Qed.

(** ** Reading back a rectangle *)

(** The rectangle [w:h:x:y] as ffmpeg's cropdetect prints it. *)
Definition crop_string (w h x y : Z) : str :=
  format_Z w ++ colon :: format_Z h ++ colon :: format_Z x ++ colon :: format_Z y.

Lemma format_Z_digits z :
  0 <= z -> Forall (fun c => is_digit c = true /\ c <> colon) (format_Z z) /\ format_Z z <> [].
Proof.
  intros Hz. rewrite format_Z_nonneg by done. split; [|apply format_N_nonempty].
  apply format_N_forall. intros d Hd. destruct (digit_char_spec d Hd) as [Hdig _].
  split; [done|]. apply digit_char_not; [done|]. unfold colon. cbn. lia.
Qed.

Lemma take_digits_app d r :
  Forall (fun c => is_digit c = true) d ->
  match r with [] => True | c :: _ => is_digit c = false end ->
  take_digits (d ++ r) = (d, r).
Proof.
  induction d as [|c d IH]; intros Hd Hr; [destruct r as [|c r]; simpl; [done | by rewrite Hr]|].
  inversion Hd as [|? ? Hc Hd']; subst. simpl. rewrite Hc, IH; done.
Qed.

Lemma match_num_format z r :
  0 <= z -> match r with [] => True | c :: _ => is_digit c = false end ->
  match_num (format_Z z ++ r) = Some (format_Z z, r).
Proof.
  intros Hz Hr. destruct (format_Z_digits z Hz) as [Hd Hne]. unfold match_num.
  rewrite take_digits_app.
  - by destruct (format_Z z).
  - eapply Forall_impl; [exact Hd|]. naive_solver.
  - done.
Qed.

Lemma no_colon_format z : 0 <= z -> Forall (fun c => c <> colon) (format_Z z).
Proof. intros Hz. eapply Forall_impl; [exact (proj1 (format_Z_digits z Hz))|]. naive_solver. Qed.

Lemma match_quad_crop w h x y rest :
  0 <= w -> 0 <= h -> 0 <= x -> 0 <= y ->
  match rest with [] => True | c :: _ => is_digit c = false end ->
  match_quad (crop_string w h x y ++ rest) = Some (crop_string w h x y).
Proof.
  intros ? ? ? ? Hr. unfold match_quad, crop_string.
  do 3 (rewrite <- ?app_assoc; cbn [app];
        rewrite match_num_format by done; cbn [mbind option_bind expect_colon];
        destruct (ascii_dec colon colon) as [_|]; [|done]; cbn [mbind option_bind]).
  rewrite match_num_format by done. done.
Qed.

Lemma split_crop w h x y :
  0 <= w -> 0 <= h -> 0 <= x -> 0 <= y ->
  split_on colon (crop_string w h x y) = [format_Z w; format_Z h; format_Z x; format_Z y].
Proof.
  intros. unfold split_on, crop_string.
  rewrite !split_go_line by by apply no_colon_format.
  rewrite split_go_tail by by apply no_colon_format. done.
Qed.

(** ** Theorems *)

(** C14: whatever the map's iteration order and however [sort.Slice]
    breaks ties, [DetectCrop] decides as spec 4.4 says on the multiset of
    the samples' rectangles: no rectangle, no crop; one rectangle, crop to
    it unless it is the source size; otherwise crop to the rectangle whose
    share exceeds 80% (unless it is the source size), and report multiple
    aspect ratios when there is none. *)
Theorem DetectCrop_spec width height samples r :
  DetectCrop_outcome false width height samples r -> (length samples <= 141)%nat ->
  r = spec_detect width height (crop_counts samples).
Proof.
  intros [sorted Hp Hs] Hlen. destruct (crop_counts_wf samples) as [Hwf Hsum].
  set (cc := crop_counts samples) in *.
  pose proof (counts_wf_perm _ _ Hp Hwf) as Hwf'.
  destruct sorted as [|[c n] [|e rest]].
  - by rewrite (Permutation_nil Hp).
  - by rewrite (Permutation_length_1_inv Hp).
  - destruct cc as [|x1 [|x2 cc']] eqn:Ecc;
      [by apply Permutation_length in Hp | by apply Permutation_length in Hp|].
    rewrite <- Ecc in *. unfold DetectCrop_with, spec_detect. rewrite Ecc. fold cc.
    rewrite <- Ecc. rewrite (sumZ_Permutation _ _ _ Hp).
    destruct (head_le_sum c n (e :: rest) (proj2 Hwf')) as [Hnt Ht].
    rewrite (sumZ_Permutation _ _ _ Hp) in Hnt, Ht.
    apply Nat2Z.inj_le in Hlen.
    assert (Hn1 : 1 <= n) by (destruct Hwf' as [_ Hf]; by inversion Hf).
    rewrite dominant_exact by lia. destruct x1 as [? ?].
    assert (Hin : (c, n) ∈ cc) by (rewrite <- Hp; by left).
    pose proof (counts_entries_nodup _ Hwf) as Hnd.
    assert (Hnn : Forall (fun e => 0 <= snd e) cc)
      by (eapply Forall_impl; [exact (proj2 Hwf)|]; intros x Hx; cbn beta in Hx; lia).
    destruct (Z.ltb_spec (4 * sumZ snd cc) (5 * n)) as [Hd|Hd];
      destruct (List.find _ cc) as [[c' n']|] eqn:Ef.
    + apply find_some in Ef as [Hin' Hp']. apply Z.ltb_lt in Hp'. cbn [snd] in Hp'.
      destruct (decide ((c', n') = (c, n))) as [[= -> ->]|Hne]; [done|].
      pose proof (two_entries_sum cc _ _ Hnd Hin (proj2 (list_elem_of_In _ _) Hin') (not_eq_sym Hne) Hnn).
      cbn [snd] in *. lia.
    + pose proof (find_none _ _ Ef (c, n) (proj1 (list_elem_of_In _ _) Hin)) as Hf.
      apply Z.ltb_ge in Hf. cbn [snd] in Hf. lia.
    + apply find_some in Ef as [Hin' Hp']. apply Z.ltb_lt in Hp'. cbn [snd] in Hp'.
      assert (Hs' : (c', n') ∈ (c, n) :: e :: rest) by (rewrite Hp; by apply list_elem_of_In).
      apply elem_of_cons in Hs' as [[= -> ->]|Hs']; [lia|].
      pose proof (sorted_head_max c n (e :: rest) _ Hs Hs'). cbn [snd] in *. lia.
    + done.
Qed.

(** ** The sampler *)

Lemma pick_go (it : counts) bc bn :
  let r := fold_left pick_step it (bc, bn) in
  (r = (bc, bn) \/ r ∈ it) /\ bn <= snd r /\ Forall (fun e => snd e <= snd r) it.
Proof.
  revert bc bn. induction it as [|[c n] it IH]; intros bc bn; cbn [fold_left]; [split; [by left | done]|].
  cbn [pick_step]. destruct (bn <? n) eqn:Hlt; [apply Z.ltb_lt in Hlt | apply Z.ltb_ge in Hlt];
    [destruct (IH c n) as (Hin & Hle & Hf) | destruct (IH bc bn) as (Hin & Hle & Hf)];
    (split; [|split; [cbn in *; lia | constructor; [cbn in *; lia | done]]]);
    destruct Hin as [->|Hin]; rewrite ?elem_of_cons; auto.
Qed.

Lemma sample_pick_max (it : counts) :
  it <> [] -> Forall (fun e => 1 <= snd e) it ->
  exists n, (sample_pick it, n) ∈ it /\ Forall (fun e => snd e <= n) it.
Proof.
  intros Hne Hpos. unfold sample_pick.
  destruct (pick_go it [] 0) as (Hin & _ & Hf). destruct (fold_left pick_step it ([], 0)) as [c n] eqn:E.
  exists n. split; [|done]. destruct Hin as [Hin|Hin]; [|done].
  injection Hin as -> ->. destruct it as [|e it]; [done|].
  inversion Hf as [|? ? He _]; inversion Hpos as [|? ? He' _]; subst. cbn in *; lia.
Qed.

Definition keys_valid (m : counts) : Prop := Forall (fun e => isValidCropFormat (fst e) = true) m.

Lemma incr_valid k m : isValidCropFormat k = true -> keys_valid m -> keys_valid (incr k m).
Proof.
  intros Hk. induction m as [|[k0 n] m IH]; intros Hm; cbn [incr]; [by repeat constructor|].
  inversion Hm; subst. destruct (decide (k = k0)) as [->|]; constructor; auto. by apply IH.
Qed.

(** Every key of the scanner's map is a valid rectangle. *)
Lemma sample_counts_keys lines : counts_wf (sample_counts lines) /\ keys_valid (sample_counts lines).
Proof.
  unfold sample_counts. assert (H0 : counts_wf [] /\ keys_valid []) by (repeat split; constructor).
  revert H0. generalize (@nil (str * Z)) as m. induction lines as [|l lines IH]; intros m [Hw Hv]; [done|].
  cbn [fold_left]. apply IH. destruct (find_crop l) as [v|]; [|done].
  destruct (isValidCropFormat v) eqn:Hv'; [|done]. split; [by apply incr_wf | by apply incr_valid].
Qed.

Lemma isValidCropFormat_nonempty : isValidCropFormat [] = false.
Proof. reflexivity. Qed.


Lemma sample_pick_counts lines it :
  it ≡ₚ sample_counts lines -> sample_counts lines <> [] ->
  isValidCropFormat (sample_pick it) = true /\
  exists n, (sample_pick it, n) ∈ sample_counts lines /\ Forall (fun e => snd e <= n) (sample_counts lines).
Proof.
  intros Hp Hne. destruct (sample_counts_keys lines) as [[_ Hpos] Hv].
  destruct (sample_pick_max it) as (n & Hin & Hf).
  { intros ->. apply Hne, Permutation_nil, Hp. }
  { by rewrite Hp. }
  set (c := sample_pick it) in *. rewrite Hp in Hin, Hf. split; [|by exists n].
  by apply (proj1 (Forall_forall _ _) Hv (c, n)).
Qed.

(** C15: [sampleCropAtPosition] returns [""] exactly when the pipe or
    the start fails or no line of ffmpeg's output carries a valid
    rectangle; otherwise it returns a valid rectangle seen the most
    times among the lines, whichever order the map is iterated in. *)
Theorem sampleCropAtPosition_plurality pipe_ok start_ok lines r :
  sample_outcome pipe_ok start_ok lines r ->
  (r = [] <-> pipe_ok = false \/ start_ok = false \/ sample_counts lines = []) /\
  (r <> [] -> isValidCropFormat r = true /\
     exists n, (r, n) ∈ sample_counts lines /\ Forall (fun e => snd e <= n) (sample_counts lines)).
Proof.
  intros [Hp|Hp Hs|Hp Hs Hc|it Hp Hs Hne Hit]; try (split; [tauto | done]).
  destruct (sample_pick_counts lines it Hit Hne) as [Hv Hmax]. split; [|done].
  split; [intros E; by rewrite E in Hv | intros [|[|]]; congruence].
Qed.

Lemma find_crop_at r :
  find_crop (s["crop="] ++ r) =
  match match_quad r with Some m => Some m | None => find_crop (s["rop="] ++ r) end.
Proof. reflexivity. Qed.

Lemma parse_uint32_format z : 0 <= z <= uint32_max -> parse_uint 32 (format_Z z) = Some z.
Proof. unfold uint32_max. apply parse_uint_format_Z. Qed.

(** A rectangle [w:h:x:y] of 32-bit values, as ffmpeg prints it after
    [crop=] (followed by anything that does not extend the last number),
    is found by the crop regex, passes [isValidCropFormat], is effective
    exactly when its size differs from the source's, and the filter
    [DetectCrop] builds from it gives back [w] and [h] in
    [GetOutputDimensions] and [x] and [y] in [parseCropFilter]. *)
Theorem crop_filter_roundtrip w h x y rest W H :
  0 <= w <= uint32_max -> 0 <= h <= uint32_max -> 0 <= x <= uint32_max -> 0 <= y <= uint32_max ->
  match rest with [] => True | c :: _ => is_digit c = false end ->
  find_crop (s["crop="] ++ crop_string w h x y ++ rest) = Some (crop_string w h x y) /\
  isValidCropFormat (crop_string w h x y) = true /\
  isEffectiveCrop (crop_string w h x y) W H = negb (w =? W) || negb (h =? H) /\
  GetOutputDimensions W H (s["crop="] ++ crop_string w h x y) = (w, h) /\
  parseCropFilter (s["crop="] ++ crop_string w h x y) = (x, y).
Proof.
  intros Hw Hh Hx Hy Hr.
  assert (Hq : match_quad (crop_string w h x y) = Some (crop_string w h x y))
    by (rewrite <- (app_nil_r (crop_string _ _ _ _)) at 1; apply match_quad_crop; done || lia).
  pose proof (split_crop w h x y ltac:(lia) ltac:(lia) ltac:(lia) ltac:(lia)) as Hs.
  split; [rewrite find_crop_at, match_quad_crop; done || lia|].
  split; [unfold isValidCropFormat; rewrite Hs; cbn [length forallb];
          by rewrite !parse_uint32_format|].
  split; [unfold isEffectiveCrop; rewrite Hs; by rewrite !parse_uint32_format|].
  split.
  - unfold GetOutputDimensions. remember (s["crop="] ++ crop_string w h x y) as f eqn:Ef.
    destruct f as [|a f']; [discriminate Ef|]. rewrite Ef, trim_prefix_app, Hs.
    by rewrite !parse_uint32_format.
  - unfold parseCropFilter. rewrite strip_prefix_app, Hq, Hs. by rewrite !parse_uint32_format.
Qed.

(** Two lines of ffmpeg's cropdetect output with different rectangles. *)
Definition line_800 : str :=
  s["[Parsed_cropdetect_0 @ 0x1] x1:0 x2:1919 y1:140 y2:939 w:1920 h:800 x:0 y:140 pts:0 t:0.00 crop=1920:800:0:140"].
Definition line_816 : str :=
  s["[Parsed_cropdetect_0 @ 0x1] x1:0 x2:1919 y1:132 y2:947 w:1920 h:816 x:0 y:132 pts:0 t:0.00 crop=1920:816:0:132"].

(** When two rectangles are seen equally often, [sampleCropAtPosition]
    may return either: the result depends on Go's map iteration order. *)
Theorem sampleCropAtPosition_tie :
  sample_outcome true true [line_800; line_816] s["1920:800:0:140"] /\
  sample_outcome true true [line_800; line_816] s["1920:816:0:132"].
Proof.
  split.
  - replace s["1920:800:0:140"] with (sample_pick (sample_counts [line_800; line_816]))
      by (vm_compute; reflexivity).
    apply so_pick; [done | done | vm_compute; discriminate | done].
  - replace s["1920:816:0:132"] with (sample_pick (reverse (sample_counts [line_800; line_816])))
      by (vm_compute; reflexivity).
    apply so_pick; [done | done | vm_compute; discriminate | apply reverse_Permutation].
Qed.

Lemma sampleCropAtPosition_plurality_witness :
  sample_outcome true true [line_800; line_816; line_800] s["1920:800:0:140"] /\
  isValidCropFormat s["1920:800:0:140"] = true /\
  exists n, (s["1920:800:0:140"], n) ∈ sample_counts [line_800; line_816; line_800] /\
    Forall (fun e => snd e <= n) (sample_counts [line_800; line_816; line_800]).
Proof.
  assert (Ho : sample_outcome true true [line_800; line_816; line_800] s["1920:800:0:140"]).
  { replace s["1920:800:0:140"] with (sample_pick (sample_counts [line_800; line_816; line_800]))
      by (vm_compute; reflexivity).
    apply so_pick; [done | done | vm_compute; discriminate | done]. }
  split; [exact Ho|].
  apply (proj2 (sampleCropAtPosition_plurality true true _ _ Ho)). discriminate.
Defined.

Lemma crop_filter_roundtrip_witness :
  find_crop (s["crop="] ++ crop_string 1920 800 0 140 ++ s[" "]) = Some (crop_string 1920 800 0 140) /\
  isValidCropFormat (crop_string 1920 800 0 140) = true /\
  isEffectiveCrop (crop_string 1920 800 0 140) 1920 1080 = negb (1920 =? 1920) || negb (800 =? 1080) /\
  GetOutputDimensions 1920 1080 (s["crop="] ++ crop_string 1920 800 0 140) = (1920, 800) /\
  parseCropFilter (s["crop="] ++ crop_string 1920 800 0 140) = (0, 140).
Proof.
  apply crop_filter_roundtrip; unfold uint32_max; try lia. reflexivity.
Defined.

(** Ten samples of one rectangle and one of another. *)
Definition samples_10_1 : list str :=
  repeat s["1920:800:0:140"] 10 ++ [s["1920:816:0:132"]].

Lemma DetectCrop_spec_witness :
  DetectCrop_outcome false 1920 1080 samples_10_1
    (DetectCrop_with false 1920 1080 (crop_counts samples_10_1)) /\
  (length samples_10_1 <= 141)%nat /\
  DetectCrop_with false 1920 1080 (crop_counts samples_10_1) =
    spec_detect 1920 1080 (crop_counts samples_10_1).
Proof.
  assert (Ho : DetectCrop_outcome false 1920 1080 samples_10_1
                 (DetectCrop_with false 1920 1080 (crop_counts samples_10_1))).
  { assert (E : crop_counts samples_10_1 = [(s["1920:800:0:140"], 10); (s["1920:816:0:132"], 1)])
      by (vm_compute; reflexivity).
    rewrite E. constructor; [done|]. unfold sorted_desc. repeat constructor; cbn; lia. }
  split; [exact Ho|]. split; [vm_compute; lia|].
  apply (DetectCrop_spec _ _ _ _ Ho). vm_compute. lia.
Defined.

End Crop.
