(* ===== verification/Merge.v ===== *)
(** * The bitstream merger: [writeConcatFile], [MergeOutput], [MergeBatched]

    These functions are in package chunk, in the file shown in
    src/internal/encoder/encoder.go (second part).  The file system is a
    finite map from paths to contents.  A bitstream's content is the list
    of the chunk indices it carries, in order.  So ffmpeg's stream-copy
    concatenation ([-f concat -c copy]) is list concatenation.  A concat
    list ([file '...'] lines) is the list of paths it names.  The outcome
    of the external steps is an environment: [os.Create] of a concat list,
    [os.MkdirAll], an ffmpeg run (per output path) and [os.Rename].
    Besides that, ffmpeg fails when a listed input is missing.

    [merge_phase] is the merge step of [ProcessChunked] (chunked.go
    236-249).  It calls [MergeBatched] when there are more than 500 chunks
    and then [MergeOutput].  The theorems show that the merge puts the
    chunks in index order for every chunk count.  They also show that
    after a batched merge, no later merge of the same work directory can
    succeed. *)

From stdpp Require Import strings.
From S2P Require Import Prelude GoText Chunk.
Import Chunk.

Module Merge.

(** ** Data *)

Inductive FData :=
  | Bits (chunks : list Z)          (** a bitstream: the chunks it carries *)
  | Manifest (paths : list path)    (** a concat list *)
  | Audio (streams : list Z)        (** an Opus audio file: the source streams it carries *)
  | Muxed (video : list Z) (audio : list Z)   (** a final output file *)
  | Partial.                        (** what a failed ffmpeg run leaves behind *)

Abbreviation FS := (gmap path FData).

Inductive MergeErr :=
  | ErrFPSDen                 (** invalid video info: FPS denominator is 0 *)
  | ErrNoIVF                  (** no IVF files found *)
  | ErrConcatFile             (** writeConcatFile failed (MergeOutput) *)
  | ErrConcat                 (** ffmpeg concat failed *)
  | ErrTempDir                (** failed to create temp merge dir *)
  | ErrBatchConcatFile (batch : Z)   (** failed to create batch concat file *)
  | ErrBatchMerge (batch : Z)        (** batch merge failed *)
  | ErrFinalConcatFile        (** failed to create final concat file *)
  | ErrFinalMerge             (** final merge failed *)
  | ErrRename.                (** failed to rename merged file *)

Record MergeEnv := mkMergeEnv {
  create_ok : path -> bool;   (** [os.Create] of this concat list and its writes *)
  mkdir_ok : bool;            (** [os.MkdirAll(tempDir)] *)
  ffmpeg_ok : path -> bool;   (** the ffmpeg run writing this output *)
  rename_ok : bool            (** [os.Rename] *)
}.

Definition lift (o : option FS) (e : MergeErr) : result FS MergeErr :=
  match o with Some fs => Ok fs | None => Err e end.

(** ** Paths *)

Definition encodeDir (workDir : path) : path := workDir ++ [s["encode"]].
Definition tempDir (workDir : path) : path := workDir ++ [s["temp_merge"]].

(** [fmt.Sprintf("batch_%04d" + ext, batchNum)] *)
Definition batch_name (b : Z) (ext : str) : str := s["batch_"] ++ format_Z_pad4 b ++ ext.

(** ** Directory listing *)

(** Go's string order: byte-wise lexicographic. *)
Fixpoint str_ltb (a b : str) : bool :=
  match a, b with
  | [], [] => false
  | [], _ :: _ => true
  | _ :: _, [] => false
  | x :: a', y :: b' =>
      if (N_of_ascii x <? N_of_ascii y)%N then true
      else if ascii_dec x y then str_ltb a' b' else false
  end.

Definition str_le (a b : str) : Prop := str_ltb a b = true \/ a = b.

#[export] Instance str_le_dec : RelDecision str_le.
Proof. intros a b. unfold str_le. apply _. Defined.

(** [strings.HasSuffix] *)
Definition has_suffix (suf s : str) : bool := bool_decide (is_Some (strip_prefix (rev suf) (rev s))).

(** The name of [k] when [k] is an entry of directory [dir]. *)
Definition entry_name (dir k : path) : option str :=
  if bool_decide (take (length dir) k = dir) then
    match drop (length dir) k with [n] => Some n | _ => None end
  else None.

(** The names in [dir] matching [*.ivf], in the map's order. *)
Definition glob_names (dir : path) (fs : FS) : list str :=
  omap (fun kv => match entry_name dir kv.1 with
                  | Some n => if has_suffix s[".ivf"] n then Some n else None
                  | None => None
                  end) (map_to_list fs).

(** [filepath.Glob(filepath.Join(dir, "*.ivf"))]: the matches, sorted. *)
Definition glob_ivf (dir : path) (fs : FS) : list path :=
  (fun n => dir ++ [n]) <$> merge_sort str_le (glob_names dir fs).

(** [os.RemoveAll(dir)] *)
Definition remove_all (dir : path) (fs : FS) : FS :=
  filter (fun kv => ~ dir `prefix_of` kv.1) fs.

(** ** External steps *)

(** [func writeConcatFile(concatPath string, paths []string) error] *)
Definition writeConcatFile (env : MergeEnv) (concatPath : path) (paths : list path) (fs : FS)
  : option FS :=
  if create_ok env concatPath then Some (<[concatPath := Manifest paths]> fs) else None.

Definition read_bits (fs : FS) (p : path) : option (list Z) :=
  match fs !! p with Some (Bits b) => Some b | _ => None end.

(** [ffmpeg -f concat -safe 0 -i concatPath -c copy ... -y out] *)
Definition ffmpeg_concat (env : MergeEnv) (concatPath out : path) (fs : FS) : option FS :=
  if ffmpeg_ok env out then
    match fs !! concatPath with
    | Some (Manifest ps) =>
        match mapM (read_bits fs) ps with
        | Some bs => Some (<[out := Bits (mjoin bs)]> fs)
        | None => None
        end
    | _ => None
    end
  else None.

(** [os.Rename(from, to)] *)
Definition rename (env : MergeEnv) (from to : path) (fs : FS) : result FS MergeErr :=
  match fs !! from with
  | Some d => if rename_ok env then Ok (<[to := d]> (delete from fs)) else Err ErrRename
  | None => Err ErrRename
  end.

(** ** [MergeOutput] *)

(** [func MergeOutput(workDir, outputPath string, inf *ffms.VidInf,
    inputPath string) error].  The output is [workDir/video.mkv];
    [outputPath] and [inputPath] are not used. *)
Definition MergeOutput (env : MergeEnv) (workDir : path) (fpsDen : Z) (fs : FS)
  : result FS MergeErr :=
  if fpsDen =? 0 then Err ErrFPSDen else
  match glob_ivf (encodeDir workDir) fs with
  | [] => Err ErrNoIVF
  | ivfFiles =>
      let concatPath := workDir ++ [s["concat.txt"]] in
      let? fs1 := lift (writeConcatFile env concatPath ivfFiles fs) ErrConcatFile in
      let videoPath := workDir ++ [s["video.mkv"]] in
      let? fs2 := lift (ffmpeg_concat env concatPath videoPath fs1) ErrConcat in
      Ok (delete concatPath fs2)
  end.

(** ** [MergeBatched] *)

Definition batchSize : Z := 500.

(** [for start := 0; start < numChunks; start += batchSize { ... }];
    returns [batchNum] after the loop. *)
Fixpoint batch_loop (env : MergeEnv) (workDir : path) (numChunks : Z) (fuel : nat)
    (start batchNum : Z) (fs : FS) : result (Z * FS) MergeErr :=
  match fuel with
  | O => Ok (batchNum, fs)
  | S fuel' =>
      if start <? numChunks then
        let end_ := Z.min (start + batchSize) numChunks in
        let concatPath := tempDir workDir ++ [batch_name batchNum s[".txt"]] in
        let batchPaths := IVFPath workDir <$> seqZ start (end_ - start) in
        let? fs1 := lift (writeConcatFile env concatPath batchPaths fs) (ErrBatchConcatFile batchNum) in
        let batchOut := tempDir workDir ++ [batch_name batchNum s[".ivf"]] in
        let? fs2 := lift (ffmpeg_concat env concatPath batchOut fs1) (ErrBatchMerge batchNum) in
        batch_loop env workDir numChunks fuel' (start + batchSize) (batchNum + 1) (delete concatPath fs2)
      else Ok (batchNum, fs)
  end.

(** [func MergeBatched(workDir string, numChunks int) error].  The loop
    runs at most [numChunks] times, which is its fuel. *)
Definition MergeBatched (env : MergeEnv) (workDir : path) (numChunks : Z) (fs : FS)
  : result FS MergeErr :=
  if numChunks <=? batchSize then Ok fs else
  if negb (mkdir_ok env) then Err ErrTempDir else
  match batch_loop env workDir numChunks (Z.to_nat numChunks) 0 0 fs with
  | Err e => Err e
  | Ok (batchNum, fs1) =>
      let finalConcatPath := tempDir workDir ++ [s["final.txt"]] in
      let finalBatchPaths := (fun i => tempDir workDir ++ [batch_name i s[".ivf"]]) <$> seqZ 0 batchNum in
      let? fs2 := lift (writeConcatFile env finalConcatPath finalBatchPaths fs1) ErrFinalConcatFile in
      let finalOut := encodeDir workDir ++ [s["merged.ivf"]] in
      let? fs3 := lift (ffmpeg_concat env finalConcatPath finalOut fs2) ErrFinalMerge in
      let fs4 := foldl (fun fs i => delete (IVFPath workDir i) fs) fs3 (seqZ 0 numChunks) in
      let? fs5 := rename env finalOut (IVFPath workDir 0) fs4 in
      Ok (remove_all (tempDir workDir) fs5)
  end.

(** The merge step of [ProcessChunked]: [MergeBatched] when
    [len(chunks) > 500], then [MergeOutput]. *)
Definition merge_phase (env : MergeEnv) (workDir : path) (numChunks fpsDen : Z) (fs : FS)
  : result FS MergeErr :=
  let? fs1 := (if 500 <? numChunks then MergeBatched env workDir numChunks fs else Ok fs) in
  MergeOutput env workDir fpsDen fs1.

(** ** Go's string order *)

Lemma N_of_ascii_inj x y : N_of_ascii x = N_of_ascii y -> x = y.
Proof. intros E. rewrite <- (ascii_N_embedding x), <- (ascii_N_embedding y). by rewrite E. Qed.

Lemma str_ltb_irrefl a : str_ltb a a = false.
Proof.
  induction a as [|x a IH]; simpl; [done|]. rewrite N.ltb_irrefl. by destruct (ascii_dec x x).
Qed.

Ltac ltb_cases :=
  repeat match goal with
  | |- context [ascii_dec ?a ?a] => destruct (ascii_dec a a); [|done]
  | H : context [ascii_dec ?a ?a] |- _ => destruct (ascii_dec a a); [|done]
  | |- context [(?a <? ?b)%N] => destruct (N.ltb_spec a b)
  | H : context [(?a <? ?b)%N] |- _ => destruct (N.ltb_spec a b)
  | |- context [ascii_dec ?a ?b] => destruct (ascii_dec a b) as [<-|]
  | H : context [ascii_dec ?a ?b] |- _ => destruct (ascii_dec a b) as [<-|]
  end.

Lemma str_ltb_trans a b c : str_ltb a b = true -> str_ltb b c = true -> str_ltb a c = true.
Proof.
  revert b c; induction a as [|x a IH]; intros [|y b] [|z c]; simpl; try done.
  intros H1 H2. ltb_cases; try done; try lia; eauto.
Qed.

Lemma str_ltb_asym a b : str_ltb a b = true -> str_ltb b a = false.
Proof.
  revert b; induction a as [|x a IH]; intros [|y b]; simpl; try done.
  intros H. ltb_cases; try done; try lia; eauto.
Qed.

Lemma str_ltb_total a b : str_ltb a b = true \/ a = b \/ str_ltb b a = true.
Proof.
  revert b; induction a as [|x a IH]; intros [|y b]; simpl; auto.
  ltb_cases; auto; try lia.
  - destruct (IH b) as [|[->|]]; auto.
  - exfalso. apply n. apply N_of_ascii_inj. lia.
Qed.

#[export] Instance str_le_total : Total str_le.
Proof. intros a b. unfold str_le. destruct (str_ltb_total a b) as [|[|]]; auto. Qed.

#[export] Instance str_le_antisymm : AntiSymm eq str_le.
Proof.
  intros a b [H1|] [H2|]; auto. by rewrite (str_ltb_asym _ _ H1) in H2.
Qed.

#[export] Instance str_le_trans : Transitive str_le.
Proof.
  intros a b c [H1|<-] [H2|<-]; unfold str_le; auto. left. by eapply str_ltb_trans.
Qed.

(** [merge_sort] under Go's string order, as in the list libraries that
    canonicalise lists with it: a sorted list is its own sort, and the
    sort of a list depends only on its elements. *)
Lemma merge_sort_str_id l : StronglySorted str_le l -> merge_sort str_le l = l.
Proof.
  intros H. exact (StronglySorted_unique str_le _ _
    (StronglySorted_merge_sort str_le l) H (merge_sort_Permutation str_le l)).
Qed.

Lemma merge_sort_str_perm l1 l2 : l1 ≡ₚ l2 -> merge_sort str_le l1 = merge_sort str_le l2.
Proof.
  intros H. apply (StronglySorted_unique str_le _ _
    (StronglySorted_merge_sort str_le l1) (StronglySorted_merge_sort str_le l2)).
  rewrite (merge_sort_Permutation str_le l1), (merge_sort_Permutation str_le l2). done.
Qed.

(** ** Chunk file names sort in index order below 10000 *)

(** Checked for every index by evaluation. *)
Lemma ivf_order_table_ok :
  forallb (fun i => str_ltb (IVFName i) (IVFName (i + 1))) (seqZ 0 9999) = true.
Proof. vm_compute. reflexivity. Qed.

Lemma IVFName_lt_succ i : 0 <= i < 9999 -> str_ltb (IVFName i) (IVFName (i + 1)) = true.
Proof.
  intros Hi. assert (Hin : In i (seqZ 0 9999)) by (apply list_elem_of_In, elem_of_seqZ; lia).
  exact (proj1 (forallb_forall _ _) ivf_order_table_ok i Hin).
Qed.

Lemma IVFName_lt i j : 0 <= i -> i < j <= 9999 -> str_ltb (IVFName i) (IVFName j) = true.
Proof.
  intros Hi Hij. replace j with (i + Z.of_nat (S (Z.to_nat (j - i - 1)))) by lia.
  assert (Hb : i + Z.of_nat (S (Z.to_nat (j - i - 1))) <= 9999) by lia. clear Hij.
  induction (Z.to_nat (j - i - 1)) as [|k IH].
  - apply IVFName_lt_succ. lia.
  - eapply str_ltb_trans; [apply IH; lia|].
    replace (i + Z.of_nat (S (S k))) with (i + Z.of_nat (S k) + 1) by lia.
    apply IVFName_lt_succ. lia.
Qed.

Lemma IVFName_sorted a n : 0 <= a -> a + n <= 10000 -> StronglySorted str_le (IVFName <$> seqZ a n).
Proof.
  intros Ha Hn. destruct (Z.le_gt_cases n 0) as [Hle|Hgt]; [rewrite seqZ_nil by done; constructor|].
  replace n with (Z.of_nat (Z.to_nat n)) in * by lia. clear Hgt.
  revert a Ha Hn. induction (Z.to_nat n) as [|k IH]; intros a Ha Hn; [constructor|].
  rewrite seqZ_cons by lia. rewrite fmap_cons. constructor.
  - replace (Z.pred (Z.of_nat (S k))) with (Z.of_nat k) by lia. apply IH; lia.
  - apply Forall_forall. intros x Hx. apply list_elem_of_fmap in Hx as (j & -> & Hj).
    apply elem_of_seqZ in Hj. left. apply IVFName_lt; lia.
Qed.

Lemma IVFName_inj i j : 0 <= i -> 0 <= j -> IVFName i = IVFName j -> i = j.
Proof. unfold IVFName. intros Hi Hj E. apply app_inv_tail in E. by apply format_Z_pad4_inj. Qed.

(** ** The directory listing *)

Lemma entry_name_app dir n : entry_name dir (dir ++ [n]) = Some n.
Proof. unfold entry_name. rewrite take_app_length, drop_app_length. by rewrite bool_decide_true. Qed.

Lemma entry_name_Some dir k n : entry_name dir k = Some n -> k = dir ++ [n].
Proof.
  unfold entry_name. case_bool_decide as H; [|done].
  destruct (drop (length dir) k) as [|m [|]] eqn:E; try done.
  intros [= <-]. rewrite <- (take_drop (length dir) k), H, E. done.
Qed.

Lemma elem_of_glob_names dir fs n :
  n ∈ glob_names dir fs <-> has_suffix s[".ivf"] n = true /\ is_Some (fs !! (dir ++ [n])).
Proof.
  unfold glob_names. rewrite list_elem_of_omap. split.
  - intros [[k v] [Hk Hf]]. cbn [fst] in Hf. destruct (entry_name dir k) as [m|] eqn:E; [|done].
    destruct (has_suffix _ m) eqn:Hs; [|done]. injection Hf as ->.
    apply entry_name_Some in E as ->. apply elem_of_map_to_list in Hk. split; [done | by eexists].
  - intros [Hs [v Hv]]. exists (dir ++ [n], v). split; [by apply elem_of_map_to_list|].
    cbn [fst]. by rewrite entry_name_app, Hs.
Qed.

Lemma NoDup_glob_names dir fs : NoDup (glob_names dir fs).
Proof.
  apply NoDup_omap_key; [apply NoDup_fst_map_to_list|].
  intros [k v] [k' v'] n Hf Hf'. cbn [fst] in *.
  destruct (entry_name dir k) eqn:E; [|done]. destruct (entry_name dir k') eqn:E'; [|done].
  repeat case_match; simplify_eq.
  by rewrite (entry_name_Some _ _ _ E), (entry_name_Some _ _ _ E').
Qed.

(** The listing is the sorted list of the [*.ivf] entries. *)
Lemma glob_ivf_eq dir fs names :
  NoDup names -> StronglySorted str_le names ->
  (forall n, n ∈ names <-> has_suffix s[".ivf"] n = true /\ is_Some (fs !! (dir ++ [n]))) ->
  glob_ivf dir fs = (fun n => dir ++ [n]) <$> names.
Proof.
  intros Hnd Hs Hn. unfold glob_ivf. f_equal. rewrite <- (merge_sort_str_id names Hs).
  apply merge_sort_str_perm, NoDup_Permutation; [apply NoDup_glob_names | done |].
  intros n. rewrite elem_of_glob_names. symmetry. apply Hn.
Qed.

Lemma has_suffix_app suf p : has_suffix suf (p ++ suf) = true.
Proof. unfold has_suffix. rewrite rev_app_distr, strip_prefix_app. by apply bool_decide_eq_true_2. Qed.

Lemma has_suffix_IVFName i : has_suffix s[".ivf"] (IVFName i) = true.
Proof. apply has_suffix_app. Qed.

(** ** Paths that cannot meet *)

Definition batch_out (workDir : path) (j : Z) : path := tempDir workDir ++ [batch_name j s[".ivf"]].
Definition batch_txt (workDir : path) (j : Z) : path := tempDir workDir ++ [batch_name j s[".txt"]].

Lemma path_child_ne (w : path) a b l l' : a <> b -> w ++ a :: l <> w ++ b :: l'.
Proof. intros Hab E. apply app_inv_head in E. congruence. Qed.

Lemma temp_child w x : tempDir w ++ [x] = w ++ [s["temp_merge"]; x].
Proof. unfold tempDir. by rewrite <- app_assoc. Qed.

Lemma enc_child w x : encodeDir w ++ [x] = w ++ [s["encode"]; x].
Proof. unfold encodeDir. by rewrite <- app_assoc. Qed.

Lemma IVFPath_enc w i : IVFPath w i = encodeDir w ++ [IVFName i].
Proof. by rewrite enc_child. Qed.

Lemma IVFPath_temp_ne w i x : IVFPath w i <> tempDir w ++ [x].
Proof. rewrite temp_child. apply path_child_ne. discriminate. Qed.

Lemma root_child_ne (w : path) x y z : w ++ [x] <> w ++ [y; z].
Proof. intros E. apply (f_equal length) in E. rewrite !length_app in E. cbn in E. lia. Qed.

Lemma IVFPath_root_ne w i x : IVFPath w i <> w ++ [x].
Proof. intros E. by apply (root_child_ne w x s["encode"] (IVFName i)). Qed.

Lemma IVFPath_inj w i j : 0 <= i -> 0 <= j -> IVFPath w i = IVFPath w j -> i = j.
Proof. unfold IVFPath. intros Hi Hj E. apply app_inv_head in E. injection E. by apply IVFName_inj. Qed.

Lemma not_prefix_child (w : path) a b l : a <> b -> ~ (w ++ [a]) `prefix_of` (w ++ b :: l).
Proof. intros Hab [k E]. rewrite <- app_assoc in E. apply app_inv_head in E. cbn in E. congruence. Qed.

Lemma IVFPath_not_temp w i : ~ tempDir w `prefix_of` IVFPath w i.
Proof. apply not_prefix_child. discriminate. Qed.

Lemma enc_not_temp w x : ~ tempDir w `prefix_of` (encodeDir w ++ [x]).
Proof. rewrite enc_child. apply not_prefix_child. discriminate. Qed.

Lemma root_not_temp w x : x <> s["temp_merge"] -> ~ tempDir w `prefix_of` (w ++ [x]).
Proof. intros Hx. by apply not_prefix_child. Qed.

Lemma batch_name_inj j j' e : 0 <= j -> 0 <= j' -> batch_name j e = batch_name j' e -> j = j'.
Proof.
  unfold batch_name. intros Hj Hj' E. apply app_inv_head, app_inv_tail in E.
  by apply format_Z_pad4_inj.
Qed.

Lemma batch_out_inj w j j' : 0 <= j -> 0 <= j' -> batch_out w j = batch_out w j' -> j = j'.
Proof.
  unfold batch_out. intros Hj Hj' E. apply app_inv_head in E.
  apply (batch_name_inj j j' s[".ivf"]); [done | done | congruence].
Qed.

Lemma batch_txt_out_ne w j j' : batch_txt w j <> batch_out w j'.
Proof.
  unfold batch_txt, batch_out, batch_name. intros E. apply app_inv_head in E. injection E as E.
  apply (f_equal (@rev ascii)) in E. rewrite !rev_app_distr in E. discriminate E.
Qed.

Lemma batch_out_root_ne w j x : batch_out w j <> w ++ [x].
Proof. unfold batch_out. rewrite temp_child. intros E. symmetry in E. by apply root_child_ne in E. Qed.

Lemma batch_out_enc_ne w j x : batch_out w j <> encodeDir w ++ [x].
Proof. unfold batch_out. rewrite temp_child, enc_child. apply path_child_ne. discriminate. Qed.

Lemma batch_txt_enc_ne w j x : batch_txt w j <> encodeDir w ++ [x].
Proof. unfold batch_txt. rewrite temp_child, enc_child. apply path_child_ne. discriminate. Qed.

Lemma IVFName_not_merged i : IVFName i <> s["merged.ivf"].
Proof.
  intros E. assert (H : Forall (fun c => c <> "m"%char) (IVFName i)).
  { apply Forall_app. split; [|repeat constructor; discriminate].
    apply format_Z_pad4_forall; try discriminate.
    intros d Hd. apply digit_char_not; [done|]. cbn. lia. }
  rewrite E in H. apply Forall_inv in H. by apply H.
Qed.

Lemma IVFPath_merged_ne w i : IVFPath w i <> encodeDir w ++ [s["merged.ivf"]].
Proof. rewrite IVFPath_enc. intros E. apply app_inv_head in E. injection E. apply IVFName_not_merged. Qed.

Lemma remove_all_lookup (dir : path) (fs : FS) (p : path) : ~ dir `prefix_of` p -> remove_all dir fs !! p = fs !! p.
Proof.
  intros Hp. unfold remove_all. rewrite map_lookup_filter.
  destruct (fs !! p); cbn; [|done]. case_guard; [done|]. cbn in *. tauto.
Qed.

(** ** Successful merges *)

(** Every external step succeeds. *)
Definition env_ok (env : MergeEnv) : Prop :=
  (forall p, create_ok env p = true) /\ mkdir_ok env = true /\
  (forall p, ffmpeg_ok env p = true) /\ rename_ok env = true.

(** The encode directory holds chunk [i]'s bitstream at [IVFPath i]. *)
Definition chunk_files (w : path) (N : Z) (fs : FS) : Prop :=
  forall i, 0 <= i < N -> fs !! IVFPath w i = Some (Bits [i]).

(** ... and no other [*.ivf] file. *)
Definition ivf_only (w : path) (N : Z) (fs : FS) : Prop :=
  forall n, has_suffix s[".ivf"] n = true -> is_Some (fs !! (encodeDir w ++ [n])) ->
    exists i, 0 <= i < N /\ n = IVFName i.

(** The chunks batch [j] carries. *)
Definition batch_bits (N j : Z) : list Z :=
  seqZ (batchSize * j) (Z.min (batchSize * j + batchSize) N - batchSize * j).

Section Batched.
Context (env : MergeEnv) (w : path) (N : Z).
Hypothesis Henv : env_ok env.

Lemma read_chunks fs a n :
  chunk_files w N fs -> 0 <= a -> a + n <= N ->
  mapM (read_bits fs) (IVFPath w <$> seqZ a n) = Some ((fun i => [i]) <$> seqZ a n).
Proof.
  intros Hc Ha Hn. rewrite mapM_fmap_comp. apply mapM_fmap_Some_eq, Forall_forall.
  intros i Hi. apply elem_of_seqZ in Hi. unfold compose, read_bits. by rewrite Hc by lia.
Qed.

Lemma chunk_files_frame fs fs' :
  (forall i, fs' !! IVFPath w i = fs !! IVFPath w i) -> chunk_files w N fs -> chunk_files w N fs'.
Proof. intros Hf Hc i Hi. rewrite Hf. by apply Hc. Qed.

Lemma batch_join k :
  0 <= k -> batchSize * k < N ->
  batch_bits N k ++ seqZ (batchSize * (k + 1)) (N - batchSize * (k + 1)) =
  seqZ (batchSize * k) (N - batchSize * k).
Proof.
  intros Hk Hlt. unfold batch_bits, batchSize in *.
  destruct (Z.le_gt_cases N (500 * k + 500)) as [Hle|Hgt].
  - rewrite Z.min_r by lia. rewrite (seqZ_nil _ (N - 500 * (k + 1))) by lia. by rewrite app_nil_r.
  - rewrite Z.min_l by lia. replace (N - 500 * k) with ((500 * k + 500 - 500 * k) + (N - 500 * (k + 1))) by lia.
    rewrite seqZ_app by lia. do 2 f_equal; lia.
Qed.

Lemma batch_loop_spec fuel k fs :
  0 <= k -> chunk_files w N fs -> N <= batchSize * k + batchSize * Z.of_nat fuel ->
  exists K fs', batch_loop env w N fuel (batchSize * k) k fs = Ok (K, fs') /\ k <= K /\
    (forall j, k <= j < K -> fs' !! batch_out w j = Some (Bits (batch_bits N j))) /\
    mjoin (batch_bits N <$> seqZ k (K - k)) = seqZ (batchSize * k) (N - batchSize * k) /\
    (forall p, (forall j, k <= j -> p <> batch_out w j) -> (forall j, p <> batch_txt w j) ->
       fs' !! p = fs !! p).
Proof.
  destruct Henv as (Hcr & _ & Hff & _).
  revert k fs. induction fuel as [|f IH]; intros k fs Hk Hc Hb.
  - exists k, fs. rewrite Z.sub_diag, seqZ_nil, (seqZ_nil _ (N - _)) by lia.
    split; [done|]. split; [lia|]. split; [intros; lia|]. done.
  - cbn [batch_loop]. destruct (Z.ltb_spec (batchSize * k) N) as [Hlt|Hge].
    2: { exists k, fs. rewrite Z.sub_diag, seqZ_nil, (seqZ_nil _ (N - _)) by lia.
         split; [done|]. split; [lia|]. split; [intros; lia|]. done. }
    fold (batch_txt w k) (batch_out w k).
    unfold writeConcatFile. rewrite Hcr. cbn [lift result_bind].
    unfold ffmpeg_concat at 1. rewrite Hff, lookup_insert_eq.
    rewrite (mapM_ext_Forall _ (read_bits fs)).
    2: { apply Forall_forall. intros p Hp. apply list_elem_of_fmap in Hp as (i & -> & _).
         unfold read_bits. rewrite lookup_insert_ne; [done|]. intros E. symmetry in E.
         by eapply IVFPath_temp_ne. }
    rewrite read_chunks by (done || unfold batchSize in *; lia).
    cbn [lift result_bind]. rewrite mjoin_singletons.
    match goal with |- context [batch_loop _ _ _ _ _ _ ?x] => set (fs3 := x) end.
    assert (Hframe : forall p, p <> batch_txt w k -> p <> batch_out w k -> fs3 !! p = fs !! p).
    { intros p H1 H2. unfold fs3. rewrite lookup_delete_ne, !lookup_insert_ne; congruence. }
    replace (batchSize * k + batchSize) with (batchSize * (k + 1)) by (unfold batchSize; lia).
    destruct (IH (k + 1) fs3) as (K & fs' & Hrun & HK & Hout & Hjoin & Hfr).
    { lia. }
    { apply (chunk_files_frame fs); [|done]. intros i. apply Hframe.
      - intros E. by eapply IVFPath_temp_ne.
      - intros E. by eapply IVFPath_temp_ne. }
    { lia. }
    exists K, fs'. split; [exact Hrun|]. split; [lia|]. split; [|split].
    + intros j Hj. destruct (decide (j = k)) as [->|Hne]; [|apply Hout; lia].
      rewrite Hfr; [unfold fs3; rewrite lookup_delete_ne, lookup_insert_eq; [done|]; apply batch_txt_out_ne|..].
      * intros j' Hj' E. apply batch_out_inj in E; lia.
      * intros j' E. symmetry in E. by eapply batch_txt_out_ne.
    + rewrite (seqZ_cons k) by lia. rewrite fmap_cons.
      change (mjoin (batch_bits N k :: ?l)) with (batch_bits N k ++ mjoin l).
      replace (Z.succ k) with (k + 1) by lia. replace (Z.pred (K - k)) with (K - (k + 1)) by lia.
      rewrite Hjoin. by apply batch_join.
    + intros p Hp Ht. rewrite Hfr; [apply Hframe|..].
      * apply Ht.
      * apply Hp. lia.
      * intros j Hj. apply Hp. lia.
      * apply Ht.
Qed.

Lemma final_txt_ne j : batch_out w j <> tempDir w ++ [s["final.txt"]].
Proof. unfold batch_out. intros E. apply app_inv_head in E. discriminate E. Qed.

Lemma MergeBatched_spec fs :
  batchSize < N -> chunk_files w N fs ->
  exists fs', MergeBatched env w N fs = Ok fs' /\
    fs' !! IVFPath w 0 = Some (Bits (seqZ 0 N)) /\
    (forall i, 1 <= i < N -> fs' !! IVFPath w i = None) /\
    fs' !! (encodeDir w ++ [s["merged.ivf"]]) = None /\
    (forall p, ~ tempDir w `prefix_of` p -> p <> encodeDir w ++ [s["merged.ivf"]] ->
       (forall i, 0 <= i < N -> p <> IVFPath w i) -> fs' !! p = fs !! p).
Proof.
  intros HN Hc. pose proof Henv as (Hcr & Hmk & Hff & Hrn).
  destruct (batch_loop_spec (Z.to_nat N) 0 fs) as (K & fs1 & Hrun & HK & Hout & Hjoin & Hfr);
    [lia | done | unfold batchSize in *; lia |].
  change (batchSize * 0) with 0 in Hrun, Hjoin. rewrite !Z.sub_0_r in Hjoin.
  unfold MergeBatched. destruct (Z.leb_spec N batchSize); [lia|]. rewrite Hmk. cbn [negb].
  rewrite Hrun. cbv zeta.
  change ((fun i => tempDir w ++ [batch_name i s[".ivf"]]) <$> seqZ 0 K) with (batch_out w <$> seqZ 0 K).
  unfold writeConcatFile. rewrite Hcr. cbn [lift result_bind].
  unfold ffmpeg_concat at 1. rewrite Hff, lookup_insert_eq.
  rewrite (mapM_ext_Forall _ (read_bits fs1)).
  2: { apply Forall_forall. intros p Hp. apply list_elem_of_fmap in Hp as (j & -> & _).
       unfold read_bits. rewrite lookup_insert_ne; [done|]. intros E. symmetry in E.
       by eapply final_txt_ne. }
  rewrite mapM_fmap_comp, (mapM_fmap_Some_eq _ (batch_bits N)).
  2: { apply Forall_forall. intros j Hj. apply elem_of_seqZ in Hj. unfold compose, read_bits.
       rewrite Hout by lia. done. }
  cbn [lift result_bind]. rewrite Hjoin.
  set (merged := encodeDir w ++ [s["merged.ivf"]]).
  set (fs4 := foldl _ _ (seqZ 0 N)).
  assert (H4 : forall p, fs4 !! p =
            if decide (p ∈ IVFPath w <$> seqZ 0 N) then None
            else (<[merged := Bits (seqZ 0 N)]> (<[tempDir w ++ [s["final.txt"]] := Manifest (batch_out w <$> seqZ 0 K)]> fs1)) !! p)
    by (intros; apply lookup_foldl_delete).
  assert (Hm : merged ∉ IVFPath w <$> seqZ 0 N).
  { intros Hin. apply list_elem_of_fmap in Hin as (i & E & _). by eapply IVFPath_merged_ne. }
  unfold rename. rewrite H4, decide_False, lookup_insert_eq, Hrn by done.
  cbn [result_bind].
  eexists. split; [reflexivity|].
  assert (Hin : forall i, 0 <= i < N -> IVFPath w i ∈ IVFPath w <$> seqZ 0 N)
    by (intros i Hi; apply list_elem_of_fmap; exists i; split; [done|]; apply elem_of_seqZ; lia).
  split; [|split; [|split]].
  - rewrite remove_all_lookup by apply IVFPath_not_temp. by rewrite lookup_insert_eq.
  - intros i Hi. rewrite remove_all_lookup by apply IVFPath_not_temp.
    rewrite lookup_insert_ne by (intros E; apply IVFPath_inj in E; lia).
    rewrite lookup_delete_ne by (intros E; symmetry in E; by eapply IVFPath_merged_ne).
    rewrite H4, decide_True; [done|]. apply Hin. lia.
  - rewrite remove_all_lookup by apply enc_not_temp.
    rewrite lookup_insert_ne by apply IVFPath_merged_ne.
    by rewrite lookup_delete_eq.
  - intros p Hp Hpm Hpi. rewrite remove_all_lookup by done.
    rewrite lookup_insert_ne by (intros E; symmetry in E; revert E; apply Hpi; unfold batchSize in *; lia).
    rewrite lookup_delete_ne by congruence. rewrite H4, decide_False.
    2: { intros Hx. apply list_elem_of_fmap in Hx as (i & -> & Hi). apply elem_of_seqZ in Hi.
         by apply (Hpi i). }
    rewrite !lookup_insert_ne by (done || (intros E; subst p; apply Hp; by eexists)).
    apply Hfr; [|intros j E; subst p; apply Hp; by eexists].
    intros j _ E. subst p. apply Hp. by eexists.
Qed.

Lemma concat_enc_ne x : w ++ [s["concat.txt"]] <> encodeDir w ++ [x].
Proof. rewrite enc_child. apply root_child_ne. Qed.

Lemma MergeOutput_spec fs fpsDen names bs :
  fpsDen <> 0 -> names <> [] -> NoDup names -> StronglySorted str_le names ->
  (forall n, n ∈ names <-> has_suffix s[".ivf"] n = true /\ is_Some (fs !! (encodeDir w ++ [n]))) ->
  mapM (read_bits fs) ((fun n => encodeDir w ++ [n]) <$> names) = Some bs ->
  exists fs', MergeOutput env w fpsDen fs = Ok fs' /\
    fs' !! (w ++ [s["video.mkv"]]) = Some (Bits (mjoin bs)).
Proof.
  intros Hd Hne Hnd Hs Hn Hr. pose proof Henv as (Hcr & _ & Hff & _).
  unfold MergeOutput. destruct (Z.eqb_spec fpsDen 0); [done|].
  rewrite (glob_ivf_eq _ _ names Hnd Hs Hn).
  remember ((fun n => encodeDir w ++ [n]) <$> names) as L eqn:EL.
  destruct L as [|p0 L']; [destruct names; done|]. cbv beta iota. rewrite EL. rewrite EL in Hr.
  unfold writeConcatFile. rewrite Hcr. cbn [lift result_bind].
  unfold ffmpeg_concat. rewrite Hff, lookup_insert_eq.
  rewrite (mapM_ext_Forall _ (read_bits fs)).
  2: { apply Forall_forall. intros p Hp. apply list_elem_of_fmap in Hp as (m & -> & _).
       unfold read_bits. rewrite lookup_insert_ne; [done|]. apply concat_enc_ne. }
  rewrite Hr. cbn [lift result_bind]. eexists. split; [reflexivity|].
  rewrite lookup_delete_ne by (intros E; apply app_inv_head in E; discriminate E).
  by rewrite lookup_insert_eq.
Qed.

End Batched.

(** [MergeOutput] changes only [concat.txt] and [video.mkv]. *)
Lemma MergeOutput_frame env w d fs fs' p :
  MergeOutput env w d fs = Ok fs' -> p <> w ++ [s["concat.txt"]] -> p <> w ++ [s["video.mkv"]] ->
  fs' !! p = fs !! p.
Proof.
  unfold MergeOutput, lift, writeConcatFile, ffmpeg_concat. intros H Hc Hv.
  repeat (case_match; simplify_eq/=; try done).
  rewrite lookup_delete_ne, !lookup_insert_ne; congruence.
Qed.

(** After a batched merge the files of chunks [1..N-1] are gone, whatever
    the environment. *)
Lemma MergeBatched_drops_chunk env w N fs fs' i :
  batchSize < N -> MergeBatched env w N fs = Ok fs' -> 1 <= i < N -> fs' !! IVFPath w i = None.
Proof.
  intros HN H Hi. unfold MergeBatched in H.
  destruct (Z.leb_spec N batchSize); [lia|]. destruct (negb (mkdir_ok env)); [done|].
  destruct (batch_loop _ _ _ _ _ _ _) as [[K fs1]|e]; [|done]. cbv zeta in H.
  unfold lift in H. destruct (writeConcatFile _ _ _ _) as [fs2|]; [|done]. cbn [result_bind] in H.
  destruct (ffmpeg_concat _ _ _ _) as [fs3|]; [|done]. cbn [result_bind] in H.
  unfold rename in H. destruct (foldl _ _ _ !! _) as [d|]; [|done].
  destruct (rename_ok env); [|done]. cbn [result_bind] in H. injection H as <-.
  rewrite remove_all_lookup by apply IVFPath_not_temp.
  rewrite lookup_insert_ne by (intros E; apply IVFPath_inj in E; lia).
  rewrite lookup_delete_ne by (intros E; symmetry in E; by eapply IVFPath_merged_ne).
  rewrite lookup_foldl_delete, decide_True; [done|].
  apply list_elem_of_fmap. exists i. split; [done|]. apply elem_of_seqZ. lia.
Qed.


(** ** What a merge leaves outside the work directory

    Every file a merge writes, renames or removes is inside the work
    directory, whatever the external steps do. *)

Lemma under_ne (w x p : path) : ~ w `prefix_of` p -> w ++ x <> p.
Proof. intros Hp E. apply Hp. exists x. by rewrite E. Qed.

Ltac under_w Hp :=
  unfold tempDir, encodeDir, IVFPath, batch_out, batch_txt; rewrite <- ?app_assoc;
  apply (under_ne _ _ _ Hp).

Lemma writeConcatFile_frame env c ps fs fs' p :
  writeConcatFile env c ps fs = Some fs' -> c <> p -> fs' !! p = fs !! p.
Proof. unfold writeConcatFile. case_match; intros [= <-] Hc. by rewrite lookup_insert_ne. Qed.

Lemma ffmpeg_concat_frame env c out fs fs' p :
  ffmpeg_concat env c out fs = Some fs' -> out <> p -> fs' !! p = fs !! p.
Proof.
  unfold ffmpeg_concat. intros H Ho. repeat (case_match; simplify_eq/=; try done).
  by rewrite lookup_insert_ne.
Qed.

Lemma batch_loop_outside env w N fuel st b fs K fs' p :
  batch_loop env w N fuel st b fs = Ok (K, fs') -> ~ w `prefix_of` p -> fs' !! p = fs !! p.
Proof.
  intros H Hp. revert st b fs H. induction fuel as [|f IH]; intros st b fs H; cbn [batch_loop] in H.
  - by injection H as _ <-.
  - destruct (st <? N); [|by injection H as _ <-]. cbv zeta in H. unfold lift in H.
    destruct (writeConcatFile _ _ _ _) as [fs1|] eqn:E1; [|done]. cbn [result_bind] in H.
    destruct (ffmpeg_concat _ _ _ _) as [fs2|] eqn:E2; [|done]. cbn [result_bind] in H.
    rewrite (IH _ _ _ H), lookup_delete_ne by under_w Hp.
    rewrite (ffmpeg_concat_frame _ _ _ _ _ _ E2) by under_w Hp.
    by rewrite (writeConcatFile_frame _ _ _ _ _ _ E1) by under_w Hp.
Qed.

Lemma MergeBatched_outside env w N fs fs' p :
  MergeBatched env w N fs = Ok fs' -> ~ w `prefix_of` p -> fs' !! p = fs !! p.
Proof.
  intros H Hp. unfold MergeBatched in H.
  destruct (N <=? batchSize); [by injection H as <-|]. destruct (negb (mkdir_ok env)); [done|].
  destruct (batch_loop _ _ _ _ _ _ _) as [[K fs1]|e] eqn:EB; [|done]. cbv zeta in H.
  unfold lift in H. destruct (writeConcatFile _ _ _ _) as [fs2|] eqn:E2; [|done]. cbn [result_bind] in H.
  destruct (ffmpeg_concat _ _ _ _) as [fs3|] eqn:E3; [|done]. cbn [result_bind] in H.
  unfold rename in H. destruct (foldl _ _ _ !! _) as [d|]; [|done].
  destruct (rename_ok env); [|done]. cbn [result_bind] in H. injection H as <-.
  assert (Htmp : ~ tempDir w `prefix_of` p).
  { intros [k ->]. apply Hp. exists ([s["temp_merge"]] ++ k). unfold tempDir. by rewrite app_assoc. }
  rewrite remove_all_lookup by exact Htmp.
  rewrite lookup_insert_ne, lookup_delete_ne by under_w Hp.
  rewrite lookup_foldl_delete, decide_False.
  2: { intros Hin. apply list_elem_of_fmap in Hin as (i & -> & _). revert Hp. clear. intros Hp.
       by apply (under_ne w [s["encode"]; IVFName i] _ Hp). }
  rewrite (ffmpeg_concat_frame _ _ _ _ _ _ E3) by under_w Hp.
  rewrite (writeConcatFile_frame _ _ _ _ _ _ E2) by under_w Hp.
  exact (batch_loop_outside _ _ _ _ _ _ _ _ _ _ EB Hp).
Qed.

Lemma MergeOutput_outside env w d fs fs' p :
  MergeOutput env w d fs = Ok fs' -> ~ w `prefix_of` p -> fs' !! p = fs !! p.
Proof. intros H Hp. apply (MergeOutput_frame _ _ _ _ _ _ H); by apply not_eq_sym, under_ne. Qed.

(** ** An encode directory holding chunks [0..N-1] *)

Definition env_all : MergeEnv := mkMergeEnv (fun _ => true) true (fun _ => true) true.

Lemma env_all_ok : env_ok env_all.
Proof. by repeat split. Qed.

Definition chunks_fs (w : path) (N : Z) : FS :=
  list_to_map ((fun i => (IVFPath w i, Bits [i])) <$> seqZ 0 N).

Lemma chunks_fs_spec w N : chunk_files w N (chunks_fs w N) /\ ivf_only w N (chunks_fs w N).
Proof.
  assert (Hnd : NoDup ((fun i => (IVFPath w i, Bits [i])) <$> seqZ 0 N).*1).
  { rewrite <- list_fmap_compose. apply NoDup_fmap_2_strong; [|apply NoDup_seqZ].
    intros x y Hx Hy. apply elem_of_seqZ in Hx, Hy. apply IVFPath_inj; lia. }
  split.
  - intros i Hi. apply elem_of_list_to_map_1; [done|].
    apply list_elem_of_fmap. exists i. split; [done|]. apply elem_of_seqZ. lia.
  - intros n _ [v Hv]. apply elem_of_list_to_map_2, list_elem_of_fmap in Hv as (i & E & Hi).
    apply elem_of_seqZ in Hi. injection E as E _. rewrite IVFPath_enc in E.
    apply app_inv_head in E. injection E as ->. exists i. split; [lia | done].
Qed.

Definition work : path := [s["work"]].

(** ** Theorems *)

(** The merge step, when it succeeds: [video.mkv] carries the chunks in
    order, and only files of the encode and temporary directories,
    [concat.txt] and [video.mkv] change. *)
Definition merge_frame (w : path) (fs fs' : FS) : Prop :=
  forall p, ~ tempDir w `prefix_of` p -> p <> w ++ [s["concat.txt"]] -> p <> w ++ [s["video.mkv"]] ->
    (forall x, p <> encodeDir w ++ [x]) -> fs' !! p = fs !! p.

Lemma merge_phase_spec env w N fpsDen fs :
  env_ok env -> fpsDen <> 0 -> 1 <= N -> chunk_files w N fs -> ivf_only w N fs ->
  exists fs', merge_phase env w N fpsDen fs = Ok fs' /\
    fs' !! (w ++ [s["video.mkv"]]) = Some (Bits (seqZ 0 N)) /\ merge_frame w fs fs'.
Proof.
  intros Henv Hd HN Hc Ho. unfold merge_phase.
  destruct (Z.ltb_spec 500 N) as [Hgt|Hle].
  - destruct (MergeBatched_spec env w N Henv fs) as (fs1 & HB & H0 & Hdrop & Hmerged & Hfr);
      [unfold batchSize; lia | done |].
    rewrite HB. cbn [result_bind].
    destruct (MergeOutput_spec env w Henv fs1 fpsDen [IVFName 0] [seqZ 0 N]) as (fs' & Hm & Hv).
    + done.
    + done.
    + apply NoDup_singleton.
    + repeat constructor.
    + intros n. rewrite list_elem_of_singleton. split.
      * intros ->. split; [apply has_suffix_IVFName|]. rewrite <- IVFPath_enc, H0. by eexists.
      * intros [Hs Hsome]. destruct (decide (n = IVFName 0)) as [|Hn0]; [done|]. exfalso.
        destruct (decide (n = s["merged.ivf"])) as [->|Hnm]; [rewrite Hmerged in Hsome; by destruct Hsome|].
        destruct (decide (n ∈ IVFName <$> seqZ 0 N)) as [Hin|Hnin].
        -- apply list_elem_of_fmap in Hin as (i & -> & Hi). apply elem_of_seqZ in Hi.
           rewrite <- IVFPath_enc, Hdrop in Hsome; [by destruct Hsome|].
           split; [|lia]. destruct (decide (i = 0)); [congruence | lia].
        -- rewrite Hfr in Hsome.
           ++ destruct (Ho n Hs Hsome) as (i & Hi & ->). apply Hnin, list_elem_of_fmap.
              exists i. split; [done|]. apply elem_of_seqZ. lia.
           ++ apply enc_not_temp.
           ++ intros E. apply app_inv_head in E. congruence.
           ++ intros i Hi E. rewrite IVFPath_enc in E. apply app_inv_head in E. injection E as ->.
              apply Hnin, list_elem_of_fmap. exists i. split; [done|]. apply elem_of_seqZ. lia.
    + rewrite mapM_fmap_comp. apply (mapM_fmap_Some_eq _ (fun _ => seqZ 0 N)).
      constructor; [|constructor]. unfold compose, read_bits. by rewrite <- IVFPath_enc, H0.
    + exists fs'. split; [done|]. split.
      * rewrite Hv. change (mjoin [seqZ 0 N]) with (seqZ 0 N ++ []). by rewrite app_nil_r.
      * intros p Ht Hc' Hv' He. rewrite (MergeOutput_frame _ _ _ _ _ _ Hm) by done.
        apply Hfr; [done | apply He | intros i _; rewrite IVFPath_enc; apply He].
  - cbn [result_bind].
    destruct (MergeOutput_spec env w Henv fs fpsDen (IVFName <$> seqZ 0 N) ((fun i => [i]) <$> seqZ 0 N))
      as (fs' & Hm & Hv).
    + done.
    + rewrite seqZ_cons by lia. discriminate.
    + apply NoDup_fmap_2_strong; [|apply NoDup_seqZ].
      intros x y Hx Hy. apply elem_of_seqZ in Hx, Hy. apply IVFName_inj; lia.
    + apply IVFName_sorted; lia.
    + intros n. split.
      * intros Hn. apply list_elem_of_fmap in Hn as (i & -> & Hi). apply elem_of_seqZ in Hi.
        split; [apply has_suffix_IVFName|]. rewrite <- IVFPath_enc, Hc by lia. by eexists.
      * intros [Hs Hsome]. destruct (Ho n Hs Hsome) as (i & Hi & ->).
        apply list_elem_of_fmap. exists i. split; [done|]. apply elem_of_seqZ. lia.
    + rewrite <- list_fmap_compose, mapM_fmap_comp. apply mapM_fmap_Some_eq, Forall_forall.
      intros i Hi. apply elem_of_seqZ in Hi. unfold compose, read_bits.
      rewrite <- IVFPath_enc, Hc by lia. done.
    + exists fs'. split; [done|]. split; [by rewrite Hv, mjoin_singletons|].
      intros p _ Hc' Hv' _. exact (MergeOutput_frame _ _ _ _ _ _ Hm Hc' Hv').
Qed.

(** C16: The merge step of [ProcessChunked] concatenates the chunks in
    index order for every chunk count: when the encode directory holds
    exactly the bitstreams of chunks [0..N-1] and every external step
    succeeds, [video.mkv] carries chunks [0, 1, ..., N-1].  Below 501
    chunks this rests on [filepath.Glob]'s lexicographic order agreeing
    with the index order of the [%04d.ivf] names; above, on the batches. *)
Theorem merge_phase_in_order env w N fpsDen fs :
  env_ok env -> fpsDen <> 0 -> 1 <= N -> chunk_files w N fs -> ivf_only w N fs ->
  exists fs', merge_phase env w N fpsDen fs = Ok fs' /\
    fs' !! (w ++ [s["video.mkv"]]) = Some (Bits (seqZ 0 N)).
Proof.
  intros Henv Hd HN Hc Ho.
  destruct (merge_phase_spec env w N fpsDen fs Henv Hd HN Hc Ho) as (fs' & Hm & Hv & _).
  by exists fs'.
Qed.

(** C17: After a merge of more than 500 chunks has succeeded, no later
    merge of the same work directory can succeed, whatever the external
    steps do: [MergeBatched] has deleted the files of chunks [1..N-1] and
    runs again, because the chunk count has not changed. *)
Theorem merge_retry_after_batched env env' w N fpsDen fs fs' :
  batchSize < N -> merge_phase env w N fpsDen fs = Ok fs' ->
  is_ok (merge_phase env' w N fpsDen fs') = false.
Proof.
  intros HN H. unfold batchSize in HN. unfold merge_phase in H |- *.
  destruct (Z.ltb_spec 500 N); [|lia].
  destruct (MergeBatched env w N fs) as [fs1|] eqn:HB; [|done]. cbn [result_bind] in H.
  assert (H1 : fs' !! IVFPath w 1 = None).
  { rewrite (MergeOutput_frame _ _ _ _ _ _ H) by apply IVFPath_root_ne.
    apply (MergeBatched_drops_chunk env w N fs fs1 1); [unfold batchSize; lia | exact HB | lia]. }
  unfold MergeBatched. destruct (Z.leb_spec N batchSize); [unfold batchSize in *; lia|].
  destruct (negb (mkdir_ok env')); [done|].
  replace (Z.to_nat N) with (S (Z.to_nat N - 1)) by lia. cbn [batch_loop].
  destruct (Z.ltb_spec 0 N); [|lia]. cbv zeta. unfold writeConcatFile, lift.
  destruct (create_ok env' _); [|done]. cbn [result_bind].
  unfold ffmpeg_concat. destruct (ffmpeg_ok env' _); [|done]. rewrite lookup_insert_eq.
  rewrite (mapM_None_elem _ _ (IVFPath w 1)); [done| |].
  - apply list_elem_of_fmap. exists 1. split; [done|]. apply elem_of_seqZ. unfold batchSize. lia.
  - unfold read_bits. rewrite lookup_insert_ne, H1; [done|]. intros E. symmetry in E.
    by eapply IVFPath_temp_ne.
Qed.

(** Go's string order on the chunk file names [%04d.ivf] is the
    order of the chunk indices for every index below 10000, which is what
    [MergeOutput]'s sorted [filepath.Glob] relies on.  (At 10000 it
    breaks: [10000.ivf] sorts before [9999.ivf].) *)
Theorem IVFName_order i j :
  0 <= i <= 9999 -> 0 <= j <= 9999 -> str_ltb (IVFName i) (IVFName j) = (i <? j).
Proof.
  intros Hi Hj. destruct (Z.lt_trichotomy i j) as [Hlt|[->|Hgt]].
  - rewrite IVFName_lt by lia. symmetry. by apply Z.ltb_lt.
  - rewrite str_ltb_irrefl. symmetry. apply Z.ltb_irrefl.
  - rewrite str_ltb_asym by (apply IVFName_lt; lia). symmetry. apply Z.ltb_ge. lia.
Qed.

Lemma IVFName_order_breaks : str_ltb (IVFName 10000) (IVFName 9999) = true.
Proof. vm_compute. reflexivity. Qed.

Lemma merge_phase_in_order_witness :
  exists fs', merge_phase env_all work 2 1 (chunks_fs work 2) = Ok fs' /\
    fs' !! (work ++ [s["video.mkv"]]) = Some (Bits (seqZ 0 2)).
Proof.
  destruct (chunks_fs_spec work 2) as [Hc Ho].
  apply merge_phase_in_order; [apply env_all_ok | lia | lia | exact Hc | exact Ho].
Defined.

Lemma merge_501_ok : is_ok (merge_phase env_all work 501 1 (chunks_fs work 501)) = true.
Proof. vm_compute. reflexivity. Qed.

Lemma merge_retry_after_batched_witness :
  exists fs', merge_phase env_all work 501 1 (chunks_fs work 501) = Ok fs' /\
    is_ok (merge_phase env_all work 501 1 fs') = false.
Proof.
  destruct (merge_phase env_all work 501 1 (chunks_fs work 501)) as [fs'|e] eqn:E.
  - exists fs'. split; [reflexivity|].
    apply (merge_retry_after_batched env_all env_all work 501 1 (chunks_fs work 501) fs');
      [unfold batchSize; lia | exact E].
  - pose proof merge_501_ok as H. rewrite E in H. discriminate H.
Defined.

End Merge.
