(* ===== verification/Validation.v ===== *)
(** * The post-encode validator: package validation (src/unnamed/part_000)

    [ValidateOutputVideo] probes the encoded file and runs the codec, bit
    depth, dimension, duration, HDR, audio and sync checks.  The probes
    (ffprobe and mediainfo on the output file) are external processes.
    Their outcomes form a [ProbeEnv] record; a probe called twice on the
    same file gives the same answer.  Durations are [float64] values,
    computed in binary64 with [SpecFloat].  The messages use [%.1f]
    formatting of floats, which is a parameter [fmt1] of the section;
    integers are formatted exactly.  The overall verdict
    [Result.IsValid] is not under src/ and is modelled from spec 4.9
    as the conjunction of the checks.

    The theorems characterise the verdict: it is the conjunction of the
    applicable checks of spec 4.9.  An HDR check without an expectation,
    or without the mediainfo tool, never fails.  They also characterise
    the error returns, and show two behaviours the spec does not
    describe: an audio probe failure passes the audio checks, and a
    mediainfo failure on the output file fails an HDR expectation. *)

From Stdlib Require Import SpecFloat.
From S2P Require Import Prelude GoText Admission.

Module Validation.

(** ** Data *)

(** The fields of [ffprobe.VideoProperties] the validator reads. *)
Record VideoProps := mkVideoProps {
  Width : Z;
  Height : Z;
  DurationSecs : spec_float;
  PropsBitDepth : option Z     (** [HDRInfo.BitDepth] *)
}.

(** [mediainfo.DetectHDR] on the output. *)
Record HDRInfo := mkHDRInfo { IsHDR : bool; MIBitDepth : option Z }.

Record ProbeEnv := mkProbeEnv {
  outputProps : option VideoProps;       (** [ffprobe.GetVideoProperties(outputPath)] *)
  mediaInfoWidth : option Z;             (** [ffprobe.GetMediaInfo(outputPath)]: [probe.Width] *)
  videoCodec : option str;               (** [ffprobe.GetVideoCodecName(outputPath)] *)
  mediainfoAvailable : bool;             (** [mediainfo.IsAvailable()] *)
  mediainfoInfo : option HDRInfo;        (** [mediainfo.GetMediaInfo] then [DetectHDR] *)
  audioStreams : option (list str)       (** [ffprobe.GetAudioStreamInfo]: the codec names *)
}.

(** [type Options struct] *)
Record Options := mkOptions {
  ExpectedDimensions : option (Z * Z);
  ExpectedDuration : option spec_float;
  ExpectedHDR : option bool;
  ExpectedAudioTracks : option Z;
  ExpectedAudioChannels : list Z
}.

(** The fields of [Result] that [ValidateOutputVideo] sets.  The fields
    named like those of [Options] carry an [R]. *)
Record Result := mkResult {
  IsAV1 : bool; CodecName : str;
  Is10Bit : bool; BitDepth : option Z; PixelFormat : str;
  IsCropCorrect : bool; CropMessage : str;
  ActualDimensions : option (Z * Z); RExpectedDimensions : option (Z * Z);
  IsDurationCorrect : bool; DurationMessage : str;
  ActualDuration : option spec_float; RExpectedDuration : option spec_float;
  IsHDRCorrect : bool; ActualHDR : option bool; RExpectedHDR : option bool; HDRMessage : str;
  IsAudioOpus : bool; IsAudioTrackCountCorrect : bool; AudioCodecs : list str; AudioMessage : str;
  IsSyncPreserved : bool; SyncDriftMs : option spec_float; SyncMessage : str
}.

Inductive ValErr :=
  | ErrOutputProps    (** failed to get output video properties *)
  | ErrMediaInfo.     (** failed to get media info *)

(** [type HDRValidationResult struct] *)
Record HDRValidationResult := mkHDRValidationResult {
  IsValid : bool; HActualHDR : option bool; Message : str; MediaInfoUsed : bool
}.

(** ** The checks *)

Definition durationToleranceSecs : spec_float := GoFloat.of_Z 1.
Definition maxSyncDriftMs : spec_float := GoFloat.of_Z 100.

Section Checks.
(** [fmt]'s [%.1f] *)
Variable fmt1 : spec_float -> str.

(** [func validateVideoCodec(outputPath string) (bool, string)] *)
Definition validateVideoCodec (env : ProbeEnv) : bool * str :=
  match mediaInfoWidth env with
  | None => (false, [])
  | Some probeWidth =>
      let codecName :=
        if 0 <? probeWidth then match videoCodec env with Some c => c | None => [] end else [] in
      (contains s["av1"] (to_lower codecName) || contains s["av01"] (to_lower codecName), codecName)
  end.

(** [func validateBitDepth(outputPath string) (bool, *uint8, string)] *)
Definition validateBitDepth (env : ProbeEnv) : bool * option Z * str :=
  let fallback :=
    match outputProps env with
    | None => (false, None, [])
    | Some props =>
        match PropsBitDepth props with
        | Some d => (10 <=? d, Some d, [])
        | None => (true, Some 10, s["yuv420p10le"])
        end
    end in
  match mediainfoInfo env with
  | Some hdr => match MIBitDepth hdr with Some d => (10 <=? d, Some d, []) | None => fallback end
  | None => fallback
  end.

(** [func validateDimensions(actualW, actualH, expectedW, expectedH uint32) (bool, string)] *)
Definition validateDimensions (actualW actualH expectedW expectedH : Z) : bool * str :=
  if (actualW =? expectedW) && (actualH =? expectedH)
  then (true, s["Dimensions match: "] ++ format_Z actualW ++ s["x"] ++ format_Z actualH)
  else (false, s["Dimension mismatch: got "] ++ format_Z actualW ++ s["x"] ++ format_Z actualH ++
               s[", expected "] ++ format_Z expectedW ++ s["x"] ++ format_Z expectedH).

(** [func validateDuration(actual, expected float64) (bool, string)] *)
Definition validateDuration (actual expected : spec_float) : bool * str :=
  let diff := GoFloat.abs (GoFloat.sub actual expected) in
  if GoFloat.leb diff durationToleranceSecs
  then (true, s["Duration matches input ("] ++ fmt1 actual ++ s["s)"])
  else (false, s["Duration mismatch: got "] ++ fmt1 actual ++ s["s, expected "] ++ fmt1 expected ++
               s["s (diff: "] ++ fmt1 diff ++ s["s)"]).

(** [func validateAudio(streams, expectedTracks *int) (bool, bool, []string, string)] *)
Definition validateAudio (streams : list str) (expectedTracks : option Z)
  : bool * bool * list str * str :=
  let codecs := to_lower <$> streams in
  let isOpus := forallb (fun codec => bool_decide (codec = s["opus"])) codecs in
  let trackCountCorrect :=
    match expectedTracks with Some n => Z.of_nat (length streams) =? n | None => true end in
  let message :=
    match codecs with
    | [] => s["No audio tracks"]
    | [c0] => if isOpus then s["Audio track is Opus"]
              else s["Audio track is "] ++ c0 ++ s[" (expected Opus)"]
    | _ => if isOpus then format_Z (Z.of_nat (length streams)) ++ s[" audio tracks, all Opus"]
           else format_Z (Z.of_nat (length streams)) ++ s[" audio tracks: "] ++ join s[", "] codecs
    end in
  (isOpus, trackCountCorrect, codecs, message).

(** [func validateSync(outputDuration, inputDuration float64) (bool, *float64, string)] *)
Definition validateSync (outputDuration inputDuration : spec_float) : bool * spec_float * str :=
  let driftMs := GoFloat.mul (GoFloat.abs (GoFloat.sub outputDuration inputDuration)) (GoFloat.of_Z 1000) in
  let preserved := GoFloat.leb driftMs maxSyncDriftMs in
  let message :=
    if preserved then s["Audio/video sync preserved (drift: "] ++ fmt1 driftMs ++ s["ms)"]
    else s["Audio/video sync drift too large: "] ++ fmt1 driftMs ++ s["ms (max: "] ++
         fmt1 maxSyncDriftMs ++ s["ms)"] in
  (preserved, driftMs, message).

End Checks.

(** ** HDR *)

Definition hdr_str (b : bool) : str := if b then s["HDR"] else s["SDR"].

(** [func validateHDRResult(expectedHDR, actualHDR *bool) HDRValidationResult] *)
Definition validateHDRResult (expectedHDR actualHDR : option bool) : HDRValidationResult :=
  match expectedHDR, actualHDR with
  | Some e, Some a =>
      if Bool.eqb e a then mkHDRValidationResult true (Some a) (hdr_str a ++ s[" preserved"]) true
      else mkHDRValidationResult false (Some a)
             (s["Expected "] ++ hdr_str e ++ s[", found "] ++ hdr_str a) true
  | None, Some a => mkHDRValidationResult true (Some a) (s["Output is "] ++ hdr_str a) true
  | Some e, None =>
      mkHDRValidationResult false None
        (s["Expected "] ++ hdr_str e ++ s[", but could not detect HDR status"]) true
  | None, None => mkHDRValidationResult false None s["Could not detect HDR status"] true
  end.

(** [func validateHDRStatusWithAvailabilityCheck(outputPath string,
    expectedHDR *bool, mediainfoAvailable bool) HDRValidationResult] *)
Definition validateHDRStatusWithAvailabilityCheck (env : ProbeEnv) (expectedHDR : option bool)
    (available : bool) : HDRValidationResult :=
  if negb available
  then mkHDRValidationResult true None s["MediaInfo not installed - HDR validation skipped"] false
  else validateHDRResult expectedHDR (IsHDR <$> mediainfoInfo env).

(** [func ValidateHDRStatusWithPath(outputPath string, expectedHDR *bool)] *)
Definition ValidateHDRStatusWithPath (env : ProbeEnv) (expectedHDR : option bool) : HDRValidationResult :=
  validateHDRStatusWithAvailabilityCheck env expectedHDR (mediainfoAvailable env).

(** ** [ValidateOutputVideo] *)

Section Validate.
Variable fmt1 : spec_float -> str.

(** [func ValidateOutputVideo(inputPath, outputPath string, opts Options)
    (Result pointer, error)].  A successful [ffprobe.GetMediaInfo] returns a
    non-nil value, so the sync check runs whenever a duration is
    expected. *)
Definition ValidateOutputVideo (env : ProbeEnv) (opts : Options) : result Result ValErr :=
  match outputProps env with
  | None => Err ErrOutputProps
  | Some props =>
  match mediaInfoWidth env with
  | None => Err ErrMediaInfo
  | Some _ =>
      let '(isAV1, codecName) := validateVideoCodec env in
      let '(is10Bit, bitDepth, pixelFormat) := validateBitDepth env in
      let '(actualDims, expDims, cropOk, cropMsg) :=
        match ExpectedDimensions opts with
        | Some (ew, eh) =>
            let '(ok, msg) := validateDimensions (Width props) (Height props) ew eh in
            (Some (Width props, Height props), Some (ew, eh), ok, msg)
        | None => (None, None, true, s["No crop validation required"])
        end in
      let '(actualDur, expDur, durOk, durMsg) :=
        match ExpectedDuration opts with
        | Some e =>
            let '(ok, msg) := validateDuration fmt1 (DurationSecs props) e in
            (Some (DurationSecs props), Some e, ok, msg)
        | None => (None, None, true, s["Duration validation skipped"])
        end in
      let '(hdrOk, actualHDR, expHDR, hdrMsg) :=
        match ExpectedHDR opts with
        | Some e =>
            let h := ValidateHDRStatusWithPath env (Some e) in
            (IsValid h, HActualHDR h, Some e, Message h)
        | None =>
            let h := ValidateHDRStatusWithPath env None in
            (true, HActualHDR h, None, Message h)
        end in
      let '(isOpus, countOk, codecs, audioMsg) :=
        match audioStreams env with
        | None => (true, true, [], s["Failed to get audio info"])
        | Some streams => validateAudio streams (ExpectedAudioTracks opts)
        end in
      let '(syncOk, drift, syncMsg) :=
        match ExpectedDuration opts with
        | Some e => let '(p, d, m) := validateSync fmt1 (DurationSecs props) e in (p, Some d, m)
        | None => (true, None, s["Sync validation skipped"])
        end in
      Ok (mkResult isAV1 codecName is10Bit bitDepth pixelFormat cropOk cropMsg actualDims expDims
                   durOk durMsg actualDur expDur hdrOk actualHDR expHDR hdrMsg
                   isOpus countOk codecs audioMsg syncOk drift syncMsg)
  end
  end.

End Validate.

(** [Result.IsValid]: every check passes (spec 4.9). *)
Definition ResultIsValid (r : Result) : bool :=
  IsAV1 r && Is10Bit r && IsCropCorrect r && IsDurationCorrect r && IsHDRCorrect r &&
  IsAudioOpus r && IsAudioTrackCountCorrect r && IsSyncPreserved r.

(** ** The fields of a validation result *)

Lemma ValidateOutputVideo_fields fmt1 env opts props w :
  outputProps env = Some props -> mediaInfoWidth env = Some w ->
  exists r, ValidateOutputVideo fmt1 env opts = Ok r /\
    IsAV1 r = (validateVideoCodec env).1 /\
    Is10Bit r = (validateBitDepth env).1.1 /\
    IsCropCorrect r = match ExpectedDimensions opts with
                      | Some (ew, eh) => (validateDimensions (Width props) (Height props) ew eh).1
                      | None => true end /\
    IsDurationCorrect r = match ExpectedDuration opts with
                          | Some e => (validateDuration fmt1 (DurationSecs props) e).1
                          | None => true end /\
    IsHDRCorrect r = match ExpectedHDR opts with
                     | Some e => IsValid (ValidateHDRStatusWithPath env (Some e))
                     | None => true end /\
    IsAudioOpus r = match audioStreams env with
                    | Some st => (validateAudio st (ExpectedAudioTracks opts)).1.1.1
                    | None => true end /\
    IsAudioTrackCountCorrect r = match audioStreams env with
                    | Some st => (validateAudio st (ExpectedAudioTracks opts)).1.1.2
                    | None => true end /\
    IsSyncPreserved r = match ExpectedDuration opts with
                        | Some e => (validateSync fmt1 (DurationSecs props) e).1.1
                        | None => true end.
Proof.
  intros Hp Hm. unfold ValidateOutputVideo. rewrite Hp, Hm.
  destruct (validateVideoCodec env) as [a c].
  destruct (validateBitDepth env) as [[b d] f].
  destruct (ExpectedDimensions opts) as [[ew eh]|];
    try destruct (validateDimensions _ _ ew eh) as [x y];
  destruct (ExpectedDuration opts) as [e|];
    try (destruct (validateDuration fmt1 _ e) as [x' y']; destruct (validateSync fmt1 _ e) as [[p q] t]);
  destruct (ExpectedHDR opts) as [h|];
  destruct (audioStreams env) as [st|];
    try destruct (validateAudio st _) as [[[u v] l] m];
  eexists; (split; [reflexivity|]); cbn; repeat split.
Qed.

(** ** Each check *)

Lemma validateVideoCodec_ok env :
  (validateVideoCodec env).1 = true <->
  exists w c, mediaInfoWidth env = Some w /\ 0 < w /\ videoCodec env = Some c /\
    (contains s["av1"] (to_lower c) = true \/ contains s["av01"] (to_lower c) = true).
Proof.
  unfold validateVideoCodec. destruct (mediaInfoWidth env) as [w|]; [|split; [done|naive_solver]].
  cbn [fst]. destruct (Z.ltb_spec 0 w); [destruct (videoCodec env) as [c|]|].
  - rewrite orb_true_iff. naive_solver.
  - split; [done|]. intros (? & ? & ? & ? & ? & _); congruence.
  - split; [done|]. intros (? & ? & ? & ? & _); simplify_eq; lia.
Qed.

(** The bit depth the validator reads: mediainfo's, else ffprobe's. *)
Definition known_bit_depth (env : ProbeEnv) (props : VideoProps) : option Z :=
  match mediainfoInfo env with
  | Some hdr => match MIBitDepth hdr with Some d => Some d | None => PropsBitDepth props end
  | None => PropsBitDepth props
  end.

Lemma validateBitDepth_ok env props :
  outputProps env = Some props ->
  (validateBitDepth env).1.1 = true <->
  match known_bit_depth env props with Some d => 10 <= d | None => True end.
Proof.
  intros Hp. unfold validateBitDepth, known_bit_depth. rewrite Hp.
  repeat case_match; cbn; rewrite ?Z.leb_le; done.
Qed.

Lemma validateDimensions_ok aw ah ew eh :
  (validateDimensions aw ah ew eh).1 = true <-> aw = ew /\ ah = eh.
Proof.
  unfold validateDimensions. destruct (Z.eqb_spec aw ew), (Z.eqb_spec ah eh); cbn; naive_solver.
Qed.

Lemma validateDuration_ok fmt1 a e :
  (validateDuration fmt1 a e).1 = GoFloat.leb (GoFloat.abs (GoFloat.sub a e)) durationToleranceSecs.
Proof. unfold validateDuration. by destruct (GoFloat.leb _ _). Qed.

Lemma validateSync_ok fmt1 a e :
  (validateSync fmt1 a e).1.1 =
  GoFloat.leb (GoFloat.mul (GoFloat.abs (GoFloat.sub a e)) (GoFloat.of_Z 1000)) maxSyncDriftMs.
Proof. done. Qed.

Lemma validateHDR_ok env e :
  IsValid (ValidateHDRStatusWithPath env (Some e)) = true <->
  mediainfoAvailable env = false \/ IsHDR <$> mediainfoInfo env = Some e.
Proof.
  unfold ValidateHDRStatusWithPath, validateHDRStatusWithAvailabilityCheck.
  destruct (mediainfoAvailable env); cbn; [|naive_solver].
  destruct (mediainfoInfo env) as [[a ?]|]; cbn; [|naive_solver].
  destruct e, a; cbn; naive_solver.
Qed.

Lemma validateAudio_opus st t :
  (validateAudio st t).1.1.1 = true <-> Forall (fun c => to_lower c = s["opus"]) st.
Proof.
  unfold validateAudio. cbn. rewrite forallb_forall, Forall_forall.
  split; intros H x Hx.
  - apply (bool_decide_eq_true_1 (to_lower x = s["opus"])), H, list_elem_of_In.
    by apply list_elem_of_fmap_2.
  - apply list_elem_of_In, list_elem_of_fmap in Hx as (y & -> & Hy). apply bool_decide_eq_true_2, H, Hy.
Qed.

Lemma validateAudio_count st t :
  (validateAudio st t).1.1.2 = true <-> (forall n, t = Some n -> Z.of_nat (length st) = n).
Proof.
  unfold validateAudio. cbn. destruct t as [n|]; [rewrite Z.eqb_eq|]; naive_solver.
Qed.

(** ** Each check of [ValidateOutputVideo] as a condition *)

Lemma crop_field_ok (o : option (Z * Z)) props :
  match o with Some (ew, eh) => (validateDimensions (Width props) (Height props) ew eh).1 | None => true end = true <->
  (forall ew eh, o = Some (ew, eh) -> Width props = ew /\ Height props = eh).
Proof. destruct o as [[ew eh]|]; [rewrite validateDimensions_ok|]; naive_solver. Qed.

Lemma duration_fields_ok fmt1 (o : option spec_float) d :
  (match o with Some e => (validateDuration fmt1 d e).1 | None => true end = true /\
   match o with Some e => (validateSync fmt1 d e).1.1 | None => true end = true) <->
  (forall e, o = Some e ->
     GoFloat.leb (GoFloat.abs (GoFloat.sub d e)) durationToleranceSecs = true /\
     GoFloat.leb (GoFloat.mul (GoFloat.abs (GoFloat.sub d e)) (GoFloat.of_Z 1000)) maxSyncDriftMs = true).
Proof. destruct o as [e|]; [rewrite validateDuration_ok, validateSync_ok|]; naive_solver. Qed.

Lemma hdr_field_ok env (o : option bool) :
  match o with Some e => IsValid (ValidateHDRStatusWithPath env (Some e)) | None => true end = true <->
  (forall e, o = Some e -> mediainfoAvailable env = false \/ IsHDR <$> mediainfoInfo env = Some e).
Proof. destruct o as [e|]; [rewrite validateHDR_ok|]; naive_solver. Qed.

Lemma audio_fields_ok (o : option (list str)) t :
  (match o with Some st => (validateAudio st t).1.1.1 | None => true end = true /\
   match o with Some st => (validateAudio st t).1.1.2 | None => true end = true) <->
  (forall st, o = Some st ->
     Forall (fun c => to_lower c = s["opus"]) st /\ (forall n, t = Some n -> Z.of_nat (length st) = n)).
Proof. destruct o as [st|]; [rewrite validateAudio_opus, validateAudio_count|]; naive_solver. Qed.

Lemma ValidateOutputVideo_Ok_inv fmt1 env opts r :
  ValidateOutputVideo fmt1 env opts = Ok r ->
  exists props w, outputProps env = Some props /\ mediaInfoWidth env = Some w.
Proof.
  unfold ValidateOutputVideo. destruct (outputProps env) as [props|]; [|done].
  destruct (mediaInfoWidth env) as [w|]; [|done]. by exists props, w.
Qed.

(** ** Theorems *)

(** C24: The validator's verdict is the conjunction of the applicable
    checks of spec 4.9 (spec 8, property 7): the codec name contains
    [av1] or [av01], the known bit depth is at least 10 (unknown passes),
    the dimensions equal the expected ones, the duration is within 1 s
    and the drift within 100 ms in binary64 arithmetic, the HDR status
    matches an expectation unless mediainfo is not installed, and every
    audio track is Opus with the expected count when the audio probe
    answers. *)
Theorem ValidateOutputVideo_verdict fmt1 env opts r :
  ValidateOutputVideo fmt1 env opts = Ok r ->
  exists props, outputProps env = Some props /\
  (ResultIsValid r = true <->
    (exists w c, mediaInfoWidth env = Some w /\ 0 < w /\ videoCodec env = Some c /\
       (contains s["av1"] (to_lower c) = true \/ contains s["av01"] (to_lower c) = true)) /\
    match known_bit_depth env props with Some d => 10 <= d | None => True end /\
    (forall ew eh, ExpectedDimensions opts = Some (ew, eh) -> Width props = ew /\ Height props = eh) /\
    (forall e, ExpectedDuration opts = Some e ->
       GoFloat.leb (GoFloat.abs (GoFloat.sub (DurationSecs props) e)) durationToleranceSecs = true /\
       GoFloat.leb (GoFloat.mul (GoFloat.abs (GoFloat.sub (DurationSecs props) e)) (GoFloat.of_Z 1000))
         maxSyncDriftMs = true) /\
    (forall e, ExpectedHDR opts = Some e ->
       mediainfoAvailable env = false \/ IsHDR <$> mediainfoInfo env = Some e) /\
    (forall st, audioStreams env = Some st ->
       Forall (fun c => to_lower c = s["opus"]) st /\
       (forall n, ExpectedAudioTracks opts = Some n -> Z.of_nat (length st) = n))).
Proof.
  intros H. destruct (ValidateOutputVideo_Ok_inv _ _ _ _ H) as (props & w & Hp & Hm).
  destruct (ValidateOutputVideo_fields fmt1 env opts props w Hp Hm)
    as (r' & H' & Ha & Hb & Hc & Hd & He & Hf & Hg & Hh).
  rewrite H in H'. injection H' as <-. exists props. split; [done|].
  unfold ResultIsValid. rewrite Ha, Hb, Hc, Hd, He, Hf, Hg, Hh, !andb_true_iff.
  rewrite validateVideoCodec_ok, (validateBitDepth_ok _ _ Hp), crop_field_ok, hdr_field_ok.
  rewrite <- (duration_fields_ok fmt1), <- audio_fields_ok. tauto.
Qed.

(** An HDR check that is skipped, because no HDR status is expected
    or because mediainfo is not installed, always passes, so it never
    flips the verdict (spec 8, property 7). *)
Theorem ValidateOutputVideo_hdr_skip fmt1 env opts r :
  ValidateOutputVideo fmt1 env opts = Ok r ->
  ExpectedHDR opts = None \/ mediainfoAvailable env = false -> IsHDRCorrect r = true.
Proof.
  intros H Hs. destruct (ValidateOutputVideo_Ok_inv _ _ _ _ H) as (props & w & Hp & Hm).
  destruct (ValidateOutputVideo_fields fmt1 env opts props w Hp Hm) as (r' & H' & _ & _ & _ & _ & He & _).
  rewrite H in H'. injection H' as <-. rewrite He.
  destruct (ExpectedHDR opts) as [e|]; [|done]. apply validateHDR_ok. naive_solver.
Qed.

(** [ValidateOutputVideo] fails exactly when ffprobe cannot read the
    output's properties (checked first) or its media info; otherwise it
    returns a result. *)
Theorem ValidateOutputVideo_errors fmt1 env opts :
  (outputProps env = None -> ValidateOutputVideo fmt1 env opts = Err ErrOutputProps) /\
  (is_Some (outputProps env) -> mediaInfoWidth env = None ->
     ValidateOutputVideo fmt1 env opts = Err ErrMediaInfo) /\
  (is_Some (outputProps env) -> is_Some (mediaInfoWidth env) ->
     is_ok (ValidateOutputVideo fmt1 env opts) = true).
Proof.
  split; [|split].
  - intros Hp. unfold ValidateOutputVideo. by rewrite Hp.
  - intros [p Hp] Hm. unfold ValidateOutputVideo. by rewrite Hp, Hm.
  - intros [p Hp] [w Hm]. destruct (ValidateOutputVideo_fields fmt1 env opts p w Hp Hm) as (r & -> & _).
    done.
Qed.

(** C39: When ffprobe cannot list the output's audio streams, the audio
    codec and track-count checks both pass, even when a track count is
    expected. *)
Theorem ValidateOutputVideo_audio_probe_failure fmt1 env opts r :
  ValidateOutputVideo fmt1 env opts = Ok r -> audioStreams env = None ->
  IsAudioOpus r = true /\ IsAudioTrackCountCorrect r = true.
Proof.
  intros H Ha. destruct (ValidateOutputVideo_Ok_inv _ _ _ _ H) as (props & w & Hp & Hm).
  destruct (ValidateOutputVideo_fields fmt1 env opts props w Hp Hm)
    as (r' & H' & _ & _ & _ & _ & _ & Hf & Hg & _).
  rewrite H in H'. injection H' as <-. by rewrite Hf, Hg, Ha.
Qed.

(** ** A concrete validation *)

Definition fmt0 (_ : spec_float) : str := [].

Definition env0 : ProbeEnv :=
  mkProbeEnv (Some (mkVideoProps 1920 800 (GoFloat.of_Z 30) (Some 10))) (Some 1920) (Some s["av1"])
             true (Some (mkHDRInfo false (Some 10))) (Some [s["opus"]]).

Definition opts0 : Options :=
  mkOptions (Some (1920, 800)) (Some (GoFloat.of_Z 30)) (Some false) (Some 1) [2].

Lemma env0_ok : is_ok (ValidateOutputVideo fmt0 env0 opts0) = true.
Proof. vm_compute. reflexivity. Qed.

Lemma ValidateOutputVideo_verdict_witness :
  exists r, ValidateOutputVideo fmt0 env0 opts0 = Ok r /\ ResultIsValid r = true.
Proof.
  destruct (ValidateOutputVideo fmt0 env0 opts0) as [r|e] eqn:E.
  - exists r. split; [done|].
    destruct (ValidateOutputVideo_verdict _ _ _ _ E) as (props & Hp & Hiff).
    injection Hp as <-. apply Hiff. cbn. split; [|split; [lia|]].
    + exists 1920, s["av1"]. split; [done|]. split; [lia|]. split; [done|]. left. reflexivity.
    + split; [intros ew eh [= <- <-]; done|]. split; [intros e [= <-]; split; vm_compute; reflexivity|].
      split; [intros e [= <-]; right; done|]. intros st [= <-]. split; [repeat constructor|].
      intros n [= <-]. done.
  - pose proof env0_ok as H. rewrite E in H. discriminate H.
Defined.

Lemma ValidateOutputVideo_hdr_skip_witness :
  exists r, ValidateOutputVideo fmt0 env0 (mkOptions None None None None []) = Ok r /\
    IsHDRCorrect r = true.
Proof.
  destruct (ValidateOutputVideo fmt0 env0 (mkOptions None None None None [])) as [r|e] eqn:E.
  - exists r. split; [done|]. apply (ValidateOutputVideo_hdr_skip _ _ _ _ E). by left.
  - discriminate E.
Defined.

Lemma ValidateOutputVideo_errors_witness :
  ValidateOutputVideo fmt0 (mkProbeEnv None None None true None None) opts0 = Err ErrOutputProps.
Proof. by apply ValidateOutputVideo_errors. Defined.

Definition env_noaudio : ProbeEnv :=
  mkProbeEnv (outputProps env0) (Some 1920) (Some s["av1"]) true (mediainfoInfo env0) None.

Lemma ValidateOutputVideo_audio_probe_failure_witness :
  exists r, ValidateOutputVideo fmt0 env_noaudio opts0 = Ok r /\
    IsAudioOpus r = true /\ IsAudioTrackCountCorrect r = true.
Proof.
  destruct (ValidateOutputVideo fmt0 env_noaudio opts0) as [r|e] eqn:E; [|discriminate E].
  exists r. split; [done|]. apply (ValidateOutputVideo_audio_probe_failure fmt0 env_noaudio opts0 r E).
  reflexivity.
Defined.

End Validation.
