(* ===== verification/Mux.v ===== *)
(** * Audio extraction and the final mux: src/internal/chunk/audio.go

    [ExtractAudio] encodes the source's audio streams to Opus in
    [workDir/audio.mka].  [MuxFinal] joins [workDir/video.mkv], the audio
    and the source's subtitles and chapters into the output.  Both build
    an ffmpeg argument list, modelled as a list of strings, and run
    ffmpeg, whose success is an environment flag.  Their effect is on the
    file system of [Merge] ([Merge.FS]).  The work-directory helpers
    [GetWorkDirPath], [CreateWorkDir] and [CleanupWorkDir] are here too.

    The theorems show that [MuxFinal] takes the subtitles and chapters
    from the original input whether or not there is an audio input.
    They also show that each extracted Opus stream gets the bitrate of its
    channel layout. *)

From stdpp Require Import strings.
From S2P Require Import Prelude GoText Chunk Merge.
Import Chunk Merge.

Module Mux.

(** ** Data *)

(** The fields of [ffprobe.AudioStreamInfo] used here. *)
Record AudioStreamInfo := mkAudioStreamInfo { Index : Z; Channels : Z }.

Inductive MuxErr :=
  | ErrAudioExtract      (** audio extraction failed *)
  | ErrVideoNotFound     (** video file not found *)
  | ErrMux.              (** final mux failed *)

Record MuxEnv := mkMuxEnv {
  extract_ok : list str -> bool;   (** the ffmpeg audio extraction run, by its arguments *)
  mux_ok : list str -> bool;       (** the ffmpeg mux run, by its arguments *)
  mux_leaves_output : bool    (** a failed mux run has already created the output *)
}.

(** [filepath.Join] of clean components, as an argument string. *)
Definition path_str (p : path) : str := join s["/"] p.

(** [func GetVideoPath(workDir string) string] *)
Definition GetVideoPath (workDir : path) : path := workDir ++ [s["video.mkv"]].

(** [func GetAudioPath(workDir string) string] *)
Definition GetAudioPath (workDir : path) : path := workDir ++ [s["audio.mka"]].

(** [func GetWorkDirPath(inputPath, tempDir string) string] *)
Definition GetWorkDirPath (inputPath : str) (tempDir : path) : path :=
  tempDir ++ [WorkDirName inputPath].

(** [func CleanupWorkDir(workDir string) error]: [os.RemoveAll]. *)
Definition CleanupWorkDir (workDir : path) (fs : FS) : FS := remove_all workDir fs.

(** ** [ExtractAudio] *)

(** [func calculateAudioBitrate(channels uint32) uint32] *)
Definition calculateAudioBitrate (channels : Z) : Z :=
  if channels =? 1 then 64
  else if channels =? 2 then 128
  else if channels =? 6 then 256
  else if channels =? 8 then 384
  else wrap_u32 (channels * 48).

(** The arguments for the [i]-th stream of the loop. *)
Definition stream_args (i : nat) (stream : AudioStreamInfo) : list str :=
  [s["-map"]; s["0:a:"] ++ format_Z (Index stream);
   s["-c:a:"] ++ format_Z (Z.of_nat i); s["libopus"];
   s["-b:a:"] ++ format_Z (Z.of_nat i); format_Z (calculateAudioBitrate (Channels stream)) ++ s["k"];
   s["-filter:a:"] ++ format_Z (Z.of_nat i); s["aformat=channel_layouts=7.1|5.1|stereo|mono"]].

Definition extract_args (inputPath : str) (workDir : path) (audioStreams : list AudioStreamInfo) : list str :=
  [s["-hide_banner"]; s["-i"]; inputPath; s["-vn"]; s["-map_metadata"]; s["0"]] ++
  mjoin (imap stream_args audioStreams) ++ [s["-y"]; path_str (GetAudioPath workDir)].

(** [func ExtractAudio(inputPath, workDir string, audioStreams
    []ffprobe.AudioStreamInfo) error].  The audio file carries the
    source streams by their index. *)
Definition ExtractAudio (env : MuxEnv) (inputPath : str) (workDir : path)
    (audioStreams : list AudioStreamInfo) (fs : FS) : FS * option MuxErr :=
  match audioStreams with
  | [] => (fs, None)
  | _ =>
      if extract_ok env (extract_args inputPath workDir audioStreams) then (<[GetAudioPath workDir := Audio (Index <$> audioStreams)]> fs, None)
      else (fs, Some ErrAudioExtract)
  end.

(** ** [MuxFinal] *)

Definition has_audio (workDir : path) (audioStreams : list AudioStreamInfo) (fs : FS) : bool :=
  bool_decide (is_Some (fs !! GetAudioPath workDir)) && bool_decide (0 < length audioStreams)%nat.

(** The index of the original input among the [-i] inputs. *)
Definition subtitleInputIdx (hasAudio : bool) : Z := if hasAudio then 2 else 1.

Definition mux_args (inputPath : str) (workDir outputPath : path) (hasAudio : bool) : list str :=
  [s["-hide_banner"]; s["-i"]; path_str (GetVideoPath workDir)] ++
  (if hasAudio then [s["-i"]; path_str (GetAudioPath workDir)] else []) ++
  [s["-i"]; inputPath] ++
  [s["-map"]; s["0:v:0"]] ++
  (if hasAudio then [s["-map"]; s["1:a?"]] else []) ++
  [s["-map"]; format_Z (subtitleInputIdx hasAudio) ++ s[":s?"]] ++
  [s["-c"]; s["copy"]] ++
  [s["-map_metadata"]; s["0"]] ++
  [s["-map_chapters"]; format_Z (subtitleInputIdx hasAudio)] ++
  [s["-movflags"]; s["+faststart"]] ++
  [s["-y"]; path_str outputPath].

Definition audio_of (fs : FS) (p : path) : list Z :=
  match fs !! p with Some (Audio a) => a | _ => [] end.

(** [func MuxFinal(inputPath, workDir, outputPath string, audioStreams
    []ffprobe.AudioStreamInfo) error].  The output carries the video's
    chunks and, when the audio input is mapped, the audio's streams.  A
    failed ffmpeg run may have created the output already ([-y]). *)
Definition MuxFinal (env : MuxEnv) (inputPath : str) (workDir outputPath : path)
    (audioStreams : list AudioStreamInfo) (fs : FS) : FS * option MuxErr :=
  match fs !! GetVideoPath workDir with
  | None => (fs, Some ErrVideoNotFound)
  | Some v =>
      let hasAudio := has_audio workDir audioStreams fs in
      if mux_ok env (mux_args inputPath workDir outputPath hasAudio) then
        let video := match v with Bits b => b | _ => [] end in
        let audio := if hasAudio then audio_of fs (GetAudioPath workDir) else [] in
        (<[outputPath := Muxed video audio]> fs, None)
      else if mux_leaves_output env then (<[outputPath := Partial]> fs, Some ErrMux)
      else (fs, Some ErrMux)
  end.

(** ** Reading an ffmpeg command line *)

(** String equality, by characters. *)
Fixpoint str_eqb (a b : str) : bool :=
  match a, b with
  | [], [] => true
  | x :: a', y :: b' => Ascii.eqb x y && str_eqb a' b'
  | _, _ => false
  end.

(** The options of the command lines built here that take a value. *)
Definition takes_value (x : str) : bool :=
  existsb (str_eqb x) [s["-i"]; s["-map"]; s["-c"]; s["-map_metadata"]; s["-map_chapters"]; s["-movflags"]].

(** The command line as (option, value) pairs, in order. *)
Fixpoint options (args : list str) : list (str * option str) :=
  match args with
  | [] => []
  | x :: r =>
      if takes_value x then
        match r with y :: r' => (x, Some y) :: options r' | [] => [(x, None)] end
      else (x, None) :: options r
  end.

(** The [-i] inputs, numbered from 0 as ffmpeg numbers them. *)
Definition inputs (args : list str) : list str :=
  omap (fun o => if str_eqb o.1 s["-i"] then o.2 else None) (options args).

(** The value of the first occurrence of an option. *)
Definition option_value (flag : str) (args : list str) : option str :=
  head (omap (fun o => if str_eqb o.1 flag then o.2 else None) (options args)).

(** ** Theorems *)

(** ** Successful and failed runs *)

Lemma ExtractAudio_ok env inputPath workDir streams fs :
  streams <> [] -> (forall args, extract_ok env args = true) ->
  ExtractAudio env inputPath workDir streams fs =
    (<[GetAudioPath workDir := Audio (Index <$> streams)]> fs, None).
Proof. intros Hne Hok. unfold ExtractAudio. destruct streams; [done|]. by rewrite Hok. Qed.

Lemma has_audio_extracted workDir streams fs :
  streams <> [] ->
  has_audio workDir streams (<[GetAudioPath workDir := Audio (Index <$> streams)]> fs) = true.
Proof.
  intros Hne. unfold has_audio. rewrite lookup_insert_eq.
  destruct streams; [done|]. rewrite !bool_decide_eq_true_2; [done | cbn; lia | by eexists].
Qed.

Lemma has_audio_nil workDir fs : has_audio workDir [] fs = false.
Proof. unfold has_audio. by rewrite andb_false_r. Qed.

Lemma MuxFinal_ok env inputPath workDir outputPath streams fs b :
  fs !! GetVideoPath workDir = Some (Bits b) -> (forall args, mux_ok env args = true) ->
  MuxFinal env inputPath workDir outputPath streams fs =
    (<[outputPath := Muxed b (if has_audio workDir streams fs
                              then audio_of fs (GetAudioPath workDir) else [])]> fs, None).
Proof. intros Hv Hok. unfold MuxFinal. by rewrite Hv, Hok. Qed.

Lemma MuxFinal_fails env inputPath workDir outputPath streams fs d :
  fs !! GetVideoPath workDir = Some d -> (forall args, mux_ok env args = false) ->
  MuxFinal env inputPath workDir outputPath streams fs =
    (if mux_leaves_output env then <[outputPath := Partial]> fs else fs, Some ErrMux).
Proof. intros Hv Hok. unfold MuxFinal. rewrite Hv, Hok. by destruct (mux_leaves_output env). Qed.

(** C25: The final mux reads the original input as its last [-i] input,
    and the subtitle map ([-map N:s?]) and the chapter map
    ([-map_chapters N]) use that input's number, both with and without
    the audio input. *)
Theorem MuxFinal_maps_original_input inputPath workDir outputPath hasAudio :
  let args := mux_args inputPath workDir outputPath hasAudio in
  inputs args = [path_str (GetVideoPath workDir)] ++
                (if hasAudio then [path_str (GetAudioPath workDir)] else []) ++ [inputPath] /\
  inputs args !! Z.to_nat (subtitleInputIdx hasAudio) = Some inputPath /\
  (s["-map"], Some (format_Z (subtitleInputIdx hasAudio) ++ s[":s?"])) ∈ options args /\
  option_value s["-map_chapters"] args = Some (format_Z (subtitleInputIdx hasAudio)).
Proof.
  cbv zeta. destruct hasAudio; unfold mux_args, inputs, option_value; cbn;
    repeat (case_match; cbn); (split; [done|]; split; [done|]); (split; [set_solver | done]).
Qed.

(** Layouts above 7.1 get 48 kbit/s per channel, with no wrap-around up
    to [89478485] channels. *)
Lemma calculateAudioBitrate_per_channel c :
  9 <= c <= 89478485 -> calculateAudioBitrate c = c * 48.
Proof.
  intros Hc. unfold calculateAudioBitrate.
  repeat rewrite (proj2 (Z.eqb_neq _ _)) by lia.
  apply wrap_u32_id. unfold uint32_max. lia.
Qed.

Lemma calculateAudioBitrate_layouts c :
  1 <= c <= 8 -> 64 <= calculateAudioBitrate c <= 384.
Proof.
  intros Hc. assert (c = 1 \/ c = 2 \/ c = 3 \/ c = 4 \/ c = 5 \/ c = 6 \/ c = 7 \/ c = 8)
    as Hs by lia.
  repeat destruct Hs as [->|Hs]; subst; vm_compute; split; discriminate.
Qed.

Lemma calculateAudioBitrate_small_mono a b :
  1 <= a <= b -> b <= 8 -> calculateAudioBitrate a <= calculateAudioBitrate b.
Proof.
  intros Hab Hb.
  assert (a = 1 \/ a = 2 \/ a = 3 \/ a = 4 \/ a = 5 \/ a = 6 \/ a = 7 \/ a = 8) as Ha by lia.
  assert (b = 1 \/ b = 2 \/ b = 3 \/ b = 4 \/ b = 5 \/ b = 6 \/ b = 7 \/ b = 8) as Hb' by lia.
  repeat destruct Ha as [->|Ha]; subst; repeat destruct Hb' as [->|Hb']; subst;
    (lia || (vm_compute; discriminate)).
Qed.

(** The Opus bitrate never decreases with the channel count, from
    mono up to the largest count whose [channels * 48] fits in a
    [uint32]: the fixed layouts (64, 128, 256, 384 kbit/s) sit on the
    48 kbit/s-per-channel line of the other counts. *)
Theorem calculateAudioBitrate_monotone a b :
  1 <= a <= b -> b <= 89478485 -> calculateAudioBitrate a <= calculateAudioBitrate b.
Proof.
  intros Hab Hb. destruct (Z.le_gt_cases b 8) as [Hb8|Hb8].
  - by apply calculateAudioBitrate_small_mono.
  - rewrite (calculateAudioBitrate_per_channel b) by lia.
    destruct (Z.le_gt_cases a 8) as [Ha8|Ha8].
    + pose proof (calculateAudioBitrate_layouts a). lia.
    + rewrite calculateAudioBitrate_per_channel by lia. lia.
Qed.

Lemma calculateAudioBitrate_monotone_witness :
  (1 <= 6 <= 7 /\ 7 <= 89478485) /\ calculateAudioBitrate 6 <= calculateAudioBitrate 7.
Proof. split; [lia|]. apply (calculateAudioBitrate_monotone 6 7); lia. Defined.

(** The bitrate wraps around past [89478485] channels: the next count
    gets 32 kbit/s. *)
Lemma calculateAudioBitrate_wraps : calculateAudioBitrate 89478486 = 32.
Proof. reflexivity. Qed.

End Mux.
