(* ===== verification/SvtCmd.v ===== *)
(** * The SvtAv1EncApp command line: src/internal/encoder/encoder.go

    [buildSvtArgs] turns an [EncConfig] into the argument list of
    SvtAv1EncApp; [MakeSvtCmd] wraps it in [nice -n 19]; [SvtArgsString]
    and [SvtParamsDisplay] render it for the log.  The worker of
    [unnamed/part_002] builds one [EncConfig] per chunk
    ([chunkEncConfig]).

    The theorems show that the argument list is a sequence of
    (flag, value) pairs with no flag twice and the output last
    ([buildSvtArgs_wellformed]), that the command of a chunk encodes that
    chunk's frame count to that chunk's IVF file ([MakeSvtCmd_chunk]),
    that the logged string splits back into the arguments
    ([SvtArgsString_fields]) and that the key-frame interval is ten
    seconds of frames, rounded down, at the common frame rates
    ([keyintFrames_ten_seconds]).

    Floating-point text ([%.2f] and [%g] of a [float32]) is not modelled:
    it is a section variable [fmt2] / [fmtg].  [%.0f] of [cfg.CRF] is
    modelled as [%d] of an integral CRF: every CRF reel passes is an
    integer below 2^24, which [float32] holds exactly. *)

From Stdlib Require Import SpecFloat.
From stdpp Require Import strings.
From S2P Require Import Prelude GoText Chunk Admission Merge Mux.

Module SvtCmd.

(** ** Data *)

Definition svtEncBinary : str := s["SvtAv1EncApp"].

(** The fields of [ffms.VidInf] that [buildSvtArgs] reads; the colour
    metadata are Go pointers, [nil] when the source has none. *)
Record VidInf := mkVidInf {
  FPSNum : Z; FPSDen : Z;
  ColorPrimaries : option Z; TransferCharacteristics : option Z;
  MatrixCoefficients : option Z;
  MasteringDisplay : option str; ContentLight : option str }.

(** [type EncConfig struct].  [ACBias] is a [float32]
    (binary32: [spec_float] read with precision 24 and [emax] 128). *)
Record EncConfig := mkEncConfig {
  Inf : VidInf; CRF : Z; Preset : Z; Tune : Z; Output : str;
  GrainTable : option str; Width : Z; Height : Z; Frames : Z;
  ACBias : spec_float; EnableVarianceBoost : bool;
  VarianceBoostStrength : Z; VarianceOctile : Z; LogicalProcessors : Z }.

(** The fields of [encode.EncodeConfig] that the worker copies into each
    chunk's [EncConfig]. *)
Record EncodeConfig := mkEncodeConfig {
  cCRF : Z; cPreset : Z; cTune : Z; cGrainTable : option str;
  cLogicalProcessors : Z; cACBias : spec_float; cEnableVarianceBoost : bool;
  cVarianceBoostStrength : Z; cVarianceOctile : Z }.

(** ** [buildSvtArgs] *)

(** [fps := float64(FPSNum) / float64(FPSDen); keyintFrames := int(fps * 10)]. *)
Definition keyintFrames (inf : VidInf) : Z :=
  GoFloat.trunc (GoFloat.mul (GoFloat.div (GoFloat.of_Z (FPSNum inf)) (GoFloat.of_Z (FPSDen inf)))
                             (GoFloat.of_Z 10)).

(** [if c { args = append(args, xs...) }]: the appended words, or none. *)
Definition when (c : bool) (xs : list str) : list str := if c then xs else [].

(** [if p != nil { args = append(args, flag, show( *p)) }] *)
Definition opt_arg {A} (flag : str) (show : A -> str) (p : option A) : list str :=
  match p with Some v => [flag; show v] | None => [] end.

(** [cfg.ACBias != 0]: a [float32] comparison, true of both zeros. *)
Definition nonzero (f : spec_float) : bool := negb (SFeqb f (S754_zero false)).

Section Build.
(** [fmt.Sprintf("%.2f", cfg.ACBias)] *)
Variable fmt2 : spec_float -> str.

(** The fixed prefix of the argument list. *)
Definition base_args (cfg : EncConfig) : list str :=
  [s["-i"]; s["stdin"];
   s["--input-depth"]; s["10"];
   s["--color-format"]; s["1"];
   s["--profile"]; s["0"];
   s["--passes"]; s["1"];
   s["--tile-rows"]; s["0"];
   s["--tile-columns"]; s["0"];
   s["--width"]; format_Z (Width cfg);
   s["--height"]; format_Z (Height cfg);
   s["--fps-num"]; format_Z (FPSNum (Inf cfg));
   s["--fps-denom"]; format_Z (FPSDen (Inf cfg));
   s["--keyint"]; format_Z (keyintFrames (Inf cfg));
   s["--rc"]; s["0"];
   s["--scd"]; s["1"];
   s["--scm"]; s["0"];
   s["--progress"]; s["2"];
   s["--frames"]; format_Z (Frames cfg);
   s["--crf"]; format_Z (CRF cfg);
   s["--preset"]; format_Z (Preset cfg)].

(** The optional arguments, appended after the prefix: [--tune], then
    each [if] of the code in its order. *)
Definition opt_args (cfg : EncConfig) : list str :=
  let inf := Inf cfg in
  [s["--tune"]; format_Z (Tune cfg)]
  ++ when (0 <? LogicalProcessors cfg) [s["--lp"]; format_Z (LogicalProcessors cfg)]
  ++ opt_arg s["--color-primaries"] format_Z (ColorPrimaries inf)
  ++ opt_arg s["--transfer-characteristics"] format_Z (TransferCharacteristics inf)
  ++ opt_arg s["--matrix-coefficients"] format_Z (MatrixCoefficients inf)
  ++ opt_arg s["--mastering-display"] id (MasteringDisplay inf)
  ++ opt_arg s["--content-light"] id (ContentLight inf)
  ++ opt_arg s["--fgs-table"] id (GrainTable cfg)
  ++ when (nonzero (ACBias cfg)) [s["--ac-bias"]; fmt2 (ACBias cfg)]
  ++ when (EnableVarianceBoost cfg)
       [s["--enable-variance-boost"]; s["1"];
        s["--variance-boost-strength"]; format_Z (VarianceBoostStrength cfg);
        s["--variance-octile"]; format_Z (VarianceOctile cfg)].

(** [func buildSvtArgs(cfg *EncConfig) []string]: the prefix, the
    optional arguments, then [-b cfg.Output]. *)
Definition buildSvtArgs (cfg : EncConfig) : list str :=
  base_args cfg ++ opt_args cfg ++ [s["-b"]; Output cfg].

(** [func MakeSvtCmd(cfg *EncConfig) *exec.Cmd]: the program and its
    arguments. *)
Definition MakeSvtCmd (cfg : EncConfig) : str * list str :=
  (s["nice"], [s["-n"]; s["19"]; svtEncBinary] ++ buildSvtArgs cfg).

(** [func SvtArgsString(cfg *EncConfig) string] *)
Definition SvtArgsString (cfg : EncConfig) : str := join s[" "] (buildSvtArgs cfg).

End Build.

(** [func SvtParamsDisplay(acBias float32, enableVarianceBoost bool,
    tune uint8) string]; [fmtg] is [%g]. *)
Definition SvtParamsDisplay (fmtg : spec_float -> str) (acBias : spec_float)
    (enableVarianceBoost : bool) (tune : Z) : str :=
  join s[":"]
    ([s["ac-bias="] ++ fmtg acBias]
     ++ [if enableVarianceBoost then s["enable-variance-boost=1"] else s["enable-variance-boost=0"]]
     ++ [s["tune="] ++ format_Z tune; s["keyint=10s"]; s["scd=1"]; s["scm=0"]]).

(** The [EncConfig] the worker builds for chunk [ch]
    ([encodeChunkStreaming], part_002): the output is
    [chunk.IVFPath(workDir, ch.Idx)] and the frame count [ch.Frames()]. *)
Definition chunkEncConfig (cfg : EncodeConfig) (inf : VidInf) (workDir : Chunk.path)
    (width height : Z) (ch : Chunk.Chunk) : EncConfig :=
  mkEncConfig inf (cCRF cfg) (cPreset cfg) (cTune cfg)
    (Mux.path_str (Chunk.IVFPath workDir (Chunk.Idx ch))) (cGrainTable cfg)
    width height (Chunk.Frames ch) (cACBias cfg) (cEnableVarianceBoost cfg)
    (cVarianceBoostStrength cfg) (cVarianceOctile cfg) (cLogicalProcessors cfg).

(** ** Reading a command line *)

(** A command line read as (flag, value) pairs; [None] for an odd word. *)
Fixpoint pairs (args : list str) : option (list (str * str)) :=
  match args with
  | [] => Some []
  | [_] => None
  | f :: v :: r => ((f, v) ::.) <$> pairs r
  end.

(** The value of a flag among the pairs (the first occurrence). *)
Fixpoint flag_value (f : str) (ps : list (str * str)) : option str :=
  match ps with
  | [] => None
  | (g, v) :: ps' => if Mux.str_eqb f g then Some v else flag_value f ps'
  end.

(** Every flag [buildSvtArgs] can write, segment by segment. *)
Definition base_flags : list str :=
  [s["-i"]; s["--input-depth"]; s["--color-format"]; s["--profile"]; s["--passes"];
   s["--tile-rows"]; s["--tile-columns"]; s["--width"]; s["--height"]; s["--fps-num"];
   s["--fps-denom"]; s["--keyint"]; s["--rc"]; s["--scd"]; s["--scm"]; s["--progress"];
   s["--frames"]; s["--crf"]; s["--preset"]].

Definition opt_flags : list str :=
  [s["--tune"]] ++ [s["--lp"]] ++ [s["--color-primaries"]]
  ++ [s["--transfer-characteristics"]] ++ [s["--matrix-coefficients"]]
  ++ [s["--mastering-display"]] ++ [s["--content-light"]] ++ [s["--fgs-table"]]
  ++ [s["--ac-bias"]]
  ++ [s["--enable-variance-boost"]; s["--variance-boost-strength"]; s["--variance-octile"]].

Definition svt_flags : list str := base_flags ++ opt_flags.

(** [flatten] writes pairs back as a command line. *)
Fixpoint flatten (ps : list (str * str)) : list str :=
  match ps with [] => [] | (f, v) :: ps' => f :: v :: flatten ps' end.

(** A word of the command line as [strings.Fields] reads it. *)
Definition word (w : str) : Prop := no_space w /\ w <> [].

(** ** Lemmas on command lines *)

Lemma str_eqb_spec a b : Mux.str_eqb a b = true <-> a = b.
Proof.
  revert b; induction a as [|x a IH]; intros [|y b]; cbn; try done.
  rewrite andb_true_iff, IH, Ascii.eqb_eq. naive_solver.
Qed.

Lemma pairs_flatten ps : pairs (flatten ps) = Some ps.
Proof. induction ps as [|[f v] ps IH]; cbn; [done | by rewrite IH]. Qed.

Lemma pairs_inv : forall l ps, pairs l = Some ps -> l = flatten ps.
Proof.
  fix IH 1. intros [|f [|v r]] ps H; cbn in H; [by simplify_eq | done |].
  destruct (pairs r) as [ps'|] eqn:E; simplify_eq/=. by rewrite <- (IH r ps' E).
Qed.

Lemma flatten_app ps1 ps2 : flatten (ps1 ++ ps2) = flatten ps1 ++ flatten ps2.
Proof. induction ps1 as [|[f v] ps1 IH]; cbn; by rewrite ?IH. Qed.

Lemma pairs_app l1 l2 ps1 ps2 :
  pairs l1 = Some ps1 -> pairs l2 = Some ps2 -> pairs (l1 ++ l2) = Some (ps1 ++ ps2).
Proof.
  intros ->%pairs_inv ->%pairs_inv. by rewrite <- flatten_app, pairs_flatten.
Qed.

Lemma flag_value_app_l f ps1 ps2 v :
  flag_value f ps1 = Some v -> flag_value f (ps1 ++ ps2) = Some v.
Proof. induction ps1 as [|[g w] ps1 IH]; cbn; [done|]. by case_match. Qed.

Lemma flag_value_snoc f v ps :
  f ∉ ps.*1 -> flag_value f (ps ++ [(f, v)]) = Some v.
Proof.
  induction ps as [|[g w] ps IH]; cbn; intros Hf.
  - by rewrite (proj2 (str_eqb_spec f f) eq_refl).
  - rewrite not_elem_of_cons in Hf. destruct Hf as [Hfg Hf].
    destruct (Mux.str_eqb f g) eqn:E; [by apply str_eqb_spec in E | auto].
Qed.

(** ** Segments of the argument list *)

(** A segment parses into pairs whose flags are, in order, among [fl]. *)
Definition seg_ok (l fl : list str) : Prop :=
  exists ps, pairs l = Some ps /\ ps.*1 `sublist_of` fl.

Lemma seg_ok_app l1 l2 f1 f2 : seg_ok l1 f1 -> seg_ok l2 f2 -> seg_ok (l1 ++ l2) (f1 ++ f2).
Proof.
  intros (ps1 & H1 & S1) (ps2 & H2 & S2). exists (ps1 ++ ps2).
  rewrite fmap_app. split; [by apply pairs_app | by apply sublist_app].
Qed.

Lemma seg_ok_when c l f : seg_ok l f -> seg_ok (when c l) f.
Proof. destruct c; [done|]. intros _. exists []. split; [done | apply sublist_nil_l]. Qed.

Lemma seg_ok_opt {A} flag (show : A -> str) p : seg_ok (opt_arg flag show p) [flag].
Proof.
  destruct p as [v|]; [exists [(flag, show v)] | exists []];
    (split; [done | cbn]); [done | apply sublist_nil_l].
Qed.

Lemma seg_ok_exact l ps : pairs l = Some ps -> seg_ok l ps.*1.
Proof. intros H. by exists ps. Qed.

Create HintDb svt.
#[export] Hint Resolve seg_ok_app seg_ok_when seg_ok_opt : svt.

(** A literal segment: its pairs computed, its flags exactly [fl]. *)
Ltac seg_lit := eexists; split; [reflexivity | apply reflexive_eq; reflexivity].

Lemma NoDup_svt_flags : NoDup (svt_flags ++ [s["-b"]]).
Proof. apply (bool_decide_unpack _). vm_compute. reflexivity. Qed.

Section Args.
Variable fmt2 : spec_float -> str.

(** The prefix: its flags and the values of those the chunk sets. *)
Lemma base_args_pairs cfg :
  exists ps, pairs (base_args cfg) = Some ps /\ ps.*1 = base_flags /\
    flag_value s["--width"] ps = Some (format_Z (Width cfg)) /\
    flag_value s["--height"] ps = Some (format_Z (Height cfg)) /\
    flag_value s["--keyint"] ps = Some (format_Z (keyintFrames (Inf cfg))) /\
    flag_value s["--frames"] ps = Some (format_Z (Frames cfg)) /\
    flag_value s["--crf"] ps = Some (format_Z (CRF cfg)) /\
    flag_value s["--preset"] ps = Some (format_Z (Preset cfg)).
Proof. eexists. split_and!; reflexivity. Qed.

Lemma opt_args_seg cfg : seg_ok (opt_args fmt2 cfg) opt_flags.
Proof. unfold opt_args, opt_flags. repeat (apply seg_ok_app || apply seg_ok_when || apply seg_ok_opt || seg_lit). Qed.

(** The argument list in pairs: the prefix's, the optional ones', then
    [-b Output] once, every flag among [svt_flags ++ ["-b"]] in order. *)
Lemma buildSvtArgs_pairs cfg :
  exists psB psO, pairs (base_args cfg) = Some psB /\ psB.*1 = base_flags /\
    psO.*1 `sublist_of` opt_flags /\
    pairs (buildSvtArgs fmt2 cfg) = Some (psB ++ psO ++ [(s["-b"], Output cfg)]).
Proof.
  destruct (base_args_pairs cfg) as (psB & HB & HF & _).
  destruct (opt_args_seg cfg) as (psO & HO & HS).
  exists psB, psO. split_and!; try done.
  unfold buildSvtArgs. by do 2 (apply pairs_app; [done|]).
Qed.

(** Everything the claims below read off the argument list. *)
Lemma buildSvtArgs_spec cfg :
  exists psB psO,
    pairs (buildSvtArgs fmt2 cfg) = Some (psB ++ psO ++ [(s["-b"], Output cfg)]) /\
    (psB ++ psO ++ [(s["-b"], Output cfg)]).*1 `sublist_of` svt_flags ++ [s["-b"]] /\
    flag_value s["--width"] psB = Some (format_Z (Width cfg)) /\
    flag_value s["--height"] psB = Some (format_Z (Height cfg)) /\
    flag_value s["--keyint"] psB = Some (format_Z (keyintFrames (Inf cfg))) /\
    flag_value s["--frames"] psB = Some (format_Z (Frames cfg)) /\
    flag_value s["--crf"] psB = Some (format_Z (CRF cfg)) /\
    flag_value s["--preset"] psB = Some (format_Z (Preset cfg)).
Proof.
  destruct (base_args_pairs cfg) as (psB & HB & HF & Hv).
  destruct (opt_args_seg cfg) as (psO & HO & HS).
  exists psB, psO. split; [unfold buildSvtArgs; by do 2 (apply pairs_app; [done|])|].
  split; [|done]. rewrite !fmap_app, HF, app_assoc. unfold svt_flags.
  by apply sublist_app; [apply sublist_app|].
Qed.
End Args.

Lemma NoDup_snoc_notin {A} (l : list A) x : NoDup (l ++ [x]) -> x ∉ l.
Proof. rewrite NoDup_app. intros (_ & H & _) Hx. by apply (H x Hx), list_elem_of_singleton. Qed.

Lemma word_format_Z z : word (format_Z z).
Proof. split; [apply format_Z_no_space | apply format_Z_nonempty]. Qed.
#[export] Hint Resolve word_format_Z : svt.

(** A literal word, such as [s["stdin"]]. *)
Ltac word_lit := split; [repeat constructor | discriminate].

(** Every word of a list: [tac] proves the words that are not literal. *)
Ltac words tac :=
  repeat (apply Forall_nil_2 || (apply Forall_cons_2; [first [tac | word_lit] |])).

Lemma base_args_words cfg : Forall word (base_args cfg).
Proof. words ltac:(apply word_format_Z). Qed.

Lemma Forall_when (P : str -> Prop) c l : (c = true -> Forall P l) -> Forall P (when c l).
Proof. destruct c; auto. Qed.

Lemma Forall_opt_arg {A} (P : str -> Prop) flag (show : A -> str) p :
  P flag -> (forall v, p = Some v -> P (show v)) -> Forall P (opt_arg flag show p).
Proof. destruct p; repeat constructor; auto. Qed.

(** ** Properties *)

(** C12: [buildSvtArgs] writes a well-formed command line: it reads back
    as (flag, value) pairs, no flag occurs twice, every flag is one the
    code knows, in the code's order, and the last pair is [-b cfg.Output],
    whatever the configuration. *)
Theorem buildSvtArgs_wellformed fmt2 cfg :
  exists ps, pairs (buildSvtArgs fmt2 cfg) = Some ps /\ NoDup ps.*1 /\
    ps.*1 `sublist_of` svt_flags ++ [s["-b"]] /\ last ps = Some (s["-b"], Output cfg).
Proof.
  destruct (buildSvtArgs_spec fmt2 cfg) as (psB & psO & H & HS & _).
  eexists. split_and!; [exact H | exact (sublist_NoDup _ _ NoDup_svt_flags HS) | done |].
  by rewrite app_assoc, last_snoc.
Qed.

(** C13: the command the worker runs for chunk [ch] is
    [nice -n 19 SvtAv1EncApp] with well-formed arguments whose
    [--frames] is the chunk's frame count, whose output [-b] is the
    chunk's IVF path [chunk.IVFPath(workDir, ch.Idx)], and whose
    [--width], [--height], [--crf], [--preset] and [--keyint] are the
    cropped size, the configured quality and preset, and the source's
    ten-second key-frame interval. *)
Theorem MakeSvtCmd_chunk fmt2 cfg inf workDir width height ch :
  exists ps,
    MakeSvtCmd fmt2 (chunkEncConfig cfg inf workDir width height ch)
      = (s["nice"], [s["-n"]; s["19"]; svtEncBinary] ++ flatten ps) /\
    NoDup ps.*1 /\
    flag_value s["--frames"] ps = Some (format_Z (Chunk.Frames ch)) /\
    flag_value s["-b"] ps = Some (Mux.path_str (Chunk.IVFPath workDir (Chunk.Idx ch))) /\
    flag_value s["--width"] ps = Some (format_Z width) /\
    flag_value s["--height"] ps = Some (format_Z height) /\
    flag_value s["--crf"] ps = Some (format_Z (cCRF cfg)) /\
    flag_value s["--preset"] ps = Some (format_Z (cPreset cfg)) /\
    flag_value s["--keyint"] ps = Some (format_Z (keyintFrames inf)).
Proof.
  destruct (buildSvtArgs_spec fmt2 (chunkEncConfig cfg inf workDir width height ch))
    as (psB & psO & H & HS & Hw & Hh & Hk & Hf & Hc & Hp).
  pose proof (sublist_NoDup _ _ NoDup_svt_flags HS) as ND.
  exists (psB ++ psO ++ [(s["-b"], Output (chunkEncConfig cfg inf workDir width height ch))]).
  split_and!; try done; try by apply flag_value_app_l.
  - unfold MakeSvtCmd. by rewrite <- (pairs_inv _ _ H).
  - rewrite app_assoc. apply flag_value_snoc, NoDup_snoc_notin.
    rewrite app_assoc, fmap_app in ND. exact ND.
Qed.

(** [SvtArgsString] is the argument list, readable back word by
    word: splitting it at white space ([strings.Fields]) gives
    [buildSvtArgs cfg] when the paths and texts it carries (the output,
    the grain table, the HDR metadata and the AC bias text) are non-empty
    and free of white space. *)
Theorem SvtArgsString_fields fmt2 cfg :
  word (Output cfg) ->
  (forall g, GrainTable cfg = Some g -> word g) ->
  (forall m, MasteringDisplay (Inf cfg) = Some m -> word m) ->
  (forall c, ContentLight (Inf cfg) = Some c -> word c) ->
  (nonzero (ACBias cfg) = true -> word (fmt2 (ACBias cfg))) ->
  fields (SvtArgsString fmt2 cfg) = buildSvtArgs fmt2 cfg.
Proof.
  intros Ho Hg Hm Hc Ha. unfold SvtArgsString. apply fields_join.
  change (Forall word (buildSvtArgs fmt2 cfg)). unfold buildSvtArgs, opt_args.
  repeat (apply Forall_app; split); try apply Forall_when; try apply Forall_opt_arg;
    intros; first [apply base_args_words | words ltac:(eauto with svt)];
    first [word_lit | eauto with svt].
Qed.

(** The frame rates of [keyintFrames_ten_seconds]: [k/1] and
    [1000k/1001] fps for [k] up to 240, evaluated once. *)
Definition keyint_at (num den : Z) : Z :=
  keyintFrames (mkVidInf num den None None None None None).

Lemma keyint_table :
  forallb (fun k => (keyint_at k 1 =? 10 * k) && (keyint_at (1000 * k) 1001 =? 10000 * k / 1001))
    (seqZ 1 240) = true.
Proof. vm_compute. reflexivity. Qed.

(** C34: the key-frame interval is ten seconds of frames rounded down,
    [⌊10 · FPSNum / FPSDen⌋], at every integral rate up to 240 fps and at
    every NTSC rate [1000k/1001] up to 239.76 fps: the [float64]
    division and product lose nothing that changes [int(fps * 10)]. *)
Theorem keyintFrames_ten_seconds inf k :
  1 <= k <= 240 ->
  (FPSNum inf = k /\ FPSDen inf = 1) \/ (FPSNum inf = 1000 * k /\ FPSDen inf = 1001) ->
  keyintFrames inf = 10 * FPSNum inf / FPSDen inf.
Proof.
  intros Hk Hr.
  assert (Hin : In k (seqZ 1 240)) by (apply list_elem_of_In, elem_of_seqZ; lia).
  apply (proj1 (forallb_forall _ _) keyint_table), andb_prop in Hin as [H1 H2].
  apply Z.eqb_eq in H1, H2.
  destruct Hr as [[Hn Hd] | [Hn Hd]]; unfold keyintFrames; rewrite Hn, Hd.
  - rewrite Z.div_1_r. exact H1.
  - rewrite Z.mul_assoc. exact H2.
Qed.

Lemma keyintFrames_ten_seconds_witness :
  keyintFrames (mkVidInf 24000 1001 None None None None None) = 10 * 24000 / 1001.
Proof. apply (keyintFrames_ten_seconds (mkVidInf 24000 1001 None None None None None) 24); [lia | right; split; reflexivity]. Defined.

(** A chunk's configuration as the worker builds it: BT.709 colour,
    variance boost on, 4 threads. *)
Definition demo_cfg : EncConfig :=
  mkEncConfig (mkVidInf 24000 1001 (Some 1) (Some 1) (Some 1) None None) 27 6 0
    s["work/encode/0001.ivf"] None 1920 800 240 (S754_zero false) true 2 6 4.

Lemma SvtArgsString_fields_witness :
  fields (SvtArgsString (fun _ => s["0.10"]) demo_cfg) = buildSvtArgs (fun _ => s["0.10"]) demo_cfg.
Proof. apply SvtArgsString_fields; first [intros ? [=] | intros [=] | word_lit]. Defined.

End SvtCmd.
