(* ===== verification/Orchestrator.v ===== *)
(** * The per-file pipeline: src/internal/processing/chunked.go

    [ProcessChunked] creates the work directory, indexes the source and
    detects its crop, plans the chunks, runs the worker pool and the audio
    extraction side by side, merges the chunk bitstreams, muxes the final
    output and, from a deferred function, removes the work directory when
    the output file exists.

    The external steps are an environment [PCEnv]: the FFMS2 index, the
    video info, the keyframe scene file and the outcome of
    [encode.EncodeAll] (the chunk files it leaves and its error), which
    [Pool] models on its own.  The merge is [Merge]'s, the audio
    extraction and the mux are [Mux]'s, all on [Merge.FS].  The audio
    goroutine only writes [audio.mka], which no other step reads or
    writes before the mux; its effect is applied where the code waits for
    it ([<-audioDone]).  A failed merge is modelled by its error: the
    pipeline continues from the state before the failing merge step,
    which agrees with the code outside the work directory.

    The theorems show what a successful run leaves (the output with every
    chunk in order and the audio, and no work directory), that a failed
    run keeps its work directory for resume unless the output exists,
    that a failed mux that left a partial output removes the work
    directory, and that a cancelled pool whose [EncodeAll] returns no
    error lets the pipeline mux an incomplete output. *)

From stdpp Require Import strings.
From S2P Require Import Prelude GoText Chunk Resume Worker Admission Pool Crop Merge Mux.
Import Chunk Merge Mux.

Module Orchestrator.

(** ** Data *)

(** The fields of [ffms.VidInf] read here. *)
Record VidInf := mkVidInf { FPSNum : Z; FPSDen : Z; Frames : Z; Width : Z; Height : Z }.

(** The steps of [ProcessChunked] that run outside the model. *)
Record PCEnv := mkPCEnv {
  mkdir_ok : bool;                       (** [chunk.CreateWorkDir(workDir)] *)
  index_ok : bool;                       (** [ffms.NewVidIdx(inputPath, true)] *)
  detected : Crop.CropResult;            (** [DetectCrop(inputPath, videoProps, ...)] *)
  vid_inf : option VidInf;               (** [ffms.GetVidInf(idx)] *)
  scene_file : option str;               (** [keyframe.ExtractKeyframesIfNeeded]: the file's contents *)
  encode_all : list Chunk -> Z -> Z -> FS -> FS * option Pool.PoolErr;
      (** [encode.EncodeAll(ctx, chunks, ..., cropH, cropV, ...)]: the
          files it leaves and its error *)
  merge_env : MergeEnv;
  mux_env : MuxEnv }.

Inductive PCErr :=
  | ErrWorkDir                        (** failed to create work directory *)
  | ErrVideoIndex                     (** failed to create video index *)
  | ErrVideoInfo                      (** failed to get video info *)
  | ErrChunkGen                       (** chunk generation failed *)
  | ErrLoadScenes (e : LoadErr)       (** failed to load scenes *)
  | ErrChunkedEncoding (e : Pool.PoolErr)   (** chunked encoding failed *)
  | ErrBatchedMerge (e : MergeErr)    (** batched merge failed *)
  | ErrVideoMerge (e : MergeErr)      (** video merge failed *)
  | ErrAudioExtraction (e : MuxErr)   (** audio extraction failed *)
  | ErrFinalMux (e : MuxErr).         (** final mux failed *)

(** ** [ProcessChunked] *)

(** [if cropResult.Required && cropResult.CropFilter != ""] then
    [parseCropFilter], else [0, 0]. *)
Definition crop_offsets (cr : Crop.CropResult) : Z * Z :=
  if Crop.Required cr && negb (bool_decide (Crop.CropFilter cr = [])) then
    Crop.parseCropFilter (Crop.CropFilter cr)
  else (0, 0).

(** The audio goroutine, as seen at [<-audioDone]. *)
Definition audio_done (env : PCEnv) (inputPath : str) (workDir : path)
    (audioStreams : list AudioStreamInfo) (fs : FS) : FS * option MuxErr :=
  if bool_decide (0 < length audioStreams)%nat
  then ExtractAudio (mux_env env) inputPath workDir audioStreams fs
  else (fs, None).

(** Phase 2 to the end: the pool, the merge, the audio and the mux. *)
Definition pc_finish (env : PCEnv) (inputPath : str) (workDir outputPath : path)
    (audioStreams : list AudioStreamInfo) (vi : VidInf) (chunks : list Chunk)
    (cropResult : Crop.CropResult) (fs : FS) : FS * result Crop.CropResult PCErr :=
  let '(cropH, cropV) := crop_offsets cropResult in
  let '(fs1, encodeErr) := encode_all env chunks cropH cropV fs in
  let N := Z.of_nat (length chunks) in
  match encodeErr with
  | Some e => ((audio_done env inputPath workDir audioStreams fs1).1, Err (ErrChunkedEncoding e))
  | None =>
  match (if 500 <? N then MergeBatched (merge_env env) workDir N fs1 else Ok fs1) with
  | Err e => ((audio_done env inputPath workDir audioStreams fs1).1, Err (ErrBatchedMerge e))
  | Ok fs2 =>
  match MergeOutput (merge_env env) workDir (FPSDen vi) fs2 with
  | Err e => ((audio_done env inputPath workDir audioStreams fs2).1, Err (ErrVideoMerge e))
  | Ok fs3 =>
  let '(fs4, audioErr) := audio_done env inputPath workDir audioStreams fs3 in
  match audioErr with
  | Some e => (fs4, Err (ErrAudioExtraction e))
  | None =>
  let '(fs5, muxErr) := MuxFinal (mux_env env) inputPath workDir outputPath audioStreams fs4 in
  match muxErr with
  | Some e => (fs5, Err (ErrFinalMux e))
  | None => (fs5, Ok cropResult)
  end end end end end.

(** From the index to the chunk list. *)
Definition pc_body (env : PCEnv) (inputPath : str) (workDir outputPath : path)
    (audioStreams : list AudioStreamInfo) (fs : FS) : FS * result Crop.CropResult PCErr :=
  if negb (index_ok env) then (fs, Err ErrVideoIndex) else
  let cropResult := detected env in
  match vid_inf env with
  | None => (fs, Err ErrVideoInfo)
  | Some vi =>
  match scene_file env with
  | None => (fs, Err ErrChunkGen)
  | Some sceneFile =>
  match LoadScenes sceneFile (Frames vi) with
  | Err e => (fs, Err (ErrLoadScenes e))
  | Ok scenes => pc_finish env inputPath workDir outputPath audioStreams vi (Chunkify scenes) cropResult fs
  end end end.

(** The deferred function: [if _, err := os.Stat(outputPath); err == nil
    { _ = chunk.CleanupWorkDir(workDir) }]. *)
Definition cleanup_if_output (outputPath workDir : path) (fs : FS) : FS :=
  if bool_decide (is_Some (fs !! outputPath)) then CleanupWorkDir workDir fs else fs.

(** [func ProcessChunked(ctx, cfg, inputPath, outputPath string,
    videoProps, audioStreams, quality, rep) (CropResult, error)].  The
    deferred cleanup is registered after [CreateWorkDir] succeeds. *)
Definition ProcessChunked (env : PCEnv) (inputPath : str) (tempDir outputPath : path)
    (audioStreams : list AudioStreamInfo) (fs : FS) : FS * result Crop.CropResult PCErr :=
  let workDir := GetWorkDirPath inputPath tempDir in
  if negb (mkdir_ok env) then (fs, Err ErrWorkDir) else
  let '(fs', r) := pc_body env inputPath workDir outputPath audioStreams fs in
  (cleanup_if_output outputPath workDir fs', r).

(** The audio file the goroutine leaves when every extraction succeeds. *)
Definition audio_file (workDir : path) (audioStreams : list AudioStreamInfo) (fs : FS) : FS :=
  match audioStreams with
  | [] => fs
  | _ => <[GetAudioPath workDir := Audio (Index <$> audioStreams)]> fs
  end.

(** ** Lemmas *)

Lemma remove_all_under (dir : path) (fs : FS) (p : path) :
  dir `prefix_of` p -> remove_all dir fs !! p = None.
Proof.
  intros Hp. unfold remove_all. rewrite map_lookup_filter.
  destruct (fs !! p); cbn; [|done]. case_guard; cbn in *; [tauto | done].
Qed.

Lemma audio_done_ok env inputPath workDir audioStreams fs :
  (forall args, extract_ok (mux_env env) args = true) ->
  audio_done env inputPath workDir audioStreams fs = (audio_file workDir audioStreams fs, None).
Proof.
  intros Hext. unfold audio_done. destruct audioStreams as [|a l]; [done|].
  rewrite bool_decide_eq_true_2 by (cbn; lia). by rewrite ExtractAudio_ok.
Qed.

Lemma audio_done_frame env inputPath workDir audioStreams fs p :
  p <> GetAudioPath workDir -> (audio_done env inputPath workDir audioStreams fs).1 !! p = fs !! p.
Proof.
  intros Hp. unfold audio_done, ExtractAudio.
  repeat (case_match; simplify_eq/=; try done). by rewrite lookup_insert_ne.
Qed.

Lemma video_audio_ne (w : path) : GetVideoPath w <> GetAudioPath w.
Proof. unfold GetVideoPath, GetAudioPath. intros E. apply app_inv_head in E. discriminate E. Qed.

Lemma audio_file_other w st fs p : p <> GetAudioPath w -> audio_file w st fs !! p = fs !! p.
Proof. intros Hp. destruct st; [done|]. by apply lookup_insert_ne. Qed.

(** The mux maps the extracted audio exactly when there are streams, and
    then carries all of them. *)
Lemma audio_muxed w st fs :
  (if has_audio w st (audio_file w st fs) then audio_of (audio_file w st fs) (GetAudioPath w) else [])
  = Index <$> st.
Proof.
  destruct st as [|a l]; [by rewrite has_audio_nil|].
  unfold audio_file. rewrite (has_audio_extracted w (a :: l)) by done.
  unfold audio_of. by rewrite lookup_insert_eq.
Qed.

Lemma cleanup_inserted outputPath workDir d fs :
  cleanup_if_output outputPath workDir (<[outputPath := d]> fs) =
  CleanupWorkDir workDir (<[outputPath := d]> fs).
Proof. unfold cleanup_if_output. rewrite lookup_insert_eq, bool_decide_eq_true_2; [done | by eexists]. Qed.

Section Run.
Context (env : PCEnv) (inputPath : str) (tempDir outputPath : path)
        (audioStreams : list AudioStreamInfo) (fs fs1 : FS) (vi : VidInf)
        (sceneFile : str) (scenes : list Scene).
Let workDir := GetWorkDirPath inputPath tempDir.
Let N := Z.of_nat (length (Chunkify scenes)).

(** Every step before the merge succeeds, the pool returns no error and
    every audio extraction succeeds. *)
Hypothesis Hmk : mkdir_ok env = true.
Hypothesis Hidx : index_ok env = true.
Hypothesis Hvi : vid_inf env = Some vi.
Hypothesis Hsf : scene_file env = Some sceneFile.
Hypothesis Hls : LoadScenes sceneFile (Frames vi) = Ok scenes.
Hypothesis Henc : encode_all env (Chunkify scenes) (crop_offsets (detected env)).1
                    (crop_offsets (detected env)).2 fs = (fs1, None).
Hypothesis Hext : forall args, extract_ok (mux_env env) args = true.

(** Once the merge phase has produced [fs3], what is left is the mux and
    the deferred cleanup. *)
Lemma pc_merged fs3 :
  merge_phase (merge_env env) workDir N (FPSDen vi) fs1 = Ok fs3 ->
  ProcessChunked env inputPath tempDir outputPath audioStreams fs =
    let '(fs5, muxErr) := MuxFinal (mux_env env) inputPath workDir outputPath audioStreams
                            (audio_file workDir audioStreams fs3) in
    (cleanup_if_output outputPath workDir fs5,
     match muxErr with Some e => Err (ErrFinalMux e) | None => Ok (detected env) end).
Proof.
  intros Hm. unfold ProcessChunked. rewrite Hmk. cbn [negb]. unfold pc_body. rewrite Hidx, Hvi, Hsf, Hls.
  cbn [negb]. unfold pc_finish. pose proof Henc as He.
  destruct (crop_offsets (detected env)) as [h v]. cbn [fst snd] in He. rewrite He.
  unfold merge_phase in Hm. fold N workDir.
  destruct (if 500 <? N then _ else _) as [fs2|e]; cbn [result_bind] in Hm; [|done].
  rewrite Hm, audio_done_ok by exact Hext. cbn iota.
  by destruct (MuxFinal _ _ _ _ _ _) as [fs5 [e|]].
Qed.

(** A merged video of [bits] and a successful mux leave the muxed output
    and no work directory. *)
Lemma pc_mux_success fs3 bits :
  fs3 !! GetVideoPath workDir = Some (Bits bits) ->
  (forall args, mux_ok (mux_env env) args = true) -> ~ workDir `prefix_of` outputPath ->
  exists fs', (let '(fs5, muxErr) := MuxFinal (mux_env env) inputPath workDir outputPath audioStreams
                                       (audio_file workDir audioStreams fs3) in
               (cleanup_if_output outputPath workDir fs5,
                match muxErr with Some e => Err (ErrFinalMux e) | None => Ok (detected env) end))
              = (fs', Ok (detected env)) /\
    fs' !! outputPath = Some (Muxed bits (Index <$> audioStreams)) /\
    (forall p, workDir `prefix_of` p -> fs' !! p = None).
Proof.
  intros Hv Hmux Hout.
  rewrite (MuxFinal_ok _ _ _ _ _ _ bits); [|by rewrite audio_file_other by apply video_audio_ne | exact Hmux].
  eexists. split; [reflexivity|]. rewrite cleanup_inserted. unfold CleanupWorkDir. split.
  - rewrite remove_all_lookup, lookup_insert_eq by done. by rewrite audio_muxed.
  - intros p Hp. by apply remove_all_under.
Qed.

Section Complete.
(** The pool leaves the file of every chunk, and only those. *)
Hypothesis Hmerge : env_ok (merge_env env).
Hypothesis Hd : FPSDen vi <> 0.
Hypothesis HN : 1 <= N.
Hypothesis Hc : chunk_files workDir N fs1.
Hypothesis Ho : ivf_only workDir N fs1.

Lemma ProcessChunked_to_mux :
  exists fs3, fs3 !! GetVideoPath workDir = Some (Bits (seqZ 0 N)) /\ merge_frame workDir fs1 fs3 /\
  ProcessChunked env inputPath tempDir outputPath audioStreams fs =
    let '(fs5, muxErr) := MuxFinal (mux_env env) inputPath workDir outputPath audioStreams
                            (audio_file workDir audioStreams fs3) in
    (cleanup_if_output outputPath workDir fs5,
     match muxErr with Some e => Err (ErrFinalMux e) | None => Ok (detected env) end).
Proof.
  destruct (merge_phase_spec (merge_env env) workDir N (FPSDen vi) fs1 Hmerge Hd HN Hc Ho)
    as (fs3 & Hm & Hv & Hfr).
  exists fs3. split_and!; [exact Hv | exact Hfr | by apply pc_merged].
Qed.

(** C18: A run of [ProcessChunked] in which every step succeeds returns
    the detected crop, leaves at [outputPath] a file carrying chunks [0,
    1, ..., N-1] in order and every audio stream, and removes the work
    directory. *)
Theorem ProcessChunked_success :
  (forall args, mux_ok (mux_env env) args = true) -> ~ workDir `prefix_of` outputPath ->
  exists fs', ProcessChunked env inputPath tempDir outputPath audioStreams fs = (fs', Ok (detected env)) /\
    fs' !! outputPath = Some (Muxed (seqZ 0 N) (Index <$> audioStreams)) /\
    (forall p, workDir `prefix_of` p -> fs' !! p = None).
Proof.
  intros Hmux Hout. destruct ProcessChunked_to_mux as (fs3 & Hv & _ & ->).
  by apply pc_mux_success.
Qed.

(** C20: When the final mux fails after ffmpeg has created the output file,
    [ProcessChunked] returns the mux error but its deferred cleanup finds
    the partial output and removes the work directory with the resume log
    and the chunk files: the failed file cannot be resumed. *)
Theorem ProcessChunked_mux_failure_loses_workdir :
  (forall args, mux_ok (mux_env env) args = false) -> mux_leaves_output (mux_env env) = true ->
  ~ workDir `prefix_of` outputPath ->
  exists fs', ProcessChunked env inputPath tempDir outputPath audioStreams fs = (fs', Err (ErrFinalMux ErrMux)) /\
    fs' !! outputPath = Some Partial /\ (forall p, workDir `prefix_of` p -> fs' !! p = None).
Proof.
  intros Hmux Hleft Hout. destruct ProcessChunked_to_mux as (fs3 & Hv & _ & ->).
  rewrite (MuxFinal_fails _ _ _ _ _ _ (Bits (seqZ 0 N))); [|by rewrite audio_file_other by apply video_audio_ne | exact Hmux].
  rewrite Hleft. eexists. split; [reflexivity|]. rewrite cleanup_inserted. unfold CleanupWorkDir. split.
  - by rewrite remove_all_lookup, lookup_insert_eq by done.
  - intros p Hp. by apply remove_all_under.
Qed.

End Complete.

Section Cancelled.
(** The pool was cancelled: it returned no error ([Henc]), as [EncodeAll]
    does when only its dispatcher saw the cancellation, but left the
    files of the first [K] chunks only.  The plan has at most 500 chunks,
    so the merge globs the files present. *)
Variable K : Z.
Hypothesis Hmerge : env_ok (merge_env env).
Hypothesis Hd : FPSDen vi <> 0.
Hypothesis HK : 1 <= K <= N.
Hypothesis HN500 : N <= 500.
Hypothesis Hc : chunk_files workDir K fs1.
Hypothesis Ho : ivf_only workDir K fs1.

(** C21: a cancelled pool that returns no error lets [ProcessChunked]
    report success with an incomplete output: for every plan of at most
    500 chunks of which the pool left only the first [K], the pipeline
    merges those [K] chunks, muxes them into [outputPath], returns the
    detected crop with no error and removes the work directory with the
    resume log. *)
Theorem ProcessChunked_cancelled_pool_muxes_incomplete :
  (forall args, mux_ok (mux_env env) args = true) -> ~ workDir `prefix_of` outputPath ->
  exists fs', ProcessChunked env inputPath tempDir outputPath audioStreams fs = (fs', Ok (detected env)) /\
    fs' !! outputPath = Some (Muxed (seqZ 0 K) (Index <$> audioStreams)) /\
    (forall p, workDir `prefix_of` p -> fs' !! p = None).
Proof.
  intros Hmux Hout.
  destruct (merge_phase_spec (merge_env env) workDir K (FPSDen vi) fs1 Hmerge Hd ltac:(lia) Hc Ho)
    as (fs3 & Hm & Hv & _).
  rewrite (pc_merged fs3); [by apply pc_mux_success|].
  unfold merge_phase in Hm |- *.
  rewrite (proj2 (Z.ltb_ge 500 K)) in Hm by lia. by rewrite (proj2 (Z.ltb_ge 500 N)) by lia.
Qed.

End Cancelled.

End Run.

(** ** Failed runs *)

(** No step before the mux writes [outputPath] when it lies outside the
    work directory and the pool does not write it either. *)
Lemma pc_body_output env inputPath w outputPath audioStreams fs fsb e :
  fs !! outputPath = None -> ~ w `prefix_of` outputPath ->
  (forall cs h v fs0, (encode_all env cs h v fs0).1 !! outputPath = fs0 !! outputPath) ->
  pc_body env inputPath w outputPath audioStreams fs = (fsb, Err e) ->
  (mux_leaves_output (mux_env env) = false \/ forall e', e <> ErrFinalMux e') ->
  fsb !! outputPath = None.
Proof.
  intros Hfs Hout Henc H Hm.
  assert (Ha : outputPath <> GetAudioPath w) by (apply not_eq_sym, under_ne, Hout).
  unfold pc_body in H. destruct (negb (index_ok env)); [by injection H as <- _|].
  destruct (vid_inf env) as [vi|]; [|by injection H as <- _].
  destruct (scene_file env) as [sf|]; [|by injection H as <- _].
  destruct (LoadScenes _ _) as [scenes|le]; [|by injection H as <- _].
  unfold pc_finish in H. destruct (crop_offsets _) as [h v].
  destruct (encode_all env _ h v fs) as [fs1 err] eqn:E1.
  assert (H1 : fs1 !! outputPath = None) by (by rewrite <- Hfs, <- (Henc (Chunkify scenes) h v fs), E1).
  destruct err as [pe|]; [injection H as <- _; by rewrite audio_done_frame|].
  destruct (if 500 <? _ then _ else _) as [fs2|me] eqn:E2; [|injection H as <- _; by rewrite audio_done_frame].
  assert (H2 : fs2 !! outputPath = None).
  { destruct (500 <? _); [by rewrite (MergeBatched_outside _ _ _ _ _ _ E2 Hout) | by injection E2 as <-]. }
  destruct (MergeOutput _ _ _ fs2) as [fs3|me] eqn:E3; [|injection H as <- _; by rewrite audio_done_frame].
  assert (H3 : fs3 !! outputPath = None) by (by rewrite (MergeOutput_outside _ _ _ _ _ _ E3 Hout)).
  destruct (audio_done _ _ _ _ fs3) as [fs4 aerr] eqn:E4.
  assert (H4 : fs4 !! outputPath = None)
    by (by rewrite <- H3, <- (audio_done_frame env inputPath w audioStreams fs3), E4).
  destruct aerr; [by injection H as <- _|].
  unfold MuxFinal in H. destruct (fs4 !! GetVideoPath w); [|by injection H as <- _].
  destruct (mux_ok _ _); [simplify_eq|]. destruct (mux_leaves_output _) eqn:EL.
  - injection H as <- <-. destruct Hm as [Hm|Hm]; [congruence | by destruct (Hm ErrMux)].
  - by injection H as <- _.
Qed.

(** ** What [ProcessChunked] leaves outside its work directory *)

(** Only the output path changes outside the work directory, when the
    pool does not write there either. *)
Lemma pc_body_frame env inputPath w outputPath audioStreams fs fsb r p :
  ~ w `prefix_of` p -> p <> outputPath ->
  (forall cs h v fs0, (encode_all env cs h v fs0).1 !! p = fs0 !! p) ->
  pc_body env inputPath w outputPath audioStreams fs = (fsb, r) -> fsb !! p = fs !! p.
Proof.
  intros Hp Hpo Henc H.
  assert (Ha : p <> GetAudioPath w) by (apply not_eq_sym, under_ne, Hp).
  unfold pc_body in H. destruct (negb (index_ok env)); [by injection H as <- _|].
  destruct (vid_inf env) as [vi|]; [|by injection H as <- _].
  destruct (scene_file env) as [sf|]; [|by injection H as <- _].
  destruct (LoadScenes _ _) as [scenes|le]; [|by injection H as <- _].
  unfold pc_finish in H. destruct (crop_offsets _) as [h v].
  destruct (encode_all env _ h v fs) as [fs1 err] eqn:E1.
  assert (H1 : fs1 !! p = fs !! p) by (by rewrite <- (Henc (Chunkify scenes) h v fs), E1).
  rewrite <- H1. clear H1.
  destruct err as [pe|]; [injection H as <- _; by rewrite audio_done_frame|].
  destruct (if 500 <? _ then _ else _) as [fs2|me] eqn:E2; [|injection H as <- _; by rewrite audio_done_frame].
  assert (H2 : fs2 !! p = fs1 !! p).
  { destruct (500 <? _); [by rewrite (MergeBatched_outside _ _ _ _ _ _ E2 Hp) | by injection E2 as <-]. }
  rewrite <- H2. clear H2.
  destruct (MergeOutput _ _ _ fs2) as [fs3|me] eqn:E3; [|injection H as <- _; by rewrite audio_done_frame].
  rewrite <- (MergeOutput_outside _ _ _ _ _ _ E3 Hp).
  rewrite <- (audio_done_frame env inputPath w audioStreams fs3 p Ha).
  destruct (audio_done _ _ _ _ fs3) as [fs4 aerr]. cbn [fst].
  destruct aerr; [by injection H as <- _|].
  unfold MuxFinal in H. destruct (fs4 !! GetVideoPath w); [|by injection H as <- _].
  destruct (mux_ok _ _); [|destruct (mux_leaves_output _)];
    injection H as <- _; rewrite ?lookup_insert_ne; congruence.
Qed.

(** A successful run leaves its output. *)
Lemma pc_body_Ok_output env inputPath w outputPath audioStreams fs fsb c :
  pc_body env inputPath w outputPath audioStreams fs = (fsb, Ok c) -> is_Some (fsb !! outputPath).
Proof.
  intros H. unfold pc_body, pc_finish, MuxFinal in H.
  repeat (case_match; simplify_eq/=; try done); rewrite lookup_insert_eq; by eexists.
Qed.

Lemma ProcessChunked_frame env inputPath tempDir outputPath audioStreams fs fs' r p :
  ~ GetWorkDirPath inputPath tempDir `prefix_of` p -> p <> outputPath ->
  (forall cs h v fs0, (encode_all env cs h v fs0).1 !! p = fs0 !! p) ->
  ProcessChunked env inputPath tempDir outputPath audioStreams fs = (fs', r) -> fs' !! p = fs !! p.
Proof.
  intros Hp Hpo Henc H. unfold ProcessChunked in H. cbv zeta in H.
  destruct (negb (mkdir_ok env)); [by injection H as <- _|].
  destruct (pc_body _ _ _ _ _ _) as [fsb r'] eqn:EB. injection H as <- _.
  unfold cleanup_if_output. case_bool_decide; [unfold CleanupWorkDir; rewrite remove_all_lookup by done|];
    exact (pc_body_frame _ _ _ _ _ _ _ _ _ Hp Hpo Henc EB).
Qed.

Lemma ProcessChunked_Ok_output env inputPath tempDir outputPath audioStreams fs fs' c :
  ~ GetWorkDirPath inputPath tempDir `prefix_of` outputPath ->
  ProcessChunked env inputPath tempDir outputPath audioStreams fs = (fs', Ok c) ->
  is_Some (fs' !! outputPath).
Proof.
  intros Hout H. unfold ProcessChunked in H. cbv zeta in H.
  destruct (negb (mkdir_ok env)); [done|].
  destruct (pc_body _ _ _ _ _ _) as [fsb r'] eqn:EB. injection H as <- ->.
  pose proof (pc_body_Ok_output _ _ _ _ _ _ _ _ EB) as Hs.
  unfold cleanup_if_output. case_bool_decide; [|done].
  unfold CleanupWorkDir. by rewrite remove_all_lookup.
Qed.

(** C19: A failed [ProcessChunked] keeps its work directory for a resumed
    run: when no output file existed and the pool does not write one,
    the deferred cleanup removes nothing on every error path but that of
    a mux that left a partial output. *)
Theorem ProcessChunked_failure_keeps_workdir env inputPath tempDir outputPath audioStreams fs fs' e :
  fs !! outputPath = None -> ~ GetWorkDirPath inputPath tempDir `prefix_of` outputPath ->
  (forall cs h v fs0, (encode_all env cs h v fs0).1 !! outputPath = fs0 !! outputPath) ->
  ProcessChunked env inputPath tempDir outputPath audioStreams fs = (fs', Err e) ->
  (mux_leaves_output (mux_env env) = false \/ forall e', e <> ErrFinalMux e') ->
  fs' !! outputPath = None /\
  (mkdir_ok env = true ->
   fs' = (pc_body env inputPath (GetWorkDirPath inputPath tempDir) outputPath audioStreams fs).1).
Proof.
  intros Hfs Hout Henc H Hm. unfold ProcessChunked in H. cbv zeta in H.
  destruct (mkdir_ok env); cbn [negb] in H; [|injection H as <- _; split; [done | discriminate]].
  destruct (pc_body _ _ _ _ _ _) as [fsb r] eqn:EB. injection H as <- ->.
  pose proof (pc_body_output _ _ _ _ _ _ _ _ Hfs Hout Henc EB Hm) as Hb.
  unfold cleanup_if_output. rewrite Hb, bool_decide_eq_false_2 by (intros [? ?]; done).
  split; [done|]. by intros _.
Qed.

(** ** Concrete runs *)

Definition in_mkv : str := s["in.mkv"].
Definition tmp_dir : path := [s["tmp"]].
Definition out_mkv : path := [s["out.mkv"]].
Definition demo_vi : VidInf := mkVidInf 24 1 48 1920 1080.
Definition demo_scenes : list Scene := [mkScene 0 24; mkScene 24 48].
Definition demo_work : path := GetWorkDirPath in_mkv tmp_dir.
Definition mux_all : MuxEnv := mkMuxEnv (fun _ => true) (fun _ => true) false.

(** The pool encodes every chunk it is given. *)
Definition encode_every (cs : list Chunk) (_ _ : Z) (fs : FS) : FS * option Pool.PoolErr :=
  (chunks_fs demo_work (Z.of_nat (length cs)) ∪ fs, None).

(** The pool is cancelled after chunk 0 and, as [Pool] shows it does,
    returns no error. *)
Definition encode_cancelled (cs : list Chunk) (_ _ : Z) (fs : FS) : FS * option Pool.PoolErr :=
  (<[IVFPath demo_work 0 := Bits [0]]> fs, None).

Definition demo_env (enc : list Chunk -> Z -> Z -> FS -> FS * option Pool.PoolErr) (mux : MuxEnv) : PCEnv :=
  mkPCEnv true true Crop.no_crop (Some demo_vi) (Some s["24"]) enc env_all mux.

Lemma demo_load : LoadScenes s["24"] (Frames demo_vi) = Ok demo_scenes.
Proof. vm_compute. reflexivity. Qed.

Lemma out_outside : ~ demo_work `prefix_of` out_mkv.
Proof. intros [k Hk]. apply (f_equal length) in Hk. rewrite length_app in Hk. cbn in Hk. lia. Qed.

Lemma ProcessChunked_success_witness :
  exists fs', ProcessChunked (demo_env encode_every mux_all) in_mkv tmp_dir out_mkv [] ∅ =
      (fs', Ok Crop.no_crop) /\
    fs' !! out_mkv = Some (Muxed (seqZ 0 2) []) /\ (forall p, demo_work `prefix_of` p -> fs' !! p = None).
Proof.
  destruct (chunks_fs_spec demo_work 2) as [Hc Ho].
  eapply (ProcessChunked_success (demo_env encode_every mux_all) in_mkv tmp_dir out_mkv [] ∅ _ demo_vi
            s["24"] demo_scenes); try reflexivity;
    first [exact env_all_ok | exact out_outside | (cbn; lia) | (rewrite map_union_empty; assumption)].
Defined.

Definition mux_partial : MuxEnv := mkMuxEnv (fun _ => true) (fun _ => false) true.
Definition mux_clean_failure : MuxEnv := mkMuxEnv (fun _ => true) (fun _ => false) false.

Lemma ProcessChunked_mux_failure_loses_workdir_witness :
  exists fs', ProcessChunked (demo_env encode_every mux_partial) in_mkv tmp_dir out_mkv [] ∅ =
      (fs', Err (ErrFinalMux ErrMux)) /\
    fs' !! out_mkv = Some Partial /\ (forall p, demo_work `prefix_of` p -> fs' !! p = None).
Proof.
  destruct (chunks_fs_spec demo_work 2) as [Hc Ho].
  eapply (ProcessChunked_mux_failure_loses_workdir (demo_env encode_every mux_partial) in_mkv tmp_dir
            out_mkv [] ∅ _ demo_vi s["24"] demo_scenes); try reflexivity;
    first [exact env_all_ok | exact out_outside | (cbn; lia) | (rewrite map_union_empty; assumption)].
Defined.

Lemma chunks_fs_outside w N p : ~ w `prefix_of` p -> chunks_fs w N !! p = None.
Proof.
  intros Hp. apply not_elem_of_list_to_map_1. rewrite <- list_fmap_compose.
  intros Hin. apply list_elem_of_fmap in Hin as (i & E & _). by apply (under_ne w [s["encode"]; IVFName i] p).
Qed.

Lemma encode_every_output cs h v fs0 : (encode_every cs h v fs0).1 !! out_mkv = fs0 !! out_mkv.
Proof.
  unfold encode_every. cbn [fst]. apply lookup_union_r, chunks_fs_outside, out_outside.
Qed.

Lemma demo_mux_fails :
  (ProcessChunked (demo_env encode_every mux_clean_failure) in_mkv tmp_dir out_mkv [] ∅).2 =
    Err (ErrFinalMux ErrMux).
Proof. vm_compute. reflexivity. Qed.

Lemma ProcessChunked_failure_keeps_workdir_witness :
  exists fs', ProcessChunked (demo_env encode_every mux_clean_failure) in_mkv tmp_dir out_mkv [] ∅ =
      (fs', Err (ErrFinalMux ErrMux)) /\
    fs' !! out_mkv = None /\
    (mkdir_ok (demo_env encode_every mux_clean_failure) = true ->
     fs' = (pc_body (demo_env encode_every mux_clean_failure) in_mkv demo_work out_mkv [] ∅).1).
Proof.
  pose proof demo_mux_fails as E.
  destruct (ProcessChunked _ _ _ _ _ _) as [fs' r] eqn:EP. cbn [snd] in E. subst r.
  exists fs'. split; [reflexivity|].
  exact (ProcessChunked_failure_keeps_workdir (demo_env encode_every mux_clean_failure) in_mkv tmp_dir
           out_mkv [] ∅ fs' (ErrFinalMux ErrMux) (lookup_empty out_mkv) out_outside encode_every_output EP
           (or_introl eq_refl)).
Defined.

(** The demo pool is cancelled after chunk 0 of 2 and returns no error;
    the output carries chunk 0 only. *)
Lemma ProcessChunked_cancelled_pool_muxes_incomplete_witness :
  exists fs', ProcessChunked (demo_env encode_cancelled mux_all) in_mkv tmp_dir out_mkv [] ∅ =
      (fs', Ok Crop.no_crop) /\
    fs' !! out_mkv = Some (Muxed (seqZ 0 1) []) /\ (forall p, demo_work `prefix_of` p -> fs' !! p = None).
Proof.
  destruct (chunks_fs_spec demo_work 1) as [Hc Ho].
  eapply (ProcessChunked_cancelled_pool_muxes_incomplete (demo_env encode_cancelled mux_all) in_mkv
            tmp_dir out_mkv [] ∅ _ demo_vi s["24"] demo_scenes); try reflexivity;
    first [exact env_all_ok | exact out_outside | exact Hc | exact Ho | (cbn; lia)
          | (split; vm_compute; discriminate) | (vm_compute; discriminate)].
Defined.

End Orchestrator.
