(* ===== verification/Videos.v ===== *)
(** * The batch loop: [ProcessVideos] in src/internal/processing/audio.go

    [ProcessVideos] walks the input files in order.  Before each file it
    stops if the context is cancelled; it skips a file whose output
    already exists or whose source cannot be probed; it runs
    [ProcessChunked] ([Orchestrator]) and, when that succeeds, validates
    the output ([Validation]) against the source's dimensions after crop
    ([Crop.GetOutputDimensions]), duration, HDR flag and audio track
    count, and records the file with its verdict.  The files share one
    file system ([Merge.FS]), threaded from file to file.

    What each file's probes, pool and validator see is an environment
    [FileEnv]; [util.ResolveOutputPath], [util.GetFilename] and the
    context are section variables.  Reporter calls, timings, sizes and
    the cool-down between files are not modelled; the function always
    returns a nil error, so the model returns the results only.

    The theorem shows that every file reported as encoded still has its
    output at the end of the batch: later files never overwrite it (they
    skip an existing output) and never remove it (their cleanup stays in
    their own work directory). *)

From Stdlib Require Import SpecFloat.
From stdpp Require Import strings.
From S2P Require Import Prelude GoText Chunk Resume Worker Admission Pool Crop Merge Mux Validation Orchestrator.
Import Chunk Merge Mux Orchestrator.

Module Videos.

(** ** Data *)

(** What [ProcessVideos] and the steps it calls read for one input. *)
Record FileEnv := mkFileEnv {
  source_props : option Validation.VideoProps;   (** [ffprobe.GetVideoProperties(inputPath)] *)
  source_hdr : option Validation.HDRInfo;        (** [mediainfo.GetMediaInfo], then [DetectHDR] *)
  audio_channels : list Z;                       (** [GetAudioChannels(inputPath)] *)
  audio_streams : list AudioStreamInfo;          (** [GetAudioStreamInfo(inputPath)] *)
  chunked_env : PCEnv;                           (** the external steps of [ProcessChunked] *)
  output_probe : Validation.ProbeEnv }.          (** the validator's probes of the output *)

(** The fields of [EncodeResult] this model tracks. *)
Record EncodeResult := mkEncodeResult { Filename : str; ValidationPassed : bool }.

Section Batch.
Variable ResolveOutputPath : str -> path -> str -> path.   (** [util.ResolveOutputPath] *)
Variable GetFilename : str -> str.                         (** [util.GetFilename] *)
Variable fmt1 : spec_float -> str.                         (** [fmt]'s [%.1f] *)
Variable tempDir outputDir : path.                         (** [cfg.GetTempDir()], [cfg.OutputDir] *)
Variable cancelled : nat -> bool.     (** [ctx.Err() != nil] before the file of this index *)
Variable file_env : str -> FileEnv.

(** [override := targetFilenameOverride] for a single file only. *)
Definition override_for (nfiles : nat) (targetFilenameOverride : str) : str :=
  if (nfiles =? 1)%nat && negb (bool_decide (targetFilenameOverride = [])) then targetFilenameOverride
  else [].

(** The validator's options: the dimensions after crop, the source's
    duration and HDR flag, and the number of audio channels' entries. *)
Definition expected_options (vp : Validation.VideoProps) (hdr : Validation.HDRInfo)
    (audioChannels : list Z) (cropResult : Crop.CropResult) : Validation.Options :=
  let '(expectedWidth, expectedHeight) :=
    Crop.GetOutputDimensions (Validation.Width vp) (Validation.Height vp) (Crop.CropFilter cropResult) in
  Validation.mkOptions (Some (expectedWidth, expectedHeight)) (Some (Validation.DurationSecs vp))
    (Some (Validation.IsHDR hdr)) (Some (Z.of_nat (length audioChannels))) [].

(** [validationPassed]: false on a validator error, else [IsValid()]. *)
Definition validation_passed (env : FileEnv) (opts : Validation.Options) : bool :=
  match Validation.ValidateOutputVideo fmt1 (output_probe env) opts with
  | Err _ => false
  | Ok r => Validation.ResultIsValid r
  end.

(** One iteration of the loop, after the cancellation check. *)
Definition process_file (override : str) (inputPath : str) (fs : FS) : FS * option EncodeResult :=
  let env := file_env inputPath in
  let outputPath := ResolveOutputPath inputPath outputDir override in
  if bool_decide (is_Some (fs !! outputPath)) then (fs, None) else
  match source_props env with
  | None => (fs, None)
  | Some vp =>
  match source_hdr env with
  | None => (fs, None)
  | Some hdr =>
  let '(fs1, r) := ProcessChunked (chunked_env env) inputPath tempDir outputPath (audio_streams env) fs in
  match r with
  | Err _ => (fs1, None)
  | Ok cropResult =>
      (fs1, Some (mkEncodeResult (GetFilename inputPath)
                   (validation_passed env (expected_options vp hdr (audio_channels env) cropResult))))
  end end end.

(** [for fileIdx, inputPath := range filesToProcess]. *)
Fixpoint process_files (override : str) (fileIdx : nat) (files : list str) (fs : FS)
  : FS * list EncodeResult :=
  match files with
  | [] => (fs, [])
  | inputPath :: rest =>
      if cancelled fileIdx then (fs, []) else
      let '(fs1, r) := process_file override inputPath fs in
      let '(fs2, rs) := process_files override (S fileIdx) rest fs1 in
      (fs2, option_list r ++ rs)
  end.

(** [func ProcessVideos(ctx, cfg, filesToProcess []string,
    targetFilenameOverride string, rep) ([]EncodeResult, error)] *)
Definition ProcessVideos (files : list str) (targetFilenameOverride : str) (fs : FS)
  : FS * list EncodeResult :=
  process_files (override_for (length files) targetFilenameOverride) 0 files fs.

End Batch.

(** ** Reported outputs persist *)

Section Outputs.
Context (ResolveOutputPath : str -> path -> str -> path) (GetFilename : str -> str)
        (fmt1 : spec_float -> str) (tempDir outputDir : path) (cancelled : nat -> bool)
        (file_env : str -> FileEnv).

(** No output path lies inside a work directory, and the pool of every
    file writes only inside its own work directory. *)
Hypothesis Hsep : forall inp inp' ov,
  ~ GetWorkDirPath inp' tempDir `prefix_of` ResolveOutputPath inp outputDir ov.
Hypothesis Henc : forall inp cs h v fs0 p,
  (forall inp', ~ GetWorkDirPath inp' tempDir `prefix_of` p) ->
  (encode_all (chunked_env (file_env inp)) cs h v fs0).1 !! p = fs0 !! p.

Let pf := process_file ResolveOutputPath GetFilename fmt1 tempDir outputDir file_env.
Let pfs := process_files ResolveOutputPath GetFilename fmt1 tempDir outputDir cancelled file_env.

Lemma process_file_keeps ov inp fs q :
  (forall inp', ~ GetWorkDirPath inp' tempDir `prefix_of` q) ->
  is_Some (fs !! q) -> is_Some ((pf ov inp fs).1 !! q).
Proof.
  intros Hq Hs. unfold pf, process_file. case_bool_decide; [done|].
  destruct (source_props _); [|done]. destruct (source_hdr _); [|done].
  destruct (ProcessChunked _ _ _ _ _ _) as [fs1 r] eqn:E.
  assert (Hne : q <> ResolveOutputPath inp outputDir ov) by (intros ->; done).
  rewrite <- (ProcessChunked_frame _ _ _ _ _ _ _ _ q (Hq inp) Hne
                (fun cs h v fs0 => Henc inp cs h v fs0 q Hq) E) in Hs.
  by destruct r.
Qed.

Lemma process_file_reported ov inp fs fs1 r :
  pf ov inp fs = (fs1, Some r) ->
  Filename r = GetFilename inp /\ is_Some (fs1 !! ResolveOutputPath inp outputDir ov).
Proof.
  unfold pf, process_file. case_bool_decide; [done|].
  destruct (source_props _); [|done]. destruct (source_hdr _); [|done].
  destruct (ProcessChunked _ _ _ _ _ _) as [fs2 [c|e]] eqn:E; [|done].
  intros [= <- <-]. split; [done|]. exact (ProcessChunked_Ok_output _ _ _ _ _ _ _ _ (Hsep _ _ _) E).
Qed.

Lemma process_files_keeps ov i files fs q :
  (forall inp', ~ GetWorkDirPath inp' tempDir `prefix_of` q) ->
  is_Some (fs !! q) -> is_Some ((pfs ov i files fs).1 !! q).
Proof.
  intros Hq. revert i fs. induction files as [|inp rest IH]; intros i fs Hs; cbn; [done|].
  destruct (cancelled i); [done|]. fold pf pfs.
  pose proof (process_file_keeps ov inp fs q Hq Hs) as H1.
  destruct (pf ov inp fs) as [fs1 r]. specialize (IH (S i) fs1 H1).
  by destruct (pfs ov (S i) rest fs1).
Qed.

Lemma process_files_reported ov i files fs fs' rs :
  pfs ov i files fs = (fs', rs) ->
  forall r, r ∈ rs -> exists inp, inp ∈ files /\ Filename r = GetFilename inp /\
    is_Some (fs' !! ResolveOutputPath inp outputDir ov).
Proof.
  revert i fs fs' rs. induction files as [|inp rest IH]; intros i fs fs' rs H r Hr; cbn in H.
  - injection H as _ <-. by apply not_elem_of_nil in Hr.
  - destruct (cancelled i); [injection H as _ <-; by apply not_elem_of_nil in Hr|].
    fold pf pfs in H. destruct (pf ov inp fs) as [fs1 o] eqn:E1.
    destruct (pfs ov (S i) rest fs1) as [fs2 rs2] eqn:E2. injection H as <- <-.
    apply elem_of_app in Hr as [Hr|Hr].
    + destruct o as [r'|]; [|by apply not_elem_of_nil in Hr]. apply list_elem_of_singleton in Hr as ->.
      destruct (process_file_reported ov inp fs fs1 r' E1) as [Hn Hs].
      exists inp. split; [apply list_elem_of_here|]. split; [done|].
      change fs2 with (fs2, rs2).1. rewrite <- E2. by apply process_files_keeps.
    + destruct (IH (S i) fs1 fs2 rs2 E2 r Hr) as (inp' & Hin & Hn & Hs).
      exists inp'. split; [by apply list_elem_of_further|]. done.
Qed.

(** C22: Every file [ProcessVideos] reports as encoded has its output at
    the end of the batch, whatever the later files do: a later file with
    the same output path is skipped, and a later file's merge, mux and
    cleanup only touch its own output and work directory. *)
Theorem ProcessVideos_outputs_exist files target fs fs' rs :
  ProcessVideos ResolveOutputPath GetFilename fmt1 tempDir outputDir cancelled file_env files target fs
    = (fs', rs) ->
  forall r, r ∈ rs -> exists inp, inp ∈ files /\ Filename r = GetFilename inp /\
    is_Some (fs' !! ResolveOutputPath inp outputDir (override_for (length files) target)).
Proof. apply process_files_reported. Qed.

End Outputs.

(** ** A concrete batch *)

Definition out_dir : path := [s["out"]].
Definition resolve (inputPath : str) (outputDir : path) (_ : str) : path := outputDir ++ [inputPath].
Definition demo_file_env (_ : str) : FileEnv :=
  mkFileEnv (Some (Validation.mkVideoProps 1920 1080 (GoFloat.of_Z 2) (Some 10)))
            (Some (Validation.mkHDRInfo false None)) [] [] (demo_env encode_every mux_all)
            Validation.env0.

Lemma resolve_outside inp inp' ov : ~ GetWorkDirPath inp' tmp_dir `prefix_of` resolve inp out_dir ov.
Proof. intros [k Hk]. discriminate Hk. Qed.

Lemma encode_every_outside inp cs h v fs0 p :
  (forall inp', ~ GetWorkDirPath inp' tmp_dir `prefix_of` p) ->
  (encode_all (chunked_env (demo_file_env inp)) cs h v fs0).1 !! p = fs0 !! p.
Proof. intros Hp. apply lookup_union_r, chunks_fs_outside, Hp. Qed.

Lemma demo_batch_reports :
  length (ProcessVideos resolve id Validation.fmt0 tmp_dir out_dir (fun _ => false) demo_file_env
            [in_mkv] [] ∅).2 = 1%nat.
Proof. vm_compute. reflexivity. Qed.

Lemma ProcessVideos_outputs_exist_witness :
  exists fs' rs,
    ProcessVideos resolve id Validation.fmt0 tmp_dir out_dir (fun _ => false) demo_file_env [in_mkv] [] ∅
      = (fs', rs) /\ length rs = 1%nat /\
    (forall r, r ∈ rs -> exists inp, inp ∈ [in_mkv] /\ Filename r = id inp /\
       is_Some (fs' !! resolve inp out_dir (override_for (length [in_mkv]) []))).
Proof.
  pose proof demo_batch_reports as Hl.
  destruct (ProcessVideos _ _ _ _ _ _ _ _ _ _) as [fs' rs] eqn:E.
  exists fs', rs. split; [reflexivity|]. split; [exact Hl|].
  exact (ProcessVideos_outputs_exist resolve id Validation.fmt0 tmp_dir out_dir (fun _ => false)
           demo_file_env resolve_outside encode_every_outside [in_mkv] [] ∅ fs' rs E).
Defined.

End Videos.
