(* ===== verification/Report.v ===== *)
(** * Reporters and events: src/unnamed/part_003 (package reporter),
    src/events.go and the event adapter of src/unnamed/part_007

    Every stage of reel reports through [reporter.Reporter], an interface
    with one method per kind of event.  Here an event is a value of
    [Event] (one constructor per method, with the payload the reporters
    read) and a reporter is an instance of the class [Reporter]: a state
    and a [report] function returning the next state and what the call
    outputs.  The instances are the code's reporters:
    - [null_reporter]: [reporter.NullReporter], which ignores everything;
    - [log_reporter]: [LogReporter], whose state is [lastProgressBucket]
      and whose output is the log lines, as (level, message) pairs;
    - [terminal_reporter]: the progress bar of [TerminalReporter]
      ([progress], [maxPercent]); the output is what is done to the bar;
    - [event_reporter]: [eventReporter] of the library, which turns the
      events into the public [Event] values of events.go passed to the
      caller's [EventHandler];
    - [composite_reporter]: [reporter.NewCompositeReporter] (not under
      src/; modelled from its use in cmd/reel), which forwards every
      event to two reporters in order.

    [summary] is the end of [processing.ProcessVideos]: the event it
    reports for the whole batch, by the number of files encoded.

    Float text ([%.0f], [%.1f]), [util.FormatBytesReadable],
    [util.FormatDurationFromSecs] and [util.CalculateSizeReduction] are
    not under src/: they are section variables.  Timestamps and colours
    are not modelled. *)

From Stdlib Require Import SpecFloat.
From stdpp Require Import strings.
From S2P Require Import Prelude GoText Admission Videos.

Module Report.

(** ** Payloads *)

(** [ProgressSnapshot]: [ETA] as the whole seconds [int64(ETA.Seconds())]
    that every reporter prints. *)
Record ProgressSnapshot := mkProgressSnapshot {
  Percent : spec_float; Speed : spec_float; FPS : spec_float; ETASecs : Z;
  ChunksComplete : Z; ChunksTotal : Z }.

Record ValidationStep := mkValidationStep { StepName : str; StepPassed : bool; StepDetails : str }.
Record ValidationSummary := mkValidationSummary { Passed : bool; Steps : list ValidationStep }.

Record InitializationSummary := mkInitializationSummary {
  InputFile : str; IOutputFile : str; Duration : str; Resolution : str;
  DynamicRange : str; AudioDescription : str }.

Record CropSummary := mkCropSummary { CMessage : str; Crop : str; Required : bool; Disabled : bool }.

Record EncodingConfigSummary := mkEncodingConfigSummary {
  Encoder : str; Preset : str; Tune : str; Quality : str; PixelFormat : str;
  MatrixCoefficients : str; AudioCodec : str; CAudioDescription : str; SVTAV1Params : str }.

Record EncodingOutcome := mkEncodingOutcome {
  OInputFile : str; OutputFile : str; OriginalSize : Z; EncodedSize : Z;
  VideoStream : str; AudioStream : str; TotalTimeSecs : Z; AverageSpeed : spec_float;
  OutputPath : str }.

Record ReporterError := mkReporterError { Title : str; Message : str; Context : str; Suggestion : str }.

Record BatchStartInfo := mkBatchStartInfo { BTotalFiles : Z; FileList : list str; OutputDir : str }.

Record FileProgressContext := mkFileProgressContext { CurrentFile : Z; FTotalFiles : Z }.

Record FileResult := mkFileResult { RFilename : str; Reduction : spec_float }.

Record BatchSummary := mkBatchSummary {
  SuccessfulCount : Z; TotalFiles : Z; TotalOriginalSize : Z; TotalEncodedSize : Z;
  TotalDurationSecs : Z; BAverageSpeed : spec_float; FileResults : list FileResult;
  ValidationPassedCount : Z; ValidationFailedCount : Z }.

(** ** Events: the methods of [reporter.Reporter] *)

Inductive Event :=
  | Hardware (hostname : str)
  | Initialization (s : InitializationSummary)
  | StageProgress (stage message : str)
  | CropResult (s : CropSummary)
  | EncodingConfig (s : EncodingConfigSummary)
  | EncodingStarted (totalFrames : Z)
  | EncodingProgress (p : ProgressSnapshot)
  | ValidationComplete (s : ValidationSummary)
  | EncodingComplete (s : EncodingOutcome)
  | Warning (message : str)
  | Error (e : ReporterError)
  | OperationComplete (message : str)
  | BatchStarted (info : BatchStartInfo)
  | FileProgress (c : FileProgressContext)
  | BatchComplete (s : BatchSummary)
  | Verbose (message : str).

(** A reporter: its state and, for each method call, the next state and
    what the call outputs. *)
Class Reporter (S O : Type) := report : S -> Event -> S * list O.

(** A sequence of calls, in order. *)
Fixpoint run {S O} `{Reporter S O} (s : S) (evs : list Event) : S * list O :=
  match evs with
  | [] => (s, [])
  | e :: evs' =>
      let '(s1, o1) := report s e in
      let '(s2, o2) := run s1 evs' in
      (s2, o1 ++ o2)
  end.

(** ** [NullReporter] *)

#[export] Instance null_reporter : Reporter unit Empty_set := fun s _ => (s, []).

(** ** [CompositeReporter]: both reporters, the first one first *)

#[export] Instance composite_reporter {S1 O1 S2 O2} `{Reporter S1 O1} `{Reporter S2 O2}
  : Reporter (S1 * S2) (O1 + O2) :=
  fun s e =>
    let '(s1, o1) := report s.1 e in
    let '(s2, o2) := report s.2 e in
    ((s1, s2), (inl <$> o1) ++ (inr <$> o2)).

(** ** [float32] *)

(** A [float32] constant: [binary32] is precision 24, [emax] 128. *)
Definition f32_of_Z (z : Z) : spec_float := binary_normalize 24 128 z 0 false.
Definition f32_div : spec_float -> spec_float -> spec_float := SFdiv 24 128.

(** [strings.ToUpper] on ASCII text. *)
Definition upper_char (c : ascii) : ascii :=
  if (97 <=? N_of_ascii c)%N && (N_of_ascii c <=? 122)%N then ascii_of_N (N_of_ascii c - 32) else c.
Definition to_upper (s : str) : str := map upper_char s.

(** ** [LogReporter] *)

(** A line of the log: its level and its message. *)
Definition LogLine : Type := str * str.
Definition info (m : str) : LogLine := (s["INFO"], m).

(** [if x != "" { r.log(...) }] *)
Definition if_nonempty (x : str) (l : LogLine) : list LogLine :=
  match x with [] => [] | _ => [l] end.

(** [NewLogReporter]: [lastProgressBucket: -1]. *)
Definition NewLogReporter : Z := -1.

(** [bucket := int(progress.Percent / 5)], a [float32] division. *)
Definition bucket (percent : spec_float) : Z := GoFloat.trunc (f32_div percent (f32_of_Z 5)).

Section Log.
Variable fmt0 fmt1 : spec_float -> str.                 (** [%.0f], [%.1f] *)
Variable FormatDurationFromSecs : Z -> str.             (** [util.FormatDurationFromSecs] *)
Variable FormatBytesReadable : Z -> str.                (** [util.FormatBytesReadable] *)
Variable CalculateSizeReduction : Z -> Z -> spec_float. (** [util.CalculateSizeReduction] *)

(** [func (r *LogReporter) EncodingProgress(progress ProgressSnapshot)]:
    a line at each new 5% bucket up to 100%. *)
Definition log_progress (lastProgressBucket : Z) (p : ProgressSnapshot) : Z * list LogLine :=
  let b := bucket (Percent p) in
  if (lastProgressBucket <? b) && (b <=? 20) then
    (b, [info (s["Progress: "] ++ fmt0 (Percent p) ++ s["% (speed "] ++ fmt1 (Speed p)
               ++ s["x, fps "] ++ fmt1 (FPS p) ++ s[", eta "] ++ FormatDurationFromSecs (ETASecs p)
               ++ s[")"])])
  else (lastProgressBucket, []).

Definition step_line (st : ValidationStep) : LogLine :=
  info (s["  - "] ++ StepName st ++ s[": "] ++ (if StepPassed st then s["ok"] else s["FAILED"])
        ++ s[" ("] ++ StepDetails st ++ s[")"]).

(** The methods of [LogReporter], one branch each. *)
Definition log_report (lastProgressBucket : Z) (e : Event) : Z * list LogLine :=
  match e with
  | Hardware h => (lastProgressBucket, [info s["=== HARDWARE ==="]; info (s["Hostname: "] ++ h)])
  | Initialization i =>
      (lastProgressBucket,
       [info s["=== VIDEO ==="]; info (s["Input: "] ++ InputFile i);
        info (s["Output: "] ++ IOutputFile i); info (s["Duration: "] ++ Duration i);
        info (s["Resolution: "] ++ Resolution i); info (s["Dynamic range: "] ++ DynamicRange i);
        info (s["Audio: "] ++ AudioDescription i)])
  | StageProgress stage message =>
      (lastProgressBucket, [info (s["["] ++ to_upper stage ++ s["] "] ++ message)])
  | CropResult c =>
      (lastProgressBucket,
       [if Disabled c then info s["Crop detection: disabled"]
        else if Required c then info (s["Crop detection: "] ++ CMessage c ++ s[" ("] ++ Crop c ++ s[")"])
        else info (s["Crop detection: "] ++ CMessage c ++ s[" (no crop needed)"])])
  | EncodingConfig c =>
      (lastProgressBucket,
       [info s["=== ENCODING CONFIG ==="]; info (s["Encoder: "] ++ Encoder c);
        info (s["Preset: "] ++ Preset c); info (s["Tune: "] ++ Tune c);
        info (s["Quality: "] ++ Quality c); info (s["Pixel format: "] ++ PixelFormat c);
        info (s["Matrix: "] ++ MatrixCoefficients c); info (s["Audio codec: "] ++ AudioCodec c);
        info (s["Audio: "] ++ CAudioDescription c)]
       ++ if_nonempty (SVTAV1Params c) (info (s["SVT params: "] ++ SVTAV1Params c)))
  | EncodingStarted totalFrames =>
      (-1, [info (s["=== ENCODING STARTED === (total frames: "] ++ format_Z totalFrames ++ s[")"])])
  | EncodingProgress p => log_progress lastProgressBucket p
  | ValidationComplete v =>
      (lastProgressBucket,
       [info s["=== VALIDATION ==="];
        if Passed v then info s["Result: PASSED"] else (s["WARN"], s["Result: FAILED"])]
       ++ map step_line (Steps v))
  | EncodingComplete o =>
      (lastProgressBucket,
       [info s["=== RESULTS ==="]; info (s["Output: "] ++ OutputFile o);
        info (s["Size: "] ++ FormatBytesReadable (OriginalSize o) ++ s[" -> "]
              ++ FormatBytesReadable (EncodedSize o) ++ s[" ("]
              ++ fmt1 (CalculateSizeReduction (OriginalSize o) (EncodedSize o)) ++ s["% reduction)"]);
        info (s["Video: "] ++ VideoStream o); info (s["Audio: "] ++ AudioStream o);
        info (s["Time: "] ++ FormatDurationFromSecs (TotalTimeSecs o) ++ s[" (avg speed "]
              ++ fmt1 (AverageSpeed o) ++ s["x)"]);
        info (s["Saved to: "] ++ OutputPath o)])
  | Warning m => (lastProgressBucket, [(s["WARN"], m)])
  | Error err =>
      (lastProgressBucket,
       [(s["ERROR"], Title err ++ s[": "] ++ Message err)]
       ++ if_nonempty (Context err) (s["ERROR"], s["  Context: "] ++ Context err)
       ++ if_nonempty (Suggestion err) (s["ERROR"], s["  Suggestion: "] ++ Suggestion err))
  | OperationComplete m => (lastProgressBucket, [info (s["=== COMPLETE === "] ++ m)])
  | BatchStarted b =>
      (lastProgressBucket,
       [info s["=== BATCH STARTED ==="];
        info (s["Processing "] ++ format_Z (BTotalFiles b) ++ s[" files -> "] ++ OutputDir b)]
       ++ imap (fun i name => info (s["  "] ++ format_Z (Z.of_nat i + 1) ++ s[". "] ++ name)) (FileList b))
  | FileProgress c =>
      (lastProgressBucket,
       [info (s["--- File "] ++ format_Z (CurrentFile c) ++ s[" of "] ++ format_Z (FTotalFiles c) ++ s[" ---"])])
  | BatchComplete b =>
      (lastProgressBucket,
       [info s["=== BATCH COMPLETE ==="];
        info (format_Z (SuccessfulCount b) ++ s[" of "] ++ format_Z (TotalFiles b) ++ s[" succeeded"]);
        info (s["Validation: "] ++ format_Z (ValidationPassedCount b) ++ s[" passed, "]
              ++ format_Z (ValidationFailedCount b) ++ s[" failed"]);
        info (s["Size: "] ++ FormatBytesReadable (TotalOriginalSize b) ++ s[" -> "]
              ++ FormatBytesReadable (TotalEncodedSize b) ++ s[" ("]
              ++ fmt1 (CalculateSizeReduction (TotalOriginalSize b) (TotalEncodedSize b))
              ++ s["% reduction)"]);
        info (s["Time: "] ++ FormatDurationFromSecs (TotalDurationSecs b) ++ s[" (avg speed "]
              ++ fmt1 (BAverageSpeed b) ++ s["x)"])]
       ++ map (fun r => info (s["  - "] ++ RFilename r ++ s[" ("] ++ fmt1 (Reduction r) ++ s["% reduction)"]))
              (FileResults b))
  | Verbose m => (lastProgressBucket, [(s["DEBUG"], m)])
  end.

End Log.

#[export] Instance log_reporter fmt0 fmt1 fd fb csr : Reporter Z LogLine :=
  log_report fmt0 fmt1 fd fb csr.

(** ** [TerminalReporter]: the progress bar *)

(** [progress *progressbar.ProgressBar] (its value, [None] for [nil])
    and [maxPercent float32]. *)
Record TermState := mkTermState { progress : option Z; maxPercent : spec_float }.

(** What a call does to the bar. *)
Inductive BarOp := BarSet (v : Z) | BarFinish.

(** [NewTerminalReporterVerbose]: no bar, [maxPercent] zero. *)
Definition NewTerminalReporter : TermState := mkTermState None (f32_of_Z 0).

(** [func (r *TerminalReporter) finishProgress()] *)
Definition finishProgress (st : TermState) : TermState * list BarOp :=
  (mkTermState None (f32_of_Z 0), match progress st with Some _ => [BarFinish] | None => [] end).

(** [clamped := progress.Percent], then the two [if]s. *)
Definition clamp (percent : spec_float) : spec_float :=
  let clamped := if SFltb (f32_of_Z 100) percent then f32_of_Z 100 else percent in
  if SFltb clamped (f32_of_Z 0) then f32_of_Z 0 else clamped.

(** [func (r *TerminalReporter) EncodingProgress(progress ProgressSnapshot)]:
    the bar moves only forward ([clamped >= r.maxPercent]). *)
Definition term_progress (st : TermState) (p : ProgressSnapshot) : TermState * list BarOp :=
  match progress st with
  | None => (st, [])
  | Some _ =>
      let clamped := clamp (Percent p) in
      if SFleb (maxPercent st) clamped then
        (mkTermState (Some (GoFloat.trunc clamped)) clamped, [BarSet (GoFloat.trunc clamped)])
      else (st, [])
  end.

(** The methods of [TerminalReporter] that touch the bar: a new bar at
    [EncodingStarted], [finishProgress] at [ValidationComplete]; the
    others only print. *)
Definition term_report (st : TermState) (e : Event) : TermState * list BarOp :=
  match e with
  | EncodingStarted _ =>
      let '(st1, o) := finishProgress st in (mkTermState (Some 0) (maxPercent st1), o)
  | EncodingProgress p => term_progress st p
  | ValidationComplete _ => finishProgress st
  | _ => (st, [])
  end.

#[export] Instance terminal_reporter : Reporter TermState BarOp := term_report.

(** ** The library's [eventReporter] and the public events *)

(** The event values of events.go ([BaseEvent]'s timestamp left out). *)
Inductive PublicEvent :=
  | EncodingProgressEvent (percent speed fps : spec_float) (etaSeconds : Z)
  | ValidationCompleteEvent (validationPassed : bool) (validationSteps : list ValidationStep)
  | EncodingCompleteEvent (outputFile : str) (originalSize encodedSize : Z)
      (sizeReductionPercent : spec_float)
  | WarningEvent (message : str)
  | ErrorEvent (title message context suggestion : str)
  | BatchCompleteEvent (successfulCount totalFiles : Z) (totalSizeReductionPercent : spec_float).

(** [Type()]: the [EventType*] constant each event carries. *)
Definition EventType (e : PublicEvent) : str :=
  match e with
  | EncodingProgressEvent _ _ _ _ => s["encoding_progress"]
  | ValidationCompleteEvent _ _ => s["validation_complete"]
  | EncodingCompleteEvent _ _ _ _ => s["encoding_complete"]
  | WarningEvent _ => s["warning"]
  | ErrorEvent _ _ _ _ => s["error"]
  | BatchCompleteEvent _ _ _ => s["batch_complete"]
  end.

(** The methods of [eventReporter]: six of them call the handler, the
    others do nothing.  The handler's error is discarded ([_ =]). *)
Definition event_report (CalculateSizeReduction : Z -> Z -> spec_float) (u : unit) (e : Event)
  : unit * list PublicEvent :=
  (u, match e with
      | EncodingProgress p => [EncodingProgressEvent (Percent p) (Speed p) (FPS p) (ETASecs p)]
      | ValidationComplete v => [ValidationCompleteEvent (Passed v) (Steps v)]
      | EncodingComplete o =>
          [EncodingCompleteEvent (OutputFile o) (OriginalSize o) (EncodedSize o)
             (CalculateSizeReduction (OriginalSize o) (EncodedSize o))]
      | Warning m => [WarningEvent m]
      | Error err => [ErrorEvent (Title err) (Message err) (Context err) (Suggestion err)]
      | BatchComplete b =>
          [BatchCompleteEvent (SuccessfulCount b) (TotalFiles b)
             (CalculateSizeReduction (TotalOriginalSize b) (TotalEncodedSize b))]
      | _ => []
      end).

#[export] Instance event_reporter csr : Reporter unit PublicEvent := event_report csr.

(** ** The batch summary of [ProcessVideos] *)

Section Summary.
(** What the results carry beyond [Videos.EncodeResult]: the sizes
    ([util.GetFileSize]) and the timing totals of the batch. *)
Variable InputSize OutputSize : Videos.EncodeResult -> Z.
Variable timing : list Videos.EncodeResult -> Z * spec_float.   (** [totalDuration], [avgSpeed] *)
Variable CalculateSizeReduction : Z -> Z -> spec_float.

(** [totalOriginalSize += r.InputSize]: a [uint64] sum. *)
Definition sum_u64 (l : list Z) : Z := fold_left (fun acc x => wrap_u64 (acc + x)) l 0.

Definition validation_passed_count (results : list Videos.EncodeResult) : Z :=
  Z.of_nat (length (filter (fun r => Videos.ValidationPassed r = true) results)).

(** [switch len(results)] at the end of [ProcessVideos]. *)
Definition summary (results : list Videos.EncodeResult) (nfiles : Z) : list Event :=
  match results with
  | [] => [Warning s["No files were successfully encoded"]]
  | [r] => [OperationComplete (s["Successfully encoded "] ++ Videos.Filename r)]
  | _ =>
      let vpc := validation_passed_count results in
      [BatchComplete
         (mkBatchSummary (Z.of_nat (length results)) nfiles
            (sum_u64 (map InputSize results)) (sum_u64 (map OutputSize results))
            (timing results).1 (timing results).2
            (map (fun r => mkFileResult (Videos.Filename r)
                             (CalculateSizeReduction (InputSize r) (OutputSize r))) results)
            vpc (Z.of_nat (length results) - vpc))]
  end.
End Summary.

(** ** Lemmas *)

Lemma run_cons {S O} `{Reporter S O} s e evs :
  run s (e :: evs) = let '(s1, o1) := report s e in let '(s2, o2) := run s1 evs in (s2, o1 ++ o2).
Proof. done. Qed.

(** A line of the log as a reader finds the progress lines: level INFO,
    message starting with [Progress: ]. *)
Definition is_progress_line (l : LogLine) : bool :=
  match strip_prefix s["INFO"] l.1, strip_prefix s["Progress: "] l.2 with
  | Some [], Some _ => true
  | _, _ => false
  end.

(** The number of [EncodingStarted] calls. *)
Definition is_started (e : Event) : bool := match e with EncodingStarted _ => true | _ => false end.
Definition started (evs : list Event) : nat := length (filter (fun e => is_started e = true) evs).

Lemma strip_prefix_format_Z c p z r :
  c <> "-"%char -> ~ (48 <= N_of_ascii c <= 57)%N -> strip_prefix (c :: p) (format_Z z ++ r) = None.
Proof.
  intros Hm Hd. pose proof (format_Z_avoids c z Hm Hd) as Hf.
  destruct (format_Z z) as [|d w] eqn:E; [by destruct (format_Z_nonempty z)|].
  apply Forall_cons in Hf as [Hcd _]. cbn. by destruct (ascii_dec c d).
Qed.

Lemma strip_progress_format_Z z r : strip_prefix s["Progress: "] (format_Z z ++ r) = None.
Proof. apply strip_prefix_format_Z; [done | cbn; lia]. Qed.

Lemma filter_progress_nil (l : list LogLine) :
  Forall (fun x => is_progress_line x = false) l -> filter is_progress_line l = [].
Proof. induction 1 as [|x l Hx _ IH]; [done|]. rewrite filter_cons, IH, Hx. by destruct (decide _). Qed.

(** Splits a list of log lines into its lines. *)
Ltac no_progress :=
  repeat match goal with
  | |- Forall _ (_ ++ _) => apply Forall_app; split
  | |- Forall _ (_ :: _) => apply Forall_cons; split
  | |- Forall _ [] => constructor
  | |- Forall _ (map _ _) => apply Forall_map, Forall_forall; intros
  | |- Forall _ (imap _ _) => apply Forall_forall; intros ? [? [? [-> _]]]%elem_of_lookup_imap_1
  end.

Lemma started_cons e evs : started (e :: evs) = ((if is_started e then 1 else 0) + started evs)%nat.
Proof. unfold started. rewrite filter_cons. by destruct (is_started e), (decide _). Qed.

Lemma event_progress_dec e : {p | e = EncodingProgress p} + (forall p, e <> EncodingProgress p).
Proof. destruct e; try (right; discriminate). left. by eexists. Qed.

Section LogProps.
Context (fmt0 fmt1 : spec_float -> str) (fd fb : Z -> str) (csr : Z -> Z -> spec_float).
Let lr := log_report fmt0 fmt1 fd fb csr.

Lemma log_progress_spec last p :
  let '(b, o) := log_progress fmt0 fmt1 fd last p in
  (b = last /\ o = []) \/ (last < b <= 20 /\ length (filter is_progress_line o) = 1%nat).
Proof.
  unfold log_progress. destruct (_ && _) eqn:E; [right | by left].
  apply andb_true_iff in E as [E1 E2]. apply Z.ltb_lt in E1. apply Z.leb_le in E2.
  split; [lia | done].
Qed.

(** Every call but [EncodingProgress] writes no progress line, and only
    [EncodingStarted] moves the bucket (back to -1). *)
Lemma log_report_other last e :
  (forall p, e <> EncodingProgress p) ->
  filter is_progress_line (lr last e).2 = [] /\
  ((lr last e).1 = last \/ (exists n, e = EncodingStarted n /\ (lr last e).1 = -1)).
Proof.
  intros Hp. destruct e; try by destruct (Hp p).
  all: split; [|first [by left | by right; eexists]].
  all: apply filter_progress_nil; cbn [lr log_report snd].
  all: repeat match goal with |- context [if_nonempty ?x _] => destruct x; cbn [if_nonempty] end.
  all: try destruct (Disabled _); try destruct (Required _); try destruct (Passed _).
  all: no_progress; first
    [ reflexivity
    | unfold is_progress_line, info; cbn [fst snd];
      rewrite strip_progress_format_Z; reflexivity ].
Qed.

Lemma log_run_bound evs last :
  -1 <= last <= 20 ->
  (length (filter is_progress_line (run (H := lr) last evs).2)
     <= Z.to_nat (20 - last) + 21 * started evs)%nat.
Proof.
  revert last. induction evs as [|e evs IH]; intros last Hl; cbn [run]; [cbn; lia|].
  rewrite started_cons.
  destruct (event_progress_dec e) as [[p ->]|Hne].
  - change (report last (EncodingProgress p)) with (log_progress fmt0 fmt1 fd last p).
    pose proof (log_progress_spec last p) as Hs.
    destruct (log_progress _ _ _ last p) as [b o]. destruct (run b evs) as [s2 o2] eqn:E.
    cbn -[Z.to_nat]. rewrite filter_app, length_app.
    destruct Hs as [[-> ->] | [Hb Ho]].
    + specialize (IH last Hl). rewrite E in IH. cbn [snd] in IH |- *. rewrite filter_nil. cbn [length is_started]. lia.
    + specialize (IH b ltac:(lia)). rewrite E in IH. cbn [snd] in IH |- *. rewrite Ho.
      cbn [is_started]. lia.
  - destruct (log_report_other last e Hne) as [Hf Hs].
    change (report last e) with (lr last e).
    destruct (lr last e) as [s1 o1] eqn:E1. destruct (run s1 evs) as [s2 o2] eqn:E2.
    cbn in Hf, Hs |- *. rewrite filter_app, length_app, Hf. cbn.
    destruct Hs as [-> | [n [-> ->]]].
    + specialize (IH last Hl). rewrite E2 in IH. cbn [snd] in IH. destruct (is_started e); lia.
    + specialize (IH (-1) ltac:(lia)). rewrite E2 in IH. cbn [snd is_started] in IH |- *. lia.
Qed.
End LogProps.

Definition left_of {A B} (x : A + B) : option A := match x with inl a => Some a | inr _ => None end.
Definition right_of {A B} (x : A + B) : option B := match x with inl _ => None | inr b => Some b end.

Lemma omap_app {A B} (f : A -> option B) l1 l2 : omap f (l1 ++ l2) = omap f l1 ++ omap f l2.
Proof. induction l1 as [|x l1 IH]; cbn; [done|]. rewrite IH. by destruct (f x). Qed.

Lemma omap_fmap_some {A B C} (f : B -> option A) (g : C -> B) (l : list C) :
  (forall x, f (g x) = None) -> omap f (g <$> l) = [].
Proof. intros Hf. induction l as [|x l IH]; cbn; [done|]. by rewrite Hf. Qed.

Lemma omap_left_inl {A B} (l : list A) : omap (@left_of A B) (inl <$> l) = l.
Proof. induction l as [|x l IH]; cbn; by f_equal. Qed.

Lemma omap_right_inr {A B} (l : list B) : omap (@right_of A B) (inr <$> l) = l.
Proof. induction l as [|x l IH]; cbn; by f_equal. Qed.

Lemma composite_report {S1 O1 S2 O2} `{R1 : Reporter S1 O1} `{R2 : Reporter S2 O2} s1 s2 e :
  @report _ _ (@composite_reporter S1 O1 S2 O2 R1 R2) (s1, s2) e =
  (let '(t1, o1) := report s1 e in let '(t2, o2) := report s2 e in
   ((t1, t2), (inl <$> o1) ++ (inr <$> o2))).
Proof. reflexivity. Qed.

(** ** Properties *)

(** The composite reporter is transparent: what each of its two
    reporters outputs, over any sequence of calls, is exactly what it
    outputs on its own (the terminal and the log of the CLI are
    independent). *)
Theorem composite_reporter_projections {S1 O1 S2 O2} `{R1 : Reporter S1 O1} `{R2 : Reporter S2 O2}
    (s1 : S1) (s2 : S2) evs :
  omap left_of (run (s1, s2) evs).2 = (run s1 evs).2 /\
  omap right_of (run (s1, s2) evs).2 = (run s2 evs).2.
Proof.
  revert s1 s2. induction evs as [|e evs IH]; intros s1 s2; [done|]. cbn [run].
  rewrite composite_report.
  destruct (report s1 e) as [t1 o1], (report s2 e) as [t2 o2]. cbn -[run].
  destruct (IH t1 t2) as [IH1 IH2].
  destruct (run (t1, t2) evs) as [t o] eqn:E, (run t1 evs) as [u1 p1], (run t2 evs) as [u2 p2].
  cbn in IH1, IH2 |- *. rewrite !omap_app, omap_left_inl, omap_right_inr.
  rewrite (omap_fmap_some left_of inr) by done. rewrite (omap_fmap_some right_of inl) by done.
  rewrite IH1, IH2. by rewrite app_nil_r.
Qed.

(** C32: the log reporter writes at most 21 progress lines per encoding
    (one per 5% bucket from 0% to 100%): over any sequence of calls, the
    log holds at most [21 * (1 + number of EncodingStarted)] lines at
    level INFO starting with [Progress: ], whatever the percentages. *)
Theorem LogReporter_progress_bound fmt0 fmt1 fd fb csr evs :
  (length (filter is_progress_line
     (run (H := log_reporter fmt0 fmt1 fd fb csr) NewLogReporter evs).2)
   <= 21 * (1 + started evs))%nat.
Proof.
  pose proof (log_run_bound fmt0 fmt1 fd fb csr evs NewLogReporter) as H.
  unfold NewLogReporter in *. change (Z.to_nat (20 - -1)) with 21%nat in H.
  assert (-1 <= -1 <= 20) as Hb by lia. specialize (H Hb). unfold log_reporter. lia.
Qed.

Lemma run_event_single csr e :
  (run (H := event_reporter csr) tt [e]).2 = (event_report csr tt e).2.
Proof. cbn. by rewrite app_nil_r. Qed.

(** C27: at the end of a batch the library's [EventHandler] receives a
    [BatchCompleteEvent] exactly when at least two files were encoded,
    carrying the number encoded and the number of inputs.  With exactly
    one file encoded it receives nothing at all ([OperationComplete] is
    not forwarded), and with none it receives one warning. *)
Theorem summary_public_events csr InputSize OutputSize timing csr' results nfiles :
  let out := (run (H := event_reporter csr) tt
                (summary InputSize OutputSize timing csr' results nfiles)).2 in
  ((exists n t r, BatchCompleteEvent n t r ∈ out) <-> (2 <= length results)%nat) /\
  (forall n t r, BatchCompleteEvent n t r ∈ out -> n = Z.of_nat (length results) /\ t = nfiles) /\
  (length results = 1%nat -> out = []) /\
  (results = [] -> out = [WarningEvent s["No files were successfully encoded"]]).
Proof.
  cbv zeta. unfold summary.
  destruct results as [|r1 [|r2 rs]]; rewrite run_event_single; cbn [event_report snd length].
  - split_and!; try done. split; [intros (n & t & r & Hin%list_elem_of_singleton); discriminate | lia].
    intros n t r Hin%list_elem_of_singleton. discriminate.
  - split_and!; try done. split; [intros (n & t & r & Hin); by apply not_elem_of_nil in Hin | lia].
    intros n t r Hin. by apply not_elem_of_nil in Hin.
  - split_and!; try done; [split; [lia | intros _; do 3 eexists; apply list_elem_of_singleton; done]|].
    intros n t r [= -> -> _]%list_elem_of_singleton. done.
Qed.

(** C33: every encoding's progress bar starts afresh: after
    [EncodingStarted], the first progress update with a percentage in
    [0, 100] moves the bar to that percentage, whatever the bar reached
    during the previous file ([finishProgress] resets [maxPercent]).
    The hypotheses are the code's own comparisons on the percentage. *)
Theorem TerminalReporter_restarts st n p :
  SFltb (f32_of_Z 100) (Percent p) = false ->
  SFltb (Percent p) (f32_of_Z 0) = false ->
  SFleb (f32_of_Z 0) (Percent p) = true ->
  (run st [EncodingStarted n; EncodingProgress p]).2 =
  (match progress st with Some _ => [BarFinish] | None => [] end)
  ++ [BarSet (GoFloat.trunc (Percent p))].
Proof.
  intros H100 H0 Hle. cbn [run report terminal_reporter term_report].
  destruct (finishProgress st) as [st1 o] eqn:Ef.
  unfold finishProgress in Ef. injection Ef as <- <-.
  unfold term_progress, clamp. cbn [progress maxPercent]. rewrite H100, H0.
  change (S754_zero false) with (f32_of_Z 0). rewrite Hle.
  cbn. by rewrite ?app_nil_r.
Qed.

(** The previous file's bar stood at 90%; the next file's first update
    is 10%. *)
Definition demo_snapshot : ProgressSnapshot :=
  mkProgressSnapshot (f32_of_Z 10) (f32_of_Z 1) (f32_of_Z 24) 60 1 10.

Lemma TerminalReporter_restarts_witness :
  (run (mkTermState (Some 90) (f32_of_Z 90)) [EncodingStarted 1000; EncodingProgress demo_snapshot]).2
  = [BarFinish; BarSet 10].
Proof.
  exact (TerminalReporter_restarts (mkTermState (Some 90) (f32_of_Z 90)) 1000 demo_snapshot
           eq_refl eq_refl eq_refl).
Defined.

End Report.
