(* ===== verification/CLI.v ===== *)
(** * Command-line configuration: src/unnamed/part_004 (package main)

    [executeEncode] resolves the paths, then builds the configuration:
    [parseCRF] applies [--crf] (one value for every resolution or an
    SD,HD,UHD triple), a non-zero [--preset] is converted to [uint8],
    [--workers] and [--buffer] are copied, and [config.Validate] checks
    the result ([Admission.Validate]).  [resolveOutputPath] decides
    whether [-o] names the output directory or the output file.

    The configuration is [Admission.Config]; the crop mode, the threads
    per worker and the verbosity, which [Validate] does not read, are not
    part of it.  [filepath.Abs] is a section variable that returns a clean
    absolute path; [filepath.Dir] and [filepath.Base] are modelled on such
    paths.  The flag parser, the logger and the file discovery are not
    modelled.

    The theorems show that [parseCRF] reads back every value it documents,
    which CRF values and presets the whole configuration step accepts
    (a preset above 255 wraps around and may be accepted), and that the
    output-file test is case-sensitive. *)

From stdpp Require Import strings.
From S2P Require Import Prelude GoText Chunk Admission.
Import Chunk Admission.

Module CLI.

(** ** Data *)

(** [type encodeArgs struct], the fields the configuration reads. *)
Record encodeArgs := mkEncodeArgs {
  crf : str;            (** single value or comma-separated triple *)
  preset : Z;           (** a [uint] *)
  workers : Z;
  chunkBuffer : Z }.

Inductive CLIErr :=
  | ErrCRFValue (crfStr : str)   (** invalid CRF value %q *)
  | ErrCRFPosition (pos : Z)     (** invalid CRF value in position %d *)
  | ErrCRFCount (n : Z)          (** --crf accepts single value or comma-separated triple *)
  | ErrOutputPath                (** invalid output path *)
  | ErrConfig (e : ConfigErr).   (** invalid configuration *)

Definition comma : ascii := ",".

Definition set_crfs (sd hd uhd : Z) (c : Config) : Config :=
  mkConfig (SVTAV1Preset c) sd hd uhd (Workers c) (ChunkBuffer c)
           (ChunkDurationSD c) (ChunkDurationHD c) (ChunkDurationUHD c).

Definition set_preset (p : Z) (c : Config) : Config :=
  mkConfig p (CRFSD c) (CRFHD c) (CRFUHD c) (Workers c) (ChunkBuffer c)
           (ChunkDurationSD c) (ChunkDurationHD c) (ChunkDurationUHD c).

Definition set_parallel (w b : Z) (c : Config) : Config :=
  mkConfig (SVTAV1Preset c) (CRFSD c) (CRFHD c) (CRFUHD c) w b
           (ChunkDurationSD c) (ChunkDurationHD c) (ChunkDurationUHD c).

(** ** [parseCRF] *)

(** [for i, part := range parts]: [ParseUint(TrimSpace(part), 10, 8)],
    failing at the first bad part with its position from 1. *)
Fixpoint parse_parts (i : Z) (parts : list str) : result (list Z) CLIErr :=
  match parts with
  | [] => Ok []
  | part :: rest =>
      match parse_uint 8 (trim_space part) with
      | None => Err (ErrCRFPosition (i + 1))
      | Some v => let? vals := parse_parts (i + 1) rest in Ok (v :: vals)
      end
  end.

(** [func parseCRF(crfStr string, cfg *config.Config) error].  [vals] is
    [make([]uint8, 3)], read at 0, 1 and 2. *)
Definition parseCRF (crfStr : str) (cfg : Config) : result Config CLIErr :=
  let parts := split_on comma crfStr in
  match parts with
  | [part] =>
      match parse_uint 8 (trim_space part) with
      | None => Err (ErrCRFValue crfStr)
      | Some v => Ok (set_crfs v v v cfg)
      end
  | [_; _; _] =>
      let? vals := parse_parts 0 parts in
      Ok (set_crfs (nth 0 vals 0) (nth 1 vals 0) (nth 2 vals 0) cfg)
  | _ => Err (ErrCRFCount (Z.of_nat (length parts)))
  end.

(** ** The configuration step of [executeEncode] *)

(** [if ea.crf != ""] then [parseCRF]; [if ea.preset != 0] then
    [cfg.SVTAV1Preset = uint8(ea.preset)]; the parallelism fields; then
    [cfg.Validate()]. *)
Definition configure (ea : encodeArgs) (cfg : Config) : result Config CLIErr :=
  let? cfg1 := if bool_decide (crf ea = []) then Ok cfg else parseCRF (crf ea) cfg in
  let cfg2 := if preset ea =? 0 then cfg1 else set_preset (wrap_u8 (preset ea)) cfg1 in
  let cfg3 := set_parallel (workers ea) (chunkBuffer ea) cfg2 in
  match Validate cfg3 with
  | Some e => Err (ErrConfig e)
  | None => Ok cfg3
  end.

(** ** [resolveOutputPath] *)

Definition videoExtensions : list str :=
  [s[".mkv"]; s[".mp4"]; s[".webm"]; s[".avi"]; s[".mov"]; s[".m4v"]].

(** The reversed path without its last element and that element's
    separator. *)
Fixpoint drop_name_rev (r : str) : str :=
  match r with
  | [] => []
  | c :: r' => if ascii_dec c slash then r' else drop_name_rev r'
  end.

(** [filepath.Dir] of a clean absolute path. *)
Definition dir (p : str) : str :=
  match drop_name_rev (rev p) with
  | [] => s["/"]
  | r => rev r
  end.

Section Resolve.
Variable Abs : str -> option str.   (** [filepath.Abs]: a clean absolute path *)

(** [func resolveOutputPath(_, outputPath string, isInputDir bool)
    (outputDir, targetFilename string, err error)] *)
Definition resolveOutputPath (outputPath : str) (isInputDir : bool) : result (str * str) CLIErr :=
  match Abs outputPath with
  | None => Err ErrOutputPath
  | Some out =>
      if isInputDir then Ok (out, []) else
      if bool_decide (ext out ∈ videoExtensions) then Ok (dir out, base out)
      else Ok (out, [])
  end.
End Resolve.

(** ** Lemmas *)

Lemma format_Z_no_comma z : Forall (fun c => c <> comma) (format_Z z).
Proof. apply format_Z_avoids; [done|]. change (N_of_ascii comma) with 44%N. lia. Qed.

Lemma parse_crf_value v : 0 <= v <= 255 -> parse_uint 8 (trim_space (format_Z v)) = Some v.
Proof.
  intros Hv. rewrite trim_space_no_space by apply format_Z_no_space.
  apply parse_uint_format_Z. lia.
Qed.

Lemma parse_crf_big v : 255 < v -> parse_uint 8 (trim_space (format_Z v)) = None.
Proof.
  intros Hv. rewrite trim_space_no_space by apply format_Z_no_space.
  apply parse_uint_format_Z_big. lia.
Qed.

Lemma split_single v : split_on comma (format_Z v) = [format_Z v].
Proof. unfold split_on. by rewrite split_go_last by apply format_Z_no_comma. Qed.

(** The configuration step with the default configuration and only
    [--crf] or [--preset] given. *)
Definition crf_args (crfStr : str) : encodeArgs := mkEncodeArgs crfStr 0 24 4.
Definition preset_args (p : Z) : encodeArgs := mkEncodeArgs [] p 24 4.

(** [Validate] on the defaults with the CRFs or the preset changed. *)
Lemma Validate_crfs v :
  0 <= v -> Validate (set_parallel 24 4 (set_crfs v v v DefaultConfig)) =
            if 63 <? v then Some BadCRFSD else None.
Proof. intros Hv. unfold Validate. cbn. by destruct (63 <? v). Qed.

Lemma Validate_preset p :
  0 <= p -> Validate (set_parallel 24 4 (set_preset p DefaultConfig)) =
            if 13 <? p then Some BadPreset else None.
Proof. intros Hp. unfold Validate. cbn. by destruct (13 <? p). Qed.

(** ** Theorems *)

(** [parseCRF] reads back every CRF it documents: a single [uint8]
    value sets the three tiers, and an SD,HD,UHD triple of [uint8] values
    sets each tier to its own value. *)
Theorem parseCRF_roundtrip cfg sd hd uhd :
  0 <= sd <= 255 -> 0 <= hd <= 255 -> 0 <= uhd <= 255 ->
  parseCRF (format_Z sd) cfg = Ok (set_crfs sd sd sd cfg) /\
  parseCRF (format_Z sd ++ [comma] ++ format_Z hd ++ [comma] ++ format_Z uhd) cfg =
    Ok (set_crfs sd hd uhd cfg).
Proof.
  intros Hsd Hhd Huhd. split.
  - unfold parseCRF. rewrite split_single. by rewrite parse_crf_value.
  - unfold parseCRF, split_on. cbn [app].
    rewrite split_go_line by apply format_Z_no_comma.
    rewrite split_go_line by apply format_Z_no_comma.
    rewrite split_go_last by apply format_Z_no_comma. cbn [rev app].
    cbn [parse_parts]. rewrite !parse_crf_value by done. done.
Qed.

(** With the other settings at their defaults, [--crf v] for a
    non-negative [v] is accepted exactly when [v <= 63]: values up to 255
    parse and are then rejected by [Validate], larger ones do not parse. *)
Theorem configure_crf_range v :
  0 <= v -> is_ok (configure (crf_args (format_Z v)) DefaultConfig) = (v <=? 63).
Proof.
  intros Hv. unfold configure. cbn [crf preset workers chunkBuffer crf_args].
  rewrite bool_decide_eq_false_2 by apply format_Z_nonempty.
  unfold parseCRF. rewrite split_single.
  destruct (Z.le_gt_cases v 255) as [Hle|Hgt].
  - rewrite parse_crf_value by lia. cbn [result_bind Z.eqb]. rewrite Validate_crfs by done.
    destruct (Z.ltb_spec 63 v); destruct (Z.leb_spec v 63); done || lia.
  - rewrite parse_crf_big by done. cbn. symmetry. apply Z.leb_gt. lia.
Qed.

(** C40: A non-zero [--preset p] becomes [uint8(p)], [p mod 256], before
    [Validate] sees it: [p] is accepted exactly when [p mod 256 <= 13],
    so [--preset 268] runs preset 12 and [--preset 256] preset 0. *)
Theorem configure_preset_wraps p :
  0 < p ->
  is_ok (configure (preset_args p) DefaultConfig) = (p mod 256 <=? 13) /\
  (forall c, configure (preset_args p) DefaultConfig = Ok c -> SVTAV1Preset c = p mod 256).
Proof.
  intros Hp. unfold configure. cbn [crf preset workers chunkBuffer preset_args].
  rewrite bool_decide_eq_true_2 by done. cbn [result_bind].
  destruct (Z.eqb_spec p 0) as [|_]; [lia|]. unfold wrap_u8. change (2 ^ 8) with 256.
  rewrite Validate_preset by (apply Z.mod_pos_bound; lia).
  destruct (Z.ltb_spec 13 (p mod 256)); destruct (Z.leb_spec (p mod 256) 13); try lia.
  - split; [done | discriminate].
  - split; [done|]. by intros c [= <-].
Qed.

Lemma parseCRF_roundtrip_witness :
  (0 <= 25 <= 255 /\ 0 <= 27 <= 255 /\ 0 <= 29 <= 255) /\
  parseCRF (format_Z 25) DefaultConfig = Ok (set_crfs 25 25 25 DefaultConfig) /\
  parseCRF (format_Z 25 ++ [comma] ++ format_Z 27 ++ [comma] ++ format_Z 29) DefaultConfig =
    Ok (set_crfs 25 27 29 DefaultConfig).
Proof. split; [lia|]. apply parseCRF_roundtrip; lia. Defined.

Lemma configure_crf_range_witness :
  0 <= 64 /\ is_ok (configure (crf_args (format_Z 64)) DefaultConfig) = (64 <=? 63).
Proof. split; [lia|]. apply configure_crf_range. lia. Defined.

Lemma configure_preset_wraps_witness :
  0 < 268 /\ (is_ok (configure (preset_args 268) DefaultConfig) = (268 mod 256 <=? 13) /\
  (forall c, configure (preset_args 268) DefaultConfig = Ok c -> SVTAV1Preset c = 268 mod 256)).
Proof. split; [lia|]. apply configure_preset_wraps. lia. Defined.

(** [-o] names a file only for a lower-case video extension:
    [/v/out.mkv] is the file [out.mkv] in [/v], [/v/OUT.MKV] a
    directory. *)
Lemma resolveOutputPath_case :
  resolveOutputPath Some s["/v/out.mkv"] false = Ok (s["/v"], s["out.mkv"]) /\
  resolveOutputPath Some s["/v/OUT.MKV"] false = Ok (s["/v/OUT.MKV"], []).
Proof. split; vm_compute; reflexivity. Qed.

End CLI.
