(* ===== verification/Library.v ===== *)
(** * The library API: src/unnamed/part_007 (package reel)

    [New] builds an [Encoder] from [config.NewConfig] and a list of
    options, then validates it ([Admission.Validate]).  [Encode],
    [EncodeWithReporter] and [EncodeBatch] point the configuration's
    output directory at the caller's, make sure the directory exists and
    run [processing.ProcessVideos] ([Videos]) with the configuration's
    temporary directory, which [GetTempDir] takes to be the output
    directory when none is set (the library never sets one).  They turn
    the results into the library's [Result] and [BatchResult].

    The theorems show how the options combine (the last one of a kind
    wins; what no option sets keeps the default of [NewConfig], which for
    the workers and the buffer is not the default their doc comments
    state), that a [Result] returned by [Encode] names an output file that
    exists, and how [EncodeBatch] counts.

    The encoder configuration reaches [ProcessVideos] through the file
    environment ([Videos.FileEnv]), as in [Videos]; the reporter only
    changes the events ([Report]), not the results, so [Encode] and
    [EncodeWithReporter] have one body.  [util.EnsureDirectory], the
    sizes of the files and [util.CalculateSizeReduction] are section
    variables; [EncodingSpeed] is not modelled. *)

From Stdlib Require Import SpecFloat.
From stdpp Require Import strings.
From S2P Require Import Prelude GoText Chunk Admission Merge Mux Validation Orchestrator Videos CLI Report.
Import Chunk Admission Merge Mux.

Module Library.

(** ** Configuration *)

(** The fields of [config.Config] the library reads or sets: the ones of
    [Admission.Config], [CropMode], and the two directories. *)
Record LibConfig := mkLibConfig {
  core : Config; CropMode : str; TempDir : path; OutputDir : path }.

(** [config.NewConfig(".", ".", ".")]: [TempDir] unset, [CropMode]
    ["auto"]. *)
Definition NewConfig : LibConfig := mkLibConfig DefaultConfig s["auto"] [] [s["."]].

(** [func (c *Config) GetTempDir() string] *)
Definition GetTempDir (c : LibConfig) : path :=
  match TempDir c with [] => OutputDir c | t => t end.

(** [type Option func( *config.Config)] *)
Definition Option : Type := LibConfig -> LibConfig.

Definition with_core (f : Config -> Config) (c : LibConfig) : LibConfig :=
  mkLibConfig (f (core c)) (CropMode c) (TempDir c) (OutputDir c).

(** [func WithCRF(crf uint8) Option] *)
Definition WithCRF (crf : Z) : Option := with_core (CLI.set_crfs crf crf crf).

(** [func WithCRFByResolution(sd, hd, uhd uint8) Option] *)
Definition WithCRFByResolution (sd hd uhd : Z) : Option := with_core (CLI.set_crfs sd hd uhd).

(** [func WithDisableAutocrop() Option] *)
Definition WithDisableAutocrop : Option :=
  fun c => mkLibConfig (core c) s["none"] (TempDir c) (OutputDir c).

(** [func WithWorkers(workers int) Option] *)
Definition WithWorkers (workers : Z) : Option :=
  with_core (fun k => CLI.set_parallel workers (ChunkBuffer k) k).

(** [func WithChunkBuffer(buffer int) Option] *)
Definition WithChunkBuffer (buffer : Z) : Option :=
  with_core (fun k => CLI.set_parallel (Workers k) buffer k).

Record Encoder := mkEncoder { config : LibConfig }.

(** [func New(opts ...Option) ( *Encoder, error)] *)
Definition New (opts : list Option) : result Encoder ConfigErr :=
  let cfg := fold_left (fun c opt => opt c) opts NewConfig in
  match Validate (core cfg) with
  | Some e => Err e
  | None => Ok (mkEncoder cfg)
  end.

(** ** Encoding *)

Inductive LibErr :=
  | ErrOutputDirectory   (** failed to create output directory *)
  | ErrNoFiles.          (** no files were encoded *)

(** [type Result struct] without [EncodingSpeed]. *)
Record Result := mkResult {
  OutputFile : path; OriginalSize : Z; EncodedSize : Z;
  SizeReductionPercent : spec_float; ValidationPassed : bool }.

(** [type BatchResult struct] *)
Record BatchResult := mkBatchResult {
  Results : list Result; SuccessfulCount : Z; TotalFiles : Z;
  TotalSizeReduction : spec_float; ValidationPassedCount : Z }.

(** [cfg := *e.config; cfg.OutputDir = outputDir] *)
Definition with_output (c : LibConfig) (outputDir : path) : LibConfig :=
  mkLibConfig (core c) (CropMode c) (TempDir c) outputDir.

Section Encode.
Variable ResolveOutputPath : str -> path -> str -> path.   (** [util.ResolveOutputPath] *)
Variable GetFilename : str -> str.                         (** [util.GetFilename] *)
Variable fmt1 : spec_float -> str.
Variable cancelled : nat -> bool.
Variable file_env : str -> Videos.FileEnv.
Variable EnsureDirectory : path -> bool.                   (** [util.EnsureDirectory] succeeds *)
Variable InputSize OutputSize : Videos.EncodeResult -> Z.  (** [r.InputSize], [r.OutputSize] *)
Variable CalculateSizeReduction : Z -> Z -> spec_float.

(** [processing.ProcessVideos(ctx, &cfg, inputs, "", rep)] *)
Definition process (e : Encoder) (outputDir : path) (inputs : list str) (fs : FS)
  : FS * list Videos.EncodeResult :=
  let cfg := with_output (config e) outputDir in
  Videos.ProcessVideos ResolveOutputPath GetFilename fmt1 (GetTempDir cfg) outputDir cancelled
    file_env inputs [] fs.

(** The [Result] of one file. *)
Definition to_result (outputFile : path) (r : Videos.EncodeResult) : Result :=
  mkResult outputFile (InputSize r) (OutputSize r)
    (CalculateSizeReduction (InputSize r) (OutputSize r)) (Videos.ValidationPassed r).

(** [func (e *Encoder) Encode(ctx, input, outputDir string, handler
    EventHandler) ( *Result, error)] *)
Definition Encode (e : Encoder) (input : str) (outputDir : path) (fs : FS)
  : FS * result Result LibErr :=
  if negb (EnsureDirectory outputDir) then (fs, Err ErrOutputDirectory) else
  let '(fs1, results) := process e outputDir [input] fs in
  match results with
  | [] => (fs1, Err ErrNoFiles)
  | r :: _ => (fs1, Ok (to_result (ResolveOutputPath input outputDir []) r))
  end.

(** [func (e *Encoder) EncodeWithReporter(ctx, input, outputDir string,
    rep Reporter) ( *Result, error)]: the body of [Encode]. *)
Definition EncodeWithReporter (e : Encoder) (input : str) (outputDir : path) (fs : FS)
  : FS * result Result LibErr :=
  Encode e input outputDir fs.

(** The loop of [EncodeBatch] over the results, with its accumulators
    ([batch.Results], [SuccessfulCount], the two [uint64] totals and
    [ValidationPassedCount]). *)
Fixpoint batch_loop (outputDir : path) (results : list Videos.EncodeResult)
    (acc : list Result * Z * Z * Z * Z) : list Result * Z * Z * Z * Z :=
  match results with
  | [] => acc
  | r :: rs =>
      let '(res, succ, tin, tout, vpc) := acc in
      batch_loop outputDir rs
        (res ++ [to_result (ResolveOutputPath (Videos.Filename r) outputDir []) r], succ + 1,
         wrap_u64 (tin + InputSize r), wrap_u64 (tout + OutputSize r),
         if Videos.ValidationPassed r then vpc + 1 else vpc)
  end.

(** [func (e *Encoder) EncodeBatch(ctx, inputs []string, outputDir
    string, handler EventHandler) ( *BatchResult, error)] *)
Definition EncodeBatch (e : Encoder) (inputs : list str) (outputDir : path) (fs : FS)
  : FS * result BatchResult LibErr :=
  if negb (EnsureDirectory outputDir) then (fs, Err ErrOutputDirectory) else
  let '(fs1, results) := process e outputDir inputs fs in
  let '(res, succ, tin, tout, vpc) := batch_loop outputDir results ([], 0, 0, 0, 0) in
  (fs1, Ok (mkBatchResult res succ (Z.of_nat (length inputs)) (CalculateSizeReduction tin tout) vpc)).

End Encode.

(** ** The options as calls *)

(** A call of one of the [With*] options, as a caller writes it. *)
Inductive Opt :=
  | OCRF (crf : Z)
  | OCRFByResolution (sd hd uhd : Z)
  | ODisableAutocrop
  | OWorkers (workers : Z)
  | OChunkBuffer (buffer : Z).

Definition option_of (o : Opt) : Option :=
  match o with
  | OCRF c => WithCRF c
  | OCRFByResolution sd hd uhd => WithCRFByResolution sd hd uhd
  | ODisableAutocrop => WithDisableAutocrop
  | OWorkers w => WithWorkers w
  | OChunkBuffer b => WithChunkBuffer b
  end.

(** What the options leave of each setting: the last call of its kind
    wins, and [d] stands when there is none. *)
Definition workers_after (opts : list Opt) (d : Z) : Z :=
  fold_left (fun w o => match o with OWorkers w' => w' | _ => w end) opts d.
Definition buffer_after (opts : list Opt) (d : Z) : Z :=
  fold_left (fun b o => match o with OChunkBuffer b' => b' | _ => b end) opts d.
Definition crfs_after (opts : list Opt) (d : Z * Z * Z) : Z * Z * Z :=
  fold_left (fun t o => match o with
                        | OCRF c => (c, c, c)
                        | OCRFByResolution sd hd uhd => (sd, hd, uhd)
                        | _ => t end) opts d.
Definition crop_after (opts : list Opt) (d : str) : str :=
  fold_left (fun m o => match o with ODisableAutocrop => s["none"] | _ => m end) opts d.

(** ** Lemmas *)

Lemma fold_options opts c :
  let c' := fold_left (fun c opt => opt c) (map option_of opts) c in
  let t := crfs_after opts (CRFSD (core c), CRFHD (core c), CRFUHD (core c)) in
  core c' = mkConfig (SVTAV1Preset (core c)) t.1.1 t.1.2 t.2
              (workers_after opts (Workers (core c))) (buffer_after opts (ChunkBuffer (core c)))
              (ChunkDurationSD (core c)) (ChunkDurationHD (core c)) (ChunkDurationUHD (core c)) /\
  CropMode c' = crop_after opts (CropMode c).
Proof.
  revert c. induction opts as [|o opts IH]; intros c; cbn [map fold_left].
  - by destruct c as [[] ? ? ?].
  - specialize (IH (option_of o c)). by destruct o, c as [[] ? ? ?].
Qed.

Lemma override_for_nil n : Videos.override_for n [] = [].
Proof. unfold Videos.override_for. by case_match. Qed.

(** [ProcessVideos] reports at most one result per input. *)
Lemma process_files_length R G f t o cancelled env ov i files fs :
  (length (Videos.process_files R G f t o cancelled env ov i files fs).2 <= length files)%nat.
Proof.
  revert i fs. induction files as [|inp rest IH]; intros i fs; cbn; [lia|].
  destruct (cancelled i); cbn; [lia|].
  destruct (Videos.process_file _ _ _ _ _ _ _ _ _) as [fs1 r].
  specialize (IH (S i) fs1). destruct (Videos.process_files _ _ _ _ _ _ _ _ _ _ _) as [fs2 rs].
  cbn in *. rewrite length_app. destruct r; cbn; lia.
Qed.

Section Loop.
Context (ResolveOutputPath : str -> path -> str -> path) (InputSize OutputSize : Videos.EncodeResult -> Z)
        (csr : Z -> Z -> spec_float) (outputDir : path).

Lemma lib_batch_loop_spec rs res succ tin tout vpc :
  let '(res', succ', _, _, vpc') := batch_loop ResolveOutputPath InputSize OutputSize csr outputDir rs
                                      (res, succ, tin, tout, vpc) in
  res' = res ++ map (fun r => to_result InputSize OutputSize csr
                               (ResolveOutputPath (Videos.Filename r) outputDir []) r) rs /\
  succ' = succ + Z.of_nat (length rs) /\ vpc <= vpc' <= vpc + Z.of_nat (length rs).
Proof.
  revert res succ tin tout vpc. induction rs as [|r rs IH]; intros res succ tin tout vpc; cbn.
  - rewrite app_nil_r. split_and!; [done | lia..].
  - specialize (IH (res ++ [to_result InputSize OutputSize csr
                              (ResolveOutputPath (Videos.Filename r) outputDir []) r]) (succ + 1)
                   (wrap_u64 (tin + InputSize r)) (wrap_u64 (tout + OutputSize r))
                   (if Videos.ValidationPassed r then vpc + 1 else vpc)).
    destruct (batch_loop _ _ _ _ _ _ _) as [[[[res' succ'] ?] ?] vpc'].
    destruct IH as (-> & -> & Hv). rewrite <- app_assoc. split; [done|].
    destruct (Videos.ValidationPassed r); lia.
Qed.
End Loop.

(** ** Properties *)

(** C26: [New] with any sequence of [With*] options: the last option of
    each kind wins and a setting no option touches keeps the default of
    [NewConfig] (CRFs 25/27/29, 24 workers, a buffer of 4, crop "auto");
    [New] succeeds exactly when the resulting CRFs are at most 63, there
    is at least one worker and the buffer is not negative. *)
Theorem New_options opts :
  let '(sd, hd, uhd) := crfs_after opts (25, 27, 29) in
  (is_ok (New (map option_of opts)) = true <->
     sd <= 63 /\ hd <= 63 /\ uhd <= 63 /\ 1 <= workers_after opts 24 /\ 0 <= buffer_after opts 4) /\
  (forall e, New (map option_of opts) = Ok e ->
     Workers (core (config e)) = workers_after opts 24 /\
     ChunkBuffer (core (config e)) = buffer_after opts 4 /\
     (forall w, CRFForWidth (core (config e)) w =
                if 3840 <=? w then uhd else if 1920 <=? w then hd else sd) /\
     CropMode (config e) = crop_after opts s["auto"]).
Proof.
  pose proof (fold_options opts NewConfig) as [Hc Hm]. cbv zeta in Hc, Hm.
  cbn [core NewConfig DefaultConfig CRFSD CRFHD CRFUHD Workers ChunkBuffer SVTAV1Preset
       ChunkDurationSD ChunkDurationHD ChunkDurationUHD CropMode] in Hc, Hm.
  destruct (crfs_after _ _) as [[sd hd] uhd] eqn:E. cbn [fst snd] in Hc.
  unfold New. rewrite Hc.
  unfold Validate. cbn [SVTAV1Preset CRFSD CRFHD CRFUHD Workers ChunkBuffer
                        ChunkDurationSD ChunkDurationHD ChunkDurationUHD duration_ok].
  split.
  - destruct (63 <? sd) eqn:E1; [cbn; split; [done | lia]|].
    destruct (63 <? hd) eqn:E2; [cbn; split; [done | lia]|].
    destruct (63 <? uhd) eqn:E3; [cbn; split; [done | lia]|].
    destruct (workers_after opts 24 <? 1) eqn:E4; [cbn; split; [done | lia]|].
    destruct (buffer_after opts 4 <? 0) eqn:E5; cbn; split; (done || lia).
  - intros e He. repeat (case_match; try done). injection He as <-. cbn. rewrite Hc, Hm.
    split_and!; try done; intros w; by unfold CRFForWidth.
Qed.

Section EncodeProps.
Context (ResolveOutputPath : str -> path -> str -> path) (GetFilename : str -> str)
        (fmt1 : spec_float -> str) (cancelled : nat -> bool) (file_env : str -> Videos.FileEnv)
        (EnsureDirectory : path -> bool) (InputSize OutputSize : Videos.EncodeResult -> Z)
        (csr : Z -> Z -> spec_float).

(** C23: a [Result] returned by [Encode] names the output file
    [util.ResolveOutputPath(input, outputDir, "")], and that file exists
    when [Encode] returns.  The hypotheses are the ones of
    [Videos.ProcessVideos_outputs_exist], for the temporary directory
    [Encode] uses ([GetTempDir], the output directory when none is set). *)
Theorem Encode_output_exists e input outputDir fs fs' res :
  let tempDir := GetTempDir (with_output (config e) outputDir) in
  (forall inp inp' ov, ~ GetWorkDirPath inp' tempDir `prefix_of` ResolveOutputPath inp outputDir ov) ->
  (forall inp cs h v fs0 p, (forall inp', ~ GetWorkDirPath inp' tempDir `prefix_of` p) ->
     (Orchestrator.encode_all (Videos.chunked_env (file_env inp)) cs h v fs0).1 !! p = fs0 !! p) ->
  Encode ResolveOutputPath GetFilename fmt1 cancelled file_env EnsureDirectory InputSize OutputSize csr
    e input outputDir fs = (fs', Ok res) ->
  OutputFile res = ResolveOutputPath input outputDir [] /\ is_Some (fs' !! OutputFile res).
Proof.
  intros tempDir Hsep Henc. unfold Encode. destruct (EnsureDirectory outputDir); [|done]. cbn [negb].
  unfold process. fold tempDir.
  destruct (Videos.ProcessVideos ResolveOutputPath GetFilename fmt1 tempDir outputDir cancelled
              file_env [input] [] fs) as [fs1 [|r rs]] eqn:E; [done|].
  intros [= <- <-]. split; [done|]. cbn [OutputFile to_result].
  destruct (Videos.process_files_reported ResolveOutputPath GetFilename fmt1 tempDir outputDir
              cancelled file_env Hsep Henc _ 0 [input] fs fs1 (r :: rs) E r (list_elem_of_here _ _))
    as (inp & ->%list_elem_of_singleton & _ & Hs).
  by rewrite override_for_nil in Hs.
Qed.

(** [EncodeBatch] counts what [ProcessVideos] reports: one [Result]
    per encoded file, in order, [SuccessfulCount] their number,
    [TotalFiles] the number of inputs, and
    [ValidationPassedCount <= SuccessfulCount <= TotalFiles]. *)
Theorem EncodeBatch_counts e inputs outputDir fs fs' b :
  EncodeBatch ResolveOutputPath GetFilename fmt1 cancelled file_env EnsureDirectory InputSize OutputSize csr
    e inputs outputDir fs = (fs', Ok b) ->
  SuccessfulCount b = Z.of_nat (length (Results b)) /\
  TotalFiles b = Z.of_nat (length inputs) /\
  0 <= ValidationPassedCount b <= SuccessfulCount b /\ SuccessfulCount b <= TotalFiles b.
Proof.
  unfold EncodeBatch. destruct (EnsureDirectory outputDir); [|done]. cbn [negb].
  unfold process, Videos.ProcessVideos.
  pose proof (process_files_length ResolveOutputPath GetFilename fmt1
                (GetTempDir (with_output (config e) outputDir)) outputDir cancelled file_env
                (Videos.override_for (length inputs) []) 0 inputs fs) as Hl.
  destruct (Videos.process_files _ _ _ _ _ _ _ _ _ _ _) as [fs1 rs]. cbn in Hl.
  pose proof (lib_batch_loop_spec ResolveOutputPath InputSize OutputSize csr outputDir rs [] 0 0 0 0) as Hs.
  destruct (batch_loop _ _ _ _ _ _ _) as [[[[res succ] tin] tout] vpc].
  destruct Hs as (-> & -> & Hv). intros [= <- <-]. cbn. rewrite length_map. lia.
Qed.
End EncodeProps.

(** ** A concrete call *)

(** Outputs go to [outputDir/out/<input>]; the work directories are
    [outputDir/.reel-<name>] since the library's temporary directory is
    its output directory. *)
Definition lib_resolve (inputPath : str) (outputDir : path) (_ : str) : path :=
  outputDir ++ [s["out"]; inputPath].

Lemma lib_resolve_outside inp inp' ov :
  ~ GetWorkDirPath inp' (GetTempDir (with_output NewConfig Orchestrator.tmp_dir))
    `prefix_of` lib_resolve inp Orchestrator.tmp_dir ov.
Proof.
  intros [k Hk]. cbn in Hk. injection Hk as Hw _. unfold WorkDirName in Hw. discriminate Hw.
Qed.

Definition lib_encode (inputs : list str) :=
  EncodeBatch lib_resolve id Validation.fmt0 (fun _ => false) Videos.demo_file_env (fun _ => true)
    (fun _ => 0) (fun _ => 0) (fun _ _ => S754_zero false) (mkEncoder NewConfig) inputs
    Orchestrator.tmp_dir ∅.

Lemma lib_encode_one_ok :
  is_ok (Encode lib_resolve id Validation.fmt0 (fun _ => false) Videos.demo_file_env (fun _ => true)
           (fun _ => 0) (fun _ => 0) (fun _ _ => S754_zero false) (mkEncoder NewConfig)
           Orchestrator.in_mkv Orchestrator.tmp_dir ∅).2 = true.
Proof. vm_compute. reflexivity. Qed.

Lemma lib_encode_batch_ok : is_ok (lib_encode [Orchestrator.in_mkv]).2 = true.
Proof. vm_compute. reflexivity. Qed.

Lemma Encode_output_exists_witness :
  exists fs' res,
    Encode lib_resolve id Validation.fmt0 (fun _ => false) Videos.demo_file_env (fun _ => true)
      (fun _ => 0) (fun _ => 0) (fun _ _ => S754_zero false) (mkEncoder NewConfig)
      Orchestrator.in_mkv Orchestrator.tmp_dir ∅ = (fs', Ok res) /\
    OutputFile res = lib_resolve Orchestrator.in_mkv Orchestrator.tmp_dir [] /\
    is_Some (fs' !! OutputFile res).
Proof.
  pose proof lib_encode_one_ok as Hok.
  destruct (Encode _ _ _ _ _ _ _ _ _ _ _ _ _) as [fs' [res|err]] eqn:E; [|discriminate Hok].
  exists fs', res. split; [reflexivity|].
  exact (Encode_output_exists lib_resolve id Validation.fmt0 (fun _ => false) Videos.demo_file_env
           (fun _ => true) (fun _ => 0) (fun _ => 0) (fun _ _ => S754_zero false)
           (mkEncoder NewConfig) Orchestrator.in_mkv Orchestrator.tmp_dir ∅ fs' res
           lib_resolve_outside Videos.encode_every_outside E).
Defined.

Lemma EncodeBatch_counts_witness :
  exists fs' b, lib_encode [Orchestrator.in_mkv] = (fs', Ok b) /\
    SuccessfulCount b = Z.of_nat (length (Results b)) /\
    TotalFiles b = Z.of_nat (length [Orchestrator.in_mkv]) /\
    0 <= ValidationPassedCount b <= SuccessfulCount b /\ SuccessfulCount b <= TotalFiles b.
Proof.
  pose proof lib_encode_batch_ok as Hok. unfold lib_encode in *.
  destruct (EncodeBatch _ _ _ _ _ _ _ _ _ _ _ _ _) as [fs' [b|err]] eqn:E; [|discriminate Hok].
  exists fs', b. split; [reflexivity|].
  exact (EncodeBatch_counts lib_resolve id Validation.fmt0 (fun _ => false) Videos.demo_file_env
           (fun _ => true) (fun _ => 0) (fun _ => 0) (fun _ _ => S754_zero false)
           (mkEncoder NewConfig) [Orchestrator.in_mkv] Orchestrator.tmp_dir ∅ fs' b E).
Defined.

End Library.
