(* ===== verification/TempFile.v ===== *)
(** * Temporary files and directories: src/internal/util/tempfile.go

    The helpers of package util that create, name, check and clean up
    temporary files.  The operating system is an environment [OSEnv]:
    what [os.Stat], [os.Create], [os.Remove], [os.MkdirAll],
    [unix.Statfs], [crypto/rand.Read] and the clock answer.  The effects
    on the disk are returned as a list of operations [Op], in order.
    Paths are strings; [filepath.Join(dir, name)] of a clean directory and
    a plain name is [dir ++ "/" ++ name].

    [filepath.WalkDir] (Go's standard library, not under src/) is modelled
    from its documentation for the one case [CleanupStaleTempFiles] uses:
    the callback is called on the root, then on each entry of the root in
    lexical order; a callback answer [fs.SkipDir] on a subdirectory skips
    it, and an error answer stops the walk and is returned.

    The theorems show that [CleanupStaleTempFiles] removes only top-level
    files with the prefix whose age exceeds the limit, and counts exactly
    those; that it never returns an error; that its age limit overflows
    [int64] above 2562047 hours, after which every matching file is
    removed; that [generateRandomString n] is [n] lowercase hexadecimal
    digits; and that [CreateTempFilePath] returns a path that does not
    exist, after as many retries as it takes to draw a free name. *)

From stdpp Require Import strings.
From S2P Require Import Prelude GoText.

Module TempFile.

(** ** The operating system *)

(** [os.Stat]: no such file, another error, a file or a directory. *)
Inductive StatRes := SNotExist | SErr | SFile | SDir.

(** A directory entry of [filepath.WalkDir]: its name, whether it is a
    directory, and [d.Info()]'s modification time in nanoseconds, or an
    error. *)
Record DirEntry := mkDirEntry { Name : str; IsDir : bool; ModTime : option Z }.

Record OSEnv := mkOSEnv {
  stat : str -> StatRes;                 (** [os.Stat(path)] *)
  create_ok : str -> bool;               (** [os.Create(path)] succeeds *)
  remove_ok : str -> bool;               (** [os.Remove(path)] succeeds *)
  mkdir_ok : str -> bool;                (** [os.MkdirAll(path, 0755)] succeeds *)
  statfs : str -> option (Z * Z);        (** [unix.Statfs]: [Bavail], [Bsize] *)
  rand_bytes : nat -> option (list Z);   (** the [n]-th [rand.Read], or its error *)
  lstat : str -> option DirEntry;        (** [os.Lstat(root)] as a directory entry *)
  read_dir : str -> list DirEntry * bool; (** [os.ReadDir]: the entries sorted by name, and an error *)
  now : Z }.                             (** [time.Now()], in nanoseconds *)

(** What reaches the disk. *)
Inductive Op := OpCreate (p : str) | OpRemove (p : str) | OpMkdirAll (p : str) | OpRemoveAll (p : str).

Inductive TempErr :=
  | ErrNotExist (path : str)       (** directory does not exist: %s *)
  | ErrAccess                      (** cannot access directory: %w *)
  | ErrNotDir (path : str)         (** path is not a directory: %s *)
  | ErrNotWritable (path : str)    (** directory is not writable: %s *)
  | ErrCreateTempDir (e : TempErr) (** failed to create temp directory: %w *)
  | ErrCreateTempFile (e : TempErr)      (** failed to create temp file: %w *)
  | ErrCreateTempFilePath (e : TempErr)  (** failed to create temp file path: %w *)
  | ErrRandom                      (** failed to generate random string: %w *)
  | ErrMkdir (baseDir : str)       (** failed to create temp directory in %s: %w *)
  | ErrCreate (dir : str)          (** failed to create temp file in %s: %w *)
  | ErrRemove (path : str)         (** [os.Remove]'s error *)
  | ErrReadDir.                    (** failed to read temp directory for cleanup: %w *)

Definition join_path (dir name : str) : str := dir ++ s["/"] ++ name.

Section OS.
Variable env : OSEnv.

(** ** [EnsureDirectoryWritable], [GetAvailableSpace], [CheckDiskSpace] *)

(** [func EnsureDirectoryWritable(path string) error]: the test file is
    created, closed and removed. *)
Definition EnsureDirectoryWritable (path : str) : list Op * option TempErr :=
  match stat env path with
  | SNotExist => ([], Some (ErrNotExist path))
  | SErr => ([], Some ErrAccess)
  | SFile => ([], Some (ErrNotDir path))
  | SDir =>
      let testPath := join_path path s[".reel_write_test"] in
      if create_ok env testPath then
        ([OpCreate testPath] ++ (if remove_ok env testPath then [OpRemove testPath] else []), None)
      else ([], Some (ErrNotWritable path))
  end.

(** [func GetAvailableSpace(path string) uint64]:
    [stat.Bavail * uint64(stat.Bsize)], a [uint64] product. *)
Definition GetAvailableSpace (path : str) : Z :=
  match statfs env path with
  | None => 0
  | Some (bavail, bsize) => wrap_u64 (bavail * wrap_u64 bsize)
  end.

Definition MinTempSpaceMB : Z := 100.

(** [func CheckDiskSpace(path string, logger ...) bool]; the warning
    passed to the logger is not modelled. *)
Definition CheckDiskSpace (path : str) : bool :=
  let available := GetAvailableSpace path in
  if available =? 0 then true
  else let availableMB := available / (1024 * 1024) in
       negb (availableMB <? MinTempSpaceMB).

(** ** Random names *)

Definition hex_digit (d : Z) : ascii := ascii_of_nat (Z.to_nat (if d <? 10 then 48 + d else 87 + d)).

(** [hex.EncodeToString]: two lowercase digits per byte. *)
Fixpoint EncodeToString (bytes : list Z) : str :=
  match bytes with
  | [] => []
  | b :: bs => hex_digit (b / 16) :: hex_digit (b mod 16) :: EncodeToString bs
  end.

(** [func generateRandomString(length int) (string, error)] reading the
    [n]-th random draw: [(length+1)/2] bytes, hex-encoded, cut to
    [length]. *)
Definition generateRandomString (n : nat) (length : Z) : option str :=
  match rand_bytes env n with
  | None => None
  | Some bytes => Some (take (Z.to_nat length) (EncodeToString (take (Z.to_nat ((length + 1) / 2)) bytes)))
  end.

(** ** Creating *)

Record TempDir := mkTempDir { tpath : str }.

(** [func CreateTempDir(baseDir, prefix string) ( *TempDir, error)],
    drawing the [n]-th random string. *)
Definition CreateTempDir (n : nat) (baseDir prefix : str) : list Op * result TempDir TempErr :=
  let '(ops, e) := EnsureDirectoryWritable baseDir in
  match e with
  | Some e => (ops, Err (ErrCreateTempDir e))
  | None =>
      let _ := CheckDiskSpace baseDir in
      match generateRandomString n 8 with
      | None => (ops, Err ErrRandom)
      | Some randomSuffix =>
          let dirPath := join_path baseDir (prefix ++ s["_"] ++ randomSuffix) in
          if mkdir_ok env dirPath then (ops ++ [OpMkdirAll dirPath], Ok (mkTempDir dirPath))
          else (ops, Err (ErrMkdir baseDir))
      end
  end.

(** [func (t *TempDir) Cleanup() error] *)
Definition TempDirCleanup (t : TempDir) : list Op :=
  match tpath t with [] => [] | p => [OpRemoveAll p] end.

(** The name [fmt.Sprintf("%s_%s.%s", prefix, randomSuffix, extension)]. *)
Definition temp_name (prefix randomSuffix extension : str) : str :=
  prefix ++ s["_"] ++ randomSuffix ++ s["."] ++ extension.

(** [func CreateTempFile(dir, prefix, extension string) ( *TempFile, error)]:
    the file's path. *)
Definition CreateTempFile (n : nat) (dir prefix extension : str) : list Op * result str TempErr :=
  let '(ops, e) := EnsureDirectoryWritable dir in
  match e with
  | Some e => (ops, Err (ErrCreateTempFile e))
  | None =>
      match generateRandomString n 8 with
      | None => (ops, Err ErrRandom)
      | Some randomSuffix =>
          let filePath := join_path dir (temp_name prefix randomSuffix extension) in
          if create_ok env filePath then (ops ++ [OpCreate filePath], Ok filePath)
          else (ops, Err (ErrCreate dir))
      end
  end.

(** [func CreateTempFilePath(dir, prefix, extension string) (string, error)]
    from the [n]-th random draw: it calls itself again when the drawn path
    exists.  The recursion has no bound in Go; [fuel] bounds it here, and
    [CreateTempFilePath_free] shows what fuel is enough. *)
Fixpoint CreateTempFilePath (fuel : nat) (n : nat) (dir prefix extension : str)
  : list Op * option (result str TempErr) :=
  match fuel with
  | O => ([], None)
  | S fuel' =>
      let '(ops, e) := EnsureDirectoryWritable dir in
      match e with
      | Some e => (ops, Some (Err (ErrCreateTempFilePath e)))
      | None =>
          match generateRandomString n 8 with
          | None => (ops, Some (Err ErrRandom))
          | Some randomSuffix =>
              let tempPath := join_path dir (temp_name prefix randomSuffix extension) in
              match stat env tempPath with
              | SFile | SDir =>
                  let '(ops', r) := CreateTempFilePath fuel' (S n) dir prefix extension in
                  (ops ++ ops', r)
              | _ => (ops, Some (Ok tempPath))
              end
          end
      end
  end.

(** ** [CleanupStaleTempFiles] *)

(** What a [filepath.WalkDirFunc] answers. *)
Inductive WalkAns := WalkNil | WalkSkipDir | WalkError (e : TempErr).

(** A callback: the path, the entry ([None] when [os.Lstat] of the root
    failed), whether an error is passed, and the state it updates. *)
Definition WalkFn (A : Type) : Type := str -> option DirEntry -> bool -> A -> list Op * WalkAns * A.

Section Walk.
Context {A : Type} (fn : WalkFn A).

(** [walkDir] on an entry of the root: the callback; an answer
    [SkipDir] on a directory is cleared. *)
Definition walk_entry (root : str) (d : DirEntry) (a : A) : list Op * WalkAns * A :=
  let '(ops, ans, a1) := fn (join_path root (Name d)) (Some d) false a in
  (ops, (match ans with WalkSkipDir => if IsDir d then WalkNil else WalkSkipDir | _ => ans end), a1).

(** The loop over the root's entries: [SkipDir] breaks it, an error
    ends it. *)
Fixpoint walk_entries (root : str) (ds : list DirEntry) (a : A) : list Op * WalkAns * A :=
  match ds with
  | [] => ([], WalkNil, a)
  | d :: ds' =>
      let '(ops, ans, a1) := walk_entry root d a in
      match ans with
      | WalkNil => let '(ops', ans', a2) := walk_entries root ds' a1 in (ops ++ ops', ans', a2)
      | WalkSkipDir => (ops, WalkNil, a1)
      | WalkError e => (ops, WalkError e, a1)
      end
  end.

(** [filepath.WalkDir(root, fn)] for a callback that skips every
    directory below the root. *)
Definition WalkDir (root : str) (a : A) : list Op * option TempErr * A :=
  let finish '(ops, ans, a1) :=
    (ops, (match ans with WalkError e => Some e | _ => None end), a1) in
  match lstat env root with
  | None => finish (fn root None true a)
  | Some d =>
      let '(ops, ans, a1) := fn root (Some d) false a in
      match ans with
      | WalkNil =>
          if IsDir d then
            let '(ds, rd_err) := read_dir env root in
            let '(ops2, ans2, a2) := if rd_err then fn root (Some d) true a1 else ([], WalkNil, a1) in
            match ans2 with
            | WalkNil => let '(ops3, ans3, a3) := walk_entries root ds a2 in finish (ops ++ ops2 ++ ops3, ans3, a3)
            | _ => finish (ops ++ ops2, (match ans2 with WalkSkipDir => WalkNil | _ => ans2 end), a2)
            end
          else finish (ops, WalkNil, a1)
      | _ => finish (ops, ans, a1)
      end
  end.
End Walk.

(** [time.Duration(maxAgeHours) * time.Hour]: a [uint64] converted to
    [int64], times 3600 * 10^9, in [int64]. *)
Definition maxAgeOf (maxAgeHours : Z) : Z := wrap_i64 (wrap_i64 maxAgeHours * 3600000000000).

(** [now.Sub(t)]: a [Duration], saturated at the [int64] bounds. *)
Definition sub_time (now t : Z) : Z := Z.max int64_min (Z.min int64_max (now - t)).

(** The callback of [CleanupStaleTempFiles]; its state is
    [cleanedCount]. *)
Definition cleanup_fn (dir prefixMatch : str) (maxAge : Z) : WalkFn Z :=
  fun path od err cleanedCount =>
    if err then ([], WalkNil, cleanedCount) else
    match od with
    | None => ([], WalkNil, cleanedCount)
    | Some d =>
        if IsDir d then
          (if bool_decide (path = dir) then ([], WalkNil, cleanedCount) else ([], WalkSkipDir, cleanedCount))
        else if negb (bool_decide (is_Some (strip_prefix prefixMatch (Name d)))) then ([], WalkNil, cleanedCount)
        else match ModTime d with
             | None => ([], WalkNil, cleanedCount)
             | Some modTime =>
                 let age := sub_time (now env) modTime in
                 if maxAge <? age then
                   (if remove_ok env path then ([OpRemove path], WalkNil, cleanedCount + 1)
                    else ([], WalkNil, cleanedCount))
                 else ([], WalkNil, cleanedCount)
             end
    end.

(** [func CleanupStaleTempFiles(dir, prefix string, maxAgeHours uint64)
    (int, error)] *)
Definition CleanupStaleTempFiles (dir prefix : str) (maxAgeHours : Z) : list Op * (Z * option TempErr) :=
  match stat env dir with
  | SNotExist => ([], (0, None))
  | _ =>
      let maxAge := maxAgeOf maxAgeHours in
      let prefixMatch := prefix ++ s["_"] in
      let '(ops, err, cleanedCount) := WalkDir (cleanup_fn dir prefixMatch maxAge) dir 0 in
      match err with
      | Some _ => (ops, (cleanedCount, Some ErrReadDir))
      | None => (ops, (cleanedCount, None))
      end
  end.

End OS.

(** ** Lemmas *)

Section CleanupProps.
Context (env : OSEnv) (dir prefixMatch : str) (maxAge : Z).
Let fn := cleanup_fn env dir prefixMatch maxAge.

(** The entries the callback removes: top-level files with the prefix,
    a modification time and an age above the limit. *)
Definition removable (d : DirEntry) : Prop :=
  IsDir d = false /\ is_Some (strip_prefix prefixMatch (Name d)) /\
  exists modTime, ModTime d = Some modTime /\ maxAge < sub_time (now env) modTime.

Definition removes (ds : list DirEntry) (ops : list Op) : Prop :=
  Forall (fun op => exists d, d ∈ ds /\ op = OpRemove (join_path dir (Name d)) /\ removable d) ops.

Lemma cleanup_fn_answers path od err c :
  let '(ops, ans, c') := fn path od err c in
  ans <> WalkError ErrReadDir /\ (forall e, ans <> WalkError e) /\ c' = c + Z.of_nat (length ops).
Proof.
  unfold fn, cleanup_fn. destruct err; [cbn; split_and!; (done || lia)|].
  destruct od as [d|]; [|cbn; split_and!; (done || lia)].
  destruct (IsDir d); [case_bool_decide; cbn; split_and!; (done || lia)|].
  case_bool_decide; [|cbn; split_and!; (done || lia)].
  destruct (ModTime d); [|cbn; split_and!; (done || lia)].
  destruct (_ <? _); [|cbn; split_and!; (done || lia)].
  destruct (remove_ok _ _); cbn; split_and!; (done || lia).
Qed.

Lemma walk_entry_spec d c :
  let '(ops, ans, c') := walk_entry fn dir d c in
  ans <> WalkSkipDir /\ (forall e, ans <> WalkError e) /\ c' = c + Z.of_nat (length ops) /\ removes [d] ops.
Proof.
  unfold walk_entry, fn, cleanup_fn. cbn beta iota.
  destruct (IsDir d) eqn:Ed; [case_bool_decide; cbn; split_and!; (done || lia || constructor)|].
  case_bool_decide as Hp; [|cbn; split_and!; (done || lia || constructor)].
  destruct (ModTime d) as [mt|] eqn:Em; [|cbn; split_and!; (done || lia || constructor)].
  destruct (maxAge <? _) eqn:Ea; [|cbn; split_and!; (done || lia || constructor)].
  destruct (remove_ok _ _); cbn; [|split_and!; (done || lia || constructor)].
  split_and!; [done | done | lia |]. apply Forall_singleton. exists d.
  split; [apply list_elem_of_here|]. split; [done|].
  split_and!; [done | done | exists mt; split; [done | by apply Z.ltb_lt]].
Qed.

Lemma removes_app ds ops1 ops2 : removes ds ops1 -> removes ds ops2 -> removes ds (ops1 ++ ops2).
Proof. apply Forall_app_2. Qed.

Lemma removes_mono ds ds' ops : ds ⊆ ds' -> removes ds ops -> removes ds' ops.
Proof.
  intros Hs H. eapply Forall_impl; [exact H|]. intros op (d & Hd & ?). exists d. split; [by apply Hs | done].
Qed.

Lemma walk_entries_spec ds c :
  let '(ops, ans, c') := walk_entries fn dir ds c in
  ans = WalkNil /\ c' = c + Z.of_nat (length ops) /\ removes ds ops.
Proof.
  revert c. induction ds as [|d ds IH]; intros c; [cbn; split_and!; (done || lia || constructor)|].
  cbn [walk_entries]. pose proof (walk_entry_spec d c) as Hd.
  destruct (walk_entry _ _ _ _) as [[ops ans] c1]. destruct Hd as (Hs & He & Hc & Hr).
  destruct ans as [| |e]; [|done|by destruct (He e)].
  specialize (IH c1). destruct (walk_entries _ _ _ _) as [[ops' ans'] c2].
  destruct IH as (-> & Hc' & Hr'). split_and!; [done | rewrite length_app; lia|].
  apply removes_app; eapply removes_mono; [| exact Hr | | exact Hr']; set_solver.
Qed.

Lemma walk_entries_complete ds c d :
  d ∈ ds -> removable d -> remove_ok env (join_path dir (Name d)) = true ->
  OpRemove (join_path dir (Name d)) ∈ (walk_entries fn dir ds c).1.1.
Proof.
  intros Hd (Hdir & Hp & mt & Hm & Ha) Hr. revert c. induction ds as [|d' ds IH]; intros c;
    [by apply not_elem_of_nil in Hd|].
  cbn [walk_entries]. pose proof (walk_entry_spec d' c) as Hs.
  destruct (walk_entry _ _ _ _) as [[ops ans] c1] eqn:E. destruct Hs as (Hs & He & _ & _).
  destruct ans as [| |e]; [|done|by destruct (He e)].
  apply elem_of_cons in Hd as [->|Hd].
  - destruct (walk_entries fn dir ds c1) as [[ops' ans'] c2]. cbn. apply elem_of_app. left.
    unfold walk_entry, fn, cleanup_fn in E. cbn beta iota in E. rewrite Hdir in E.
    rewrite bool_decide_true in E by done. rewrite Hm, (proj2 (Z.ltb_lt _ _) Ha), Hr in E.
    injection E as <- _. apply list_elem_of_here.
  - pose proof (IH Hd c1) as IH1. destruct (walk_entries fn dir ds c1) as [[ops' ans'] c2].
    cbn in IH1 |- *. apply elem_of_app. by right.
Qed.

(** [WalkDir] with the cleanup callback: never an error, a count of its
    removals, and (for a directory root) removals of removable entries. *)
Lemma WalkDir_cleanup c :
  let '(ops, err, c') := WalkDir env fn dir c in
  err = None /\ c' = c + Z.of_nat (length ops) /\
  (forall rd, lstat env dir = Some rd -> IsDir rd = true -> removes (read_dir env dir).1 ops /\
     forall d, d ∈ (read_dir env dir).1 -> removable d -> remove_ok env (join_path dir (Name d)) = true ->
       OpRemove (join_path dir (Name d)) ∈ ops).
Proof.
  unfold WalkDir. destruct (lstat env dir) as [rd|] eqn:El; [|cbn; split_and!; (done || lia)].
  destruct (IsDir rd) eqn:Ed.
  - assert (H1 : fn dir (Some rd) false c = ([], WalkNil, c)).
    { unfold fn, cleanup_fn. rewrite Ed. by rewrite bool_decide_true. }
    rewrite H1. try rewrite Ed. destruct (read_dir env dir) as [ds rderr].
    assert (H2 : (if rderr then fn dir (Some rd) true c else ([], WalkNil, c)) = ([], WalkNil, c))
      by (destruct rderr; reflexivity).
    rewrite H2. pose proof (walk_entries_spec ds c) as Hw. pose proof (walk_entries_complete ds c) as Hc.
    destruct (walk_entries fn dir ds c) as [[ops ans] c'] eqn:E. destruct Hw as (-> & Hn & Hr).
    cbn in Hc |- *. split_and!; [done | lia |]. intros rd' [= <-] _. split; [done|].
    intros d Hd Hrm Hok. by apply (Hc d).
  - pose proof (cleanup_fn_answers dir (Some rd) false c) as Ha.
    fold fn in Ha. destruct (fn dir (Some rd) false c) as [[ops ans] c'].
    destruct Ha as (_ & He & Hn).
    destruct ans as [| |e]; [| |by destruct (He e)]; cbn; split_and!; try (done || lia);
      intros rd' [= <-]; by rewrite Ed.
Qed.
End CleanupProps.

Lemma maxAgeOf_exact h : 0 <= h <= 2562047 -> maxAgeOf h = h * 3600000000000.
Proof.
  intros Hh. unfold maxAgeOf. rewrite (wrap_i64_id h) by (unfold int64_min, int64_max; lia).
  apply wrap_i64_id. unfold int64_min, int64_max. lia.
Qed.

Lemma maxAgeOf_negative h : 2562048 <= h <= 5124095 -> maxAgeOf h < 0.
Proof.
  intros Hh. unfold maxAgeOf. rewrite (wrap_i64_id h) by (unfold int64_min, int64_max; lia).
  unfold wrap_i64.
  rewrite <- (Z.mod_unique (h * 3600000000000 + 2 ^ 63) (2 ^ 64) 1 (h * 3600000000000 + 2 ^ 63 - 2 ^ 64));
    lia.
Qed.

Lemma CleanupStaleTempFiles_spec env dir prefix h :
  let '(ops, (count, err)) := CleanupStaleTempFiles env dir prefix h in
  err = None /\ count = Z.of_nat (length ops) /\
  (forall rd, stat env dir <> SNotExist -> lstat env dir = Some rd -> IsDir rd = true ->
     removes env dir (prefix ++ s["_"]) (maxAgeOf h) (read_dir env dir).1 ops /\
     forall d, d ∈ (read_dir env dir).1 -> removable env (prefix ++ s["_"]) (maxAgeOf h) d ->
       remove_ok env (join_path dir (Name d)) = true -> OpRemove (join_path dir (Name d)) ∈ ops).
Proof.
  unfold CleanupStaleTempFiles.
  destruct (stat env dir) eqn:Es; [cbn; split_and!; (done || lia) |..].
  all: pose proof (WalkDir_cleanup env dir (prefix ++ s["_"]) (maxAgeOf h) 0) as Hw;
    destruct (WalkDir _ _ _ _) as [[ops err] c]; destruct Hw as (-> & Hc & Hr);
    split_and!; (done || lia || (intros rd _; apply Hr)).
Qed.

(** ** Random names *)

Lemma hex_digit_range d : 0 <= d < 16 ->
  let c := hex_digit d in (48 <= nat_of_ascii c <= 57 \/ 97 <= nat_of_ascii c <= 102)%nat.
Proof.
  intros Hd. unfold hex_digit. cbv zeta.
  destruct (Z.ltb_spec d 10); rewrite nat_ascii_embedding; lia.
Qed.

Lemma length_EncodeToString bs : length (EncodeToString bs) = (2 * length bs)%nat.
Proof. induction bs as [|b bs IH]; cbn; [done|]. rewrite IH. lia. Qed.

(** [generateRandomString n] is [n] lowercase hexadecimal digits when
    [rand.Read] fills its buffer with bytes. *)
Lemma generateRandomString_hex env k n bytes s :
  0 <= n -> rand_bytes env k = Some bytes -> (Z.to_nat ((n + 1) / 2) <= length bytes)%nat ->
  Forall (fun b => 0 <= b < 256) bytes ->
  generateRandomString env k n = Some s ->
  length s = Z.to_nat n /\
  Forall (fun c => (48 <= nat_of_ascii c <= 57 \/ 97 <= nat_of_ascii c <= 102)%nat) s.
Proof.
  intros Hn Hr Hl Hb. unfold generateRandomString. rewrite Hr. intros [= <-].
  set (bs := take (Z.to_nat ((n + 1) / 2)) bytes).
  assert (Hbs : Forall (fun b => 0 <= b < 256) bs) by (apply Forall_take, Hb).
  pose proof (length_EncodeToString bs) as Hlen.
  split.
  - rewrite length_take, Hlen. unfold bs. rewrite length_take.
    assert (Hq : n <= 2 * ((n + 1) / 2))
      by (pose proof (Z.div_mod (n + 1) 2 ltac:(lia)); pose proof (Z.mod_pos_bound (n + 1) 2 ltac:(lia)); lia).
    lia.
  - apply Forall_take. clear Hlen. induction Hbs as [|b bs Hb' _ IH]; cbn; [constructor|].
    apply Forall_cons; split; [apply hex_digit_range; split; [apply Z.div_pos | apply Z.div_lt_upper_bound]; lia|].
    apply Forall_cons; split; [apply hex_digit_range, Z.mod_pos_bound; lia | exact IH].
Qed.

(** ** Properties *)

(** C36: [CleanupStaleTempFiles] never returns an error: its callback
    swallows every error [filepath.WalkDir] passes it, so the walk never
    fails and the "failed to read temp directory for cleanup" return is
    unreachable; an unreadable directory is reported as 0 files cleaned. *)
Theorem CleanupStaleTempFiles_never_fails env dir prefix maxAgeHours :
  (CleanupStaleTempFiles env dir prefix maxAgeHours).2.2 = None.
Proof.
  pose proof (CleanupStaleTempFiles_spec env dir prefix maxAgeHours) as H.
  destruct (CleanupStaleTempFiles _ _ _ _) as [ops [c err]]. by destruct H as [-> _].
Qed.

(** C35: for a directory, [CleanupStaleTempFiles] removes exactly the
    removable entries of its top level: each removal is of a regular
    file directly in the directory whose name starts with [prefix_], with
    a readable modification time and an age above [maxAgeHours] hours;
    every such file whose removal succeeds is removed; and the count
    returned is the number of removals. *)
Theorem CleanupStaleTempFiles_removes env dir prefix maxAgeHours rd :
  stat env dir <> SNotExist -> lstat env dir = Some rd -> IsDir rd = true ->
  let '(ops, (count, _)) := CleanupStaleTempFiles env dir prefix maxAgeHours in
  count = Z.of_nat (length ops) /\
  removes env dir (prefix ++ s["_"]) (maxAgeOf maxAgeHours) (read_dir env dir).1 ops /\
  (forall d, d ∈ (read_dir env dir).1 ->
     removable env (prefix ++ s["_"]) (maxAgeOf maxAgeHours) d ->
     remove_ok env (join_path dir (Name d)) = true -> OpRemove (join_path dir (Name d)) ∈ ops).
Proof.
  intros Hs Hl Hd. pose proof (CleanupStaleTempFiles_spec env dir prefix maxAgeHours) as H.
  destruct (CleanupStaleTempFiles _ _ _ _) as [ops [c err]].
  destruct H as (_ & Hc & Hr). destruct (Hr rd Hs Hl Hd). by split_and!.
Qed.

(** C37: the age limit [time.Duration(maxAgeHours) * time.Hour] is exact
    up to 2562047 hours and overflows [int64] above it: from 2562048
    hours (about 292 years) to 5124095 hours it is negative, and
    [CleanupStaleTempFiles] removes every top-level file with the
    prefix, even one modified at this very moment. *)
Theorem CleanupStaleTempFiles_overflow env dir prefix maxAgeHours rd d modTime :
  2562048 <= maxAgeHours <= 5124095 ->
  stat env dir <> SNotExist -> lstat env dir = Some rd -> IsDir rd = true ->
  d ∈ (read_dir env dir).1 -> IsDir d = false -> is_Some (strip_prefix (prefix ++ s["_"]) (Name d)) ->
  ModTime d = Some modTime -> modTime <= now env ->
  remove_ok env (join_path dir (Name d)) = true ->
  OpRemove (join_path dir (Name d)) ∈ (CleanupStaleTempFiles env dir prefix maxAgeHours).1.
Proof.
  intros Hh Hs Hl Hd Hin Hf Hp Hm Ht Hr.
  pose proof (CleanupStaleTempFiles_spec env dir prefix maxAgeHours) as H.
  destruct (CleanupStaleTempFiles _ _ _ _) as [ops [c err]]. destruct H as (_ & _ & H).
  apply (proj2 (H rd Hs Hl Hd) d Hin); [|done].
  split_and!; [done | done |]. exists modTime. split; [done|].
  pose proof (maxAgeOf_negative maxAgeHours Hh). unfold sub_time, int64_min, int64_max. lia.
Qed.

Lemma CreateTempFilePath_step env fuel n dir prefix ext :
  CreateTempFilePath env (S fuel) n dir prefix ext =
  let '(ops, e) := EnsureDirectoryWritable env dir in
  match e with
  | Some e => (ops, Some (Err (ErrCreateTempFilePath e)))
  | None =>
      match generateRandomString env n 8 with
      | None => (ops, Some (Err ErrRandom))
      | Some randomSuffix =>
          let tempPath := join_path dir (temp_name prefix randomSuffix ext) in
          match stat env tempPath with
          | SFile | SDir =>
              let '(ops', r) := CreateTempFilePath env fuel (S n) dir prefix ext in (ops ++ ops', r)
          | _ => (ops, Some (Ok tempPath))
          end
      end
  end.
Proof. reflexivity. Qed.

(** C38: [CreateTempFilePath] returns as soon as it draws a free name:
    when the directory is writable, the random source answers the draws
    [n] to [n+k] and draw [n+k] names a path that does not exist, [k+1]
    rounds are enough (the first [k] draws may name paths that exist and
    make it retry), and the path it returns does not exist. *)
Theorem CreateTempFilePath_terminates env k n dir prefix ext :
  (EnsureDirectoryWritable env dir).2 = None ->
  (forall i, (i <= k)%nat -> is_Some (generateRandomString env (n + i) 8)) ->
  (forall s, generateRandomString env (n + k) 8 = Some s ->
     stat env (join_path dir (temp_name prefix s ext)) <> SFile /\
     stat env (join_path dir (temp_name prefix s ext)) <> SDir) ->
  exists ops p, CreateTempFilePath env (S k) n dir prefix ext = (ops, Some (Ok p)) /\
    stat env p <> SFile /\ stat env p <> SDir.
Proof.
  intros Hw. revert n. induction k as [|k IH]; intros n Hr Hf.
  all: rewrite CreateTempFilePath_step; destruct (EnsureDirectoryWritable env dir) as [ops e];
    cbn in Hw; subst e.
  all: destruct (Hr 0%nat ltac:(lia)) as [s Hs]; rewrite Nat.add_0_r in Hs; rewrite Hs.
  - rewrite Nat.add_0_r in Hf. destruct (Hf s Hs) as [H1 H2]. cbv zeta.
    destruct (stat env (join_path dir (temp_name prefix s ext))) eqn:E; try done;
      eexists _, _; (split; [reflexivity | by rewrite E]).
  - cbv zeta. destruct (stat env (join_path dir (temp_name prefix s ext))) eqn:E;
      try (eexists _, _; split; [reflexivity | by rewrite E]).
    all: destruct (IH (S n)) as (ops' & p & Hc & Hp);
      [intros i Hi; rewrite Nat.add_succ_comm; apply Hr; lia
      | rewrite Nat.add_succ_comm; exact Hf
      | rewrite Hc; by exists (ops ++ ops'), p].
Qed.

(** ** Concrete calls *)

(** A directory [tmp] holding [reel_00000000.mkv] (modified at time
    1000) and a subdirectory; the clock reads 1000; draw [k] is the bytes
    [k, 0, 0, 0]. *)
Definition tmp : str := s["tmp"].
Definition taken : str := join_path tmp s["reel_00000000.mkv"].
Definition demo_entries : list DirEntry :=
  [mkDirEntry s["reel_00000000.mkv"] false (Some 1000); mkDirEntry s["reel_sub"] true (Some 0)].
Definition demo_os : OSEnv :=
  mkOSEnv (fun p => if bool_decide (p = tmp) then SDir else if bool_decide (p = taken) then SFile else SNotExist)
    (fun _ => true) (fun _ => true) (fun _ => true) (fun _ => None)
    (fun k => Some [Z.of_nat k; 0; 0; 0])
    (fun p => if bool_decide (p = tmp) then Some (mkDirEntry tmp true (Some 0)) else None)
    (fun p => if bool_decide (p = tmp) then (demo_entries, false) else ([], true)) 1000.

Lemma CleanupStaleTempFiles_removes_witness :
  let '(ops, (count, _)) := CleanupStaleTempFiles demo_os tmp s["reel"] 1 in
  count = Z.of_nat (length ops) /\
  removes demo_os tmp (s["reel"] ++ s["_"]) (maxAgeOf 1) (read_dir demo_os tmp).1 ops /\
  (forall d, d ∈ (read_dir demo_os tmp).1 ->
     removable demo_os (s["reel"] ++ s["_"]) (maxAgeOf 1) d ->
     remove_ok demo_os (join_path tmp (Name d)) = true -> OpRemove (join_path tmp (Name d)) ∈ ops).
Proof.
  apply (CleanupStaleTempFiles_removes demo_os tmp s["reel"] 1 (mkDirEntry tmp true (Some 0)));
    [vm_compute; discriminate | vm_compute; reflexivity | reflexivity].
Defined.

Lemma CleanupStaleTempFiles_overflow_witness :
  OpRemove taken ∈ (CleanupStaleTempFiles demo_os tmp s["reel"] 2562048).1.
Proof.
  apply (CleanupStaleTempFiles_overflow demo_os tmp s["reel"] 2562048 (mkDirEntry tmp true (Some 0))
           (mkDirEntry s["reel_00000000.mkv"] false (Some 1000)) 1000);
    first [lia | vm_compute; discriminate | vm_compute; reflexivity | apply list_elem_of_here | by eexists].
Defined.

Lemma CreateTempFilePath_terminates_witness :
  exists ops p, CreateTempFilePath demo_os 2 0 tmp s["reel"] s["mkv"] = (ops, Some (Ok p)) /\
    stat demo_os p <> SFile /\ stat demo_os p <> SDir.
Proof.
  apply (CreateTempFilePath_terminates demo_os 1 0 tmp s["reel"] s["mkv"]).
  - vm_compute. reflexivity.
  - intros i Hi. by eexists.
  - intros s Hs. vm_compute in Hs. injection Hs as <-. split; vm_compute; discriminate.
Defined.

End TempFile.
